(* ===== verification/_CoqProject ===== *)
-Q . S2P
Prelude.v
Runs.v
Errors.v
ErrorTexts.v
Codec.v
Utf8.v
Lexis.v
Row.v
Page.v
Disk.v
FileSpec.v
Pager.v
PagerSpec.v
RestartSpec.v
PageStore.v
PageStoreSpec.v
Guarded.v
BufferPool.v
PoolSpec.v
Bounds.v
Layout.v
Overflow.v
Mutate.v
LayoutSpec.v
LeafSpec.v
InteriorSpec.v
OverflowSpec.v
BTree.v
GuardedReads.v
TreeSpec.v
SplitSpec.v
PathSpec.v
BTreeSpec.v
Examples.v
Termination.v
Database.v
DatabaseSpec.v
CrashSpec.v
Reopening.v
Testing.v
Acceptance.v
LexisTests.v
PinaxTests.v
TreeTests.v
UnitTests.v
RotSpec.v
