(* ===== verification/Prelude.v ===== *)
(** * Verification of the pinax storage engine

    pinax is an embedded row store in Rust: rows with [i64] keys in a copy-on-write
    B+tree, in pages of a checksummed file behind two alternating meta slots. This
    library models the crates [lexis] (types, values and schemas) and [pinax] (the
    engine) as executable definitions and proves what they promise.

    ** The program and its model

    Every function of the source is a definition of the same name. A method that takes
    [&mut self] is a [M S PinaxError A], a function from a state to an outcome and a
    state; an outcome is [Ret] ([Ok]), [Throw] ([Err]), [Panic] (an unwind) or
    [Diverge] (a loop whose fuel has run out). Integers are [Z], with the wrap-around
    or panic of their width written out ([add_u16], [sub_u16], [try_u32]...): the
    class [BuildProfile] says which of the two the build has, and no theorem depends on
    it. Bytes are [list byte], a page a list of [page_size] of them.

    From the bottom of the engine to its top, with the files that model the code and the
    files that prove it right:

    - Prelude: outcomes, the state monad, machine integers, total correctness
      ([returns], [throws]), lists. Runs: total correctness of runs that the disk may stop
      ([runs], [refuses]), with what a stopped run leaves as a parameter.
    - Errors and ErrorTexts: [crates/pinax/src/error.rs], the errors and their texts.
    - Codec: [codec.rs], big-endian accessors over a buffer.
    - Utf8, Lexis: the crate [crates/lexis] (UTF-8 as [std::str] checks it).
    - Row: [row.rs], the encoding of rows.
    - Page: [page.rs], page sizes, constants and checksums.
    - Disk: the part of [std::fs] the pager calls. A file has the bytes a read sees, the
      bytes the last sync made durable, the writes since, and a schedule of failures.
      FileSpec: the places of a file that no write since has touched keep their bytes, in
      any crash.
    - Pager and PagerSpec: [pager.rs]. [pager_inv a p]: the pager [p] went on from the
      anchor [a], the pager as its last commit left it; the active slot and the pages of
      the anchor are untouched in its file, and what a commit that failed since may have put
      in the other slot is known. RestartSpec: what is found when the file is opened after
      a crash.
    - BufferPool and PoolSpec: [buffer_pool.rs], an LRU cache over the pager.
      [pool_inv a s]: the cache is bounded, its recency list names its entries, a clean
      entry is on disk, over a pager that went on from [a].
    - PageStore and PageStoreSpec: the interface between the tree and the pool, the class
      [PageStore] of operations, the class [StoreRun] of what a run keeps and what may stop
      it, and the class [PageStoreLaws] of the laws. PoolSpec proves the laws of the pool, for
      a run that goes on from any anchor; every proof about the tree uses the laws alone.
    - Layout, LayoutSpec, LeafSpec, InteriorSpec: [btree/layout.rs], slotted pages
      ([slotted]), leaves ([leaf_page]) and interior pages ([interior_page]).
    - Overflow and OverflowSpec: [btree/overflow.rs], rows longer than a leaf can hold.
    - Mutate, TreeSpec, PathSpec: [btree/mutate.rs]. [tree ps v d id lo hi kvs]: the
      pages of [v] hold under [id] a tree of depth [d] whose rows are [kvs].
    - BTree, SplitSpec, BTreeSpec: [btree/mod.rs], the operations of the tree.
      [repr C d m s]: the store [s] holds a tree whose rows are the map [m].
    - Database and DatabaseSpec: [database.rs], the facade.
    - CrashSpec: histories of calls, of calls that the disk stops, and of crashes.
      Reopening: what may happen when a file is opened again with writes that are not synced.
    - Guarded: runs on a damaged state against runs on the state as it was, the predicate
      [guarded] and its rules. GuardedReads: the reads of the tree on any store that keeps
      the class of that name.
    - RotSpec: pages that the disk altered.
    - Bounds: places in the file, and the end of the page ids.
    - Testing: the notions the test files share, a test being a computation that returns
      unless an assertion fails. Acceptance: [tests/phase01_acceptance.rs]. LexisTests,
      PinaxTests, TreeTests and UnitTests: the unit tests inside the modules.
    - Examples: theorems about the tree applied to small trees. Termination: loops that
      end on any input.

    ** What is proved

    The theorems about writes are for rows of one row class (see Bounds and fuel).

    - DatabaseSpec: a database, driven by any sequence of calls on rows of a class,
      reopenings included, answers what a finite map answers ([database_refines_map]), and
      its file has every page that was handed out ([file_is_whole]). A run with rows of no
      class, in which a row is lost ([split_loses_row]).
    - CrashSpec: the same on a disk that fails at any call, with the program going on with
      the open database after a call that failed, and with the process dying at any point
      and the file found with any part of its unsynced writes, torn ones included
      (reopening without a crash is for a database with nothing left to write;
      [failures_refine_map], [failing_call_is_atomic], [recovery_serves]): a call that was
      answered is not lost, one that was not changes nothing of the open database, and
      after a crash happened as a whole or not at all.
    - BTreeSpec: the same for each operation of the tree on any lawful store, on a disk that
      may stop it, with the pages and commits it takes, and copy on write: no tree that was
      in the store is changed by a write.
    - PoolSpec: pages that were put are found again; the cache is an LRU cache; a commit
      leaves nothing in memory only.
    - SplitSpec: a leaf is split rightly exactly when both halves of its cells, by number,
      fit a page ([leaf_split_exact]), which they do for the rows of a class.
    - PagerSpec: a commit, a creation and an opening fit together; what an opening does
      with any file whose reads do not fail; a commit that is refused by its last sync is
      found published by an opening of the file ([refused_commit_published]).
    - LayoutSpec, LeafSpec, InteriorSpec, PathSpec: inserting, removing, searching and
      routing in pages. OverflowSpec, Row, Codec, Page: round trips, bounds and errors.
    - Lexis: what the validating constructors and checks accept.
    - RotSpec: a read of altered pages answers what was stored or reports them
      ([altered_pages_are_detected]), as long as no altered page verifies: none carries the
      checksum of what it holds, as an older page put back in its place would ([no_forgery]).
    - Bounds: page offsets fit [u64] and pages do not overlap; there is no guard at the
      last page id ([page_ids_run_out]).
    - Acceptance: the acceptance tests pass for any hash function, any order of iteration and
      either build ([acceptance_tests_pass]); the test of corruption, for a hash that sees the
      flipped byte in the page of the test ([test_flip_is_seen]).
    - UnitTests: the unit tests pass on the inputs they run, those below the tree evaluated
      with the sum of the bytes for a hash ([unit_tests_pass]).
    - ErrorTexts: the text of an error tells which error it is ([error_texts_tell]).
    - Termination: binary search, chain reading and the pool end on corrupt pages and
      failing disks.

    ** Failures and crashes

    Every call on the file consumes an entry of its schedule of failures; a failing write
    may have written a prefix. A process that dies in a call leaves the file as a failure
    at that point does. What a restart finds is a relation ([crash] in Disk): at each byte
    the durable one, one that a pending write put there, or, past the durable end, nothing
    or a zero. The one assumption ([honest] in RestartSpec) is that a torn meta slot does
    not carry the checksum of what it was torn from: a slot that verifies is one that some
    commit was to write there ([asked], which Disk keeps for this and no code reads).

    A call that is stopped may leave pages beyond those of the last commit, dirty entries
    in the pool, and a slot that is half written or written and not known to be synced. The
    open database stands for the map it stood for: its pager still has the fields of the
    last commit, and no page of that commit is written again. The next commit writes the
    same slot. A crash before it may find that slot: then the database is that of the
    call that was stopped. So a history keeps the maps that a crash may find beside its own
    ([map_step]): those of the calls stopped since the last commit that was answered.

    ** Bounds and fuel

    Page ids are [u32] and never reused, transaction ids [u64]: the theorems about
    operations ask that the pages they may add ([write_pages], [delete_pages]) and the
    commits fit. The loops that descend the tree take fuel: a tree of depth [d] needs
    more than [d], and an operation makes a tree at most one level deeper, so the number
    of calls is fuel enough for a sequence of calls. The fuel of every other loop is
    computed where the loop is called, from a bound that is proved enough.

    A leaf is split by the number of its cells, not their sizes, so a half may not fit its
    page ([leaf_split_exact]; a run that loses a row so is [split_loses_row]). The theorems about writes are therefore about classes of
    rows ([row_class]) whose halves do fit: [small_rows], of up to 238 encoded bytes on
    the smallest page, and [spilling_rows], of at least [max_local], are two.

    ** What is not modelled

    The hash function [xxh3_64] is a parameter (class [Xxh3]), as is the order in which a
    hash set is iterated ([HashOrder]). Writes to a file whose pages the disk altered by
    itself are outside the theorems. So is closing a database after a call that failed and
    opening it again in the same system, with writes that are not synced yet and may be lost
    later: in the histories, reopening without a crash is for a database with nothing left to
    write. The code does lose rows otherwise ([reopening_unsynced_loses_rows] in Reopening).
    How [std] formats a float, a path and an I/O error is a parameter (class [StdFormat]).
    The backtrace locations of errors and the scaffold crates [hypomnema] and [phylaxis]
    (documentation only) are left out. *)

From Stdlib Require Export ZArith Lia.
From stdpp Require Export base option list list_numbers numbers gmap strings.

#[export] Set Default Goal Selector "!".
#[global] Open Scope Z_scope.

(** ** Outcomes of fallible code *)

(** The reasons for which Rust code unwinds. *)
Inductive panic :=
  | ArithmeticOverflow
  | UnreachableCode.

(** [Ret] and [Throw] are [Ok] and [Err]; [Panic] is an unwind; [Diverge] is
    the value of a loop whose fuel has run out. *)
Inductive outcome (E A : Type) :=
  | Ret (a : A)
  | Throw (e : E)
  | Panic (p : panic)
  | Diverge.
Arguments Ret {E A} a.
Arguments Throw {E A} e.
Arguments Panic {E A} p.
Arguments Diverge {E A}.

#[export] Instance outcome_ret E : MRet (outcome E) := fun A a => Ret a.
#[export] Instance outcome_bind E : MBind (outcome E) := fun A B f m =>
  match m with
  | Ret a => f a
  | Throw e => Throw e
  | Panic p => Panic p
  | Diverge => Diverge
  end.

(** [.ok()] *)
Definition ok {E A} (m : outcome E A) : option A :=
  match m with Ret a => Some a | _ => None end.

Definition is_ret {E A} (m : outcome E A) : bool :=
  match m with Ret _ => true | _ => false end.

(** [.context(e)] on an option *)
Definition context {E A} (o : option A) (e : E) : outcome E A :=
  match o with Some a => Ret a | None => Throw e end.

(** [.map_err(f)] *)
Definition map_err {E E' A} (f : E -> E') (m : outcome E A) : outcome E' A :=
  match m with
  | Ret a => Ret a
  | Throw e => Throw (f e)
  | Panic p => Panic p
  | Diverge => Diverge
  end.

(** [ensure!(b, e)] *)
Definition ensure {E} (b : bool) (e : E) : outcome E unit :=
  if b then Ret tt else Throw e.

(** ** Stateful computations: methods taking [&mut self]

    An [Err] keeps the state changes made before it, as a Rust method does. *)
Definition M (S E A : Type) := S -> outcome E A * S.

#[export] Instance M_ret S E : MRet (M S E) := fun A a s => (Ret a, s).
#[export] Instance M_bind S E : MBind (M S E) := fun A B f m s =>
  match m s with
  | (Ret a, s') => f a s'
  | (Throw e, s') => (Throw e, s')
  | (Panic p, s') => (Panic p, s')
  | (Diverge, s') => (Diverge, s')
  end.

Definition lift {S E A} (o : outcome E A) : M S E A := fun s => (o, s).
(** [self], read. *)
Definition get_self {S E} : M S E S := fun s => (Ret s, s).
Definition gets {S E A} (f : S -> A) : M S E A := fun s => (Ret (f s), s).
Definition modify {S E} (f : S -> S) : M S E unit := fun s => (Ret tt, f s).

(** Run a method of a field of the state. *)
Definition zoom {S T E A} (get : S -> T) (set : T -> S -> S) (m : M T E A) : M S E A :=
  fun s => let '(o, t) := m (get s) in (o, set t s).

(** [for x in xs { f(x)?; }] *)
Fixpoint for_each {S E A} (xs : list A) (f : A -> M S E unit) : M S E unit :=
  match xs with
  | [] => mret tt
  | x :: xs => f x ;; for_each xs f
  end.

(** [for x in xs { acc = f(acc, x)?; }] over a pure body. *)
Fixpoint foldM {E A B} (f : B -> A -> outcome E B) (acc : B) (xs : list A) : outcome E B :=
  match xs with
  | [] => Ret acc
  | x :: xs => b ← f acc x; foldM f b xs
  end.

(** [for x in xs { out.push(f(x)?) }] *)
Fixpoint traverse {E A B} (f : A -> outcome E B) (xs : list A) : outcome E (list B) :=
  match xs with
  | [] => Ret []
  | x :: xs => y ← f x; ys ← traverse f xs; Ret (y :: ys)
  end.

Section monad_lemmas.
Context {S E : Type}.

Lemma bind_ret {A B} (m : M S E A) (f : A -> M S E B) s a s' :
  m s = (Ret a, s') -> (m ≫= f) s = f a s'.
Proof. unfold mbind, M_bind. by intros ->. Qed.

Lemma bind_throw {A B} (m : M S E A) (f : A -> M S E B) s e s' :
  m s = (Throw e, s') -> (m ≫= f) s = (Throw e, s').
Proof. unfold mbind, M_bind. by intros ->. Qed.

Lemma bind_panic {A B} (m : M S E A) (f : A -> M S E B) s p s' :
  m s = (Panic p, s') -> (m ≫= f) s = (Panic p, s').
Proof. unfold mbind, M_bind. by intros ->. Qed.

Lemma bind_lift_ret {A B} (o : outcome E A) (f : A -> M S E B) s a :
  o = Ret a -> (lift o ≫= f) s = f a s.
Proof. by intros ->. Qed.

Lemma lift_ret_inv {A} (o : outcome E A) (s : S) a s' : lift o s = (Ret a, s') -> o = Ret a /\ s' = s.
Proof. unfold lift. intros Heq. by inversion Heq. Qed.

Lemma bind_ret_inv {A B} (m : M S E A) (f : A -> M S E B) s b s'' :
  (m ≫= f) s = (Ret b, s'') -> exists a s', m s = (Ret a, s') /\ f a s' = (Ret b, s'').
Proof.
  unfold mbind, M_bind. destruct (m s) as [[]]; intros; try done. eauto.
Qed.

Lemma for_each_app {A} (xs ys : list A) (f : A -> M S E unit) s :
  for_each (xs ++ ys) f s = (for_each xs f ;; for_each ys f) s.
Proof.
  revert s. induction xs as [|x xs IH]; intros s; [done|].
  cbn [for_each app]. unfold mbind at 1 2 3, M_bind.
  destruct (f x s) as [[] s']; solve [done | by rewrite IH].
Qed.

Lemma outcome_bind_ret {A B} (m : outcome E A) (f : A -> outcome E B) b :
  m ≫= f = Ret b <-> exists a, m = Ret a /\ f a = Ret b.
Proof. destruct m; simpl; naive_solver. Qed.

Lemma outcome_bind_Ret {A B} (m : outcome E A) (f : A -> outcome E B) a :
  m = Ret a -> m ≫= f = f a.
Proof. by intros ->. Qed.

Lemma traverse_ret {A B} (f : A -> outcome E B) xs ys :
  traverse f xs = Ret ys <-> Forall2 (fun x y => f x = Ret y) xs ys.
Proof.
  revert ys. induction xs as [|x xs IH]; intros ys; simpl.
  - split; [intros [= <-]; constructor | by inversion 1].
  - rewrite outcome_bind_ret. setoid_rewrite outcome_bind_ret. split.
    + intros (y & Hy & ys' & Hys & [= <-]). constructor; [done|by apply IH].
    + inversion 1; subst. eexists; split; [done|]. eexists; split; [by apply IH|done].
Qed.

Lemma foldM_fmap {A A' B} (f : B -> A' -> outcome E B) (h : A -> A') acc xs :
  foldM f acc (h <$> xs) = foldM (fun b x => f b (h x)) acc xs.
Proof.
  revert acc. induction xs as [|x xs IH]; intros acc; [done|]. rewrite fmap_cons. simpl.
  destruct (f acc (h x)); simpl; auto.
Qed.

Lemma foldM_ext {A B} (f g : B -> A -> outcome E B) acc xs :
  (forall b x, x ∈ xs -> f b x = g b x) -> foldM f acc xs = foldM g acc xs.
Proof.
  revert acc. induction xs as [|x xs IH]; intros acc Hfg; [done|]. simpl.
  rewrite Hfg by set_solver. destruct (g acc x); simpl; [|done..].
  apply IH. set_solver.
Qed.

Lemma foldM_app {A B} (f : B -> A -> outcome E B) acc xs ys :
  foldM f acc (xs ++ ys) = (b ← foldM f acc xs; foldM f b ys).
Proof.
  revert acc. induction xs as [|x xs IH]; intros acc; simpl; [done|].
  destruct (f acc x); simpl; auto.
Qed.
End monad_lemmas.

(** ** Total correctness of stateful code

    [returns m s Q]: run from [s], [m] returns a value and a state that satisfy
    [Q]. [throws m s e Q]: it returns the error [e] in a state that satisfies [Q]. *)
Definition returns {S E A} (m : M S E A) (s : S) (Q : A -> S -> Prop) : Prop :=
  exists a s', m s = (Ret a, s') /\ Q a s'.

Definition throws {S E A} (m : M S E A) (s : S) (e : E) (Q : S -> Prop) : Prop :=
  exists s', m s = (Throw e, s') /\ Q s'.

Section returns.
Context {S E : Type}.

Lemma returns_ret {A} (a : A) (s : S) Q : Q a s -> returns (mret a : M S E A) s Q.
Proof. intros. by exists a, s. Qed.

Lemma returns_lift {A} (o : outcome E A) a (s : S) Q : o = Ret a -> Q a s -> returns (lift o) s Q.
Proof. intros ->. by exists a, s. Qed.

Lemma returns_get_self (s : S) Q : Q s s -> returns (get_self : M S E S) s Q.
Proof. intros. by exists s, s. Qed.

Lemma returns_gets {A} (f : S -> A) (s : S) Q : Q (f s) s -> returns (gets f : M S E A) s Q.
Proof. intros. by exists (f s), s. Qed.

Lemma returns_modify (f : S -> S) (s : S) Q : Q tt (f s) -> returns (modify f : M S E unit) s Q.
Proof. intros. by exists tt, (f s). Qed.

Lemma returns_mono {A} (m : M S E A) s (P Q : A -> S -> Prop) :
  returns m s P -> (forall a s', P a s' -> Q a s') -> returns m s Q.
Proof. intros (a & s' & ? & ?) HPQ. exists a, s'. auto. Qed.

Lemma returns_bind {A B} (m : M S E A) (f : A -> M S E B) s P Q :
  returns m s P -> (forall a s', P a s' -> returns (f a) s' Q) -> returns (m ≫= f) s Q.
Proof.
  intros (a & s' & Hm & HP) Hf. destruct (Hf a s' HP) as (b & s'' & Hb & HQ).
  exists b, s''. by rewrite (bind_ret _ _ _ _ _ Hm).
Qed.

(** The common case of a pure step. *)
Lemma returns_bind_lift {A B} (o : outcome E A) (f : A -> M S E B) s a Q :
  o = Ret a -> returns (f a) s Q -> returns (lift o ≫= f) s Q.
Proof. by intros ->. Qed.

Lemma returns_bind_self {B} (f : S -> M S E B) s Q :
  returns (f s) s Q -> returns (get_self ≫= f) s Q.
Proof. done. Qed.

(** Running [m] comes to running [m'] from another state. *)
Lemma returns_run {A} (m m' : M S E A) s s' Q : m s = m' s' -> returns m' s' Q -> returns m s Q.
Proof. unfold returns. by intros ->. Qed.

Lemma throws_run {A} (m m' : M S E A) s s' e Q : m s = m' s' -> throws m' s' e Q -> throws m s e Q.
Proof. unfold throws. by intros ->. Qed.

Lemma throws_lift {A} (o : outcome E A) e (s : S) (Q : S -> Prop) :
  o = Throw e -> Q s -> throws (lift o) s e Q.
Proof. intros ->. by exists s. Qed.

Lemma throws_bind_first {A B} (m : M S E A) (f : A -> M S E B) s e Q :
  throws m s e Q -> throws (m ≫= f) s e Q.
Proof. intros (s' & Hm & ?). exists s'. by rewrite (bind_throw _ _ _ _ _ Hm). Qed.

Lemma throws_bind {A B} (m : M S E A) (f : A -> M S E B) s e P Q :
  returns m s P -> (forall a s', P a s' -> throws (f a) s' e Q) -> throws (m ≫= f) s e Q.
Proof.
  intros (a & s' & Hm & HP) Hf. destruct (Hf a s' HP) as (s'' & Hb & HQ).
  exists s''. by rewrite (bind_ret _ _ _ _ _ Hm).
Qed.

Lemma throws_bind_lift {A B} (o : outcome E A) (f : A -> M S E B) s a e Q :
  o = Ret a -> throws (f a) s e Q -> throws (lift o ≫= f) s e Q.
Proof. by intros ->. Qed.

Lemma throws_bind_self {B} (f : S -> M S E B) s e Q :
  throws (f s) s e Q -> throws (get_self ≫= f) s e Q.
Proof. done. Qed.
End returns.

(** ** Machine integers

    Unsigned machine integers are [Z]s in range. An operation that can leave
    the range panics when the build has overflow checks (the dev profile) and
    wraps when it has none (the release profile). *)
Class BuildProfile := { overflow_checks : bool }.

Definition u8_max := 255.
Definition u16_max := 65535.
Definition u32_max := 4294967295.
Definition u64_max := 18446744073709551615.
Definition i64_min := -9223372036854775808.
Definition i64_max := 9223372036854775807.
(** 64-bit targets. *)
Definition usize_max := u64_max.

Definition in_i64 (z : Z) : Prop := i64_min <= z <= i64_max.

(** [uN::try_from(z).ok()] *)
Definition try_u16 (z : Z) : option Z := if (0 <=? z) && (z <=? u16_max) then Some z else None.
Definition try_u32 (z : Z) : option Z := if (0 <=? z) && (z <=? u32_max) then Some z else None.
Definition try_usize (z : Z) : option Z := if (0 <=? z) && (z <=? usize_max) then Some z else None.

(** [saturating_sub] on unsigned integers *)
Definition saturating_sub (a b : Z) : Z := Z.max 0 (a - b).

Section checked_arithmetic.
Context `{BuildProfile} {E : Type}.

Definition wrap_or_panic (max z : Z) : outcome E Z :=
  if (0 <=? z) && (z <=? max) then Ret z
  else if overflow_checks then Panic ArithmeticOverflow
  else Ret (z mod (max + 1)).

Definition add_u16 (a b : Z) := wrap_or_panic u16_max (a + b).
Definition sub_u16 (a b : Z) := wrap_or_panic u16_max (a - b).
Definition mul_u16 (a b : Z) := wrap_or_panic u16_max (a * b).
Definition add_u32 (a b : Z) := wrap_or_panic u32_max (a + b).
Definition add_u64 (a b : Z) := wrap_or_panic u64_max (a + b).

Lemma wrap_or_panic_ret max z : 0 <= z <= max -> wrap_or_panic max z = Ret z.
Proof.
  intros. unfold wrap_or_panic.
  by rewrite (proj2 (Z.leb_le 0 z)), (proj2 (Z.leb_le z max)) by lia.
Qed.
End checked_arithmetic.

Lemma try_u16_Some z : 0 <= z <= u16_max -> try_u16 z = Some z.
Proof. intros. unfold try_u16. case_match; [done|]. lia. Qed.
Lemma try_u32_Some z : 0 <= z <= u32_max -> try_u32 z = Some z.
Proof. intros. unfold try_u32. case_match; [done|]. lia. Qed.
Lemma try_usize_Some z : 0 <= z <= usize_max -> try_usize z = Some z.
Proof. intros. unfold try_usize. case_match; [done|]. lia. Qed.

(** ** Buffers

    [slice l at n] is [l.get(at..at + n)]; [splice l at x] overwrites
    [l.get_mut(at..at + x.len())] with [x]. Both are [None] out of range. *)
Definition len {A} (l : list A) : Z := Z.of_nat (length l).

Definition slice {A} (l : list A) (at_ n : Z) : option (list A) :=
  if (0 <=? at_) && (0 <=? n) && (at_ + n <=? len l)
  then Some (take (Z.to_nat n) (drop (Z.to_nat at_) l))
  else None.

Definition splice {A} (l : list A) (at_ : Z) (x : list A) : option (list A) :=
  if (0 <=? at_) && (at_ + len x <=? len l)
  then Some (take (Z.to_nat at_) l ++ x ++ drop (Z.to_nat (at_ + len x)) l)
  else None.

(** Lengths of buffers, as rewriting rules. *)
Create Rewrite HintDb len.

Section slices.
Context {A : Type}.
Implicit Types (l x y : list A).

Lemma len_nonneg l : 0 <= len l.
Proof. unfold len. lia. Qed.

Lemma len_nil : len (@nil A) = 0.
Proof. done. Qed.

Lemma len_cons a l : len (a :: l) = 1 + len l.
Proof. unfold len. simpl. lia. Qed.

Lemma len_app l x : len (l ++ x) = len l + len x.
Proof. unfold len. rewrite length_app. lia. Qed.

Lemma len_replicate n (a : A) : len (replicate n a) = Z.of_nat n.
Proof. unfold len. by rewrite length_replicate. Qed.

Lemma len_take n l : len (take n l) = Z.min (Z.of_nat n) (len l).
Proof. unfold len. rewrite length_take. lia. Qed.

Lemma len_drop n l : len (drop n l) = Z.max 0 (len l - Z.of_nat n).
Proof. unfold len. rewrite length_drop. lia. Qed.

Lemma slice_spec l at_ n x :
  slice l at_ n = Some x <->
  0 <= at_ /\ 0 <= n /\ at_ + n <= len l /\ len x = n /\
  (forall i, (i < Z.to_nat n)%nat -> x !! i = l !! (Z.to_nat at_ + i)%nat).
Proof.
  unfold slice, len. split.
  - case_match eqn:E; [|done]. intros [= <-].
    split_and!; try lia.
    + rewrite length_take, length_drop. lia.
    + intros i Hi. by rewrite lookup_take_lt, lookup_drop by lia.
  - intros (? & ? & ? & ? & Hx). case_match eqn:E; [|lia]. f_equal.
    apply list_eq. intros i. destruct (decide (i < Z.to_nat n)%nat).
    + rewrite lookup_take_lt, lookup_drop by lia. by rewrite Hx.
    + rewrite lookup_take_ge by lia. symmetry. apply lookup_ge_None. lia.
Qed.

Lemma slice_Some l at_ n :
  0 <= at_ -> 0 <= n -> at_ + n <= len l -> exists x, slice l at_ n = Some x.
Proof. intros. unfold slice. case_match eqn:E; [eauto|lia]. Qed.

Lemma slice_len l at_ n x : slice l at_ n = Some x -> len x = n.
Proof. intros H%slice_spec. naive_solver. Qed.

Lemma slice_bounds l at_ n x :
  slice l at_ n = Some x -> 0 <= at_ /\ 0 <= n /\ at_ + n <= len l.
Proof. intros H%slice_spec. naive_solver. Qed.

Lemma slice_full l : slice l 0 (len l) = Some l.
Proof. apply slice_spec. split_and!; unfold len; try lia. done. Qed.

Lemma splice_spec l at_ x l' :
  splice l at_ x = Some l' <->
  0 <= at_ /\ at_ + len x <= len l /\ len l' = len l /\
  (forall i, l' !! i = if decide (Z.to_nat at_ <= i < Z.to_nat at_ + length x)%nat
                     then x !! (i - Z.to_nat at_)%nat else l !! i).
Proof.
  assert (Hlk : 0 <= at_ -> at_ + len x <= len l -> forall i,
    (take (Z.to_nat at_) l ++ x ++ drop (Z.to_nat (at_ + len x)) l) !! i =
    if decide (Z.to_nat at_ <= i < Z.to_nat at_ + length x)%nat
    then x !! (i - Z.to_nat at_)%nat else l !! i).
  { unfold len. intros ?? i. case_decide.
    - rewrite lookup_app_r by (rewrite length_take; lia).
      rewrite length_take. rewrite lookup_app_l by lia. f_equal. lia.
    - destruct (decide (i < Z.to_nat at_)%nat).
      + rewrite lookup_app_l by (rewrite length_take; lia).
        by rewrite lookup_take_lt by lia.
      + rewrite lookup_app_r by (rewrite length_take; lia).
        rewrite length_take, lookup_app_r by lia.
        rewrite lookup_drop. f_equal. lia. }
  unfold splice. split.
  - case_match eqn:E; [|done]. intros [= <-].
    split_and!; try (unfold len in *; lia).
    + unfold len in *. rewrite !length_app, length_take, length_drop. lia.
    + apply Hlk; unfold len in *; lia.
  - intros (? & ? & ? & Hx). case_match eqn:E; [|lia]. f_equal.
    apply list_eq. intros i. by rewrite Hx, Hlk.
Qed.

Lemma splice_Some l at_ x :
  0 <= at_ -> at_ + len x <= len l -> exists l', splice l at_ x = Some l'.
Proof. intros. unfold splice. case_match eqn:E; [eauto|lia]. Qed.

Lemma splice_len l at_ x l' : splice l at_ x = Some l' -> len l' = len l.
Proof. intros H%splice_spec. naive_solver. Qed.

Lemma slice_splice_same l at_ x l' :
  splice l at_ x = Some l' -> slice l' at_ (len x) = Some x.
Proof.
  intros (? & ? & ? & Hl)%splice_spec. apply slice_spec.
  split_and!; try (unfold len in *; lia).
  intros i Hi. rewrite Hl. unfold len in *. rewrite decide_True by lia. f_equal. lia.
Qed.

Lemma slice_splice_other l at_ x l' at' n :
  splice l at_ x = Some l' -> (at' + n <= at_ \/ at_ + len x <= at') ->
  slice l' at' n = slice l at' n.
Proof.
  intros (? & ? & Hlen & Hl)%splice_spec Hdis.
  destruct (slice l at' n) as [y|] eqn:Hy.
  - apply slice_spec in Hy as (? & ? & ? & ? & Hy). apply slice_spec.
    split_and!; try lia. intros i Hi. rewrite Hl, decide_False; [by apply Hy|].
    unfold len in *. lia.
  - unfold slice in *. by rewrite Hlen; case_match.
Qed.

Lemma slice_slice l at_ n x at' n' :
  slice l at_ n = Some x -> 0 <= at' -> 0 <= n' -> at' + n' <= n ->
  slice x at' n' = slice l (at_ + at') n'.
Proof.
  intros (? & ? & ? & Hn & Hx)%slice_spec ???.
  destruct (slice_Some x at' n') as [y Hy]; [lia..|]. rewrite Hy. symmetry.
  apply slice_spec in Hy as (_ & _ & _ & Hy' & Hy). apply slice_spec.
  split_and!; try lia. intros i Hi. rewrite Hy, Hx by lia. f_equal. lia.
Qed.

Lemma slice_ext l l' at_ n m :
  take m l = take m l' -> len l = len l' -> at_ + n <= Z.of_nat m ->
  slice l at_ n = slice l' at_ n.
Proof.
  intros Ht Hlen Hm. unfold slice. rewrite Hlen. case_match eqn:E; [|done].
  f_equal. apply list_eq. intros i. destruct (decide (i < Z.to_nat n)%nat).
  - rewrite !lookup_take_lt, !lookup_drop by lia.
    rewrite <-(lookup_take_lt l m), <-(lookup_take_lt l' m) by lia. by rewrite Ht.
  - by rewrite !lookup_take_ge by lia.
Qed.

Lemma slice_app_l l x at_ n :
  at_ + n <= len l -> slice (l ++ x) at_ n = slice l at_ n.
Proof.
  intros. unfold slice. rewrite len_app. pose proof (len_nonneg x).
  destruct ((0 <=? at_) && (0 <=? n)) eqn:E; [|done].
  rewrite !(proj2 (Z.leb_le _ _)) by lia. simpl. f_equal.
  rewrite drop_app_le by (unfold len in *; lia).
  by rewrite take_app_le by (rewrite length_drop; unfold len in *; lia).
Qed.

Lemma slice_app_r l x at_ n :
  len l <= at_ -> slice (l ++ x) at_ n = slice x (at_ - len l) n.
Proof.
  intros. unfold slice. rewrite len_app. pose proof (len_nonneg l).
  replace (0 <=? at_) with true by lia. replace (0 <=? at_ - len l) with true by lia.
  replace (at_ - len l + n <=? len x) with (at_ + n <=? len l + len x) by lia.
  destruct (_ && _); [|done]. f_equal. f_equal.
  rewrite drop_app_ge by (unfold len in *; lia). f_equal. unfold len in *. lia.
Qed.

Lemma slice_mid l x y at_ n :
  at_ = len l -> n = len x -> slice (l ++ x ++ y) at_ n = Some x.
Proof.
  intros -> ->. rewrite slice_app_r by done. rewrite Z.sub_diag.
  rewrite slice_app_l by lia. apply slice_full.
Qed.

Lemma slice_zero l at_ : 0 <= at_ <= len l -> slice l at_ 0 = Some [].
Proof.
  intros. unfold slice. case_match eqn:E; [|lia]. by rewrite take_0.
Qed.
End slices.

(** ** Insertion in a list *)

(** [Vec::insert] at an index within the list *)
Definition vec_insert {A} (i : nat) (x : A) (l : list A) : list A := take i l ++ x :: drop i l.

Section vec_insert.
Context {A : Type}.
Implicit Types (l : list A).

Lemma length_vec_insert i x l : length (vec_insert i x l) = S (length l).
Proof. unfold vec_insert. rewrite length_app. simpl. rewrite length_take, length_drop. lia. Qed.

Lemma len_vec_insert i x l : len (vec_insert i x l) = len l + 1.
Proof. unfold len. rewrite length_vec_insert. lia. Qed.

Lemma lookup_vec_insert_lt i j x l :
  (i <= length l)%nat -> (j < i)%nat -> vec_insert i x l !! j = l !! j.
Proof.
  intros. unfold vec_insert. rewrite lookup_app_l by (rewrite length_take; lia).
  by apply lookup_take_lt.
Qed.

Lemma lookup_vec_insert_eq i x l : (i <= length l)%nat -> vec_insert i x l !! i = Some x.
Proof.
  intros. unfold vec_insert. rewrite lookup_app_r by (rewrite length_take; lia).
  rewrite length_take. by replace (i - i `min` length l)%nat with O by lia.
Qed.

Lemma lookup_vec_insert_gt i j x l :
  (i <= length l)%nat -> (i <= j)%nat -> vec_insert i x l !! S j = l !! j.
Proof.
  intros. unfold vec_insert. rewrite lookup_app_r by (rewrite length_take; lia).
  rewrite length_take. replace (S j - i `min` length l)%nat with (S (j - i)) by lia.
  simpl. rewrite lookup_drop. f_equal. lia.
Qed.

Lemma vec_insert_fmap {B} (f : A -> B) i x l :
  f <$> vec_insert i x l = vec_insert i (f x) (f <$> l).
Proof. unfold vec_insert. by rewrite fmap_app, fmap_cons, fmap_take, fmap_drop. Qed.

(** A position of the longer list is the new one or comes from the old list. *)
Lemma lookup_vec_insert_Some i j x l y :
  (i <= length l)%nat -> vec_insert i x l !! j = Some y ->
  (j = i /\ y = x) \/ (exists j', l !! j' = Some y /\ j = (if decide (j' < i)%nat then j' else S j')).
Proof.
  intros Hi Hj. destruct (decide (j < i)%nat).
  { right. exists j. rewrite decide_True by done. by rewrite lookup_vec_insert_lt in Hj. }
  destruct (decide (j = i)) as [->|].
  { left. rewrite lookup_vec_insert_eq in Hj by done. by simplify_eq. }
  right. exists (pred j). destruct j as [|j]; [lia|]. simpl.
  rewrite lookup_vec_insert_gt in Hj by lia. rewrite decide_False by lia. done.
Qed.
End vec_insert.
