(* ===== verification/Runs.v ===== *)
(** * Runs that the disk may stop

    [runs J m s Q]: run from [s], [m] returns a value and a state that satisfy [Q], or it
    is stopped with an error and in a state that satisfy [J]. It neither unwinds nor
    diverges. [refuses J m s e Q]: it returns the error [e] in a state that satisfies [Q],
    or it is stopped. With [J] false, nothing stops it. *)

From S2P Require Import Prelude.

Definition runs {S E A} (J : E -> S -> Prop) (m : M S E A) (s : S) (Q : A -> S -> Prop) : Prop :=
  match m s with
  | (Ret a, s') => Q a s'
  | (Throw e, s') => J e s'
  | _ => False
  end.

Definition refuses {S E A} (J : E -> S -> Prop) (m : M S E A) (s : S) (e : E) (Q : S -> Prop) : Prop :=
  match m s with
  | (Throw e', s') => (e' = e /\ Q s') \/ J e' s'
  | _ => False
  end.

Section runs.
Context {S E : Type} {J : E -> S -> Prop}.

Lemma runs_ret {A} (a : A) (s : S) (Q : A -> S -> Prop) : Q a s -> runs J (mret a) s Q.
Proof. done. Qed.

Lemma runs_lift {A} (o : outcome E A) a (s : S) (Q : A -> S -> Prop) : o = Ret a -> Q a s -> runs J (lift o) s Q.
Proof. by intros ->. Qed.

Lemma runs_modify (f : S -> S) (s : S) (Q : unit -> S -> Prop) : Q tt (f s) -> runs J (modify f) s Q.
Proof. done. Qed.

Lemma runs_mono {A} (m : M S E A) s (P Q : A -> S -> Prop) :
  runs J m s P -> (forall a s', P a s' -> Q a s') -> runs J m s Q.
Proof. unfold runs. destruct (m s) as [[] s']; auto. Qed.

Lemma runs_bind {A B} (m : M S E A) (f : A -> M S E B) s (P : A -> S -> Prop) (Q : B -> S -> Prop) :
  runs J m s P -> (forall a s', P a s' -> runs J (f a) s' Q) -> runs J (m ≫= f) s Q.
Proof. unfold runs, mbind, M_bind. intros Hm Hf. by destruct (m s) as [[] s']; [apply Hf|..]. Qed.

Lemma runs_bind_lift {A B} (o : outcome E A) (f : A -> M S E B) s a (Q : B -> S -> Prop) :
  o = Ret a -> runs J (f a) s Q -> runs J (lift o ≫= f) s Q.
Proof. by intros ->. Qed.

Lemma runs_bind_self {B} (f : S -> M S E B) s (Q : B -> S -> Prop) :
  runs J (f s) s Q -> runs J (get_self ≫= f) s Q.
Proof. done. Qed.

Lemma runs_bind_modify {B} (g : S -> S) (f : unit -> M S E B) s (Q : B -> S -> Prop) :
  runs J (f tt) (g s) Q -> runs J (modify g ≫= f) s Q.
Proof. done. Qed.

Lemma refuses_mono {A} (m : M S E A) s e (P Q : S -> Prop) :
  refuses J m s e P -> (forall s', P s' -> Q s') -> refuses J m s e Q.
Proof. unfold refuses. destruct (m s) as [[] s']; naive_solver. Qed.

Lemma refuses_lift {A} (o : outcome E A) e (s : S) (Q : S -> Prop) :
  o = Throw e -> Q s -> refuses J (lift o) s e Q.
Proof. intros ->. by left. Qed.

Lemma refuses_bind_first {A B} (m : M S E A) (f : A -> M S E B) s e Q :
  refuses J m s e Q -> refuses J (m ≫= f) s e Q.
Proof. unfold refuses, mbind, M_bind. by destruct (m s) as [[] s']. Qed.

Lemma refuses_bind {A B} (m : M S E A) (f : A -> M S E B) s e (P : A -> S -> Prop) Q :
  runs J m s P -> (forall a s', P a s' -> refuses J (f a) s' e Q) -> refuses J (m ≫= f) s e Q.
Proof.
  unfold runs, refuses, mbind, M_bind. intros Hm Hf.
  destruct (m s) as [[] s']; [by apply Hf|by right|done..].
Qed.

Lemma refuses_bind_lift {A B} (o : outcome E A) (f : A -> M S E B) s a e Q :
  o = Ret a -> refuses J (f a) s e Q -> refuses J (lift o ≫= f) s e Q.
Proof. by intros ->. Qed.

Lemma refuses_bind_self {B} (f : S -> M S E B) s e Q :
  refuses J (f s) s e Q -> refuses J (get_self ≫= f) s e Q.
Proof. done. Qed.
End runs.

Lemma runs_weaken {S E A} (J J' : E -> S -> Prop) (m : M S E A) s Q :
  runs J m s Q -> (forall e s', J e s' -> J' e s') -> runs J' m s Q.
Proof. unfold runs. destruct (m s) as [[] s']; auto. Qed.

(** Nothing stops the run: it returns. *)
Lemma runs_returns {S E A} (J : E -> S -> Prop) (m : M S E A) s Q :
  (forall e s', ~ J e s') -> runs J m s Q -> returns m s Q.
Proof.
  unfold runs, returns. intros HJ. destruct (m s) as [[a|e|p|] s']; [by exists a, s'|by intros ?%HJ|done..].
Qed.

Lemma returns_runs {S E A} (J : E -> S -> Prop) (m : M S E A) s Q : returns m s Q -> runs J m s Q.
Proof. unfold runs. by intros (a & s' & -> & ?). Qed.

Lemma refuses_throws {S E A} (J : E -> S -> Prop) (m : M S E A) s e Q :
  (forall e' s', ~ J e' s') -> refuses J m s e Q -> throws m s e Q.
Proof.
  unfold refuses, throws. intros HJ. destruct (m s) as [[a|e'|p|] s']; [done| |done..].
  intros [[-> ?]|?%HJ]; [by exists s'|done].
Qed.

(** A computation on a field of the state *)
Lemma runs_zoom {S T E A} (get : S -> T) (set : T -> S -> S) (J : E -> S -> Prop) (m : M T E A) s (Q : A -> S -> Prop) :
  runs (fun e t => J e (set t s)) m (get s) (fun a t => Q a (set t s)) -> runs J (zoom get set m) s Q.
Proof. unfold runs, zoom. by destruct (m (get s)) as [[] t]. Qed.

Lemma refuses_zoom {S T E A} (get : S -> T) (set : T -> S -> S) (J : E -> S -> Prop) (m : M T E A) s e (Q : S -> Prop) :
  refuses (fun e t => J e (set t s)) m (get s) e (fun t => Q (set t s)) -> refuses J (zoom get set m) s e Q.
Proof. unfold refuses, zoom. by destruct (m (get s)) as [[] t]. Qed.
