(* ===== verification/Errors.v ===== *)
(** * The error type of the storage engine ([crates/pinax/src/error.rs])

    The [location] field of every variant is a source position recorded for
    a backtrace and is left out. *)

From stdpp Require Import pretty.
From S2P Require Import Prelude.

(** [std::io::Error], by kind. *)
Inductive io_error :=
  | NotFound
  | AlreadyExistsKind
  | UnexpectedEof
  | OtherIo.

Inductive PermanentError :=
  | InvalidPageSize (requested : Z)
  | InvalidBufferPoolCapacity
  | AlreadyExists (path : string)
  | KeyAlreadyExists (key : Z)
  | KeyNotFound (key : Z)
  | PayloadTooLarge (key : Z) (encoded_len : Z).

Inductive FatalError :=
  | Corruption (page_id expected actual : Z)
  | NoValidMetaPage (path : string)
  | FileTooSmall (path : string) (actual_len min_len : Z)
  | BufferBounds (at_ len buf_len : Z)
  | UnexpectedPageType (page_id : Z) (expected : string) (actual : Z)
  | InvalidRowEncoding (reason : string)
  | PoolInvariantViolated
  | Io (path : string) (source : io_error).

Inductive PinaxError :=
  | Permanent (source : PermanentError)
  | Fatal (source : FatalError).

#[export] Instance io_error_eq_dec : EqDecision io_error.
Proof. solve_decision. Defined.
#[export] Instance PermanentError_eq_dec : EqDecision PermanentError.
Proof. solve_decision. Defined.
#[export] Instance FatalError_eq_dec : EqDecision FatalError.
Proof. solve_decision. Defined.
#[export] Instance PinaxError_eq_dec : EqDecision PinaxError.
Proof. solve_decision. Defined.

(** The result type of every fallible function of the crate. *)
Abbreviation result := (outcome PinaxError).

(** ** Texts *)
Definition quotation_mark : Ascii.ascii := Ascii.ascii_of_N 34.

(** What the standard library's formatting of a float, a path and an I/O error
    writes is a parameter. The [Debug] text of a path is quoted, its quotes
    escaped, so that it can be told from what follows it. *)
Class StdFormat := {
  fmt_f64 : Z -> string;
  debug_path : string -> string;
  fmt_io_error : io_error -> string;
  debug_path_quoted p : exists s, debug_path p = String quotation_mark s;
  debug_path_inj p q s t : debug_path p +:+ s = debug_path q +:+ t -> p = q /\ s = t;
}.

Definition hex_digit (d : Z) : Ascii.ascii :=
  Ascii.ascii_of_N (Z.to_N (if d <? 10 then 48 + d else 87 + d)).

(** The [n] low-order hexadecimal digits of [z]; [{z:016x}] of a [u64] is its 16. *)
Fixpoint hex_digits (n : nat) (z : Z) : string :=
  match n with
  | O => ""
  | S n => String (hex_digit (z / 16 ^ Z.of_nat n mod 16)) (hex_digits n z)
  end.

Section display.
Context `{StdFormat}.

(** [impl Display for PermanentError] *)
Definition display_permanent (e : PermanentError) : string :=
  match e with
  | InvalidPageSize requested =>
    "page size " +:+ pretty requested +:+ " is not one of the valid sizes 4096/8192/16384/32768/65536"
  | InvalidBufferPoolCapacity => "buffer pool capacity must be at least 1 page"
  | AlreadyExists path => "database file already exists at " +:+ debug_path path +:+ "; use Database::open"
  | KeyAlreadyExists key => "key " +:+ pretty key +:+ " already exists; use update"
  | KeyNotFound key => "key " +:+ pretty key +:+ " does not exist"
  | PayloadTooLarge key encoded_len =>
    "row for key " +:+ pretty key +:+ " encodes to " +:+ pretty encoded_len +:+ " bytes, exceeding u32::MAX"
  end.

(** [impl Display for FatalError] *)
Definition display_fatal (e : FatalError) : string :=
  match e with
  | Corruption page_id expected actual =>
    "page " +:+ pretty page_id +:+ " failed checksum verification: expected " +:+ hex_digits 16 expected +:+
    ", got " +:+ hex_digits 16 actual
  | NoValidMetaPage path => "no valid meta page found in " +:+ debug_path path +:+ " (checked slots 0 and 1)"
  | FileTooSmall path actual_len min_len =>
    debug_path path +:+ " is " +:+ pretty actual_len +:+ " bytes, shorter than the meta region (" +:+
    pretty min_len +:+ ")"
  | BufferBounds at_ len buf_len =>
    "byte range [" +:+ pretty at_ +:+ ", " +:+ pretty at_ +:+ "+" +:+ pretty len +:+
    ") is out of bounds for a " +:+ pretty buf_len +:+ "-byte buffer"
  | UnexpectedPageType page_id expected actual =>
    "page " +:+ pretty page_id +:+ ": expected page type " +:+ expected +:+ ", got byte " +:+ pretty actual
  | InvalidRowEncoding reason => "row payload failed to decode: " +:+ reason
  | PoolInvariantViolated => "buffer pool recency queue underflowed capacity accounting"
  | Io path source => "I/O error on " +:+ debug_path path +:+ ": " +:+ fmt_io_error source
  end.

(** [impl Display for PinaxError]: both variants are transparent. *)
Definition display (e : PinaxError) : string :=
  match e with
  | Permanent source => display_permanent source
  | Fatal source => display_fatal source
  end.
End display.
