(* ===== verification/ErrorTexts.v ===== *)
(** * What the text of an error tells ([crates/pinax/src/error.rs])

    The texts of two different errors differ: a number in a text ends at the first
    character that is neither a digit nor a sign, a path at its closing quote. *)

From stdpp Require Import pretty.
From S2P Require Import Prelude Errors.

#[local] Arguments String.append : simpl nomatch.

(** A character of a decimal or hexadecimal number *)
Definition digit_or_sign (c : Ascii.ascii) : bool :=
  let n := Ascii.N_of_ascii c in
  (N.leb 48 n && N.leb n 57) || (N.leb 97 n && N.leb n 102) || N.eqb n 45.

Fixpoint number_text (s : string) : bool :=
  match s with
  | EmptyString => true
  | String c s => digit_or_sign c && number_text s
  end.

(** The rest of a text after a number: it does not go on with the number. *)
Definition number_ends (s : string) : bool :=
  match s with
  | EmptyString => true
  | String c _ => negb (digit_or_sign c)
  end.

Lemma number_text_app s t : number_text (s +:+ t) = number_text s && number_text t.
Proof. induction s as [|c s IH]; [done|]. simpl. by rewrite IH, andb_assoc. Qed.

Lemma number_split s s' : forall t t',
  number_text s = true -> number_text s' = true -> number_ends t = true -> number_ends t' = true ->
  s +:+ t = s' +:+ t' -> s = s' /\ t = t'.
Proof.
  revert s'. induction s as [|c s IH]; intros [|c' s'] t t'; simpl; intros Hs Hs' Ht Ht' Heq; [done|..].
  - subst t. simpl in Ht. apply andb_prop in Hs' as [Hc' _]. by rewrite Hc' in Ht.
  - subst t'. simpl in Ht'. apply andb_prop in Hs as [Hc _]. by rewrite Hc in Ht'.
  - injection Heq as -> Heq. apply andb_prop in Hs as [_ Hs], Hs' as [_ Hs'].
    by destruct (IH s' t t' Hs Hs' Ht Ht' Heq) as [-> ->].
Qed.

(** A number at the end of a text, after a character that is not of a number. *)
Lemma number_tail s s' : forall x x' c,
  number_text x = true -> number_text x' = true -> digit_or_sign c = false ->
  s +:+ String c x = s' +:+ String c x' -> s = s' /\ x = x'.
Proof.
  revert s'. induction s as [|d s IH]; intros [|d' s'] x x' c Hx Hx' Hc; simpl; intros Heq.
  - by injection Heq.
  - injection Heq as -> Heq. subst x. rewrite number_text_app in Hx. simpl in Hx. rewrite Hc in Hx.
    by rewrite andb_false_r in Hx.
  - injection Heq as -> Heq. subst x'. rewrite number_text_app in Hx'. simpl in Hx'. rewrite Hc in Hx'.
    by rewrite andb_false_r in Hx'.
  - injection Heq as -> Heq. by destruct (IH s' x x' c Hx Hx' Hc Heq) as [-> ->].
Qed.

Lemma text_tail c d s t : String c s = String d t -> s = t.
Proof. by intros [= _ ->]. Qed.

Lemma text_assoc (s t u : string) : s +:+ (t +:+ u) = (s +:+ t) +:+ u.
Proof. induction s as [|c s IH]; [done|]. simpl. by rewrite IH. Qed.

(** Two texts with the same end have the same rest. *)
Lemma text_cancel_r t : forall s s' : string, s +:+ t = s' +:+ t -> s = s'.
Proof.
  induction t as [|c t IH]; intros s s' Heq.
  - revert s' Heq. induction s as [|d s IHs]; intros [|d' s']; simpl; intros Heq; try done.
    injection Heq as -> Heq. f_equal. by apply IHs.
  - change (String c t) with ("" +:+ String c t) in Heq.
    assert (Hone : forall u, u +:+ String c t = (u +:+ String c "") +:+ t) by (intros; by rewrite <-text_assoc).
    simpl in Heq. rewrite !Hone in Heq. apply IH in Heq. clear Hone IH.
    revert s' Heq. induction s as [|d s IHs]; intros [|d' s']; simpl; intros Heq; try done.
    + injection Heq as -> Heq. by destruct s'.
    + injection Heq as -> Heq. by destruct s.
    + injection Heq as -> Heq. f_equal. by apply IHs.
Qed.

(** ** Numbers are number texts *)

Lemma number_text_N_go x : forall s, number_text s = true -> number_text (pretty_N_go x s) = true.
Proof.
  induction (N.lt_wf_0 x) as [x _ IH]; intros s Hs.
  assert (x = 0 \/ 0 < x)%N as [->|Hx] by lia; [done|].
  rewrite pretty_N_go_step by done. apply IH; [by apply N.div_lt|].
  cbn [number_text]. rewrite Hs, andb_true_r.
  pose proof (N.mod_lt x 10 ltac:(done)) as Hm. revert Hm. generalize (x mod 10)%N. intros d Hd.
  unfold pretty_N_char. by repeat case_match.
Qed.

Lemma number_text_N (x : N) : number_text (pretty x) = true.
Proof. unfold pretty, pretty_N. case_decide; [done|]. by apply number_text_N_go. Qed.

Lemma number_text_Z (z : Z) : number_text (pretty z) = true.
Proof.
  destruct z as [|p|p]; [done|apply (number_text_N (Npos p))|].
  change (number_text (pretty (Npos p)) = true). apply number_text_N.
Qed.

Lemma N_hex_digit d : 0 <= d < 16 -> Ascii.N_of_ascii (hex_digit d) = Z.to_N (if d <? 10 then 48 + d else 87 + d).
Proof. intros Hd. unfold hex_digit. apply Ascii.N_ascii_embedding. case_match; lia. Qed.

Lemma number_text_hex n z : number_text (hex_digits n z) = true.
Proof.
  induction n as [|n IH]; [done|]. cbn [hex_digits number_text]. rewrite IH, andb_true_r.
  pose proof (Z.mod_pos_bound (z / 16 ^ Z.of_nat n) 16 eq_refl) as Hm. revert Hm.
  generalize (z / 16 ^ Z.of_nat n mod 16). intros d Hd.
  unfold digit_or_sign. rewrite N_hex_digit by done.
  rewrite !orb_true_iff, !andb_true_iff, !N.leb_le. destruct (d <? 10) eqn:?; lia.
Qed.

Lemma hex_digit_inj d d' : 0 <= d < 16 -> 0 <= d' < 16 -> hex_digit d = hex_digit d' -> d = d'.
Proof.
  intros Hd Hd' Heq%(f_equal Ascii.N_of_ascii). rewrite !N_hex_digit in Heq by done.
  destruct (d <? 10) eqn:?, (d' <? 10) eqn:?; lia.
Qed.

(** Numbers of the same [n] low-order digits are equal modulo [16 ^ n]. *)
Lemma hex_digits_inj n z z' :
  hex_digits n z = hex_digits n z' -> z mod 16 ^ Z.of_nat n = z' mod 16 ^ Z.of_nat n.
Proof.
  induction n as [|n IH]; intros Heq; [by rewrite !Z.mod_1_r|].
  injection Heq as Hd%hex_digit_inj Heq%IH; [|apply Z.mod_pos_bound; done..].
  rewrite Nat2Z.inj_succ, Z.pow_succ_r by lia. rewrite (Z.mul_comm 16), !Z.rem_mul_r by lia. by rewrite Heq, Hd.
Qed.

Lemma hex_digits_u64 z z' :
  0 <= z <= u64_max -> 0 <= z' <= u64_max -> hex_digits 16 z = hex_digits 16 z' -> z = z'.
Proof.
  unfold u64_max. intros Hz Hz' Heq%hex_digits_inj. change (16 ^ Z.of_nat 16) with 18446744073709551616 in Heq.
  rewrite !Z.mod_small in Heq by lia. done.
Qed.

#[local] Opaque hex_digits.

(** ** Texts determine errors *)

(** The checksums of an error are [u64]s. *)
Definition error_wf (e : PinaxError) : Prop :=
  match e with
  | Fatal (Corruption _ expected actual) => 0 <= expected <= u64_max /\ 0 <= actual <= u64_max
  | _ => True
  end.

Section texts.
Context `{StdFormat}.

Lemma number_Z_split (z z' : Z) t t' :
  number_ends t = true -> number_ends t' = true -> pretty z +:+ t = pretty z' +:+ t' -> z = z' /\ t = t'.
Proof.
  intros Ht Ht' Heq%number_split; [|apply number_text_Z|apply number_text_Z|done|done].
  destruct Heq as [Hz ->]. by apply (inj pretty) in Hz.
Qed.

(** A text that goes on with a number does not go on with another character. *)
Lemma number_Z_other (z : Z) t c s :
  number_ends t = true -> digit_or_sign c = false -> pretty z +:+ t = String c s -> t = String c s.
Proof.
  intros Ht Hc Heq. apply (number_split _ "") in Heq as [_ Heq]; [done|apply number_text_Z|done|done|].
  simpl. by rewrite Hc.
Qed.
End texts.

Section display.
Context `{StdFormat}.

(** The parts of two equal texts, from the left *)
#[local] Ltac split_texts :=
  repeat match goal with
  | Heq : String _ _ = String _ _ |- _ => first [discriminate Heq | apply text_tail in Heq]
  | Heq : pretty ?z +:+ _ = pretty ?z' +:+ _ |- _ =>
    apply number_Z_split in Heq as [? Heq]; [|reflexivity|reflexivity]
  | Heq : pretty _ +:+ _ = String _ _ |- _ => apply number_Z_other in Heq; [|reflexivity|reflexivity]
  | Heq : String _ _ = pretty _ +:+ _ |- _ => symmetry in Heq
  | Heq : debug_path _ +:+ _ = debug_path _ +:+ _ |- _ => apply debug_path_inj in Heq as [? Heq]
  | Heq : debug_path ?p +:+ _ = String _ _ |- _ =>
    let s := fresh in let Hs := fresh in destruct (debug_path_quoted p) as [s Hs]; rewrite Hs in Heq; discriminate Heq
  | Heq : String _ _ = debug_path _ +:+ _ |- _ => symmetry in Heq
  | Heq : hex_digits 16 _ +:+ String _ _ = hex_digits 16 _ +:+ String _ _ |- _ =>
    apply number_split in Heq as [? Heq]; [|apply number_text_hex|apply number_text_hex|reflexivity|reflexivity]
  end.

(** C34: The text of an error tells which error it is, with everything it carries, of an
    I/O error what the text of its source tells. *)
Theorem error_texts_tell e e' :
  error_wf e -> error_wf e' -> display e = display e' ->
  e = e' \/
  exists path source source', e = Fatal (Io path source) /\ e' = Fatal (Io path source') /\
    fmt_io_error source = fmt_io_error source'.
Proof.
  destruct e as [[]|[]], e' as [[]|[]]; cbn [error_wf display display_permanent display_fatal]; intros Hwf Hwf' Heq;
    simpl in Heq; split_texts; try discriminate.
  all: subst; try (left; reflexivity).
  - (* Corruption *) repeat match goal with Hhex : hex_digits 16 _ = hex_digits 16 _ |- _ => apply hex_digits_u64 in Hhex; [|tauto..] end.
    subst. by left.
  - (* BufferBounds *) apply text_cancel_r in Heq as ->%(inj pretty). by left.
  - (* UnexpectedPageType *)
    change (expected +:+ (", got byte" +:+ String (Ascii.ascii_of_N 32) (pretty actual)) =
            expected0 +:+ (", got byte" +:+ String (Ascii.ascii_of_N 32) (pretty actual0))) in Heq.
    rewrite !text_assoc in Heq. apply number_tail in Heq as [->%text_cancel_r ->%(inj pretty)];
      [by left|apply number_text_Z|apply number_text_Z|done].
  - (* Io *) right. do 3 eexists. split_and!; [reflexivity..|exact Heq].
Qed.
End display.

(** ** One choice of the parameters, to run the definitions

    A path with its quotes and backslashes escaped, as [Debug] writes an ASCII path
    without control characters. *)
Definition backslash : Ascii.ascii := Ascii.ascii_of_N 92.

Fixpoint escaped (p : string) : string :=
  match p with
  | EmptyString => String quotation_mark ""
  | String c p =>
    if bool_decide (c = quotation_mark) || bool_decide (c = backslash)
    then String backslash (String c (escaped p)) else String c (escaped p)
  end.

Lemma escaped_inj p : forall q s t, escaped p +:+ s = escaped q +:+ t -> p = q /\ s = t.
Proof.
  induction p as [|c p IH]; intros [|d q] s t; simpl; repeat case_bool_decide; subst; simpl;
    intros Heq; try discriminate Heq; injection Heq; intros; subst; try done;
    match goal with Heq : escaped _ +:+ _ = escaped _ +:+ _ |- _ => apply IH in Heq as [-> ->] end; done.
Qed.

Lemma quoted_inj p q s t :
  String quotation_mark (escaped p) +:+ s = String quotation_mark (escaped q) +:+ t -> p = q /\ s = t.
Proof. intros Heq%text_tail. by apply escaped_inj. Qed.

Definition plain_format : StdFormat := {|
  fmt_f64 _ := "NaN";
  debug_path p := String quotation_mark (escaped p);
  fmt_io_error e := match e with UnexpectedEof => "failed to fill whole buffer" | _ => "os error" end;
  debug_path_quoted p := ex_intro _ (escaped p) eq_refl;
  debug_path_inj := quoted_inj;
|}.

#[local] Existing Instance plain_format.

Lemma error_texts_tell_witness :
  display (Permanent (KeyNotFound 7)) = "key 7 does not exist" /\
  Fatal (Corruption 3 1 2) = Fatal (Corruption 3 1 2).
Proof.
  split; [reflexivity|].
  destruct (error_texts_tell (Fatal (Corruption 3 1 2)) (Fatal (Corruption 3 1 2))) as [Heq|(p & x & y & Hx & _)].
  - vm_compute. intuition discriminate.
  - vm_compute. intuition discriminate.
  - reflexivity.
  - exact Heq.
  - discriminate.
Defined.
