(* ===== verification/Codec.v ===== *)
(** * Big-endian byte access ([crates/pinax/src/codec.rs])

    Bytes are [Init.Byte.byte]; buffers are byte lists; offsets and lengths
    ([usize]) are integers. The sum [at + len] of an offset and a length is
    exact: both are far below 2^63 on a 64-bit target. *)

From Stdlib Require Export Strings.Byte.
From S2P Require Import Prelude Errors.

Abbreviation bytes := (list byte).

#[export] Instance byte_eq_dec : EqDecision byte := Byte.byte_eq_dec.

(** ** Integers as bytes: [to_be_bytes] and [from_be_bytes] *)

Definition byte_Z (b : byte) : Z := Z.of_N (Byte.to_N b).
Definition Z_byte (z : Z) : byte := default x00 (Byte.of_N (Z.to_N (z mod 256))).

(** The [n] low-order bytes of [z], most significant first; on a negative
    [z] this is its two's complement. *)
Fixpoint be_bytes (n : nat) (z : Z) : bytes :=
  match n with
  | O => []
  | S n => Z_byte (z / 256 ^ Z.of_nat n) :: be_bytes n z
  end.

Fixpoint from_be (l : bytes) : Z :=
  match l with
  | [] => 0
  | b :: l => byte_Z b * 256 ^ len l + from_be l
  end.

(** The 64-bit pattern [u] read as a signed integer. *)
Definition to_signed64 (u : Z) : Z := if u <? 2 ^ 63 then u else u - 2 ^ 64.

Lemma byte_Z_range b : 0 <= byte_Z b < 256.
Proof.
  unfold byte_Z. pose proof (Byte.to_N_bounded b). lia.
Qed.

Lemma byte_Z_inj b b' : byte_Z b = byte_Z b' -> b = b'.
Proof.
  unfold byte_Z. intros H%N2Z.inj.
  pose proof (Byte.of_to_N b). pose proof (Byte.of_to_N b'). congruence.
Qed.

Lemma byte_Z_Z_byte z : byte_Z (Z_byte z) = z mod 256.
Proof.
  unfold Z_byte, byte_Z. pose proof (Z.mod_pos_bound z 256 eq_refl).
  destruct (Byte.of_N (Z.to_N (z mod 256))) as [b|] eqn:E; simpl.
  - apply Byte.to_of_N in E. rewrite E. lia.
  - apply Byte.of_N_None_iff in E. lia.
Qed.

Lemma Z_byte_byte_Z b : Z_byte (byte_Z b) = b.
Proof.
  apply byte_Z_inj. rewrite byte_Z_Z_byte, Z.mod_small; [done|].
  apply byte_Z_range.
Qed.

Lemma length_be_bytes n z : length (be_bytes n z) = n.
Proof. induction n; simpl; congruence. Qed.

Lemma len_be_bytes n z : len (be_bytes n z) = Z.of_nat n.
Proof. unfold len. by rewrite length_be_bytes. Qed.

Lemma len_be2 z : len (be_bytes 2 z) = 2.
Proof. done. Qed.
Lemma len_be4 z : len (be_bytes 4 z) = 4.
Proof. done. Qed.
Lemma len_be8 z : len (be_bytes 8 z) = 8.
Proof. done. Qed.

Lemma from_be_range l : 0 <= from_be l < 256 ^ len l.
Proof.
  induction l as [|b l IH]; simpl; [done|].
  rewrite len_cons, Z.pow_add_r by (pose proof (len_nonneg l); lia).
  pose proof (byte_Z_range b). nia.
Qed.

Lemma from_be_be_bytes n z : from_be (be_bytes n z) = z mod 256 ^ Z.of_nat n.
Proof.
  induction n as [|n IH]; cbn [be_bytes from_be].
  - by rewrite Z.mod_1_r.
  - rewrite IH, byte_Z_Z_byte, len_be_bytes.
    rewrite Nat2Z.inj_succ, Z.pow_succ_r by lia.
    rewrite (Z.mul_comm 256), Z.rem_mul_r by lia. lia.
Qed.

(** Adding a multiple of [256 ^ m] does not change the [n <= m] low-order bytes. *)
Lemma be_bytes_add n z k m :
  (n <= m)%nat -> be_bytes n (k * 256 ^ Z.of_nat m + z) = be_bytes n z.
Proof.
  intros Hn. induction n as [|n IH]; cbn [be_bytes]; [done|].
  f_equal; [|apply IH; lia]. apply byte_Z_inj. rewrite !byte_Z_Z_byte.
  replace (256 ^ Z.of_nat m)
    with (256 ^ (Z.of_nat m - Z.of_nat n - 1) * 256 * 256 ^ Z.of_nat n).
  2:{ rewrite <-(Z.mul_comm 256), <-Z.pow_succ_r by lia.
      rewrite <-Z.pow_add_r by lia. f_equal. lia. }
  rewrite !Z.mul_assoc, Z.div_add_l by lia.
  rewrite Z.add_comm, Z.mod_add; lia.
Qed.

Lemma be_bytes_from_be l n : length l = n -> be_bytes n (from_be l) = l.
Proof.
  revert n. induction l as [|b l IH]; intros n <-; [done|].
  cbn [length be_bytes from_be]. fold (len l).
  pose proof (from_be_range l) as Hr.
  f_equal.
  - rewrite Z.div_add_l by lia. rewrite (Z.div_small (from_be l)) by done.
    by rewrite Z.add_0_r, Z_byte_byte_Z.
  - unfold len. rewrite be_bytes_add by done. by apply IH.
Qed.

Lemma from_be8 z : 0 <= z <= u64_max -> from_be (be_bytes 8 z) = z.
Proof.
  intros. rewrite from_be_be_bytes. change (256 ^ Z.of_nat 8) with (u64_max + 1).
  apply Z.mod_small. lia.
Qed.

Lemma to_signed64_round z : in_i64 z -> to_signed64 (z mod 2 ^ 64) = z.
Proof.
  unfold in_i64, i64_min, i64_max, to_signed64. intros.
  destruct (decide (0 <= z)).
  - rewrite Z.mod_small by lia. case_match; lia.
  - rewrite <-(Z.mod_add z 1) by lia. rewrite Z.mod_small by lia. case_match; lia.
Qed.

Lemma to_signed64_range u : 0 <= u < 2 ^ 64 -> in_i64 (to_signed64 u).
Proof. unfold in_i64, i64_min, i64_max, to_signed64. intros. case_match; lia. Qed.

#[global] Arguments be_bytes : simpl never.
#[global] Arguments from_be : simpl never.

(** ** The accessors

    A writer takes [&mut [u8]] in the source; here it returns the new buffer. *)

Definition read_bytes (N : Z) (buf : bytes) (at_ : Z) : result bytes :=
  context (slice buf at_ N) (Fatal (BufferBounds at_ N (len buf))).

Definition write_bytes (buf : bytes) (at_ : Z) (x : bytes) : result bytes :=
  context (splice buf at_ x) (Fatal (BufferBounds at_ (len x) (len buf))).

Definition read_u8 (buf : bytes) (at_ : Z) : result Z :=
  b ← read_bytes 1 buf at_; Ret (from_be b).

Definition write_u8 (buf : bytes) (at_ value : Z) : result bytes :=
  write_bytes buf at_ [Z_byte value].

Definition read_u16 (buf : bytes) (at_ : Z) : result Z :=
  b ← read_bytes 2 buf at_; Ret (from_be b).

Definition write_u16 (buf : bytes) (at_ value : Z) : result bytes :=
  write_bytes buf at_ (be_bytes 2 value).

Definition read_u32 (buf : bytes) (at_ : Z) : result Z :=
  b ← read_bytes 4 buf at_; Ret (from_be b).

Definition write_u32 (buf : bytes) (at_ value : Z) : result bytes :=
  write_bytes buf at_ (be_bytes 4 value).

Definition read_u64 (buf : bytes) (at_ : Z) : result Z :=
  b ← read_bytes 8 buf at_; Ret (from_be b).

Definition write_u64 (buf : bytes) (at_ value : Z) : result bytes :=
  write_bytes buf at_ (be_bytes 8 value).

Definition read_i64 (buf : bytes) (at_ : Z) : result Z :=
  b ← read_bytes 8 buf at_; Ret (to_signed64 (from_be b)).

Definition read_vec (buf : bytes) (at_ len_ : Z) : result bytes :=
  context (slice buf at_ len_) (Fatal (BufferBounds at_ len_ (len buf))).

(** ** Bytes at an offset

    [at_offset buf o x]: the bytes [x] are in [buf] at offset [o]. All
    reasoning about buffers goes through this predicate. *)
Definition at_offset (buf : bytes) (o : Z) (x : bytes) : Prop :=
  slice buf o (len x) = Some x.

Section at_offset.
Implicit Types buf x y : bytes.

Lemma at_offset_bounds buf o x : at_offset buf o x -> 0 <= o /\ o + len x <= len buf.
Proof. intros H%slice_bounds. lia. Qed.

Lemma at_offset_app buf o x y :
  at_offset buf o (x ++ y) <-> at_offset buf o x /\ at_offset buf (o + len x) y.
Proof.
  unfold at_offset. pose proof (len_nonneg x). pose proof (len_nonneg y).
  split.
  - intros Hs. pose proof (slice_bounds _ _ _ _ Hs) as (? & ? & ?).
    rewrite len_app in *. split.
    + rewrite <-(Z.add_0_r o), <-(slice_slice _ _ _ _ 0 (len x) Hs) by lia.
      by apply (slice_mid []).
    + rewrite <-(slice_slice _ _ _ _ (len x) (len y) Hs) by lia.
      rewrite slice_app_r by lia. rewrite Z.sub_diag. apply slice_full.
  - intros [Hx Hy]. apply slice_spec in Hx as (? & ? & ? & ? & Hx).
    apply slice_spec in Hy as (? & ? & ? & ? & Hy).
    apply slice_spec. rewrite len_app. split_and!; try lia.
    intros i Hi. unfold len in *. destruct (decide (i < length x)%nat).
    + rewrite lookup_app_l by lia. apply Hx. lia.
    + rewrite lookup_app_r by lia. rewrite Hy by lia. f_equal. lia.
Qed.

Lemma at_offset_nil buf o : 0 <= o <= len buf -> at_offset buf o [].
Proof. apply slice_zero. Qed.

Lemma at_offset_splice_same buf o x buf' : splice buf o x = Some buf' -> at_offset buf' o x.
Proof. apply slice_splice_same. Qed.

Lemma at_offset_splice_other buf o x buf' o' y :
  splice buf o x = Some buf' -> (o' + len y <= o \/ o + len x <= o') ->
  at_offset buf o' y -> at_offset buf' o' y.
Proof.
  intros Hs Hd Hy. unfold at_offset. by rewrite (slice_splice_other _ _ _ _ _ _ Hs Hd).
Qed.

Lemma at_offset_ext buf buf' m o x :
  take m buf = take m buf' -> len buf = len buf' -> o + len x <= Z.of_nat m ->
  at_offset buf o x -> at_offset buf' o x.
Proof. intros ??? H. unfold at_offset. by rewrite <-(slice_ext buf buf' o _ m). Qed.

Lemma at_offset_det buf o x y :
  len x = len y -> at_offset buf o x -> at_offset buf o y -> x = y.
Proof. unfold at_offset. intros ->. congruence. Qed.

Lemma at_offset_slice buf o n x : slice buf o n = Some x -> at_offset buf o x.
Proof. intros H. unfold at_offset. by rewrite (slice_len _ _ _ _ H). Qed.

Lemma at_offset_self x : at_offset x 0 x.
Proof. apply slice_full. Qed.

(** Readers *)
Lemma read_bytes_at buf o x n : at_offset buf o x -> len x = n -> read_bytes n buf o = Ret x.
Proof. unfold at_offset, read_bytes. by intros H <-; rewrite H. Qed.

Lemma read_u8_at buf o v :
  at_offset buf o [Z_byte v] -> 0 <= v <= u8_max -> read_u8 buf o = Ret v.
Proof.
  intros H Hv. unfold read_u8. rewrite (read_bytes_at _ _ _ _ H) by done. simpl. f_equal.
  unfold from_be. rewrite byte_Z_Z_byte, Z.mod_small by (unfold u8_max in *; lia).
  unfold len. simpl. lia.
Qed.

Lemma read_be_at n buf o v :
  at_offset buf o (be_bytes n v) -> 0 <= v < 256 ^ Z.of_nat n ->
  (b ← read_bytes (Z.of_nat n) buf o; Ret (from_be b)) = @Ret PinaxError _ v.
Proof.
  intros H Hv. rewrite (read_bytes_at _ _ _ _ H) by apply len_be_bytes.
  simpl. by rewrite from_be_be_bytes, Z.mod_small.
Qed.

Lemma read_u16_at buf o v :
  at_offset buf o (be_bytes 2 v) -> 0 <= v <= u16_max -> read_u16 buf o = Ret v.
Proof. intros H Hv. apply (read_be_at 2); [done|unfold u16_max in *; lia]. Qed.

Lemma read_u32_at buf o v :
  at_offset buf o (be_bytes 4 v) -> 0 <= v <= u32_max -> read_u32 buf o = Ret v.
Proof. intros H Hv. apply (read_be_at 4); [done|unfold u32_max in *; lia]. Qed.

Lemma read_u64_at buf o v :
  at_offset buf o (be_bytes 8 v) -> 0 <= v <= u64_max -> read_u64 buf o = Ret v.
Proof. intros H Hv. apply (read_be_at 8); [done|unfold u64_max in *; lia]. Qed.

Lemma read_i64_at buf o v :
  at_offset buf o (be_bytes 8 v) -> in_i64 v -> read_i64 buf o = Ret v.
Proof.
  intros H Hv. unfold read_i64. rewrite (read_bytes_at _ _ _ _ H) by done. simpl.
  f_equal. rewrite (from_be_be_bytes 8 v). by apply to_signed64_round.
Qed.

Lemma read_vec_at buf o x n : at_offset buf o x -> len x = n -> read_vec buf o n = Ret x.
Proof. apply read_bytes_at. Qed.

(** What a successful read says of the buffer. *)
Lemma read_bytes_inv n buf o x : read_bytes n buf o = Ret x -> slice buf o n = Some x.
Proof. unfold read_bytes. by destruct slice; intros [= ->]. Qed.

(** Writers *)
Lemma write_bytes_ret buf o x buf' :
  write_bytes buf o x = Ret buf' <-> splice buf o x = Some buf'.
Proof. unfold write_bytes. destruct splice; simpl; naive_solver. Qed.

Lemma write_bytes_ok buf o x :
  0 <= o -> o + len x <= len buf -> exists buf', write_bytes buf o x = Ret buf' /\
    splice buf o x = Some buf'.
Proof.
  intros ? ?. destruct (splice_Some buf o x) as [buf' Hs]; [done..|].
  exists buf'. by rewrite write_bytes_ret.
Qed.
End at_offset.

#[export] Hint Rewrite @len_nil @len_cons @len_app @len_replicate len_be2 len_be4 len_be8 : len.

(** Arithmetic on buffer offsets and lengths. *)
Ltac len_solve :=
  autorewrite with len in *;
  unfold usize_max, u8_max, u16_max, u32_max, u64_max in *; lia.

(** ** Properties *)

Section properties.
Implicit Types buf : bytes.

(** [buf'] is [buf] but for the [n] bytes at [o]. *)
Definition rewritten (o n : Z) (buf buf' : bytes) : Prop :=
  len buf' = len buf /\
  forall o' m, o' + m <= o \/ o + n <= o' -> read_vec buf' o' m = read_vec buf o' m.

Lemma splice_rewritten buf o x buf' : splice buf o x = Some buf' -> rewritten o (len x) buf buf'.
Proof.
  intros Hs. pose proof (splice_len _ _ _ _ Hs) as Hl. split; [done|]. intros o' m Hd. unfold read_vec. rewrite Hl.
  by rewrite (slice_splice_other _ _ _ _ _ m Hs).
Qed.

(** A writer that stays inside the buffer. *)
Lemma write_inside buf o x :
  0 <= o -> o + len x <= len buf -> exists buf', write_bytes buf o x = Ret buf' /\
    at_offset buf' o x /\ rewritten o (len x) buf buf'.
Proof.
  intros Ho Hl. destruct (write_bytes_ok buf o x Ho Hl) as (b & Hb & Hs). exists b.
  split_and!; [done|by eapply at_offset_splice_same|by apply splice_rewritten].
Qed.

(** C27: Each fixed-width writer, inside the buffer, leaves a buffer of the same length from
    which the matching reader returns the value written, and every read of a range disjoint
    from the bytes of its width returns what it returned before. *)
Theorem write_then_read buf o u :
  0 <= o -> 0 <= u <= u64_max ->
  (u <= u8_max -> o + 1 <= len buf -> exists buf', write_u8 buf o u = Ret buf' /\
     read_u8 buf' o = Ret u /\ rewritten o 1 buf buf') /\
  (u <= u16_max -> o + 2 <= len buf -> exists buf', write_u16 buf o u = Ret buf' /\
     read_u16 buf' o = Ret u /\ rewritten o 2 buf buf') /\
  (u <= u32_max -> o + 4 <= len buf -> exists buf', write_u32 buf o u = Ret buf' /\
     read_u32 buf' o = Ret u /\ rewritten o 4 buf buf') /\
  (o + 8 <= len buf -> exists buf', write_u64 buf o u = Ret buf' /\
     read_u64 buf' o = Ret u /\ read_i64 buf' o = Ret (to_signed64 u) /\ rewritten o 8 buf buf').
Proof.
  intros Ho Hu. split_and!; intros.
  - destruct (write_inside buf o [Z_byte u]) as (b & Hb & Hat & Hd); [len_solve..|]. exists b.
    split_and!; [done|apply read_u8_at; [done|lia]|done..].
  - destruct (write_inside buf o (be_bytes 2 u)) as (b & Hb & Hat & Hd); [len_solve..|]. exists b.
    split_and!; [done|apply read_u16_at; [done|lia]|done..].
  - destruct (write_inside buf o (be_bytes 4 u)) as (b & Hb & Hat & Hd); [len_solve..|]. exists b.
    split_and!; [done|apply read_u32_at; [done|lia]|done..].
  - destruct (write_inside buf o (be_bytes 8 u)) as (b & Hb & Hat & Hd); [len_solve..|]. exists b.
    split_and!; [done|apply read_u64_at; [done|lia]| |done..].
    unfold read_i64. rewrite (read_bytes_at _ _ _ _ Hat) by done. simpl. by rewrite from_be8.
Qed.

Lemma write_then_read_witness :
  exists buf', write_u16 (replicate 16 x00) 3 258 = Ret buf' /\ read_u16 buf' 3 = Ret 258 /\
    rewritten 3 2 (replicate 16 x00) buf'.
Proof.
  destruct (write_then_read (replicate 16 x00) 3 258) as (_ & H & _);
    [vm_compute; discriminate|vm_compute; split; discriminate|].
  apply H; vm_compute; discriminate.
Defined.

(** An access of [n] bytes at [o]: it succeeds inside the buffer, and is refused outside. *)
Definition bounded {A} (buf : bytes) (o n : Z) (r : result A) : Prop :=
  if o + n <=? len buf then is_ret r = true else r = Throw (Fatal (BufferBounds o n (len buf))).

Lemma read_bounded {A} buf o n (f : bytes -> A) :
  0 <= o -> 0 <= n -> bounded buf o n (b ← read_bytes n buf o; Ret (f b)).
Proof.
  intros Ho Hn. unfold bounded, read_bytes. case_match.
  - destruct (slice_Some buf o n) as [x ->]; [lia..|done].
  - unfold slice. case_match; [lia|done].
Qed.

Lemma write_bounded buf o x : 0 <= o -> bounded buf o (len x) (write_bytes buf o x).
Proof.
  intros Ho. pose proof (len_nonneg x). unfold bounded, write_bytes. case_match.
  - destruct (splice_Some buf o x) as [b ->]; [lia..|done].
  - unfold splice. case_match; [lia|done].
Qed.


End properties.
