(* ===== verification/Utf8.v ===== *)
(** * UTF-8, as Rust's standard library checks and counts it

    A Rust [String] is a byte list that [String::from_utf8] accepts;
    [chars] is the list of its scalar values. *)

From S2P Require Import Prelude Errors Codec.

Definition between (lo z hi : Z) : bool := (lo <=? z) && (z <=? hi).

(** A continuation byte [10xxxxxx]. *)
Definition is_cont (b : byte) : bool := between 0x80 (byte_Z b) 0xBF.
Definition cont_bits (b : byte) : Z := byte_Z b - 0x80.

(** The second byte a three- or four-byte sequence may have: no overlong
    encodings, no surrogates, nothing above U+10FFFF. *)
Definition second_ok (c0 : Z) (b1 : byte) : bool :=
  is_cont b1 &&
  (if c0 =? 0xE0 then 0xA0 <=? byte_Z b1
   else if c0 =? 0xED then byte_Z b1 <=? 0x9F
   else if c0 =? 0xF0 then 0x90 <=? byte_Z b1
   else if c0 =? 0xF4 then byte_Z b1 <=? 0x8F
   else true).

(** [str::from_utf8(l).ok().map(|s| s.chars().collect())] *)
Fixpoint chars (l : bytes) : option (list Z) :=
  match l with
  | [] => Some []
  | b0 :: l1 =>
    let c0 := byte_Z b0 in
    if c0 <? 0x80 then cons c0 <$> chars l1
    else match l1 with
    | [] => None
    | b1 :: l2 =>
      if between 0xC2 c0 0xDF then
        if is_cont b1 then cons ((c0 - 0xC0) * 64 + cont_bits b1) <$> chars l2 else None
      else match l2 with
      | [] => None
      | b2 :: l3 =>
        if between 0xE0 c0 0xEF then
          if second_ok c0 b1 && is_cont b2
          then cons (((c0 - 0xE0) * 64 + cont_bits b1) * 64 + cont_bits b2) <$> chars l3
          else None
        else match l3 with
        | [] => None
        | b3 :: l4 =>
          if between 0xF0 c0 0xF4 && second_ok c0 b1 && is_cont b2 && is_cont b3
          then cons ((((c0 - 0xF0) * 64 + cont_bits b1) * 64 + cont_bits b2) * 64 + cont_bits b3)
                 <$> chars l4
          else None
        end
      end
    end
  end.

Definition utf8_valid (l : bytes) : bool := if chars l is Some _ then true else false.

(** [s.chars().count()] of a valid string. *)
Definition chars_count (l : bytes) : Z := default 0 (len <$> chars l).

(** Two emoji are two characters and eight bytes. *)
Example chars_count_emoji :
  chars_count (concat (replicate 2 (Z_byte <$> [0xF0; 0x9F; 0x98; 0x80]))) = 2.
Proof. reflexivity. Qed.

Example utf8_rejects_ff_fe : utf8_valid (Z_byte <$> [0xFF; 0xFE]) = false.
Proof. reflexivity. Qed.

(** Every character takes at least one byte. *)
Lemma chars_length l cs : chars l = Some cs -> len cs <= len l.
Proof.
  revert cs. remember (length l) as n eqn:Hn. assert (length l <= n)%nat as Hle by lia. clear Hn.
  revert l Hle. induction n as [|n IH]; intros [|b0 l1] Hle cs; simpl in *; try lia.
  1, 2: by intros [= <-].
  assert (Hs : forall (l' : bytes) c, (length l' <= n)%nat -> (len l' <= len l1)%Z ->
    cons c <$> chars l' = Some cs -> (len cs <= len (b0 :: l1))%Z).
  { intros l' c ?? Hc. destruct (chars l') as [cs'|] eqn:E; [|done].
    simplify_eq/=. apply IH in E; [|done]. rewrite !len_cons. lia. }
  repeat case_match; try done; subst; simpl in *;
    apply Hs; rewrite ?len_cons; simpl; lia.
Qed.

Lemma chars_count_range l : 0 <= chars_count l <= len l.
Proof.
  unfold chars_count. destruct (chars l) as [cs|] eqn:E; simpl.
  - pose proof (chars_length _ _ E). pose proof (len_nonneg cs). lia.
  - pose proof (len_nonneg l). lia.
Qed.
