(* ===== verification/Lexis.v ===== *)
(** * The vocabulary crate [lexis]

    [error.rs], [types.rs], [identifier.rs], [value.rs], [schema.rs] and
    [ast.rs] of [crates/lexis/src], a Module each. Identifiers and messages
    are [string]s; the text of a [TEXT] value is its UTF-8 bytes; an [f64] is
    its 64-bit pattern. *)

From stdpp Require Import pretty.
From S2P Require Import Prelude Errors Codec Utf8.

(** ** types.rs: the six types *)
Inductive SqlType :=
  | Integer
  | Real
  | Text
  | Blob
  | Boolean
  | Datetime.

#[export] Instance SqlType_eq_dec : EqDecision SqlType.
Proof. solve_decision. Defined.

(** [f64] by its bits. *)
Definition f64 := Z.
Definition f64_wf (b : f64) : Prop := 0 <= b < 2 ^ 64.
(** [f64::is_nan]: all exponent bits set and a non-zero mantissa. *)
Definition is_nan (b : f64) : bool := 0x7FF0000000000000 <? b mod 2 ^ 63.
(** IEEE equality: NaN is unequal to everything, the two zeros are equal. *)
Definition f64_eq (a b : f64) : bool :=
  negb (is_nan a) && negb (is_nan b) &&
  ((a =? b) || ((a mod 2 ^ 63 =? 0) && (b mod 2 ^ 63 =? 0))).

(** ** error.rs *)
Inductive LexisError :=
  | EmptyIdentifier (kind : string)
  | NanReal (value : f64)
  | TextMaxLenZero
  | TextMaxLenOnNonText (sql_type : SqlType)
  | IncomparableTypes (left right : SqlType)
  | EmptyColumnList (table : string)
  | DuplicateColumn (table column : string)
  | NullNotAllowed (column : string)
  | TypeMismatch (column : string) (expected actual : SqlType)
  | TextTooLong (column : string) (max_len actual_len : Z).

Module Types.

(** [SqlType::check_comparable] *)
Definition check_comparable (self other : SqlType) : outcome LexisError unit :=
  let compatible :=
    bool_decide (self = other) ||
    match self, other with
    | Integer, Real | Real, Integer => true
    | _, _ => false
    end in
  ensure compatible (IncomparableTypes self other).

(** [impl fmt::Display for SqlType] *)
Definition fmt (self : SqlType) : string :=
  match self with
  | Integer => "INTEGER"
  | Real => "REAL"
  | Text => "TEXT"
  | Blob => "BLOB"
  | Boolean => "BOOLEAN"
  | Datetime => "DATETIME"
  end.

(** [impl Display for LexisError] *)
Definition display_lexis `{StdFormat} (e : LexisError) : string :=
  match e with
  | EmptyIdentifier kind => kind +:+ " name must not be empty"
  | NanReal value => "REAL value must be finite and non-NaN, got " +:+ fmt_f64 value
  | TextMaxLenZero => "TEXT max length must be greater than zero"
  | TextMaxLenOnNonText sql_type => "max length is only valid for TEXT columns, got " +:+ fmt sql_type
  | IncomparableTypes l r =>
    "cannot compare " +:+ fmt l +:+ " with " +:+ fmt r +:+ ": explicit CAST required"
  | EmptyColumnList table => "table `" +:+ table +:+ "` must declare at least one column"
  | DuplicateColumn table column =>
    "table `" +:+ table +:+ "` declares column `" +:+ column +:+ "` more than once"
  | NullNotAllowed column => "column `" +:+ column +:+ "` is NOT NULL"
  | TypeMismatch column expected actual =>
    "column `" +:+ column +:+ "` expects " +:+ fmt expected +:+ ", got " +:+ fmt actual
  | TextTooLong column max_len actual_len =>
    "column `" +:+ column +:+ "` exceeds max length " +:+ pretty max_len +:+ " (got " +:+
    pretty actual_len +:+ " characters)"
  end.

End Types.

(** ** identifier.rs *)
Module Identifier.

Record ColumnName := mkColumnName { column_str : string }.
Record TableName := mkTableName { table_str : string }.

#[export] Instance ColumnName_eq_dec : EqDecision ColumnName.
Proof. solve_decision. Defined.
#[export] Instance TableName_eq_dec : EqDecision TableName.
Proof. solve_decision. Defined.

Definition is_empty (s : string) : bool := bool_decide (s = EmptyString).

(** [TryFrom<&str> for ColumnName] *)
Definition column_try_from (value : string) : outcome LexisError ColumnName :=
  ensure (negb (is_empty value)) (EmptyIdentifier "column") ;;
  Ret (mkColumnName value).

(** [ColumnName::as_str], its [Display] and its [AsRef<str>] *)
Definition column_as_str (self : ColumnName) : string := column_str self.
Definition column_fmt (self : ColumnName) : string := column_str self.
Definition column_as_ref (self : ColumnName) : string := column_str self.

(** [TryFrom<&str> for TableName] *)
Definition table_try_from (value : string) : outcome LexisError TableName :=
  ensure (negb (is_empty value)) (EmptyIdentifier "table") ;;
  Ret (mkTableName value).

(** [TableName::as_str], its [Display] and its [AsRef<str>] *)
Definition table_as_str (self : TableName) : string := table_str self.
Definition table_fmt (self : TableName) : string := table_str self.
Definition table_as_ref (self : TableName) : string := table_str self.

End Identifier.
Export Identifier.

(** ** value.rs *)
Record RealValue := mkRealValue { real_get : f64 }.
Record DateTimeValue := mkDateTimeValue { datetime_get : Z }.

Inductive Value :=
  | VNull
  | VInteger (v : Z)
  | VReal (v : RealValue)
  | VText (s : bytes)
  | VBlob (b : bytes)
  | VBoolean (v : bool)
  | VDatetime (v : DateTimeValue).

Module Values.

(** [TryFrom<f64> for RealValue] *)
Definition real_try_from (value : f64) : outcome LexisError RealValue :=
  ensure (negb (is_nan value)) (NanReal value) ;;
  Ret (mkRealValue value).

(** [RealValue::get] and its [Display], that of the [f64] *)
Definition real_value_get (self : RealValue) : f64 := real_get self.
Definition real_value_fmt `{StdFormat} (self : RealValue) : string := fmt_f64 (real_get self).

(** [DateTimeValue::get] and its [Display], that of the [i64] *)
Definition datetime_value_get (self : DateTimeValue) : Z := datetime_get self.
Definition datetime_value_fmt (self : DateTimeValue) : string := pretty (datetime_get self).

(** [From<i64> for DateTimeValue] and back *)
Definition datetime_from (value : Z) : DateTimeValue := mkDateTimeValue value.
Definition i64_from (value : DateTimeValue) : Z := datetime_get value.

(** [Value::sql_type] *)
Definition sql_type (self : Value) : option SqlType :=
  match self with
  | VNull => None
  | VInteger _ => Some Integer
  | VReal _ => Some Real
  | VText _ => Some Text
  | VBlob _ => Some Blob
  | VBoolean _ => Some Boolean
  | VDatetime _ => Some Datetime
  end.

(** [Value::is_null] *)
Definition is_null (self : Value) : bool :=
  match self with VNull => true | _ => false end.

(** [TryFrom<f64> for Value] *)
Definition value_try_from (value : f64) : outcome LexisError Value :=
  r ← real_try_from value; Ret (VReal r).

(** The [From] conversions into [Value] *)
Definition value_from_i64 (value : Z) : Value := VInteger value.
Definition value_from_bool (value : bool) : Value := VBoolean value.
Definition value_from_string (value : bytes) : Value := VText value.
Definition value_from_vec (value : bytes) : Value := VBlob value.
Definition value_from_datetime (value : DateTimeValue) : Value := VDatetime value.

(** The derived [PartialEq] of [Value]; that of [f64] is IEEE equality. *)
Definition eq (self other : Value) : bool :=
  match self, other with
  | VNull, VNull => true
  | VInteger a, VInteger b => a =? b
  | VReal a, VReal b => f64_eq (real_get a) (real_get b)
  | VText a, VText b | VBlob a, VBlob b => bool_decide (a = b)
  | VBoolean a, VBoolean b => Bool.eqb a b
  | VDatetime a, VDatetime b => datetime_get a =? datetime_get b
  | _, _ => false
  end.

(** What Rust's types and the validating constructors guarantee of a value. *)
Definition wf (v : Value) : Prop :=
  match v with
  | VNull | VBoolean _ | VBlob _ => True
  | VInteger z => in_i64 z
  | VDatetime d => in_i64 (datetime_get d)
  | VReal r => f64_wf (real_get r) /\ is_nan (real_get r) = false
  | VText s => utf8_valid s = true
  end.

#[global] Instance wf_dec v : Decision (wf v).
Proof. destruct v; unfold wf, in_i64, f64_wf; apply _. Defined.

End Values.

(** ** schema.rs *)
Module Schema.

Inductive Nullability :=
  | Nullable
  | NotNull.

#[export] Instance Nullability_eq_dec : EqDecision Nullability.
Proof. solve_decision. Defined.

Record TextMaxLen := mkTextMaxLen { max_len_get : Z }.

#[export] Instance TextMaxLen_eq_dec : EqDecision TextMaxLen.
Proof. solve_decision. Defined.

(** [TextMaxLen::get] *)
Definition text_max_len_get (self : TextMaxLen) : Z := max_len_get self.

(** [TryFrom<u32> for TextMaxLen] *)
Definition text_max_len_try_from (value : Z) : outcome LexisError TextMaxLen :=
  context (if value =? 0 then None else Some (mkTextMaxLen value)) TextMaxLenZero.

Record ColumnDef := mkColumnDef {
  col_name : ColumnName;
  col_type : SqlType;
  col_nullability : Nullability;
  col_text_max_len : option TextMaxLen;
}.

(** [ColumnDef::new] *)
Definition column_new (name : ColumnName) (sql_type : SqlType) (nullability : Nullability)
    (text_max_len : option TextMaxLen) : outcome LexisError ColumnDef :=
  ensure (bool_decide (text_max_len = None) || bool_decide (sql_type = Text))
    (TextMaxLenOnNonText sql_type) ;;
  Ret (mkColumnDef name sql_type nullability text_max_len).

(** The accessors of [ColumnDef] *)
Definition name (self : ColumnDef) : ColumnName := col_name self.
Definition sql_type (self : ColumnDef) : SqlType := col_type self.
Definition nullability (self : ColumnDef) : Nullability := col_nullability self.
Definition text_max_len (self : ColumnDef) : option TextMaxLen := col_text_max_len self.

(** [ColumnDef::check_value] *)
Definition check_value (self : ColumnDef) (value : Value) : outcome LexisError unit :=
  let name := column_str (col_name self) in
  let actual_type :=
    match value with
    | VNull => None
    | VInteger _ => Some Integer
    | VReal _ => Some Real
    | VText _ => Some Text
    | VBlob _ => Some Blob
    | VBoolean _ => Some Boolean
    | VDatetime _ => Some Datetime
    end in
  match actual_type with
  | None => (* [Value::Null], which returns early *)
    ensure (bool_decide (col_nullability self = Nullable)) (NullNotAllowed name) ;;
    Ret tt
  | Some actual_type =>
    ensure (bool_decide (actual_type = col_type self))
      (TypeMismatch name (col_type self) actual_type) ;;
    match value, col_text_max_len self with
    | VText text, Some max_len =>
      let len_ := chars_count text in
      let within_bound :=
        match try_u32 len_ with Some actual => actual <=? max_len_get max_len | None => false end in
      ensure within_bound (TextTooLong name (max_len_get max_len) len_) ;;
      Ret tt
    | _, _ => Ret tt
    end
  end.

Record TableDef := mkTableDef {
  tab_name : TableName;
  tab_columns : list ColumnDef;
}.

(** The loop of [TableDef::new] over a [HashSet] of the names seen. *)
Fixpoint check_distinct (table : string) (seen : gset string) (columns : list ColumnDef)
    : outcome LexisError unit :=
  match columns with
  | [] => Ret tt
  | column :: columns =>
    let c := column_str (col_name column) in
    ensure (negb (bool_decide (c ∈ seen))) (DuplicateColumn table c) ;;
    check_distinct table ({[c]} ∪ seen) columns
  end.

(** [TableDef::new] *)
Definition table_new (name : TableName) (columns : list ColumnDef) : outcome LexisError TableDef :=
  ensure (negb (bool_decide (columns = []))) (EmptyColumnList (table_str name)) ;;
  check_distinct (table_str name) ∅ columns ;;
  Ret (mkTableDef name columns).

(** [TableDef::name] and [TableDef::columns] *)
Definition table_name (self : TableDef) : TableName := tab_name self.
Definition columns (self : TableDef) : list ColumnDef := tab_columns self.

(** [TableDef::column] *)
Definition column (self : TableDef) (name : string) : option ColumnDef :=
  List.find (fun c => bool_decide (column_str (col_name c) = name)) (tab_columns self).

End Schema.

(** ** ast.rs: query expressions (data only) *)
Module Ast.

Inductive UnaryOperator := Not | Neg.

Inductive BinaryOperator :=
  | Eq | Ne | Lt | Le | Gt | Ge | And | Or | Add | Sub | Mul | Div | Mod.

Inductive Expr :=
  | Literal (v : Value)
  | Column (c : ColumnName)
  | UnaryOp (op : UnaryOperator) (operand : Expr)
  | BinaryOp (op : BinaryOperator) (left right : Expr)
  | Cast (operand : Expr) (target : SqlType)
  | IsNull (operand : Expr)
  | IsNotNull (operand : Expr).

#[export] Instance UnaryOperator_eq_dec : EqDecision UnaryOperator.
Proof. solve_decision. Defined.
#[export] Instance BinaryOperator_eq_dec : EqDecision BinaryOperator.
Proof. solve_decision. Defined.

(** The derived [PartialEq] of [Expr] *)
Fixpoint expr_eq (self other : Expr) : bool :=
  match self, other with
  | Literal v, Literal w => Values.eq v w
  | Column c, Column d => bool_decide (c = d)
  | UnaryOp op a, UnaryOp op' a' => bool_decide (op = op') && expr_eq a a'
  | BinaryOp op a b, BinaryOp op' a' b' => bool_decide (op = op') && expr_eq a a' && expr_eq b b'
  | Cast a t, Cast a' t' => expr_eq a a' && bool_decide (t = t')
  | IsNull a, IsNull a' | IsNotNull a, IsNotNull a' => expr_eq a a'
  | _, _ => false
  end.

End Ast.

(** ** Properties *)

(** Two types may be compared without a cast exactly when they are equal or
    are [INTEGER] and [REAL]; the check is symmetric, and its error names the two
    types in the order given. *)
Theorem check_comparable_exact a b :
  (Types.check_comparable a b = Ret tt <->
     a = b \/ (a = Integer /\ b = Real) \/ (a = Real /\ b = Integer)) /\
  (is_ret (Types.check_comparable a b) = is_ret (Types.check_comparable b a)) /\
  (Types.check_comparable a b = Ret tt \/ Types.check_comparable a b = Throw (IncomparableTypes a b)).
Proof.
  unfold Types.check_comparable, ensure. destruct a, b; simpl; split_and!; try tauto; naive_solver.
Qed.

(** What a value must be to be accepted by a column. *)
Definition accepts (c : Schema.ColumnDef) (v : Value) : Prop :=
  match Values.sql_type v with
  | None => Schema.col_nullability c = Schema.Nullable
  | Some t => t = Schema.col_type c /\
    forall s m, v = VText s -> Schema.col_text_max_len c = Some m ->
      chars_count s <= Schema.max_len_get m /\ chars_count s <= u32_max
  end.

(** C35: [check_value] accepts exactly the values of the declared type whose text
    is no longer, in characters, than the bound, and [NULL] in a nullable column;
    what it reports otherwise is the first failing condition. *)
Theorem check_value_exact c v :
  (Schema.check_value c v = Ret tt <-> accepts c v) /\
  (Schema.check_value c v <> Ret tt ->
   let n := column_str (Schema.col_name c) in
   Schema.check_value c v =
     match Values.sql_type v with
     | None => Throw (NullNotAllowed n)
     | Some t =>
       if decide (t = Schema.col_type c) then
         match v, Schema.col_text_max_len c with
         | VText s, Some m => Throw (TextTooLong n (Schema.max_len_get m) (chars_count s))
         | _, _ => Ret tt
         end
       else Throw (TypeMismatch n (Schema.col_type c) t)
     end).
Proof.
  destruct c as [name ty nul ml]. unfold Schema.check_value, accepts, ensure.
  destruct v; simpl; repeat case_bool_decide; simpl; repeat case_decide; subst; try done;
    try (split; [split; [intros; split; intros; simplify_eq; done|done]|done]);
    try (split; [naive_solver|done]).
  destruct ml as [m|]; simpl; [|split; [split; [intros; split; intros; simplify_eq; done|done]|done]].
  unfold try_u32. pose proof (chars_count_range s).
  destruct ((0 <=? chars_count s) && (chars_count s <=? u32_max)) eqn:E; simpl.
  - destruct (chars_count s <=? Schema.max_len_get m) eqn:E'; simpl.
    + split; [|done]. split; [|done]. intros _. split; [done|]. intros; simplify_eq. lia.
    + split; [|done]. split; [done|]. intros [_ Ha]. specialize (Ha s m eq_refl eq_refl). lia.
  - split; [|done]. split; [done|]. intros [_ Ha]. specialize (Ha s m eq_refl eq_refl). lia.
Qed.

Lemma check_value_exact_witness :
  Schema.check_value (Schema.mkColumnDef (mkColumnName "c") Text Schema.NotNull
    (Some (Schema.mkTextMaxLen 1))) (VText (Z_byte <$> [0x68; 0x69])) = Throw (TextTooLong "c" 1 2).
Proof.
  refine (proj2 (check_value_exact (Schema.mkColumnDef (mkColumnName "c") Text Schema.NotNull
    (Some (Schema.mkTextMaxLen 1))) (VText (Z_byte <$> [0x68; 0x69]))) _).
  vm_compute. discriminate.
Defined.

Section tables.
Import Schema.
Abbreviation names columns := ((fun c => column_str (col_name c)) <$> columns).

Lemma check_distinct_ret t seen columns :
  check_distinct t seen columns = Ret tt <->
  NoDup (names columns) /\ forall c, c ∈ names columns -> c ∉ seen.
Proof.
  revert seen. induction columns as [|c columns IH]; intros seen; cbn [check_distinct].
  { split; [|done]. intros _. split; [constructor|]. set_solver. }
  unfold ensure. case_bool_decide as Hin; cbn [negb mbind outcome_bind].
  - split; [done|]. intros [_ Hs]. destruct (Hs (column_str (col_name c))); [set_solver|done].
  - rewrite IH, fmap_cons, NoDup_cons. set_solver.
Qed.

Lemma check_distinct_cases t seen columns :
  check_distinct t seen columns = Ret tt \/
  exists c, c ∈ names columns /\ check_distinct t seen columns = Throw (DuplicateColumn t c).
Proof.
  revert seen. induction columns as [|c columns IH]; intros seen; [by left|]. simpl.
  unfold ensure. case_bool_decide; simpl.
  - right. eexists. split; [|done]. set_solver.
  - destruct (IH ({[column_str (col_name c)]} ∪ seen)) as [?|(c' & ? & ?)]; [by left|right].
    exists c'. split; [set_solver|done].
Qed.

Lemma find_spec c columns :
  NoDup (names columns) -> c ∈ columns ->
  List.find (fun c' => bool_decide (column_str (col_name c') = column_str (col_name c))) columns = Some c.
Proof.
  induction columns as [|d columns IH]; intros Hnd Hc; [by apply elem_of_nil in Hc|].
  rewrite fmap_cons, NoDup_cons in Hnd. destruct Hnd as [Hd Hnd]. simpl.
  apply elem_of_cons in Hc as [->|Hc]; [by rewrite bool_decide_eq_true_2|].
  rewrite bool_decide_eq_false_2; [by apply IH|]. intros He. apply Hd. rewrite He.
  by apply (list_elem_of_fmap_2 (fun c => column_str (col_name c))).
Qed.

(** C36: A table is constructed exactly from a non-empty list of columns with
    distinct names; it is refused with [EmptyColumnList] or with the
    [DuplicateColumn] of one of its names; and in a table that is constructed,
    looking up a column by name finds that column. *)
Theorem table_new_exact name columns :
  ((exists t, table_new name columns = Ret t) <-> columns <> [] /\ NoDup (names columns)) /\
  (columns = [] -> table_new name columns = Throw (EmptyColumnList (table_str name))) /\
  (columns <> [] -> ~ NoDup (names columns) -> exists c, c ∈ names columns /\
     table_new name columns = Throw (DuplicateColumn (table_str name) c)) /\
  (forall t c, table_new name columns = Ret t -> c ∈ columns ->
     column t (column_str (col_name c)) = Some c).
Proof.
  unfold table_new, ensure. case_bool_decide as He; simpl.
  { subst. split_and!; [split; [by intros []|naive_solver]|done|done|done]. }
  pose proof (check_distinct_ret (table_str name) ∅ columns) as Hr.
  destruct (check_distinct_cases (table_str name) ∅ columns) as [Hc|(c & Hin & Hc)];
    rewrite Hc in *; simpl.
  - assert (Hnd : NoDup (names columns)) by (by apply Hr). split_and!; try done; [naive_solver|].
    intros t c [= <-] Hc'. unfold column. simpl. by apply find_spec.
  - split_and!; try done; [|naive_solver]. split; [by intros []|]. intros [_ Hnd].
    exfalso. assert (Hx : @Throw LexisError unit (DuplicateColumn (table_str name) c) = Ret tt); [|done].
    apply Hr. split; [done|]. set_solver.
Qed.

Lemma table_new_exact_witness :
  let c := mkColumnDef (mkColumnName "id") Integer NotNull None in
  column (mkTableDef (mkTableName "t") [c]) "id" = Some c.
Proof.
  intros c.
  refine (proj2 (proj2 (proj2 (table_new_exact (mkTableName "t") [c]))) _ c _ _);
    [reflexivity|by apply list_elem_of_singleton].
Defined.
End tables.

(** [RealValue] and [Value] are built from an [f64] exactly when it is not a
    NaN, infinities included, so the equality of well-formed values is reflexive:
    [impl Eq for Value] is lawful. *)
Theorem real_values_comparable :
  (forall b, (exists v, Values.value_try_from b = Ret v) <-> is_nan b = false) /\
  (forall b, is_nan b = true -> Values.value_try_from b = Throw (NanReal b)) /\
  (forall v, Values.wf v -> Values.eq v v = true) /\
  (forall v w, Values.eq v w = Values.eq w v).
Proof.
  split_and!.
  - intros b. unfold Values.value_try_from, Values.real_try_from, ensure.
    destruct (is_nan b); simpl; split; [by intros []|done|done|eauto].
  - intros b Hb. unfold Values.value_try_from, Values.real_try_from, ensure. by rewrite Hb.
  - intros [|z|[b]|s|s|x|[d]]; simpl; intros Hv; try done.
    + lia.
    + unfold f64_eq. destruct Hv as [_ ->]. simpl. by rewrite Z.eqb_refl.
    + by rewrite bool_decide_eq_true.
    + by rewrite bool_decide_eq_true.
    + apply eqb_reflx.
    + lia.
  - intros [|z|[b]|s|s|x|[d]] [|z'|[b']|s'|s'|x'|[d']]; simpl; try done; try (apply Z.eqb_sym).
    + unfold f64_eq. rewrite (Z.eqb_sym b b'), (andb_comm (negb (is_nan b))).
      f_equal. f_equal. apply andb_comm.
    + by apply bool_decide_ext.
    + by apply bool_decide_ext.
    + by destruct x, x'.
Qed.
