(* ===== verification/Row.v ===== *)
(** * Row encoding ([crates/pinax/src/row.rs])

    A row is a list of values; [encode] and [decode] map it to and from the
    payload of a leaf cell. *)

From S2P Require Import Prelude Errors Codec Utf8 Lexis.

Definition TAG_NULL := 0.
Definition TAG_INTEGER := 1.
Definition TAG_REAL := 2.
Definition TAG_TEXT := 3.
Definition TAG_BLOB := 4.
Definition TAG_BOOLEAN := 5.
Definition TAG_DATETIME := 6.

(** [Row(Vec<Value>)] *)
Abbreviation Row := (list Value).

(** [Row::new] and [Row::values] *)
Definition row_new (values : list Value) : Row := values.
Definition row_values (self : Row) : list Value := self.

(** The derived [PartialEq] of [Row] *)
Fixpoint row_eq (self other : Row) : bool :=
  match self, other with
  | [], [] => true
  | v :: self, w :: other => Values.eq v w && row_eq self other
  | _, _ => false
  end.

Definition too_large_as_u32 (len_ key : Z) : result Z :=
  context (try_u32 len_) (Permanent (PayloadTooLarge key len_)).

Definition invalid_encoding (reason : string) : PinaxError :=
  Fatal (InvalidRowEncoding reason).

(** [push_len_prefixed]: the bytes it appends to [buf] *)
Definition push_len_prefixed (b : bytes) (key : Z) : result bytes :=
  len_ ← too_large_as_u32 (len b) key;
  Ret (be_bytes 4 len_ ++ b).

(** [encode_value]: the bytes it appends to [buf]. The wildcard arm of the
    source is unreachable: every constructor of [Value] is matched. *)
Definition encode_value (value : Value) (key : Z) : result bytes :=
  match value with
  | VNull => Ret [Z_byte TAG_NULL]
  | VInteger v => Ret (Z_byte TAG_INTEGER :: be_bytes 8 v)
  | VReal v => Ret (Z_byte TAG_REAL :: be_bytes 8 (real_get v))
  | VText s => b ← push_len_prefixed s key; Ret (Z_byte TAG_TEXT :: b)
  | VBlob b => b ← push_len_prefixed b key; Ret (Z_byte TAG_BLOB :: b)
  | VBoolean v => Ret [Z_byte TAG_BOOLEAN; Z_byte (Z.b2z v)]
  | VDatetime v => Ret (Z_byte TAG_DATETIME :: be_bytes 8 (datetime_get v))
  end.

(** [Row::encode] *)
Definition encode (self : Row) (key : Z) : result bytes :=
  count ← too_large_as_u32 (len self) key;
  foldM (fun buf value => b ← encode_value value key; Ret (buf ++ b)) (be_bytes 4 count) self.

(** [read_len_prefixed] *)
Definition read_len_prefixed (buf : bytes) (at_ : Z) : result (bytes * Z) :=
  len_ ← read_u32 buf at_;
  let len_usize := default usize_max (try_usize len_) in
  let start := at_ + 4 in
  b ← read_vec buf start len_usize;
  Ret (b, start + len_usize).

(** [decode_value] *)
Definition decode_value (buf : bytes) (at_ : Z) : result (Value * Z) :=
  tag ← read_u8 buf at_;
  let at_ := at_ + 1 in
  if tag =? TAG_NULL then Ret (VNull, at_)
  else if tag =? TAG_INTEGER then
    v ← read_i64 buf at_; Ret (VInteger v, at_ + 8)
  else if tag =? TAG_REAL then
    bits ← read_u64 buf at_;
    real ← map_err (fun _ => invalid_encoding "REAL payload decoded to NaN")
             (Values.real_try_from bits);
    Ret (VReal real, at_ + 8)
  else if tag =? TAG_TEXT then
    '(b, next) ← read_len_prefixed buf at_;
    if utf8_valid b then Ret (VText b, next)
    else Throw (invalid_encoding "TEXT payload was not valid UTF-8")
  else if tag =? TAG_BLOB then
    '(b, next) ← read_len_prefixed buf at_; Ret (VBlob b, next)
  else if tag =? TAG_BOOLEAN then
    raw ← read_u8 buf at_; Ret (VBoolean (negb (raw =? 0)), at_ + 1)
  else if tag =? TAG_DATETIME then
    v ← read_i64 buf at_; Ret (VDatetime (Values.datetime_from v), at_ + 8)
  else Throw (invalid_encoding "unrecognized value type tag").

(** The loop [for _ in 0..count] of [Row::decode] *)
Fixpoint decode_values (count : nat) (buf : bytes) (at_ : Z) : result Row :=
  match count with
  | O => Ret []
  | S count =>
    '(value, next) ← decode_value buf at_;
    values ← decode_values count buf next;
    Ret (value :: values)
  end.

(** [Row::decode] *)
Definition decode (buf : bytes) : result Row :=
  count ← read_u32 buf 0;
  decode_values (Z.to_nat count) buf 4.

(** What Rust's types guarantee of a row: well-formed values, in memory. *)
Definition row_wf (r : Row) : Prop := Forall Values.wf r.

(** ** Encoding, decoded *)

Lemma push_len_prefixed_ret b key out :
  push_len_prefixed b key = Ret out <-> len b <= u32_max /\ out = be_bytes 4 (len b) ++ b.
Proof.
  unfold push_len_prefixed, too_large_as_u32, try_u32. pose proof (len_nonneg b).
  case_match eqn:E; simpl; split.
  - intros [= <-]. split; [lia|done].
  - by intros [_ ->].
  - done.
  - lia.
Qed.

Lemma read_len_prefixed_at buf o b :
  len b <= u32_max -> at_offset buf o (be_bytes 4 (len b) ++ b) ->
  read_len_prefixed buf o = Ret (b, o + 4 + len b).
Proof.
  intros Hb [Hl Hv]%at_offset_app. pose proof (len_nonneg b).
  unfold read_len_prefixed. rewrite (read_u32_at _ _ (len b)) by first [done | len_solve]. simpl.
  rewrite try_usize_Some by len_solve. simpl.
  rewrite len_be4 in Hv. by rewrite (read_vec_at _ _ b).
Qed.

Lemma at_offset_cons buf o t x :
  at_offset buf o (t :: x) -> at_offset buf o [t] /\ at_offset buf (o + 1) x.
Proof. change (t :: x) with ([t] ++ x). by intros ?%at_offset_app. Qed.

Lemma read_tag buf o t x :
  at_offset buf o (Z_byte t :: x) -> 0 <= t <= u8_max ->
  read_u8 buf o = Ret t /\ at_offset buf (o + 1) x.
Proof. intros [Ht ?]%at_offset_cons ?. split; [by apply read_u8_at|done]. Qed.

(** One value: decoding at the offset of an encoded value gives it back and
    moves past it. *)
Lemma decode_encode_value buf o v key b :
  Values.wf v -> encode_value v key = Ret b -> at_offset buf o b ->
  decode_value buf o = Ret (v, o + len b).
Proof.
  intros Hwf He Hat. unfold decode_value.
  destruct v as [|v|[v]|s|s|v|[v]]; simpl in He, Hwf;
    try (injection He as <-);
    try (apply outcome_bind_ret in He as (b' & [? ->]%push_len_prefixed_ret & [= <-]));
    destruct (read_tag _ _ _ _ Hat) as [-> Hx]; try done; simpl.
  - rewrite (read_i64_at _ _ v) by done. simpl. do 2 f_equal. len_solve.
  - destruct Hwf as [Hr Hn]. unfold f64_wf in Hr.
    rewrite (read_u64_at _ _ v) by first [done | len_solve]. simpl.
    unfold Values.real_try_from. rewrite Hn. simpl. do 2 f_equal. len_solve.
  - rewrite (read_len_prefixed_at _ _ s) by done. simpl. rewrite Hwf. do 2 f_equal. len_solve.
  - rewrite (read_len_prefixed_at _ _ s) by done. simpl. do 2 f_equal. len_solve.
  - rewrite (read_u8_at _ _ (Z.b2z v)) by (done || by destruct v). simpl.
    do 2 f_equal; [by destruct v|]. len_solve.
  - rewrite (read_i64_at _ _ v) by done. simpl. do 2 f_equal. len_solve.
Qed.

(** The loop of [encode] appends the encodings in order. *)
Lemma encode_loop_ret r key acc out :
  foldM (fun buf value => b ← encode_value value key; Ret (buf ++ b)) acc r = Ret out <->
  exists bs, Forall2 (fun v b => encode_value v key = Ret b) r bs /\ out = acc ++ concat bs.
Proof.
  revert acc. induction r as [|v r IH]; intros acc; cbn [foldM].
  - split.
    + intros [= <-]. exists []. by rewrite app_nil_r.
    + intros (bs & Hbs & ->). inversion Hbs. by rewrite app_nil_r.
  - rewrite outcome_bind_ret. setoid_rewrite outcome_bind_ret. split.
    + intros (? & (b & Hb & [= <-]) & (bs & Hbs & ->)%IH).
      exists (b :: bs). split; [by constructor|]. by rewrite <-app_assoc.
    + intros (bs & Hbs & ->). inversion Hbs as [|? b ? bs' Hb Hbs']; subst.
      exists (acc ++ b). split; [eauto|]. apply IH. exists bs'. by rewrite <-app_assoc.
Qed.

Lemma encode_ret r key out :
  encode r key = Ret out <->
  len r <= u32_max /\ exists bs, Forall2 (fun v b => encode_value v key = Ret b) r bs /\
    out = be_bytes 4 (len r) ++ concat bs.
Proof.
  unfold encode, too_large_as_u32, try_u32. pose proof (len_nonneg r).
  case_match eqn:E; cbn [context].
  - rewrite (outcome_bind_Ret _ _ _ eq_refl), encode_loop_ret. split; [|naive_solver].
    intros (bs & ? & ->). split; [lia|eauto].
  - split; [done|lia].
Qed.

Lemma decode_values_at buf key r bs o :
  row_wf r -> Forall2 (fun v b => encode_value v key = Ret b) r bs ->
  at_offset buf o (concat bs) -> decode_values (length r) buf o = Ret r.
Proof.
  intros Hwf Hbs. revert o. induction Hbs as [|v b r bs Hb Hbs IH]; intros o Hat; [done|].
  inversion Hwf; subst. simpl in *. apply at_offset_app in Hat as [Hv Hr].
  erewrite decode_encode_value by done. simpl. by rewrite IH.
Qed.

(** Decoding what [encode] wrote, whatever follows it in the buffer. *)
Lemma decode_encode_app r key b tail :
  row_wf r -> encode r key = Ret b -> decode (b ++ tail) = Ret r.
Proof.
  intros Hwf (Hlen & bs & Hbs & ->)%encode_ret. pose proof (len_nonneg r).
  assert (Hat : at_offset ((be_bytes 4 (len r) ++ concat bs) ++ tail) 0
                  (be_bytes 4 (len r) ++ concat bs)).
  { unfold at_offset. rewrite slice_app_l by lia. apply slice_full. }
  apply at_offset_app in Hat as [Hc Hr]. unfold decode.
  rewrite (read_u32_at _ _ (len r)) by first [done | len_solve]. simpl.
  rewrite len_be4 in Hr. unfold len at 1. rewrite Nat2Z.id.
  by eapply decode_values_at.
Qed.

(** The bytes [encode] produces for a value and a row, in closed form. *)
Definition value_size (v : Value) : Z :=
  match v with
  | VNull => 1
  | VBoolean _ => 2
  | VInteger _ | VReal _ | VDatetime _ => 9
  | VText s | VBlob s => 5 + len s
  end.

Fixpoint values_size (r : Row) : Z :=
  match r with [] => 0 | v :: r => value_size v + values_size r end.

Definition row_size (r : Row) : Z := 4 + values_size r.

(** The length prefixes fit their four bytes. *)
Definition value_fits (v : Value) : Prop :=
  match v with VText s | VBlob s => len s <= u32_max | _ => True end.
Definition row_fits (r : Row) : Prop := len r <= u32_max /\ Forall value_fits r.

#[export] Instance value_fits_dec v : Decision (value_fits v).
Proof. destruct v; apply _. Defined.
#[export] Instance row_wf_dec r : Decision (row_wf r).
Proof. unfold row_wf; apply _. Defined.
#[export] Instance row_fits_dec r : Decision (row_fits r).
Proof. unfold row_fits; apply _. Defined.

Lemma encode_value_fits v key :
  value_fits v -> exists b, encode_value v key = Ret b /\ len b = value_size v.
Proof.
  intros Hf. destruct v; cbn [encode_value value_size value_fits] in *.
  4, 5: rewrite (proj2 (push_len_prefixed_ret _ key _) (conj Hf eq_refl)).
  all: eexists; split; [reflexivity|]; len_solve.
Qed.

Lemma encode_value_size v key b : encode_value v key = Ret b -> value_fits v /\ len b = value_size v.
Proof.
  intros He. assert (value_fits v).
  { destruct v; simpl in *; try done;
      apply outcome_bind_ret in He as (? & [? _]%push_len_prefixed_ret & _); done. }
  destruct (encode_value_fits v key) as (b' & ? & ?); [done|].
  split; [done|]. congruence.
Qed.

Lemma encode_fits r key : row_fits r -> exists b, encode r key = Ret b.
Proof.
  intros [Hlen Hf]. assert (exists bs, Forall2 (fun v b => encode_value v key = Ret b) r bs)
    as [bs Hbs].
  { clear Hlen. induction Hf as [|v r Hv Hr [bs IH]]; [by exists []|].
    destruct (encode_value_fits v key Hv) as (b & Hb & _). exists (b :: bs). by constructor. }
  eexists. apply encode_ret. eauto.
Qed.

Lemma encode_size r key b : encode r key = Ret b -> row_fits r /\ len b = row_size r.
Proof.
  intros (Hlen & bs & Hbs & ->)%encode_ret. unfold row_fits, row_size.
  enough (Forall value_fits r /\ len (concat bs) = values_size r)
    as [? ?] by (split; [done|len_solve]).
  clear Hlen. induction Hbs as [|v b r bs Hv Hbs [IH1 IH2]]; [done|].
  apply encode_value_size in Hv as [? Hb]. split; [by constructor|].
  simpl. rewrite len_app, IH2. lia.
Qed.

(** ** Decoding, inverted *)

Lemma read_bytes_no_crash n buf o : (exists x, read_bytes n buf o = Ret x) \/
  read_bytes n buf o = Throw (Fatal (BufferBounds o n (len buf))).
Proof. unfold read_bytes. destruct (slice buf o n); simpl; eauto. Qed.

(** [Ret] of something that satisfies [P], or an error: never a panic. *)
Definition returns_or_throws {A} (P : A -> Prop) (m : result A) : Prop :=
  match m with Ret a => P a | Throw (Fatal _) => True | _ => False end.

Lemma returns_or_throws_bind {A B} (P : A -> Prop) (Q : B -> Prop) (m : result A) f :
  returns_or_throws P m -> (forall a, P a -> returns_or_throws Q (f a)) ->
  returns_or_throws Q (m ≫= f).
Proof. destruct m; simpl; eauto. Qed.

Lemma read_bytes_fatal n buf o :
  returns_or_throws (fun x => len x = n) (read_bytes n buf o).
Proof.
  unfold read_bytes. destruct (slice buf o n) eqn:E; simpl; [|done]. by eapply slice_len.
Qed.

Ltac decode_step := eapply returns_or_throws_bind; [apply read_bytes_fatal|simpl; intros].

Lemma read_len_prefixed_fatal buf o :
  returns_or_throws (fun '(b, next) => o < next) (read_len_prefixed buf o).
Proof.
  unfold read_len_prefixed, read_u32.
  eapply (returns_or_throws_bind (fun z => 0 <= z <= u32_max)).
  { decode_step. pose proof (from_be_range a) as Hr. rewrite H in Hr.
    unfold u32_max. change (256 ^ 4) with 4294967296 in Hr. lia. }
  intros z Hz. unfold read_vec. rewrite try_usize_Some by len_solve. simpl.
  destruct (slice _ _ _); simpl; [lia|done].
Qed.

Lemma decode_value_fatal buf o :
  returns_or_throws (fun '(v, next) => Values.wf v /\ o < next) (decode_value buf o).
Proof.
  unfold decode_value, read_u8, read_i64, read_u64.
  eapply (returns_or_throws_bind (fun _ => True)); [by decode_step|]. intros tag _.
  assert (Hr : forall a : bytes, len a = 8 -> 0 <= from_be a < 2 ^ 64).
  { intros a Ha. pose proof (from_be_range a) as Hr. by rewrite Ha in Hr. }
  repeat case_match; simpl; try done; try lia.
  - eapply (returns_or_throws_bind in_i64); [|simpl; intros; split; [done|lia]].
    decode_step. by apply to_signed64_range, Hr.
  - eapply (returns_or_throws_bind f64_wf); [decode_step; by apply Hr|]. intros b Hb. simpl.
    unfold Values.real_try_from, ensure. destruct (is_nan b) eqn:E; simpl; [done|].
    split; [done|lia].
  - eapply returns_or_throws_bind; [apply read_len_prefixed_fatal|]. intros [b next] ?.
    simpl. case_match; simpl; [|done]. split; [done|lia].
  - eapply returns_or_throws_bind; [apply read_len_prefixed_fatal|]. intros [b next] ?.
    simpl. split; [done|lia].
  - eapply (returns_or_throws_bind (fun _ => True)); [by decode_step|]. simpl. intros. split; [done|lia].
  - eapply (returns_or_throws_bind in_i64); [|simpl; intros; split; [done|lia]].
    decode_step. by apply to_signed64_range, Hr.
Qed.

Lemma decode_values_fatal n buf o :
  returns_or_throws (fun r => row_wf r /\ length r = n) (decode_values n buf o).
Proof.
  revert o. induction n as [|n IH]; intros o; simpl; [by split; [constructor|]|].
  eapply returns_or_throws_bind; [apply decode_value_fatal|]. intros [v next] [Hv _].
  eapply returns_or_throws_bind; [apply IH|]. intros r [Hr Hl]. simpl.
  split; [by constructor|lia].
Qed.

(** ** Properties *)

(** C26: A row whose values Rust's types allow, encoded, decodes to itself, also
    when other bytes follow it; and the encoding is as long as [row_size] says. *)
Theorem row_roundtrip r key b tail :
  row_wf r -> encode r key = Ret b -> decode (b ++ tail) = Ret r /\ len b = row_size r.
Proof.
  intros Hwf Hb. split; [by eapply decode_encode_app|]. by apply (encode_size _ _ _ Hb).
Qed.

Lemma row_roundtrip_witness :
  decode ((Z_byte <$> [0; 0; 0; 2; 1; 0; 0; 0; 0; 0; 0; 0; 7; 3; 0; 0; 0; 2; 0x68; 0x69])
          ++ [Z_byte 9]) = Ret [VInteger 7; VText (Z_byte <$> [0x68; 0x69])].
Proof.
  refine (proj1 (row_roundtrip [VInteger 7; VText (Z_byte <$> [0x68; 0x69])] 5 _ _ _ _)).
  - repeat constructor; vm_compute; discriminate.
  - vm_compute. reflexivity.
Defined.

(** C31: Encoding fails exactly when the number of values or a text's or blob's
    length does not fit its four-byte prefix, and then with [PayloadTooLarge]
    for the row's key. *)
Theorem encode_total r key :
  (row_fits r -> exists b, encode r key = Ret b) /\
  (~ row_fits r -> exists n, encode r key = Throw (Permanent (PayloadTooLarge key n)) /\ u32_max < n).
Proof.
  split; [apply encode_fits|]. intros Hn.
  unfold encode, too_large_as_u32, try_u32. pose proof (len_nonneg r).
  destruct (_ && _) eqn:E; simpl; [|exists (len r); split; [done|lia]].
  assert (Hv : ~ Forall value_fits r) by (intros ?; apply Hn; split; [lia|done]).
  clear Hn E. generalize (be_bytes 4 (len r)) as acc. induction r as [|v r IH]; intros acc.
  { destruct Hv. constructor. }
  cbn [foldM]. destruct (decide (value_fits v)) as [Hf|Hf].
  - destruct (encode_value_fits v key Hf) as (b & -> & _). simpl. apply IH; [apply len_nonneg|].
    intros ?. apply Hv. by constructor.
  - destruct v; simpl in Hf; try done; cbn [encode_value]; unfold push_len_prefixed, too_large_as_u32,
      try_u32; (case_match; [lia|]); simpl; eexists; (split; [done|lia]).
Qed.

Lemma encode_total_witness : exists b, encode [VNull; VBoolean true] 3 = Ret b.
Proof. apply (proj1 (encode_total [VNull; VBoolean true] 3)). split; [done|]. by repeat constructor. Defined.

(** C30: Decoding arbitrary bytes never panics: it is a fatal error, or a row
    whose values are all well-formed (valid UTF-8, no NaN, 64-bit integers) and as
    many as the four-byte count says. *)
Theorem decode_safe buf :
  (exists e, decode buf = Throw (Fatal e)) \/
  (exists r, decode buf = Ret r /\ row_wf r /\ read_u32 buf 0 = Ret (len r)).
Proof.
  unfold decode, read_u32. pose proof (read_bytes_fatal 4 buf 0) as H4.
  destruct (read_bytes 4 buf 0) as [x|[]|p|]; simpl in *; try done; [|eauto].
  pose proof (from_be_range x) as Hr.
  pose proof (decode_values_fatal (Z.to_nat (from_be x)) buf 4) as Hd.
  destruct (decode_values _ buf 4) as [r|[]| |]; simpl in *; try done; [|eauto].
  right. exists r. destruct Hd as [? Hl]. split_and!; [done|done|]. unfold len. do 2 f_equal. lia.
Qed.
