(* ===== verification/Page.v ===== *)
(** * Page format ([crates/pinax/src/page.rs])

    Page sizes, layout constants and the checksum trailer. XXH3-64 comes from
    the [xxhash-rust] crate: it is a parameter, known only to return a [u64]. *)

From S2P Require Import Prelude Errors Codec.

Class Xxh3 := {
  xxh3_64 : bytes -> Z;
  xxh3_64_range : forall b, 0 <= xxh3_64 b <= u64_max;
}.

Definition CHECKSUM_LEN := 8.
Definition CHECKSUM_LEN_U32 := 8.
Definition checksum_len_u32 : Z := CHECKSUM_LEN_U32.
Definition CHECKSUM_LEN_U16 := 8.
Definition checksum_len_u16 : Z := CHECKSUM_LEN_U16.
Definition MIN_PAGE_SIZE := 4096.
Definition MAX_PAGE_SIZE := 65536.
Definition META_SLOT_LEN := 4096.
Definition META_REGION_LEN := META_SLOT_LEN * 2.
Definition FIRST_DATA_PAGE_ID := 2.
Definition EMPTY_TREE_ROOT := 0.
Definition PAGE_TYPE_LEAF := 1.
Definition PAGE_TYPE_INTERIOR := 2.
Definition PAGE_TYPE_OVERFLOW := 3.

(** [PageSize(u32)] *)
Record PageSize := mkPageSize { ps_bytes : Z }.

(** [PageSize::DEFAULT] *)
Definition DEFAULT : PageSize := mkPageSize 4096.

(** [impl Default for PageSize] *)
Definition default_page_size : PageSize := DEFAULT.

(** [PageSize::bytes] *)
Definition page_bytes (self : PageSize) : Z := ps_bytes self.

(** [u32::is_power_of_two] *)
Definition is_power_of_two (z : Z) : bool := (0 <? z) && (z =? 2 ^ Z.log2 z).

(** [TryFrom<u32> for PageSize] *)
Definition page_size_try_from (value : Z) : result PageSize :=
  ensure (is_power_of_two value && ((MIN_PAGE_SIZE <=? value) && (value <=? MAX_PAGE_SIZE)))
    (Permanent (InvalidPageSize value)) ;;
  Ret (mkPageSize value).

(** [PageSize::bytes_usize] *)
Definition bytes_usize (self : PageSize) : Z := default usize_max (try_usize (ps_bytes self)).

(** [PageSize::usable_space]; a page size is at least 4096 (see [wf]). *)
Definition usable_space (self : PageSize) : Z := ps_bytes self - CHECKSUM_LEN_U32.

(** [PageSize::max_local] *)
Definition max_local (self : PageSize) : Z := saturating_sub (usable_space self) 35.

(** [vec![0u8; n]] *)
Definition zeros (n : Z) : bytes := replicate (Z.to_nat n) x00.

(** The sizes a [PageSize] can hold. *)
Definition page_size_wf (ps : PageSize) : Prop :=
  ps_bytes ps ∈ [4096; 8192; 16384; 32768; 65536].

Section checksum.
Context `{Xxh3}.

Definition compute_checksum (buf : bytes) : Z :=
  let content_len := saturating_sub (len buf) CHECKSUM_LEN in
  let content := default buf (slice buf 0 content_len) in
  xxh3_64 content.

Definition stamp_checksum (buf : bytes) : result bytes :=
  let checksum := compute_checksum buf in
  let at_ := saturating_sub (len buf) CHECKSUM_LEN in
  write_u64 buf at_ checksum.

(** [Result<(), (u64, u64)>]: the error carries (expected, actual). *)
Definition verify_checksum (buf : bytes) : outcome (Z * Z) unit :=
  let expected := default 0 (ok (read_u64 buf (saturating_sub (len buf) CHECKSUM_LEN))) in
  let actual := compute_checksum buf in
  if expected =? actual then Ret tt else Throw (expected, actual).

(** ** What the checksum covers: everything but the last eight bytes *)
Definition content (buf : bytes) : bytes := take (length buf - 8) buf.

Lemma page_size_wf_cases ps :
  page_size_wf ps ->
  ps_bytes ps = 4096 \/ ps_bytes ps = 8192 \/ ps_bytes ps = 16384 \/
  ps_bytes ps = 32768 \/ ps_bytes ps = 65536.
Proof. unfold page_size_wf. rewrite !elem_of_cons, elem_of_nil. naive_solver. Qed.

Lemma page_size_range ps : page_size_wf ps -> 4096 <= ps_bytes ps <= 65536.
Proof. intros H'%page_size_wf_cases. lia. Qed.

Lemma page_size_try_from_ret z ps :
  page_size_try_from z = Ret ps <-> ps = mkPageSize z /\ page_size_wf ps.
Proof.
  unfold page_size_try_from, page_size_wf, is_power_of_two, MIN_PAGE_SIZE, MAX_PAGE_SIZE.
  assert (Hz : ((0 <? z) && (z =? 2 ^ Z.log2 z) && ((4096 <=? z) && (z <=? 65536))) = true <->
    z ∈ [4096; 8192; 16384; 32768; 65536]).
  { rewrite !elem_of_cons, elem_of_nil. split; [|intros; destruct_or?; subst; done].
    intros. assert (12 <= Z.log2 z <= 16) as Hl.
    { split; [apply Z.log2_le_pow2; lia|].
      apply Z.lt_succ_r, Z.log2_lt_pow2; lia. }
    assert (z = 2 ^ Z.log2 z) as Hlog by lia. revert Hlog. generalize dependent (Z.log2 z).
    intros k ? Hk ->. assert (k = 12 \/ k = 13 \/ k = 14 \/ k = 15 \/ k = 16) as Hc by lia.
    destruct_or! Hc; subst k; simpl; tauto. }
  unfold ensure. split.
  - case_match eqn:E; simpl; [|done]. intros [= <-]. split; [done|]. by apply Hz.
  - intros [-> Hin]. simpl in Hin. apply Hz in Hin. by rewrite Hin.
Qed.

Lemma bytes_usize_wf ps : page_size_wf ps -> bytes_usize ps = ps_bytes ps.
Proof.
  intros ?%page_size_range. unfold bytes_usize. by rewrite try_usize_Some by len_solve.
Qed.

Lemma len_zeros n : 0 <= n -> len (zeros n) = n.
Proof. intros. unfold zeros. rewrite len_replicate. lia. Qed.

Lemma content_app x y : len y = 8 -> content (x ++ y) = x.
Proof.
  intros. unfold content. rewrite length_app. unfold len in *.
  by rewrite take_app_length' by lia.
Qed.

Lemma content_split buf :
  8 <= len buf -> exists y, len y = 8 /\ buf = content buf ++ y.
Proof.
  intros. exists (drop (length buf - 8) buf). unfold content.
  split; [rewrite len_drop; unfold len in *; lia|by rewrite take_drop].
Qed.

Lemma compute_checksum_content buf : 8 <= len buf -> compute_checksum buf = xxh3_64 (content buf).
Proof.
  intros. unfold compute_checksum, saturating_sub, CHECKSUM_LEN, content, slice.
  rewrite Z.max_r by lia. case_match eqn:E; [|lia]. simpl. rewrite drop_0.
  do 2 f_equal. unfold len in *. lia.
Qed.

Lemma stamp_checksum_ok buf :
  8 <= len buf ->
  stamp_checksum buf = Ret (content buf ++ be_bytes 8 (xxh3_64 (content buf))).
Proof.
  intros. unfold stamp_checksum, write_u64, saturating_sub, CHECKSUM_LEN.
  apply write_bytes_ret. rewrite compute_checksum_content by done.
  unfold splice. case_match eqn:E; [|len_solve]. f_equal. unfold content.
  rewrite len_be8. rewrite (drop_ge buf) by (unfold len in *; lia).
  rewrite app_nil_r. do 2 f_equal. unfold len. lia.
Qed.

Lemma verify_checksum_ret buf :
  8 <= len buf ->
  verify_checksum buf = Ret tt <-> buf = content buf ++ be_bytes 8 (xxh3_64 (content buf)).
Proof.
  intros. unfold verify_checksum, saturating_sub, CHECKSUM_LEN.
  rewrite compute_checksum_content by done.
  destruct (content_split buf) as (y & Hy & Hbuf); [done|].
  assert (Hlen : len (content buf) = len buf - 8).
  { rewrite Hbuf at 2. rewrite len_app. lia. }
  assert (Hat : read_bytes 8 buf (Z.max 0 (len buf - 8)) = Ret y).
  { apply read_bytes_at; [|done]. rewrite Hbuf at 1. unfold at_offset.
    rewrite slice_app_r by lia. rewrite Hlen, Z.max_r, Z.sub_diag by lia. apply slice_full. }
  unfold read_u64. rewrite Hat. simpl. pose proof (xxh3_64_range (content buf)).
  split.
  - case_match eqn:E; [|done]. intros _. rewrite Hbuf at 1. f_equal.
    assert (xxh3_64 (content buf) = from_be y) as -> by lia.
    symmetry. apply be_bytes_from_be. unfold len in Hy. lia.
  - intros Hb. assert (y = be_bytes 8 (xxh3_64 (content buf))) as ->
      by (apply (app_inv_head (content buf)); congruence).
    rewrite from_be8 by done. by rewrite Z.eqb_refl.
Qed.

Lemma content_stamped buf :
  content (content buf ++ be_bytes 8 (xxh3_64 (content buf))) = content buf.
Proof. apply content_app. by rewrite len_be_bytes. Qed.

Lemma len_content buf : 8 <= len buf -> len (content buf) = len buf - 8.
Proof. intros. unfold content. rewrite len_take. unfold len in *. lia. Qed.
End checksum.

(** What is before the checksum depends on the content only. *)
Lemma at_offset_content buf buf' o x :
  content buf = content buf' -> len buf = len buf' -> o + len x <= len buf - CHECKSUM_LEN ->
  at_offset buf o x -> at_offset buf' o x.
Proof.
  unfold content, CHECKSUM_LEN. intros Hc Hl Hx. pose proof (len_nonneg x).
  apply at_offset_ext with (m := (length buf - 8)%nat); [|done|].
  - rewrite Hc. f_equal. unfold len in *. lia.
  - intros. unfold len in *. lia.
Qed.

(** A concrete checksum, for the examples: a sum of the bytes. *)
Definition byte_sum (b : bytes) : Z := fold_left (fun acc x => acc + byte_Z x) b 7 mod 2 ^ 64.

Lemma byte_sum_range b : 0 <= byte_sum b <= u64_max.
Proof. unfold byte_sum, u64_max. pose proof (Z.mod_pos_bound (fold_left (fun acc x => acc + byte_Z x) b 7) (2 ^ 64)). lia. Qed.

Definition sum_xxh3 : Xxh3 := {| xxh3_64 := byte_sum; xxh3_64_range := byte_sum_range |}.

(** ** Properties *)
Section properties.
Context `{Xxh3}.

(** C33: [PageSize] accepts exactly the five powers of two from 4096 to 65536; any
    other request is refused with [InvalidPageSize]. *)
Theorem page_size_exact z :
  (z ∈ [4096; 8192; 16384; 32768; 65536] -> page_size_try_from z = Ret (mkPageSize z)) /\
  (z ∉ [4096; 8192; 16384; 32768; 65536] ->
     page_size_try_from z = Throw (Permanent (InvalidPageSize z))).
Proof.
  split; intros Hz; [by apply page_size_try_from_ret|].
  destruct (page_size_try_from z) as [ps|e| |] eqn:E.
  - apply page_size_try_from_ret in E as [-> ?]. done.
  - unfold page_size_try_from, ensure in E. by destruct (_ && _); simpl in E; simplify_eq.
  - unfold page_size_try_from, ensure in E. by destruct (_ && _).
  - unfold page_size_try_from, ensure in E. by destruct (_ && _).
Qed.

Lemma page_size_exact_witness : page_size_try_from 6000 = Throw (Permanent (InvalidPageSize 6000)).
Proof. apply (proj2 (page_size_exact 6000)). rewrite !elem_of_cons, elem_of_nil. lia. Defined.

(** Stamping a page keeps its length and everything before the checksum, and a
    stamped page verifies. *)
Theorem stamp_then_verify buf :
  8 <= len buf -> exists buf', stamp_checksum buf = Ret buf' /\ len buf' = len buf /\
    content buf' = content buf /\ verify_checksum buf' = Ret tt.
Proof.
  intros Hl. eexists. split; [by apply stamp_checksum_ok|].
  pose proof (len_content buf Hl) as Hc. split_and!.
  - rewrite len_app, len_be8. lia.
  - apply content_stamped.
  - apply verify_checksum_ret; [rewrite len_app, len_be8; lia|]. by rewrite !content_stamped.
Qed.

(** A page that verifies and is then altered, before or in its last eight
    bytes, verifies only if the hash of its content happens to be the one stored:
    in particular an altered content is accepted only on a hash collision, and an
    altered checksum never. *)
Theorem verify_detects buf buf' :
  8 <= len buf -> len buf' = len buf -> verify_checksum buf = Ret tt ->
  verify_checksum buf' = Ret tt -> buf' <> buf ->
  content buf' <> content buf /\
  (drop (length buf - 8) buf' = drop (length buf - 8) buf ->
   xxh3_64 (content buf') = xxh3_64 (content buf)).
Proof.
  intros Hl Hl' Hv Hv' Hne.
  apply verify_checksum_ret in Hv; [|done]. apply verify_checksum_ret in Hv'; [|lia].
  split; [intros He; apply Hne; congruence|]. intros Hd.
  assert (Hc : length (content buf) = (length buf - 8)%nat)
    by (unfold content; rewrite length_take; lia).
  assert (Hc' : length (content buf') = (length buf - 8)%nat)
    by (unfold content; rewrite length_take; unfold len in *; lia).
  assert (He : forall x y : bytes, length x = (length buf - 8)%nat -> drop (length buf - 8) (x ++ y) = y).
  { intros x y Hx. by rewrite drop_app_length'. }
  pose proof (He _ (be_bytes 8 (xxh3_64 (content buf))) Hc) as H1. rewrite <-Hv in H1.
  pose proof (He _ (be_bytes 8 (xxh3_64 (content buf'))) Hc') as H2. rewrite <-Hv' in H2.
  rewrite H1, H2 in Hd.
  apply (f_equal from_be) in Hd. rewrite !from_be8 in Hd by apply xxh3_64_range. done.
Qed.
End properties.

Lemma stamp_then_verify_witness :
  exists buf', @stamp_checksum sum_xxh3 (zeros 64) = Ret buf' /\ @verify_checksum sum_xxh3 buf' = Ret tt.
Proof.
  destruct (@stamp_then_verify sum_xxh3 (zeros 64)) as (b & H1 & _ & _ & H2);
    [vm_compute; discriminate|]. by exists b.
Defined.

Lemma verify_detects_witness :
  let stamped x := content x ++ be_bytes 8 (byte_sum (content x)) in
  content (stamped (zeros 12)) <> content (stamped (replicate 12 x01)).
Proof.
  intros stamped.
  refine (proj1 (@verify_detects sum_xxh3 (stamped (replicate 12 x01)) (stamped (zeros 12)) _ _ _ _ _));
    vm_compute; (done || discriminate).
Defined.
