(* ===== verification/Disk.v ===== *)
(** * The file system the pager writes to

    What [std::fs::File], [OpenOptions] and [FileExt] do. A file holds the
    bytes a read sees ([data]), the bytes the last successful sync made
    durable ([durable]) and the writes made since ([pending]); a crash may
    keep, lose or tear each pending write. [faults] is the schedule of I/O
    failures: each call consumes one entry, and [Some n] makes it fail after
    transferring [n] bytes. An exhausted schedule means no more failures. [asked] is the
    log of the buffers that were to be written, whole, with their places: no call reads
    it, but it says which bytes found after a crash are a whole buffer and not a torn
    one. *)

From S2P Require Import Prelude Errors Codec Page.

Inductive write :=
  | WriteAt (offset : Z) (b : bytes)
  | SetLen (n : Z).

Record File := mkFile {
  data : bytes;
  durable : bytes;
  pending : list write;
  faults : list (option Z);
  asked : list (Z * bytes);
}.

(** Writing past the end extends the file, filling any gap with zeros. *)
Definition apply_write (w : write) (c : bytes) : bytes :=
  match w with
  | WriteAt offset b =>
    let c := c ++ zeros (offset - len c) in
    take (Z.to_nat offset) c ++ b ++ drop (Z.to_nat (offset + len b)) c
  | SetLen n => take (Z.to_nat n) (c ++ zeros (n - len c))
  end.

Abbreviation IO := (M File io_error).

(** Consume one entry of the fault schedule. *)
Definition next_fault : IO (option Z) := fun f =>
  match faults f with
  | [] => (Ret None, f)
  | x :: xs => (Ret x, mkFile (data f) (durable f) (pending f) xs (asked f))
  end.

Definition do_write (w : write) : IO unit :=
  modify (fun f => mkFile (apply_write w (data f)) (durable f) (pending f ++ [w]) (faults f) (asked f)).

(** The log of what is to be written. *)
Definition ask (offset : Z) (b : bytes) : IO unit :=
  modify (fun f => mkFile (data f) (durable f) (pending f) (faults f) (asked f ++ [(offset, b)])).

(** A call that either fails or has the effect [m]. *)
Definition or_fault {A} (m : IO A) : IO A :=
  x ← next_fault;
  match x with
  | None => m
  | Some _ => lift (Throw OtherIo)
  end.

(** [FileExt::write_all_at]: a failure may have written a prefix. *)
Definition write_all_at (b : bytes) (offset : Z) : IO unit :=
  x ← next_fault;
  ask offset b ;;
  match x with
  | None => do_write (WriteAt offset b)
  | Some n => do_write (WriteAt offset (take (Z.to_nat n) b)) ;; lift (Throw OtherIo)
  end.

(** [FileExt::read_exact_at] into a buffer of [n] bytes *)
Definition read_exact_at (n offset : Z) : IO bytes :=
  or_fault (fun f => (context (slice (data f) offset n) UnexpectedEof, f)).

(** [File::set_len] *)
Definition set_len (n : Z) : IO unit := or_fault (do_write (SetLen n)).

(** [File::sync_data] and [File::sync_all] *)
Definition sync : IO unit :=
  or_fault (modify (fun f => mkFile (data f) (data f) [] (faults f) (asked f))).

(** [file.metadata()?.len()] *)
Definition metadata_len : IO Z := or_fault (gets (fun f => len (data f))).

(** ** Crashes

    After a crash the file has, at each byte, what was durable, or a byte one of the
    pending writes put there, or, past the end of what was durable or cut off by a
    pending truncation, nothing or a zero: writes may be kept, lost, torn and
    reordered, byte by byte. *)

(** The byte that the write [w] puts at [i]. *)
Definition writes_byte (w : write) (i : nat) (x : byte) : Prop :=
  match w with
  | WriteAt offset b => (Z.to_nat offset <= i)%nat /\ b !! (i - Z.to_nat offset)%nat = Some x
  | SetLen _ => False
  end.

(** The length below which no pending write cuts. *)
Definition floor_after (n : Z) (w : write) : Z :=
  match w with WriteAt _ _ => n | SetLen m => Z.min n m end.
Definition crash_floor (f : File) : Z := fold_left floor_after (pending f) (len (durable f)).

Definition crash (f : File) (c : bytes) : Prop :=
  crash_floor f <= len c /\
  forall i x, c !! i = Some x ->
    durable f !! i = Some x \/ Exists (fun w => writes_byte w i x) (pending f) \/
    (crash_floor f <= Z.of_nat i /\ x = x00).

(** ** Paths *)
Record FileSystem := mkFileSystem {
  files : gmap string File;
  new_faults : list (option Z);  (** the schedule of a newly created file *)
}.

(** [OpenOptions::new().read(true).write(true).create_new(true).open(path)] *)
Definition open_create_new (path : string) (fs : FileSystem) : outcome io_error File :=
  match files fs !! path with
  | Some _ => Throw AlreadyExistsKind
  | None =>
    match new_faults fs with
    | Some _ :: _ => Throw OtherIo
    | xs => Ret (mkFile [] [] [] (tail xs) [])
    end
  end.

(** [OpenOptions::new().read(true).write(true).open(path)] *)
Definition open_existing (path : string) (fs : FileSystem) : outcome io_error File :=
  match files fs !! path with
  | None => Throw NotFound
  | Some f =>
    match next_fault f with
    | (Ret (Some _), _) => Throw OtherIo
    | (_, f) => Ret f
    end
  end.

(** The file system after the handle [f] on [path] is dropped. *)
Definition close (path : string) (f : File) (fs : FileSystem) : FileSystem :=
  mkFileSystem (<[path := f]> (files fs)) (new_faults fs).

(** ** Reads and writes without faults *)

Lemma len_apply_write_at offset b c :
  0 <= offset -> len (apply_write (WriteAt offset b) c) = Z.max (len c) (offset + len b).
Proof.
  intros. simpl. rewrite !len_app, len_take, len_drop, !len_app.
  pose proof (len_nonneg c). pose proof (len_nonneg b).
  unfold zeros. rewrite len_replicate. lia.
Qed.

(** A write inside or right at the end of the file. *)
Lemma apply_write_spec offset b c i :
  0 <= offset ->
  apply_write (WriteAt offset b) c !! i =
  if decide (Z.to_nat offset <= i < Z.to_nat offset + length b)%nat
  then b !! (i - Z.to_nat offset)%nat
  else (c ++ zeros (offset - len c)) !! i.
Proof.
  intros. simpl. set (c' := c ++ zeros (offset - len c)).
  assert (Z.to_nat offset <= length c')%nat.
  { subst c'. rewrite length_app. unfold zeros. rewrite length_replicate. unfold len. lia. }
  pose proof (len_nonneg b). case_decide.
  - rewrite lookup_app_r by (rewrite length_take; lia). rewrite length_take.
    rewrite lookup_app_l by lia. f_equal. lia.
  - destruct (decide (i < Z.to_nat offset)%nat).
    + rewrite lookup_app_l by (rewrite length_take; lia). by rewrite lookup_take_lt.
    + rewrite lookup_app_r by (rewrite length_take; lia). rewrite length_take.
      rewrite lookup_app_r by lia. rewrite lookup_drop. f_equal.
      unfold len in *. lia.
Qed.

Lemma slice_apply_write_same offset b c :
  0 <= offset -> slice (apply_write (WriteAt offset b) c) offset (len b) = Some b.
Proof.
  intros. apply slice_spec. rewrite len_apply_write_at by done.
  pose proof (len_nonneg b). split_and!; try lia.
  intros i Hi. rewrite apply_write_spec by done. unfold len in *.
  rewrite decide_True by lia. f_equal. lia.
Qed.

Lemma slice_apply_write_other offset b c o n x :
  0 <= offset -> (o + n <= offset \/ offset + len b <= o) ->
  slice c o n = Some x -> slice (apply_write (WriteAt offset b) c) o n = Some x.
Proof.
  intros ? Hd (? & ? & ? & ? & Hx)%slice_spec. apply slice_spec.
  rewrite len_apply_write_at by done. split_and!; try lia.
  intros i Hi. rewrite apply_write_spec by done. unfold len in *.
  rewrite decide_False by lia. rewrite lookup_app_l by lia. by apply Hx.
Qed.
