(* ===== verification/FileSpec.v ===== *)
(** * The file under writes, failures and crashes

    [keeps P x y]: the bytes [y] have the bytes of [x] at the places of [P]. [file_ok P D f]:
    no place of [P] was written since the file had the bytes [D], neither in what is
    durable nor in what is pending, so that no crash changes it. Then each call on a file,
    with its outcomes: done, or refused by the disk. *)

From S2P Require Import Prelude Runs Errors Codec Page Disk.

(** ** Bytes that are not written *)

Definition keeps (P : Z -> Prop) (x y : bytes) : Prop :=
  forall i b, P (Z.of_nat i) -> x !! i = Some b -> y !! i = Some b.

Definition below (off i : Z) : Prop := i < off.
Definition outside (o n i : Z) : Prop := i < o \/ o + n <= i.

#[export] Instance keeps_preorder P : PreOrder (keeps P).
Proof. split; [by intros x i b|]. intros x y z Hxy Hyz i b Hi Hx. by apply Hyz, Hxy. Qed.

Lemma keeps_weaken (P Q : Z -> Prop) x y : keeps P x y -> (forall i, Q i -> P i) -> keeps Q x y.
Proof. intros Hk HPQ i b Hi. apply Hk. auto. Qed.

Lemma keeps_write_outside x o b : 0 <= o -> keeps (outside o (len b)) x (apply_write (WriteAt o b) x).
Proof.
  intros Ho i c Hi Hx. unfold outside, len in Hi. rewrite apply_write_spec, decide_False by lia.
  by apply lookup_app_l_Some.
Qed.

Lemma slice_keeps P x y o n s :
  keeps P x y -> 0 < n -> (forall i, o <= i < o + n -> P i) -> slice x o n = Some s -> slice y o n = Some s.
Proof.
  intros Hk Hn Ho (H0 & _ & Hl & Hls & Hx)%slice_spec.
  assert (Hy : forall i, (i < Z.to_nat n)%nat -> y !! (Z.to_nat o + i)%nat = s !! i).
  { intros i Hi. rewrite Hx by done.
    destruct (lookup_lt_is_Some_2 x (Z.to_nat o + i)) as [b Hb]; [unfold len in *; lia|].
    rewrite Hb. apply Hk; [apply Ho; lia|done]. }
  apply slice_spec. split_and!; [done|lia| |done|intros; symmetry; auto].
  specialize (Hy (Z.to_nat n - 1)%nat ltac:(lia)).
  destruct (lookup_lt_is_Some_2 s (Z.to_nat n - 1)) as [b Hb]; [unfold len in *; lia|].
  rewrite Hb in Hy. apply lookup_lt_Some in Hy. unfold len. lia.
Qed.

Lemma keeps_len P x y n : 0 < n -> n <= len x -> keeps P x y -> P (n - 1) -> n <= len y.
Proof.
  intros Hn Hx Hk HP. destruct (lookup_lt_is_Some_2 x (Z.to_nat (n - 1))) as [b Hb]; [unfold len in *; lia|].
  apply Hk, lookup_lt_Some in Hb; [unfold len in *; lia|]. by rewrite Z2Nat.id by lia.
Qed.

(** ** Pending writes *)

(** What the pending writes make of the durable bytes. *)
Definition replay (ws : list write) (c : bytes) : bytes := fold_left (fun c w => apply_write w c) ws c.

(** A write that touches no place of [P]. *)
Definition writes_clear (P : Z -> Prop) (w : write) : Prop :=
  match w with
  | WriteAt offset b => 0 <= offset /\ forall i, offset <= i < offset + len b -> ~ P i
  | SetLen _ => False
  end.

Lemma writes_clear_weaken (P Q : Z -> Prop) w : writes_clear P w -> (forall i, Q i -> P i) -> writes_clear Q w.
Proof. destruct w; [|done]. intros [? Hw] HPQ. split; [done|]. intros i Hi ?%HPQ. by apply (Hw i). Qed.

Lemma keeps_write P x o b : writes_clear P (WriteAt o b) -> keeps P x (apply_write (WriteAt o b) x).
Proof.
  intros [Ho Hw]. eapply keeps_weaken; [by apply keeps_write_outside|]. intros i Hi. unfold outside.
  destruct (decide (i < o)); [by left|]. destruct (decide (o + len b <= i)); [by right|]. exfalso. apply (Hw i); [lia|done].
Qed.

Lemma keeps_replay P ws : forall x, Forall (writes_clear P) ws -> keeps P x (replay ws x).
Proof.
  induction ws as [|w ws IH]; intros x Hws; [done|]. apply Forall_cons in Hws as [Hw Hws].
  destruct w as [o b|]; [|done]. cbn [replay fold_left]. etrans; [by apply keeps_write|]. by apply IH.
Qed.

Lemma len_replay P ws : forall c, Forall (writes_clear P) ws -> len c <= len (replay ws c).
Proof.
  induction ws as [|w ws IH]; intros c Hws; [simpl; lia|].
  apply Forall_cons in Hws as [Hw Hws]. destruct w as [o b|]; [|done]. destruct Hw as [Hw _].
  specialize (IH (apply_write (WriteAt o b) c) Hws). rewrite len_apply_write_at in IH by done.
  cbn -[apply_write]. fold (replay ws (apply_write (WriteAt o b) c)). lia.
Qed.

Record file_ok (P : Z -> Prop) (D : bytes) (f : File) : Prop := {
  fo_durable : keeps P D (durable f);
  fo_len : len D <= len (durable f);
  fo_pending : Forall (writes_clear P) (pending f);
  fo_replay : data f = replay (pending f) (durable f);
}.

Lemma file_ok_data P D f : file_ok P D f -> keeps P D (data f).
Proof. intros [Hd _ Hp ->]. etrans; [exact Hd|by apply keeps_replay]. Qed.

Lemma file_ok_len P D f : file_ok P D f -> len D <= len (data f).
Proof. intros [_ Hl Hp ->]. pose proof (len_replay P _ (durable f) Hp). lia. Qed.

(** Everything written is on disk. *)
Definition synced (f : File) : Prop := durable f = data f /\ pending f = [].

Lemma synced_ok P f : synced f -> file_ok P (data f) f.
Proof. intros [Hd Hp]. split; [by rewrite Hd|by rewrite Hd|rewrite Hp; constructor|by rewrite Hp, Hd]. Qed.

(** ** Crashes *)

(** Without truncations among the pending writes, nothing is cut. *)
Lemma crash_floor_writes P f : Forall (writes_clear P) (pending f) -> crash_floor f = len (durable f).
Proof.
  unfold crash_floor. generalize (len (durable f)). induction (pending f) as [|w ws IH]; intros n Hws; [done|].
  apply Forall_cons in Hws as [Hw Hws]. destruct w; [|done]. by apply IH.
Qed.

(** A crash keeps the places that were not written. *)
Lemma file_ok_crash P D f c : file_ok P D f -> crash f c -> keeps P D c /\ len D <= len c.
Proof.
  intros [Hd Hl Hp _] [Hlen Hc]. rewrite (crash_floor_writes P) in * by done. split; [|lia].
  etrans; [exact Hd|]. intros i b Hi Hb.
  pose proof (lookup_lt_Some _ _ _ Hb) as Hlt.
  destruct (lookup_lt_is_Some_2 c i) as [x Hx]; [unfold len in *; lia|].
  destruct (Hc i x Hx) as [Hx'|[Hw|[Hf _]]]; [congruence| |unfold len in *; lia].
  exfalso. apply Exists_exists in Hw as (w & Hin & Hw). rewrite Forall_forall in Hp. specialize (Hp w Hin).
  destruct w as [o x'|]; [|done]. destruct Hw as [Ho Hx'%lookup_lt_Some], Hp as [? Hp].
  apply (Hp (Z.of_nat i)); [unfold len; lia|done].
Qed.

(** Going on without a crash is one of the crashes: every write is kept. *)
Lemma replay_bytes P ws : forall c i x,
  Forall (writes_clear P) ws -> replay ws c !! i = Some x ->
  c !! i = Some x \/ Exists (fun w => writes_byte w i x) ws \/ (len c <= Z.of_nat i /\ x = x00).
Proof.
  induction ws as [|w ws IH]; intros c i x Hws Hx; [by left|].
  apply Forall_cons in Hws as [Hw Hws]. destruct w as [o b|]; [|done]. destruct Hw as [Hw _].
  destruct (IH _ _ _ Hws Hx) as [Hx'|[Hx'|[Hl ->]]]; [clear Hx; rename Hx' into Hx|right; left; by apply Exists_cons_tl|].
  - rewrite apply_write_spec in Hx by done. case_decide.
    + right; left. apply Exists_cons_hd. split; [lia|done].
    + apply lookup_app_Some in Hx as [?|[Hi Hz]]; [by left|]. apply lookup_replicate in Hz as [-> _].
      right; right. unfold len. split; [lia|done].
  - right; right. rewrite len_apply_write_at in Hl by done. split; [lia|done].
Qed.

Lemma restart_is_crash P D f : file_ok P D f -> crash f (data f).
Proof.
  intros [_ _ Hp Hd]. unfold crash. rewrite (crash_floor_writes P), Hd by done.
  split; [by apply (len_replay P)|]. intros i x Hx. apply (replay_bytes P) in Hx; [|done]. tauto.
Qed.

(** ** The calls on a file *)

(** The file with other failures to come. *)
Definition with_faults (xs : list (option Z)) (f : File) : File :=
  mkFile (data f) (durable f) (pending f) xs (asked f).

(** The file after [part] of [b] was written. *)
Definition written (f : File) (offset : Z) (b part : bytes) (xs : list (option Z)) : File :=
  mkFile (apply_write (WriteAt offset part) (data f)) (durable f) (pending f ++ [WriteAt offset part]) xs
    (asked f ++ [(offset, b)]).

Definition file_synced (f : File) (xs : list (option Z)) : File := mkFile (data f) (data f) [] xs (asked f).

(** A disk without failures to come stays so. *)
Definition no_worse (f : File) (xs : list (option Z)) : Prop := faults f = [] -> xs = [].

Lemma no_worse_failing f xs : faults f <> [] -> no_worse f xs.
Proof. by intros ? ?. Qed.

Lemma file_ok_faults P D f xs : file_ok P D f -> file_ok P D (with_faults xs f).
Proof. by intros []. Qed.

Lemma file_ok_written P D f offset b part xs :
  file_ok P D f -> writes_clear P (WriteAt offset part) -> file_ok P D (written f offset b part xs).
Proof.
  intros [Hd Hl Hp Hr] Hw. split; simpl; [done|done|apply Forall_app; split; [done|by constructor]|].
  unfold replay. rewrite fold_left_app. simpl. fold (replay (pending f) (durable f)). by rewrite <-Hr.
Qed.

Lemma file_ok_synced P D f xs : file_ok P D f -> file_ok P D (file_synced f xs).
Proof. intros Hf. split; simpl; [by apply file_ok_data|by eapply file_ok_len|constructor|done]. Qed.

Lemma write_all_at_runs J b offset f (Q : unit -> File -> Prop) :
  (forall xs, no_worse f xs -> Q tt (written f offset b b xs)) ->
  (forall n xs, faults f <> [] -> J OtherIo (written f offset b (take n b) xs)) ->
  runs J (write_all_at b offset) f Q.
Proof.
  unfold runs, no_worse, write_all_at, ask, do_write, modify, lift, mbind, M_bind, next_fault. intros HQ HJ.
  destruct (faults f) as [|[n|] xs] eqn:E; cbn -[apply_write].
  - rewrite E. by apply HQ.
  - by apply HJ.
  - by apply HQ.
Qed.

(** A call that is refused before it has any effect, or has the effect [m]. *)
Lemma or_fault_runs {A} J (m : IO A) f Q :
  (forall xs, no_worse f xs -> runs J m (with_faults xs f) Q) ->
  (forall xs, faults f <> [] -> J OtherIo (with_faults xs f)) ->
  runs J (or_fault m) f Q.
Proof.
  unfold runs, no_worse, with_faults, or_fault, lift, mbind, M_bind, next_fault. intros HQ HJ.
  destruct f as [d du p [|[n|] xs] a] eqn:E; simpl in *.
  - by apply (HQ []).
  - by apply HJ.
  - by apply (HQ xs).
Qed.

Lemma sync_runs J f (Q : unit -> File -> Prop) :
  (forall xs, no_worse f xs -> Q tt (file_synced f xs)) ->
  (forall xs, faults f <> [] -> J OtherIo (with_faults xs f)) -> runs J sync f Q.
Proof. intros HQ HJ. by apply or_fault_runs. Qed.

Lemma set_len_runs J n f (Q : unit -> File -> Prop) :
  (forall xs, no_worse f xs -> Q tt (mkFile (apply_write (SetLen n) (data f)) (durable f) (pending f ++ [SetLen n]) xs (asked f))) ->
  (forall xs, faults f <> [] -> J OtherIo (with_faults xs f)) -> runs J (set_len n) f Q.
Proof. intros HQ HJ. by apply or_fault_runs. Qed.

Lemma read_exact_at_runs J n offset f b (Q : bytes -> File -> Prop) :
  slice (data f) offset n = Some b ->
  (forall xs, no_worse f xs -> Q b (with_faults xs f)) ->
  (forall xs, faults f <> [] -> J OtherIo (with_faults xs f)) -> runs J (read_exact_at n offset) f Q.
Proof.
  intros Hs HQ HJ. apply or_fault_runs; [|done]. intros xs Hxs. unfold runs, with_faults. cbn [data].
  rewrite Hs. by apply HQ.
Qed.

Lemma metadata_len_runs J f (Q : Z -> File -> Prop) :
  (forall xs, no_worse f xs -> Q (len (data f)) (with_faults xs f)) ->
  (forall xs, faults f <> [] -> J OtherIo (with_faults xs f)) -> runs J metadata_len f Q.
Proof. intros HQ HJ. by apply or_fault_runs. Qed.

(** Without failures to come, a read changes nothing. *)
Lemma read_exact_at_ok n offset f b :
  faults f = [] -> slice (data f) offset n = Some b -> read_exact_at n offset f = (Ret b, f).
Proof.
  intros Hf Hs. unfold read_exact_at, or_fault, mbind, M_bind, next_fault. rewrite Hf. by rewrite Hs.
Qed.
