(* ===== verification/Pager.v ===== *)
(** * The pager ([crates/pinax/src/pager.rs])

    Checksummed pages in a file behind two alternating meta slots. *)

From S2P Require Import Prelude Errors Codec Page Disk.

(** [b"PNX1"] *)
Definition META_MAGIC : bytes := Z_byte <$> [0x50; 0x4E; 0x58; 0x31].
Definition META_FORMAT_VERSION := 1.

Definition OFFSET_MAGIC := 0.
Definition OFFSET_VERSION := 4.
Definition OFFSET_PAGE_SIZE := 6.
Definition OFFSET_TXN_ID := 10.
Definition OFFSET_ROOT := 18.
Definition OFFSET_PAGE_COUNT := 22.
Definition OFFSET_FREELIST_HEAD := 26.

Record MetaContent := mkMeta {
  m_page_size : PageSize;
  m_txn_id : Z;
  m_root_page_id : Z;
  m_page_count : Z;
}.

Record Pager := mkPager {
  file : File;
  path : string;
  page_size : PageSize;
  active_slot : Z;
  txn_id : Z;
  root_page_id : Z;
  page_count : Z;
}.

Definition set_file (f : File) (p : Pager) : Pager :=
  mkPager f (path p) (page_size p) (active_slot p) (txn_id p) (root_page_id p) (page_count p).

(** The state changes at the end of [commit]. *)
Definition set_committed (slot txn root count : Z) (p : Pager) : Pager :=
  mkPager (file p) (path p) (page_size p) slot txn root count.

(** [.context(IoSnafu { path })] on a call on the pager's file. *)
Definition io_at {A} (path : string) (m : IO A) : M File PinaxError A := fun f =>
  let '(o, f) := m f in (map_err (fun e => Fatal (Io path e)) o, f).

Definition on_file {A} (m : IO A) : M Pager PinaxError A := fun p =>
  zoom file set_file (io_at (path p) m) p.

(** [decode_meta_slot] *)
Definition decode_meta_slot (buf : bytes) : option MetaContent :=
  magic ← slice buf OFFSET_MAGIC 4;
  if bool_decide (magic = META_MAGIC) then
    page_size_raw ← ok (read_u32 buf OFFSET_PAGE_SIZE);
    page_size ← ok (page_size_try_from page_size_raw);
    txn_id ← ok (read_u64 buf OFFSET_TXN_ID);
    root_page_id ← ok (read_u32 buf OFFSET_ROOT);
    page_count ← ok (read_u32 buf OFFSET_PAGE_COUNT);
    Some (mkMeta page_size txn_id root_page_id page_count)
  else None.

(** [Pager::file_offset] *)
Definition file_offset (self : Pager) (id : Z) : Z :=
  let index := saturating_sub id FIRST_DATA_PAGE_ID in
  META_REGION_LEN + index * ps_bytes (page_size self).

(** [Pager::expect_page_type] *)
Definition expect_page_type (id : Z) (buf : bytes) (expected_byte : Z) (expected_label : string)
    : result unit :=
  actual ← read_u8 buf 0;
  ensure (actual =? expected_byte) (Fatal (UnexpectedPageType id expected_label actual)).

Section pager.
Context `{Xxh3} `{BuildProfile}.

(** [encode_meta_slot] *)
Definition encode_meta_slot (content : MetaContent) : result bytes :=
  let buf := zeros META_SLOT_LEN in
  buf ← write_bytes buf OFFSET_MAGIC META_MAGIC;
  buf ← write_u16 buf OFFSET_VERSION META_FORMAT_VERSION;
  buf ← write_u32 buf OFFSET_PAGE_SIZE (ps_bytes (m_page_size content));
  buf ← write_u64 buf OFFSET_TXN_ID (m_txn_id content);
  buf ← write_u32 buf OFFSET_ROOT (m_root_page_id content);
  buf ← write_u32 buf OFFSET_PAGE_COUNT (m_page_count content);
  buf ← write_u32 buf OFFSET_FREELIST_HEAD 0;
  stamp_checksum buf.

(** [Pager::create], on the new file: everything after [open]. *)
Definition init_file (path : string) (page_size : PageSize) : M File PinaxError unit :=
  slot ← lift (encode_meta_slot (mkMeta page_size 0 EMPTY_TREE_ROOT FIRST_DATA_PAGE_ID));
  io_at path (write_all_at slot 0) ;;
  io_at path (set_len META_REGION_LEN) ;;
  io_at path sync.

(** [Pager::create] *)
Definition create (path : string) (page_size : PageSize) : M FileSystem PinaxError Pager := fun fs =>
  match open_create_new path fs with
  | Throw AlreadyExistsKind => (Throw (Permanent (AlreadyExists path)), fs)
  | Throw source => (Throw (Fatal (Io path source)), fs)
  | Panic p => (Panic p, fs)
  | Diverge => (Diverge, fs)
  | Ret f =>
    let '(o, f) := init_file path page_size f in
    (_ ← o; Ret (mkPager f path page_size 0 0 EMPTY_TREE_ROOT FIRST_DATA_PAGE_ID),
     close path f fs)
  end.

(** A slot that verifies and decodes. *)
Definition valid_slot (slot : bytes) : option MetaContent :=
  _ ← ok (verify_checksum slot); decode_meta_slot slot.

(** The [match] of [Pager::open] on the two slots. *)
Definition choose_slot (path : string) (valid_a valid_b : option MetaContent)
    : result (Z * MetaContent) :=
  match valid_a, valid_b with
  | Some a, Some b => if m_txn_id a <? m_txn_id b then Ret (1, b) else Ret (0, a)
  | Some a, None => Ret (0, a)
  | None, Some b => Ret (1, b)
  | None, None => Throw (Fatal (NoValidMetaPage path))
  end.

(** [Pager::open], on the opened file *)
Definition read_meta (path : string) : M File PinaxError (Z * MetaContent) :=
  actual_len ← io_at path metadata_len;
  lift (ensure (META_REGION_LEN <=? actual_len)
    (Fatal (FileTooSmall path actual_len META_REGION_LEN))) ;;
  slot_a ← io_at path (read_exact_at META_SLOT_LEN 0);
  slot_b ← io_at path (read_exact_at META_SLOT_LEN META_SLOT_LEN);
  lift (choose_slot path (valid_slot slot_a) (valid_slot slot_b)).

(** [Pager::open] *)
Definition open (path : string) (fs : FileSystem) : result Pager :=
  f ← map_err (fun e => Fatal (Io path e)) (open_existing path fs);
  let '(o, f) := read_meta path f in
  '(active_slot, content) ← o;
  Ret (mkPager f path (m_page_size content) active_slot (m_txn_id content)
         (m_root_page_id content) (m_page_count content)).

(** [Pager::read_data_page] *)
Definition read_data_page (id : Z) : M Pager PinaxError bytes :=
  self ← get_self;
  buf ← on_file (read_exact_at (bytes_usize (page_size self)) (file_offset self id));
  lift (map_err (fun '(expected, actual) => Fatal (Corruption id expected actual))
    (verify_checksum buf)) ;;
  mret buf.

(** [Pager::write_data_page] *)
Definition write_data_page (id : Z) (buf : bytes) : M Pager PinaxError unit :=
  self ← get_self;
  buf ← lift (stamp_checksum buf);
  on_file (write_all_at buf (file_offset self id)).

(** What [write_data_page] leaves in the caller's [&mut] buffer. *)
Definition stamped (buf : bytes) : bytes := default buf (ok (stamp_checksum buf)).

(** [Pager::sync_data] *)
Definition sync_data : M Pager PinaxError unit := on_file sync.

(** [Pager::commit] *)
Definition commit (new_root new_page_count : Z) : M Pager PinaxError unit :=
  sync_data ;;
  self ← get_self;
  let target_slot := 1 - active_slot self in
  txn ← lift (add_u64 (txn_id self) 1);
  slot_buf ← lift (encode_meta_slot (mkMeta (page_size self) txn new_root new_page_count));
  on_file (write_all_at slot_buf (target_slot * META_SLOT_LEN)) ;;
  on_file sync ;;
  modify (set_committed target_slot txn new_root new_page_count).
End pager.
