(* ===== verification/PagerSpec.v ===== *)
(** * The pager: pages, meta slots and what a failing disk leaves of them

    [disk_page p id] is the content of a page that reads back from the file of [p]. An
    [anchor] is the point a history goes on from: a pager as it was, whose pages below
    [an_next] are never written again, and the commits that failed since and may yet be
    found in the file. [pager_inv a p]: [p] went on from [a]. *)

From S2P Require Import Prelude Runs Errors Codec Page Disk FileSpec Pager.

Section pager.
Context `{Xxh3} `{BuildProfile}.

(** ** Meta slots *)

Record meta_wf (c : MetaContent) : Prop := {
  mw_page_size : page_size_wf (m_page_size c);
  mw_txn : 0 <= m_txn_id c <= u64_max;
  mw_root : 0 <= m_root_page_id c <= u32_max;
  mw_count : 0 <= m_page_count c <= u32_max;
}.

(** What a slot must say to be decoded to [c]. *)
Record slot_says (buf : bytes) (c : MetaContent) : Prop := {
  ss_magic : at_offset buf OFFSET_MAGIC META_MAGIC;
  ss_page_size : at_offset buf OFFSET_PAGE_SIZE (be_bytes 4 (ps_bytes (m_page_size c)));
  ss_txn : at_offset buf OFFSET_TXN_ID (be_bytes 8 (m_txn_id c));
  ss_root : at_offset buf OFFSET_ROOT (be_bytes 4 (m_root_page_id c));
  ss_count : at_offset buf OFFSET_PAGE_COUNT (be_bytes 4 (m_page_count c));
}.

Lemma decode_slot_says buf c : meta_wf c -> slot_says buf c -> decode_meta_slot buf = Some c.
Proof.
  intros [Hps Ht Hr Hc] [Hm Hp Htx Hrt Hct]. unfold decode_meta_slot.
  pose proof (page_size_range _ Hps). unfold at_offset in Hm. change (len META_MAGIC) with 4 in Hm.
  rewrite Hm. cbn [mbind option_bind].
  rewrite bool_decide_eq_true_2 by done.
  rewrite (read_u32_at _ _ _ Hp) by (unfold u32_max; lia). simpl.
  rewrite (proj2 (page_size_try_from_ret _ (m_page_size c))) by (split; [by destruct (m_page_size c)|done]).
  simpl. rewrite (read_u64_at _ _ _ Htx Ht). simpl. rewrite (read_u32_at _ _ _ Hrt Hr). simpl.
  rewrite (read_u32_at _ _ _ Hct Hc). simpl. by destruct c.
Qed.

Lemma encode_meta_slot_ok c :
  meta_wf c -> exists buf, encode_meta_slot c = Ret buf /\ len buf = META_SLOT_LEN /\ valid_slot buf = Some c.
Proof.
  intros Hwf. unfold encode_meta_slot, write_u16, write_u32, write_u64.
  assert (Hz : len (zeros META_SLOT_LEN) = META_SLOT_LEN) by (by apply len_zeros).
  generalize dependent (zeros META_SLOT_LEN). intros z Hz.
  unfold OFFSET_MAGIC, OFFSET_VERSION, OFFSET_PAGE_SIZE, OFFSET_TXN_ID, OFFSET_ROOT,
    OFFSET_PAGE_COUNT, OFFSET_FREELIST_HEAD, META_SLOT_LEN in *.
  assert (Hw : forall b o x, len b = 4096 -> 0 <= o -> o + len x <= 4088 -> exists b',
    write_bytes b o x = Ret b' /\ splice b o x = Some b' /\ len b' = 4096).
  { intros b o x Hb Ho Hx. destruct (write_bytes_ok b o x) as (b' & Hwb & Hs); [lia|lia|].
    exists b'. split_and!; [done|done|]. by rewrite (splice_len _ _ _ _ Hs). }
  destruct (Hw z 0 META_MAGIC Hz) as (b1 & -> & S1 & L1); [lia|done|]. simpl.
  destruct (Hw b1 4 (be_bytes 2 META_FORMAT_VERSION) L1) as (b2 & -> & S2 & L2); [lia|len_solve|]. simpl.
  destruct (Hw b2 6 (be_bytes 4 (ps_bytes (m_page_size c))) L2) as (b3 & -> & S3 & L3); [lia|len_solve|]. simpl.
  destruct (Hw b3 10 (be_bytes 8 (m_txn_id c)) L3) as (b4 & -> & S4 & L4); [lia|len_solve|]. simpl.
  destruct (Hw b4 18 (be_bytes 4 (m_root_page_id c)) L4) as (b5 & -> & S5 & L5); [lia|len_solve|]. simpl.
  destruct (Hw b5 22 (be_bytes 4 (m_page_count c)) L5) as (b6 & -> & S6 & L6); [lia|len_solve|]. simpl.
  destruct (Hw b6 26 (be_bytes 4 0) L6) as (b7 & -> & S7 & L7); [lia|len_solve|]. simpl.
  assert (Hsays : slot_says b7 c).
  { assert (Hk : forall b o x b' o' y, splice b o x = Some b' -> (o' + len y <= o \/ o + len x <= o') ->
      at_offset b o' y -> at_offset b' o' y) by (intros; by eapply at_offset_splice_other).
    assert (Hmg : len META_MAGIC = 4) by done.
    split; unfold OFFSET_MAGIC, OFFSET_PAGE_SIZE, OFFSET_TXN_ID, OFFSET_ROOT, OFFSET_PAGE_COUNT;
      repeat first [by eapply at_offset_splice_same | eapply Hk; [eassumption|len_solve|]]. }
  rewrite stamp_checksum_ok by lia. eexists. split; [done|].
  set (b8 := content b7 ++ _).
  assert (L8 : len b8 = 4096) by (unfold b8; rewrite len_app, len_content, len_be8; lia).
  split; [done|]. unfold valid_slot.
  assert (Hv : verify_checksum b8 = Ret tt).
  { apply verify_checksum_ret; [lia|]. unfold b8. by rewrite content_stamped. }
  rewrite Hv. simpl. apply decode_slot_says; [done|].
  assert (Ht : forall o x, o + len x <= 4088 -> at_offset b7 o x -> at_offset b8 o x).
  { intros o x Hx. apply at_offset_content; [by unfold b8; rewrite content_stamped|lia|unfold CHECKSUM_LEN; lia]. }
  assert (Hmg : len META_MAGIC = 4) by done.
  destruct Hsays. split; (apply Ht; [|done]);
    unfold OFFSET_MAGIC, OFFSET_PAGE_SIZE, OFFSET_TXN_ID, OFFSET_ROOT, OFFSET_PAGE_COUNT; len_solve.
Qed.

(** ** The file behind a pager *)

(** The content of the page [id], if the file has it and it verifies. *)
Definition disk_page (p : Pager) (id : Z) : option bytes :=
  b ← slice (data (file p)) (file_offset p id) (ps_bytes (page_size p));
  _ ← ok (verify_checksum b);
  Some (content b).

(** What a slot of the file says. *)
Definition slot_at (f : File) (i : Z) : option MetaContent :=
  slot ← slice (data f) (i * META_SLOT_LEN) META_SLOT_LEN; valid_slot slot.

Definition meta_of (p : Pager) : MetaContent :=
  mkMeta (page_size p) (txn_id p) (root_page_id p) (page_count p).

(** Everything but the file. *)
Definition same_fields (p p' : Pager) : Prop :=
  path p' = path p /\ page_size p' = page_size p /\ active_slot p' = active_slot p /\
  txn_id p' = txn_id p /\ root_page_id p' = root_page_id p /\ page_count p' = page_count p.

Definition pages_le (p p' : Pager) : Prop :=
  forall id c, FIRST_DATA_PAGE_ID <= id -> disk_page p id = Some c -> disk_page p' id = Some c.

Lemma file_offset_data p id :
  FIRST_DATA_PAGE_ID <= id ->
  file_offset p id = META_REGION_LEN + (id - FIRST_DATA_PAGE_ID) * ps_bytes (page_size p).
Proof. intros. unfold file_offset, saturating_sub. by rewrite Z.max_r by lia. Qed.

Lemma file_offset_disjoint p id id' :
  FIRST_DATA_PAGE_ID <= id -> FIRST_DATA_PAGE_ID <= id' -> id <> id' -> 0 <= ps_bytes (page_size p) ->
  file_offset p id + ps_bytes (page_size p) <= file_offset p id' \/
  file_offset p id' + ps_bytes (page_size p) <= file_offset p id.
Proof. intros. rewrite !file_offset_data by done. nia. Qed.

Lemma set_file_id p : set_file (file p) p = p.
Proof. by destruct p. Qed.

Lemma file_offset_ge p id : page_size_wf (page_size p) -> META_REGION_LEN <= file_offset p id.
Proof. intros Hwf%page_size_range. unfold file_offset, saturating_sub. nia. Qed.

(** The place of a page ends before that of the next one. *)
Lemma file_offset_next p id n :
  page_size_wf (page_size p) -> FIRST_DATA_PAGE_ID <= id < n ->
  file_offset p id + ps_bytes (page_size p) <= file_offset p n.
Proof. intros Hwf%page_size_range Hid. rewrite !file_offset_data by lia. nia. Qed.

Lemma disk_page_written p id f' buf :
  page_size_wf (page_size p) -> len buf = ps_bytes (page_size p) -> verify_checksum buf = Ret tt ->
  data f' = apply_write (WriteAt (file_offset p id) buf) (data (file p)) ->
  disk_page (set_file f' p) id = Some (content buf).
Proof.
  intros Hwf Hl Hv Hd. unfold disk_page. simpl. rewrite Hd. pose proof (file_offset_ge p id Hwf) as Ho.
  change (file_offset (set_file f' p) id) with (file_offset p id).
  revert Ho. generalize (file_offset p id). unfold META_REGION_LEN, META_SLOT_LEN. intros o Ho.
  rewrite <-Hl, slice_apply_write_same by lia. simpl. by rewrite Hv.
Qed.

(** A write in the place of one page leaves the others. *)
Lemma disk_page_other p id f' part :
  page_size_wf (page_size p) -> FIRST_DATA_PAGE_ID <= id -> len part <= ps_bytes (page_size p) ->
  data f' = apply_write (WriteAt (file_offset p id) part) (data (file p)) ->
  forall id' c, FIRST_DATA_PAGE_ID <= id' -> id' <> id -> disk_page p id' = Some c ->
    disk_page (set_file f' p) id' = Some c.
Proof.
  intros Hwf Hid Hl Hd id' c Hid' Hne. pose proof (file_offset_ge p id Hwf) as Ho.
  unfold META_REGION_LEN, META_SLOT_LEN in Ho. pose proof (page_size_range _ Hwf) as Hr.
  unfold disk_page. destruct (slice (data (file p)) _ _) as [b|] eqn:E; [|done]. intros Hc.
  change (file_offset (set_file f' p) id') with (file_offset p id'). cbn [set_file file page_size]. rewrite Hd.
  rewrite (slice_apply_write_other _ _ _ _ _ b); [done|lia| |done].
  destruct (file_offset_disjoint p id' id); [done|done|done|lia|left; lia|right; lia].
Qed.

Lemma disk_page_data p p' id :
  data (file p') = data (file p) -> page_size p' = page_size p -> disk_page p' id = disk_page p id.
Proof. intros Hd Hps. unfold disk_page, file_offset. by rewrite Hd, Hps. Qed.

Lemma disk_page_keeps P p f' id c :
  page_size_wf (page_size p) -> keeps P (data (file p)) (data f') ->
  (forall x, file_offset p id <= x < file_offset p id + ps_bytes (page_size p) -> P x) ->
  disk_page p id = Some c -> disk_page (set_file f' p) id = Some c.
Proof.
  intros Hwf%page_size_range Hk HP. unfold disk_page. destruct (slice (data (file p)) _ _) as [b|] eqn:E; [|done].
  change (file_offset (set_file f' p) id) with (file_offset p id). cbn [set_file file page_size].
  rewrite (slice_keeps P (data (file p)) (data f') _ _ b); [done|done|lia|exact HP|exact E].
Qed.

Lemma slot_at_keeps P f f' i :
  i = 0 \/ i = 1 -> META_REGION_LEN <= len (data f) -> keeps P (data f) (data f') ->
  (forall x, i * META_SLOT_LEN <= x < i * META_SLOT_LEN + META_SLOT_LEN -> P x) ->
  slot_at f' i = slot_at f i.
Proof.
  intros Hi Hl Hk HP. unfold slot_at, META_REGION_LEN, META_SLOT_LEN in *.
  destruct (slice_Some (data f) (i * 4096) 4096) as [b Hb]; [lia..|]. rewrite Hb.
  rewrite (slice_keeps P (data f) (data f') _ _ b); [done|done|done|exact HP|exact Hb].
Qed.

Lemma slot_at_write f f' offset b i :
  data f' = apply_write (WriteAt offset b) (data f) -> 0 <= offset ->
  (i * META_SLOT_LEN + META_SLOT_LEN <= offset \/ offset + len b <= i * META_SLOT_LEN) ->
  0 <= i * META_SLOT_LEN -> i * META_SLOT_LEN + META_SLOT_LEN <= len (data f) ->
  slot_at f' i = slot_at f i.
Proof.
  intros Hd Ho Hdis Hi Hl. unfold slot_at. rewrite Hd.
  destruct (slice_Some (data f) (i * META_SLOT_LEN) META_SLOT_LEN) as [x Hx]; [done|done|done|].
  by rewrite (slice_apply_write_other _ _ _ _ _ x), Hx.
Qed.

Lemma slot_at_written f' i slot c :
  data f' = apply_write (WriteAt (i * META_SLOT_LEN) slot) c -> len slot = META_SLOT_LEN ->
  0 <= i -> slot_at f' i = valid_slot slot.
Proof.
  intros Hd Hl Hi. unfold slot_at. rewrite Hd. rewrite <-Hl at 3.
  rewrite slice_apply_write_same by (unfold META_SLOT_LEN; lia). done.
Qed.

(** ** Going on from an anchor *)

(** [an_pager]: a pager as it was; [an_next]: the first page id that may be written since;
    [an_cand]: what a slot that failed to be published would say; [an_sound]: the disk does
    not fail any more; [an_limit]: the first page id that may not be taken. *)
Record anchor := mkAnchor {
  an_pager : Pager;
  an_next : Z;
  an_cand : MetaContent -> Prop;
  an_sound : Prop;
  an_limit : Z;
}.

Definition slot_place (i x : Z) : Prop := i * META_SLOT_LEN <= x < i * META_SLOT_LEN + META_SLOT_LEN.

(** The places that are not written any more: the active slot and the pages below [an_next]. *)
Definition kept (a : anchor) (x : Z) : Prop :=
  x < file_offset (an_pager a) (an_next a) /\
  outside ((1 - active_slot (an_pager a)) * META_SLOT_LEN) META_SLOT_LEN x.

(** A commit that may follow that of [p], of pages below [n]. *)
Record candidate (p : Pager) (n : Z) (c : MetaContent) : Prop := {
  cd_wf : meta_wf c;
  cd_txn : m_txn_id c = txn_id p + 1;
  cd_size : m_page_size c = page_size p;
  cd_count : FIRST_DATA_PAGE_ID <= m_page_count c <= n;
}.

Record anchor_ok (a : anchor) : Prop := {
  ao_meta : meta_wf (meta_of (an_pager a));
  ao_slot : active_slot (an_pager a) = 0 \/ active_slot (an_pager a) = 1;
  ao_active : slot_at (file (an_pager a)) (active_slot (an_pager a)) = Some (meta_of (an_pager a));
  ao_len : META_REGION_LEN <= len (data (file (an_pager a)));
  ao_next : FIRST_DATA_PAGE_ID <= an_next a;
  ao_cand : forall c, an_cand a c -> candidate (an_pager a) (an_next a) c;
  ao_limit : an_limit a <= u32_max;
}.

(** The slots that were to be written are not newer than the active one, but for the ones
    that failed to be published in the other slot. *)
Definition slots_asked (cand : MetaContent -> Prop) (p : Pager) : Prop :=
  forall i b m, i = 0 \/ i = 1 -> (i * META_SLOT_LEN, b) ∈ asked (file p) -> valid_slot b = Some m ->
    (i = active_slot p /\ m_txn_id m <= txn_id p) \/
    (i = 1 - active_slot p /\ (m_txn_id m < txn_id p \/ cand m)).

Record pager_inv (a : anchor) (p : Pager) : Prop := {
  pg_anchor : anchor_ok a;
  pg_fields : same_fields (an_pager a) p;
  pg_file : file_ok (kept a) (data (file (an_pager a))) (file p);
  pg_asked : slots_asked (an_cand a) p;
  pg_sound : an_sound a -> faults (file p) = [];
}.

(** All is on disk, and no slot but the active one is as new. *)
Record settled (p : Pager) : Prop := {
  st_synced : synced (file p);
  st_asked : slots_asked (fun _ => False) p;
  st_other : forall m, slot_at (file p) (1 - active_slot p) = Some m -> m_txn_id m < txn_id p;
}.

(** To go on from [p] itself. *)
Definition here (p : Pager) : anchor :=
  mkAnchor p (page_count p) (fun _ => False) (faults (file p) = []) u32_max.

(** The errors of a failing disk. *)
Definition disk_failure (e : PinaxError) : Prop := exists path, e = Fatal (Io path OtherIo).

(** What may stop a run that goes on from [a]. *)
Definition disk_stops (a : anchor) (e : PinaxError) : Prop := disk_failure e /\ ~ an_sound a.

(** Nothing but failures to come was used up. *)
Definition only_faults (p p' : Pager) : Prop :=
  exists xs, p' = set_file (with_faults xs (file p)) p /\ no_worse (file p) xs.

Lemma same_fields_refl p : same_fields p p.
Proof. by repeat split. Qed.

Lemma same_fields_trans p p' p'' : same_fields p p' -> same_fields p' p'' -> same_fields p p''.
Proof. unfold same_fields. intros (?&?&?&?&?&?) (?&?&?&?&?&?). split_and!; congruence. Qed.

Lemma same_fields_meta p p' : same_fields p p' -> meta_of p' = meta_of p.
Proof. unfold same_fields, meta_of. intros (?&?&?&?&?&?). congruence. Qed.

Lemma same_fields_offset p p' id : same_fields p p' -> file_offset p' id = file_offset p id.
Proof. unfold same_fields, file_offset. by intros (_&->&_). Qed.

Lemma disk_page_fields p p' id :
  same_fields p p' -> disk_page p' id = disk_page (set_file (file p') p) id.
Proof. intros (_ & Hps & _). by apply disk_page_data. Qed.

(** What is kept: the active slot, and the pages below [an_next]. *)
Lemma kept_slot a x : anchor_ok a -> slot_place (active_slot (an_pager a)) x -> kept a x.
Proof.
  intros [[Hwf _ _ _] Hs _ _ _ _ _] Hx. simpl in Hwf. pose proof (file_offset_ge (an_pager a) (an_next a) Hwf) as Ho.
  unfold kept, outside, slot_place, META_REGION_LEN, META_SLOT_LEN in *. lia.
Qed.

Lemma kept_page a id x :
  anchor_ok a -> FIRST_DATA_PAGE_ID <= id < an_next a ->
  file_offset (an_pager a) id <= x < file_offset (an_pager a) id + ps_bytes (page_size (an_pager a)) -> kept a x.
Proof.
  intros [[Hwf _ _ _] Hs _ _ _ _ _] Hid Hx. simpl in Hwf. pose proof (file_offset_ge (an_pager a) id Hwf) as Ho.
  pose proof (file_offset_next _ _ _ Hwf Hid). unfold kept, outside, META_REGION_LEN, META_SLOT_LEN in *. lia.
Qed.

Section inv.
Context {a : anchor} {p : Pager} (Hp : pager_inv a p).

Lemma pager_meta : meta_of p = meta_of (an_pager a).
Proof using Hp. apply same_fields_meta, Hp. Qed.

Lemma pager_size_wf : page_size_wf (page_size p).
Proof using Hp. pose proof pager_meta as [= -> _ _ _]. apply (mw_page_size _ (ao_meta _ (pg_anchor _ _ Hp))). Qed.

Lemma pager_meta_wf : meta_wf (meta_of p).
Proof using Hp. rewrite pager_meta. apply Hp. Qed.

Lemma pager_len : META_REGION_LEN <= len (data (file p)).
Proof using Hp.
  pose proof (file_ok_len _ _ _ (pg_file _ _ Hp)). pose proof (ao_len _ (pg_anchor _ _ Hp)). lia.
Qed.

Lemma pager_slot : active_slot p = 0 \/ active_slot p = 1.
Proof using Hp. destruct (pg_fields _ _ Hp) as (_ & _ & -> & _). apply Hp. Qed.

(** The active slot of the file says what the fields do. *)
Lemma pager_active : slot_at (file p) (active_slot p) = Some (meta_of p).
Proof using Hp.
  rewrite pager_meta. destruct (pg_fields _ _ Hp) as (_ & _ & -> & _). pose proof (pg_anchor _ _ Hp) as Ha.
  rewrite (slot_at_keeps (kept a) (file (an_pager a))); [apply Ha|apply Ha|apply Ha|by eapply file_ok_data, Hp|].
  intros x Hx. by apply kept_slot.
Qed.

(** A page below [an_next] is what it was. *)
Lemma pager_kept_page id c :
  FIRST_DATA_PAGE_ID <= id < an_next a -> disk_page (an_pager a) id = Some c -> disk_page p id = Some c.
Proof using Hp.
  intros Hid Hc. pose proof (pg_anchor _ _ Hp) as Ha. rewrite (disk_page_fields (an_pager a)) by apply Hp.
  eapply disk_page_keeps; [apply Ha|by eapply file_ok_data, Hp| |done]. intros x Hx. by eapply kept_page.
Qed.

Lemma pager_no_stop e : faults (file p) <> [] -> disk_failure e -> disk_stops a e.
Proof using Hp. intros Hf He. split; [done|]. intros Hs. by apply Hf, Hp. Qed.

(** Only the file changed, and no slot was asked for. *)
Lemma pager_inv_file f' :
  file_ok (kept a) (data (file (an_pager a))) f' ->
  (forall x, x ∈ asked f' -> x ∈ asked (file p) \/ META_REGION_LEN <= x.1) -> no_worse (file p) (faults f') ->
  pager_inv a (set_file f' p).
Proof using Hp.
  intros Hf Hask Hno. destruct Hp as [Ha Hsame Hfile Hold Hsound]. split; [done|done|done| |auto].
  intros i b m Hi Hin. apply Hold; [done|]. destruct (Hask _ Hin) as [?|Hge]; [done|].
  unfold META_REGION_LEN, META_SLOT_LEN in Hge. simpl in Hge. destruct Hi as [-> | ->]; lia.
Qed.

Lemma pager_inv_faults p' : only_faults p p' -> pager_inv a p'.
Proof using Hp.
  intros (xs & -> & Hxs). apply pager_inv_file; [by apply file_ok_faults, Hp|by left|done].
Qed.
End inv.

Lemma only_faults_id p : only_faults p p.
Proof. exists (faults (file p)). split; [by destruct p as [[]]|by intros ?]. Qed.

Lemma only_faults_intro xs p : no_worse (file p) xs -> only_faults p (set_file (with_faults xs (file p)) p).
Proof. by exists xs. Qed.

Section only_faults.
Context {p p' : Pager} (Hf : only_faults p p').

Lemma only_faults_fields : same_fields p p'.
Proof using Hf. by destruct Hf as (xs & -> & _). Qed.

Lemma only_faults_data : data (file p') = data (file p).
Proof using Hf. by destruct Hf as (xs & -> & _). Qed.

Lemma only_faults_page id : disk_page p' id = disk_page p id.
Proof using Hf. apply disk_page_data; [apply only_faults_data|apply only_faults_fields]. Qed.

Lemma only_faults_settled : settled p -> settled p'.
Proof using Hf. destruct Hf as (xs & -> & _). by intros []. Qed.
End only_faults.

(** To go on from the same point, with another limit, on the disk as it is now. *)
Definition aimed (limit : Z) (p : Pager) (a : anchor) : anchor :=
  mkAnchor (an_pager a) (an_next a) (an_cand a) (faults (file p) = []) limit.

Lemma pager_aimed limit a p : pager_inv a p -> limit <= u32_max -> pager_inv (aimed limit p a) p.
Proof. by intros [[] ? ? ? ?] ?. Qed.

(** A settled pager is a place to go on from. *)
Lemma pager_here p :
  meta_wf (meta_of p) -> active_slot p = 0 \/ active_slot p = 1 ->
  slot_at (file p) (active_slot p) = Some (meta_of p) -> META_REGION_LEN <= len (data (file p)) ->
  FIRST_DATA_PAGE_ID <= page_count p -> settled p -> pager_inv (here p) p.
Proof.
  intros Hm Hs Ha Hl Hn [Hsy Hask _].
  split; [by split|apply same_fields_refl|by apply synced_ok|exact Hask|by intros ?].
Qed.

Lemma settled_here a p :
  pager_inv a p -> settled p -> FIRST_DATA_PAGE_ID <= page_count p -> pager_inv (here p) p.
Proof.
  intros Hp Hset Hn. apply pager_here; [apply (pager_meta_wf Hp)|apply (pager_slot Hp)|apply (pager_active Hp)|
    apply (pager_len Hp)|done|done].
Qed.

(** ** The operations *)

Lemma on_file_runs {A} J (m : IO A) p Q :
  runs (fun e f => J (Fatal (Io (path p) e)) (set_file f p)) m (file p) (fun x f => Q x (set_file f p)) ->
  runs J (on_file m) p Q.
Proof. unfold on_file, runs, zoom, io_at. by destruct (m (file p)) as [[] f]. Qed.

Lemma failed path : disk_failure (Fatal (Io path OtherIo)).
Proof. by eexists. Qed.

(** A page read from a file whose reads do not fail, whatever it holds. *)
Lemma read_data_page_exact id p :
  faults (file p) = [] -> page_size_wf (page_size p) ->
  read_data_page id p = (match slice (data (file p)) (file_offset p id) (ps_bytes (page_size p)) with
    | None => Throw (Fatal (Io (path p) UnexpectedEof))
    | Some b => map_err (fun '(expected, actual) => Fatal (Corruption id expected actual)) (verify_checksum b) ;; Ret b
    end, p).
Proof.
  intros Hf Hwf. unfold read_data_page, get_self, on_file, zoom, io_at, read_exact_at, or_fault, next_fault,
    lift, mret, M_ret, mbind, M_bind.
  rewrite Hf, bytes_usize_wf by done. cbn -[slice verify_checksum].
  destruct (slice _ _ _) as [b|]; cbn -[verify_checksum]; rewrite set_file_id; [|done].
  by destruct (verify_checksum b) as [[]|[]| |].
Qed.

Lemma read_data_page_ok a p id c :
  pager_inv a p -> disk_page p id = Some c ->
  runs (fun e p' => disk_stops a e /\ only_faults p p') (read_data_page id) p
    (fun b p' => only_faults p p' /\ len b = ps_bytes (page_size p) /\ content b = c).
Proof.
  intros Hp Hd. pose proof (pager_size_wf Hp) as Hwf. unfold disk_page in Hd.
  destruct (slice (data (file p)) _ _) as [b|] eqn:Hs; [|done]. simpl in Hd.
  destruct (verify_checksum b) as [[]| | |] eqn:Hv; simplify_eq/=.
  unfold read_data_page. apply runs_bind_self. rewrite bytes_usize_wf by done.
  eapply runs_bind with (P := fun x p' => x = b /\ only_faults p p').
  { apply on_file_runs. eapply read_exact_at_runs; [exact Hs|..].
    - intros xs Hxs. split; [done|by apply only_faults_intro].
    - intros xs Hxs. split; [apply (pager_no_stop Hp); [done|apply failed]|by apply only_faults_intro, no_worse_failing]. }
  intros ? p' [-> Hf]. eapply runs_bind_lift; [by rewrite Hv|]. apply runs_ret.
  split_and!; [done| |done]. by eapply slice_len.
Qed.

(** Every page but [id] is as it was. *)
Definition others_kept (id : Z) (p p' : Pager) : Prop :=
  forall id' c, FIRST_DATA_PAGE_ID <= id' -> id' <> id -> disk_page p id' = Some c -> disk_page p' id' = Some c.

Lemma write_data_page_ok a p id buf :
  pager_inv a p -> an_next a <= id -> len buf = ps_bytes (page_size p) ->
  runs (fun e p' => disk_stops a e /\ pager_inv a p' /\ same_fields p p' /\ others_kept id p p')
    (write_data_page id buf) p
    (fun _ p' => pager_inv a p' /\ same_fields p p' /\ disk_page p' id = Some (content buf) /\ others_kept id p p').
Proof.
  intros Hp Hid Hl. pose proof (pager_size_wf Hp) as Hwf. pose proof (page_size_range _ Hwf) as Hps.
  pose proof (ao_next _ (pg_anchor _ _ Hp)) as Hn. pose proof (file_offset_ge p id Hwf) as Ho.
  unfold write_data_page. apply runs_bind_self. eapply runs_bind_lift; [apply stamp_checksum_ok; lia|].
  set (b := content buf ++ _).
  assert (Hlb : len b = ps_bytes (page_size p)).
  { unfold b. rewrite len_app, len_content, len_be8 by lia. lia. }
  assert (Hv : verify_checksum b = Ret tt).
  { apply verify_checksum_ret; [lia|]. unfold b. by rewrite content_stamped. }
  assert (Hc : content b = content buf) by apply content_stamped.
  assert (Hpart : forall part xs, len part <= len b -> no_worse (file p) xs ->
    pager_inv a (set_file (written (file p) (file_offset p id) b part xs) p) /\
    others_kept id p (set_file (written (file p) (file_offset p id) b part xs) p)).
  { intros part xs Hpl Hxs. split.
    - apply (pager_inv_file Hp); [|intros x [Hx| ->%list_elem_of_singleton]%elem_of_app; [by left|right; exact Ho]|done].
      apply file_ok_written; [apply Hp|]. unfold META_REGION_LEN, META_SLOT_LEN in Ho.
      split; [lia|]. intros i Hi [Hk _]. rewrite <-(same_fields_offset _ _ _ (pg_fields _ _ Hp)) in Hk.
      destruct (decide (an_next a = id)) as [<-|]; [lia|].
      pose proof (file_offset_next p (an_next a) id Hwf ltac:(lia)). lia.
    - intros id' c Hid' Hne. eapply disk_page_other; [done| |by rewrite <-Hlb|done|done|done]. lia. }
  apply on_file_runs. apply write_all_at_runs.
  - intros xs Hxs. destruct (Hpart b xs) as [Hi Hk]; [lia|done|]. split_and!; [done|done| |done].
    rewrite <-Hc. by eapply disk_page_written.
  - intros n xs Hxs. destruct (Hpart (take n b) xs) as [Hi Hk]; [rewrite len_take; lia|by apply no_worse_failing|].
    split_and!; [apply (pager_no_stop Hp); [done|apply failed]|done|done|done].
Qed.

(** On a disk that does not fail, wherever the page is. *)
Lemma write_data_page_written p id buf :
  page_size_wf (page_size p) -> len buf = ps_bytes (page_size p) -> faults (file p) = [] ->
  returns (write_data_page id buf) p (fun _ p' => disk_page p' id = Some (content buf)).
Proof.
  intros Hwf Hl Hf. pose proof (page_size_range _ Hwf) as Hps.
  apply (runs_returns (fun _ _ => False)); [by intros ? ? []|].
  unfold write_data_page. apply runs_bind_self. eapply runs_bind_lift; [apply stamp_checksum_ok; lia|].
  set (b := content buf ++ _).
  assert (Hlb : len b = ps_bytes (page_size p)).
  { unfold b. rewrite len_app, len_content, len_be8 by lia. lia. }
  apply on_file_runs, write_all_at_runs; [|intros n xs Hxs; by apply Hxs].
  intros xs _. assert (Hc : content b = content buf) by apply content_stamped. rewrite <-Hc.
  eapply disk_page_written; [done|done| |reflexivity].
  apply verify_checksum_ret; [lia|]. unfold b. by rewrite content_stamped.
Qed.

Lemma sync_data_ok a p :
  pager_inv a p ->
  runs (fun e p' => disk_stops a e /\ only_faults p p') sync_data p
    (fun _ p' => pager_inv a p' /\ same_fields p p' /\ data (file p') = data (file p) /\ synced (file p') /\
      no_worse (file p) (faults (file p'))).
Proof.
  intros Hp. apply on_file_runs, sync_runs.
  - intros xs Hxs. split_and!; [|done..].
    apply (pager_inv_file Hp); [by apply file_ok_synced, Hp|by left|done].
  - intros xs Hxs. split; [apply (pager_no_stop Hp); [done|apply failed]|by apply only_faults_intro, no_worse_failing].
Qed.

#[local] Opaque apply_write slice slot_at valid_slot.

(** [p'] is [p] but for the other slot, which was asked to say [c]. *)
Record publishing (c : MetaContent) (p p' : Pager) : Prop := {
  pb_slots : forall cand, slots_asked cand p -> slots_asked (fun m => cand m \/ m = c) p';
  pb_faults : no_worse (file p) (faults (file p'));
  pb_len : len (data (file p)) <= len (data (file p'));
  pb_keeps : keeps (outside ((1 - active_slot p) * META_SLOT_LEN) META_SLOT_LEN) (data (file p)) (data (file p'));
  pb_file : forall P, (forall x, P x -> outside ((1 - active_slot p) * META_SLOT_LEN) META_SLOT_LEN x) ->
    file_ok P (data (file p')) (file p');
}.

(** A slot that is being published: the other pages and the active slot stay. *)
Lemma publishing_pages c p p' :
  page_size_wf (page_size p) -> active_slot p = 0 \/ active_slot p = 1 -> same_fields p p' -> publishing c p p' -> pages_le p p'.
Proof.
  intros Hwf Hslot Hsame Hpub id x Hid Hx. rewrite (disk_page_fields p) by done.
  eapply disk_page_keeps; [done|apply Hpub| |done]. pose proof (file_offset_ge p id Hwf).
  unfold outside, META_REGION_LEN, META_SLOT_LEN in *. lia.
Qed.

Lemma slots_asked_written cand p t slot c part xs :
  t = 1 - active_slot p -> active_slot p = 0 \/ active_slot p = 1 -> valid_slot slot = Some c ->
  slots_asked cand p -> slots_asked (fun m => cand m \/ m = c) (set_file (written (file p) (t * META_SLOT_LEN) slot part xs) p).
Proof.
  intros -> Hslot Hv Hask i b m Hi Hin Hb. apply elem_of_app in Hin as [Hin|Hin%list_elem_of_singleton]; cbn [set_file active_slot txn_id].
  - destruct (Hask i b m Hi Hin Hb) as [?|[? [?|?]]]; tauto.
  - injection Hin as Hit ->. rewrite Hv in Hb. injection Hb as <-. right. split; [|tauto].
    unfold META_SLOT_LEN in Hit. lia.
Qed.

Lemma written_publishing p slot c part xs :
  active_slot p = 0 \/ active_slot p = 1 -> META_REGION_LEN <= len (data (file p)) -> synced (file p) ->
  len slot = META_SLOT_LEN -> valid_slot slot = Some c -> len part <= len slot -> no_worse (file p) xs ->
  publishing c p (set_file (written (file p) ((1 - active_slot p) * META_SLOT_LEN) slot part xs) p).
Proof.
  intros Hslot Hl Hsy Hsl Hv Hpart Hxs.
  assert (Hclear : forall P : Z -> Prop, (forall x, P x -> outside ((1 - active_slot p) * META_SLOT_LEN) META_SLOT_LEN x) ->
    writes_clear P (WriteAt ((1 - active_slot p) * META_SLOT_LEN) part)).
  { intros P HP. unfold outside, META_SLOT_LEN in *. split; [lia|]. intros i Hi Hx%HP. lia. }
  split.
  - intros cand. by apply slots_asked_written.
  - done.
  - cbn [set_file file written data]. rewrite len_apply_write_at by (unfold META_SLOT_LEN; lia). lia.
  - by apply keeps_write, Hclear.
  - intros P HP. set (o := (1 - active_slot p) * META_SLOT_LEN) in *. set (d := data (file p)) in *.
    assert (Ho : 0 <= o) by (unfold o, META_SLOT_LEN; lia). destruct Hsy as [Hdur Hpend]. fold d in Hdur.
    assert (Hend : o + len part <= len d) by (unfold o, META_REGION_LEN, META_SLOT_LEN in *; lia).
    split; cbn [set_file file written data durable pending]; fold d; rewrite ?Hdur, ?Hpend.
    + intros i x Hi%HP Hx. rewrite apply_write_spec in Hx by done. rewrite decide_False in Hx by (unfold outside, len in *; lia).
      pose proof (len_nonneg part). unfold zeros in Hx. replace (Z.to_nat (o - len d)) with O in Hx by lia.
      by rewrite app_nil_r in Hx.
    + rewrite len_apply_write_at by done. pose proof (len_nonneg part). lia.
    + constructor; [by apply Hclear|constructor].
    + done.
Qed.

(** Going on after a publication that failed, with [n] the first page id still free. *)
Definition also (a : anchor) (n : Z) (c : MetaContent) (p : Pager) : anchor :=
  mkAnchor p n (fun m => an_cand a m \/ m = c) (an_sound a) (an_limit a).

Lemma publishing_inv a p p' n c :
  pager_inv a p -> same_fields p p' -> publishing c p p' -> an_next a <= n ->
  candidate p n c -> pager_inv (also a n c p') p'.
Proof.
  intros Hp Hsame Hpub Hn Hc. pose proof (pager_slot Hp) as Hslot. pose proof (pager_len Hp) as Hl.
  pose proof (same_fields_meta _ _ Hsame) as Hm. pose proof Hsame as (_ & _ & Has & Htx & _).
  assert (Hout : forall x, slot_place (active_slot p) x -> outside ((1 - active_slot p) * META_SLOT_LEN) META_SLOT_LEN x).
  { unfold slot_place, outside, META_SLOT_LEN. lia. }
  split; cbn [also an_pager an_next an_cand an_sound].
  - split; cbn [also an_pager an_next an_cand].
    + rewrite Hm. apply (pager_meta_wf Hp).
    + by rewrite Has.
    + rewrite Hm, Has, <-(pager_active Hp). eapply slot_at_keeps; [done|done|apply Hpub|exact Hout].
    + pose proof (pb_len _ _ _ Hpub). lia.
    + pose proof (ao_next _ (pg_anchor _ _ Hp)). lia.
    + pose proof Hsame as (_ & Hps & _). intros m [Hm'| ->]; [|destruct Hc; split; [done|congruence|congruence|done]].
      apply (ao_cand _ (pg_anchor _ _ Hp)) in Hm' as []. destruct (pg_fields _ _ Hp) as (_ & Hps0 & _ & Htx0 & _).
      split; [done|congruence|congruence|lia].
    + apply Hp.
  - apply same_fields_refl.
  - apply Hpub. intros x [_ Hx]. cbn [also an_pager] in Hx. by rewrite Has in Hx.
  - apply Hpub, Hp.
  - intros Hs. apply Hpub, Hp, Hs.
Qed.

(** What a commit leaves when it returns. *)
Record published (root count : Z) (p p' : Pager) : Prop := {
  pu_here : pager_inv (here p') p';
  pu_settled : settled p';
  pu_path : path p' = path p;
  pu_page_size : page_size p' = page_size p;
  pu_txn : txn_id p' = txn_id p + 1;
  pu_root : root_page_id p' = root;
  pu_count : page_count p' = count;
  pu_pages : pages_le p p';
  pu_slot : active_slot p' = 1 - active_slot p;
  pu_faults : no_worse (file p) (faults (file p'));
}.

(** What it leaves when the disk stops it: the slot was not touched, or it was asked for. *)
Definition commit_stopped (a : anchor) (root count : Z) (p : Pager) (e : PinaxError) (p' : Pager) : Prop :=
  disk_stops a e /\ same_fields p p' /\ pages_le p p' /\
  (pager_inv a p' \/ pager_inv (also a count (mkMeta (page_size p) (txn_id p + 1) root count) p') p').

Lemma publish_ok p slot c xs :
  active_slot p = 0 \/ active_slot p = 1 -> META_REGION_LEN <= len (data (file p)) ->
  len slot = META_SLOT_LEN -> valid_slot slot = Some c -> meta_wf c -> page_size p = m_page_size c ->
  m_txn_id c = txn_id p + 1 -> FIRST_DATA_PAGE_ID <= m_page_count c ->
  slots_asked (fun m => m_txn_id m = txn_id p + 1) p -> slot_at (file p) (active_slot p) = Some (meta_of p) ->
  let t := 1 - active_slot p in
  let f := written (file p) (t * META_SLOT_LEN) slot slot xs in
  forall ys, no_worse (file p) xs -> no_worse f ys ->
  published (m_root_page_id c) (m_page_count c) p
    (set_committed t (m_txn_id c) (m_root_page_id c) (m_page_count c) (set_file (file_synced f ys) p)).
Proof.
  intros Hslot Hl Hsl Hv Hc Hps Htx Hn Hask Hold t f ys Hxs Hys.
  set (p' := set_committed _ _ _ _ _).
  assert (Ht : t = 0 \/ t = 1) by lia.
  assert (Hmeta : meta_of p' = c) by (unfold meta_of, p'; simpl; rewrite Hps; by destruct c).
  assert (Hto : 0 <= t * META_SLOT_LEN) by (unfold META_SLOT_LEN; lia).
  assert (Hkeep : keeps (outside (t * META_SLOT_LEN) META_SLOT_LEN) (data (file p)) (data (file p'))).
  { rewrite <-Hsl at 2. by apply keeps_write_outside. }
  assert (Hset : settled p').
  { split; [done| |].
    2:{ intros m. cbn [p' set_committed active_slot txn_id]. replace (1 - t) with (active_slot p) by lia.
      rewrite (slot_at_keeps _ (file p) _ _ Hslot Hl Hkeep), Hold.
      - intros [= <-]. simpl. lia.
      - unfold outside, META_SLOT_LEN. lia. }
    intros i b m Hi Hin Hb. cbn [p' set_committed active_slot txn_id].
    destruct (slots_asked_written _ p t slot c slot xs eq_refl Hslot Hv Hask i b m Hi Hin Hb) as [[-> Hm]|[-> Hm]];
      cbn [set_file txn_id active_slot] in *; [right; split; [lia|left; lia]|left].
    split; [done|]. destruct Hm as [?|[?| ->]]; lia. }
  split; try done.
  - apply pager_here; [by rewrite Hmeta|done| | |done|done].
    + rewrite Hmeta, <-Hv. cbn [p' set_committed active_slot]. eapply slot_at_written; [done|done|lia].
    + change (data (file p')) with (apply_write (WriteAt (t * META_SLOT_LEN) slot) (data (file p))).
      rewrite len_apply_write_at by done. lia.
  - intros id x Hid Hx. rewrite (disk_page_data (set_file (file p') p)) by done. destruct Hc as [Hwf _ _ _].
    rewrite <-Hps in Hwf. eapply disk_page_keeps; [done|exact Hkeep| |done]. pose proof (file_offset_ge p id Hwf).
    unfold outside, META_REGION_LEN, META_SLOT_LEN in *. lia.
  - intros Hf. by apply Hys, Hxs.
Qed.

(** A commit that the disk stops in its slot or in the last sync: any prefix of the slot
    may have been written. *)
Lemma slot_stopped a p p1 slot root count part xs :
  pager_inv a p -> pager_inv a p1 -> same_fields p p1 -> data (file p1) = data (file p) -> synced (file p1) ->
  an_next a <= count <= u32_max -> let c := mkMeta (page_size p) (txn_id p + 1) root count in
  meta_wf c -> len slot = META_SLOT_LEN -> valid_slot slot = Some c -> faults (file p1) <> [] -> len part <= len slot ->
  commit_stopped a root count p (Fatal (Io (path p1) OtherIo))
    (set_file (written (file p1) ((1 - active_slot p1) * META_SLOT_LEN) slot part xs) p1).
Proof.
  intros Hp Hp1 Hsame Hd1 Hsy Hcount c Hc Hsl Hv Hfail Hpart. pose proof (pager_slot Hp1) as Hact.
  pose proof (ao_next _ (pg_anchor _ _ Hp)) as Hnext. pose proof Hsame as (_ & Hps & _ & Htx & _).
  pose proof (written_publishing p1 slot c part xs Hact (pager_len Hp1) Hsy Hsl Hv Hpart (no_worse_failing _ _ Hfail)) as Hpub.
  split_and!; [apply (pager_no_stop Hp1); [done|apply failed]|done| |right].
  - intros id x Hid Hx. eapply publishing_pages; [by apply (pager_size_wf Hp1)|done|done|exact Hpub|done|].
    by rewrite (disk_page_data p).
  - apply (publishing_inv a p1); [done|done|done|lia|]. split; [done|by rewrite Htx|by rewrite Hps|].
    unfold FIRST_DATA_PAGE_ID in *. simpl. lia.
Qed.

(** A commit publishes the root in the slot that was not active. *)
Lemma pager_commit_ok a p root count :
  pager_inv a p -> 0 <= root <= u32_max -> an_next a <= count <= u32_max -> txn_id p < u64_max ->
  runs (commit_stopped a root count p) (commit root count) p (fun _ p' => published root count p p').
Proof.
  intros Hp Hroot Hcount Htxn. pose proof (pager_meta_wf Hp) as [Hwf Ht _ _]. simpl in Hwf, Ht.
  pose proof (ao_next _ (pg_anchor _ _ Hp)) as Hnext. unfold FIRST_DATA_PAGE_ID in Hnext.
  unfold commit. eapply runs_bind.
  { eapply runs_weaken; [by apply sync_data_ok|]. intros e p1 [He Hf]. split_and!; [done|by apply only_faults_fields| |].
    - intros id c _ Hc. by rewrite (only_faults_page Hf).
    - left. by eapply pager_inv_faults. }
  intros _ p1 (Hp1 & Hsame & Hd1 & Hsy & Hno). apply runs_bind_self. cbv zeta.
  pose proof Hsame as (Hpath & Hps & Has & Htx & _). rewrite Htx, Hps.
  eapply runs_bind_lift; [apply wrap_or_panic_ret; lia|].
  set (c := mkMeta (page_size p) (txn_id p + 1) root count).
  assert (Hc : meta_wf c) by (split; simpl; [done|lia..]).
  destruct (encode_meta_slot_ok c Hc) as (slot & Hslot & Hsl & Hv).
  eapply runs_bind_lift; [exact Hslot|]. clear Hslot.
  pose proof (pager_slot Hp1) as Hact. pose proof (pager_len Hp1) as Hl.
  assert (Hle : pages_le p p1) by (intros id x _ Hx; by rewrite (disk_page_data p)).
  assert (Hstop : forall part xs, faults (file p1) <> [] -> len part <= len slot ->
    commit_stopped a root count p (Fatal (Io (path p1) OtherIo))
      (set_file (written (file p1) ((1 - active_slot p1) * META_SLOT_LEN) slot part xs) p1)).
  { intros part xs. by apply slot_stopped. }
  eapply runs_bind with (P := fun _ p2 => exists xs, no_worse (file p1) xs /\
    p2 = set_file (written (file p1) ((1 - active_slot p1) * META_SLOT_LEN) slot slot xs) p1).
  { apply on_file_runs, write_all_at_runs.
    - intros xs Hxs. by exists xs.
    - intros n xs Hxs. apply Hstop; [done|rewrite len_take; lia]. }
  intros _ p2 (xs & Hxs & ->). eapply runs_bind with (P := fun _ p3 => exists ys,
    no_worse (file (set_file (written (file p1) ((1 - active_slot p1) * META_SLOT_LEN) slot slot xs) p1)) ys /\
    p3 = set_file (file_synced (written (file p1) ((1 - active_slot p1) * META_SLOT_LEN) slot slot xs) ys) p1).
  { apply on_file_runs, sync_runs.
    - intros ys Hys. by exists ys.
    - intros ys Hys. apply (Hstop slot ys); [|lia]. intros Hf. by apply Hys, Hxs. }
  intros _ p3 (ys & Hys & ->). apply runs_modify.
  destruct (publish_ok p1 slot c xs) with (ys := ys) as [? ? Hpa Hpz _ _ _ Hpg Hsl' Hfl]; try done.
  - simpl. lia.
  - unfold FIRST_DATA_PAGE_ID. simpl. lia.
  - intros i b m Hi Hin Hb. destruct (pg_asked _ _ Hp1 i b m Hi Hin Hb) as [?|[? [?|Hm]]]; [by left|by right; auto|].
    right. split; [done|right]. rewrite (cd_txn _ _ _ (ao_cand _ (pg_anchor _ _ Hp) _ Hm)).
    destruct (pg_fields _ _ Hp1) as (_ & _ & _ & -> & _). done.
  - apply (pager_active Hp1).
  - split; [done|done|exact (eq_trans Hpa Hpath)|exact (eq_trans Hpz Hps)|done|done|done| |by rewrite <-Has|].
    + intros id x Hid Hx. by apply Hpg, Hle.
    + intros Hf. apply Hfl, Hno, Hf.
Qed.

#[local] Transparent apply_write slice slot_at valid_slot.

(** ** Creating and opening *)

Lemma choose_slot_ok p path :
  active_slot p = 0 \/ active_slot p = 1 -> slot_at (file p) (active_slot p) = Some (meta_of p) ->
  (forall m, slot_at (file p) (1 - active_slot p) = Some m -> m_txn_id m < txn_id p) ->
  choose_slot path (slot_at (file p) 0) (slot_at (file p) 1) = Ret (active_slot p, meta_of p).
Proof.
  intros Hslot Hact Hoth. destruct Hslot as [E|E]; rewrite E in *; rewrite Hact.
  - change (1 - 0) with 1 in Hoth.
    destruct (slot_at (file p) 1) as [m|]; simpl; [|done]. specialize (Hoth m eq_refl).
    case_match; [lia|done].
  - change (1 - 1) with 0 in Hoth.
    destruct (slot_at (file p) 0) as [m|]; simpl; [|done]. specialize (Hoth m eq_refl).
    case_match; [done|lia].
Qed.

(** The pager that opening [f] by its slot [i] gives. *)
Definition opened (f : File) (path : string) (i : Z) (c : MetaContent) : Pager :=
  mkPager f path (m_page_size c) i (m_txn_id c) (m_root_page_id c) (m_page_count c).

Lemma read_meta_ok path f r :
  META_REGION_LEN <= len (data f) -> choose_slot path (slot_at f 0) (slot_at f 1) = Ret r ->
  runs (fun e f' => disk_failure e /\ faults f <> []) (read_meta path) f
    (fun r' f' => r' = r /\ exists xs, no_worse f xs /\ f' = with_faults xs f).
Proof.
  intros Hl Hc. unfold read_meta.
  assert (Hread : forall {A} (m : IO A) (x : A) f1, no_worse f (faults f1) ->
    runs (fun e f' => e = OtherIo /\ faults f1 <> []) m f1 (fun y f' => y = x /\ exists xs, no_worse f1 xs /\ f' = with_faults xs f1) ->
    runs (fun e f' => disk_failure e /\ faults f <> []) (io_at path m) f1
      (fun y f' => y = x /\ exists xs, no_worse f xs /\ f' = with_faults xs f1)).
  { intros A m x f1 Hf1 Hm. unfold runs, io_at in *. destruct (m f1) as [[] f2]; simpl; try done.
    - destruct Hm as [-> (xs & Hxs & ->)]. split; [done|]. exists xs. split; [|done]. intros Hf. by apply Hxs, Hf1.
    - destruct Hm as [-> Hm]. split; [apply failed|]. intros Hf. by apply Hm, Hf1. }
  assert (Hno : forall f1, no_worse f1 (faults f1)) by (by intros f1 ?).
  unfold META_REGION_LEN, META_SLOT_LEN in *.
  destruct (slice_Some (data f) 0 4096) as [sa Ha]; [lia..|].
  destruct (slice_Some (data f) 4096 4096) as [sb Hb]; [lia..|].
  eapply runs_bind; [apply (Hread _ _ (len (data f)) f); [apply Hno|]|].
  { apply metadata_len_runs; [|done]. intros xs Hxs. split; [done|by exists xs]. }
  intros ? f1 (-> & xs1 & Hxs1 & ->).
  eapply (runs_bind_lift _ _ _ tt); [by rewrite (proj2 (Z.leb_le _ _) Hl)|].
  eapply runs_bind; [apply (Hread _ _ sa (with_faults xs1 f)); [done|]|].
  { eapply read_exact_at_runs; [exact Ha| |done]. intros xs Hxs. split; [done|by exists xs]. }
  intros ? f2 (-> & xs2 & Hxs2 & ->).
  eapply runs_bind; [apply (Hread _ _ sb (with_faults xs2 f)); [done|]|].
  { eapply read_exact_at_runs; [exact Hb| |done]. intros xs Hxs. split; [done|by exists xs]. }
  intros ? f3 (-> & xs3 & Hxs3 & ->).
  eapply runs_lift; [|split; [reflexivity|by exists xs3]].
  rewrite <-Hc. unfold slot_at, META_SLOT_LEN. change (0 * 4096) with 0. change (1 * 4096) with 4096. by rewrite Ha, Hb.
Qed.

(** Opening a file: the pager of its newest valid slot, unless the disk fails. *)
Lemma open_ok path fs f i c :
  files fs !! path = Some f -> META_REGION_LEN <= len (data f) ->
  choose_slot path (slot_at f 0) (slot_at f 1) = Ret (i, c) ->
  (exists xs, no_worse f xs /\ open path fs = Ret (opened (with_faults xs f) path i c)) \/
  (exists e, open path fs = Throw e /\ disk_failure e /\ faults f <> []).
Proof.
  intros Hf Hl Hc. unfold open, open_existing. rewrite Hf. unfold next_fault.
  destruct (faults f) as [|[n|] xs0] eqn:E.
  - pose proof (read_meta_ok path f (i, c) Hl Hc) as Hm. unfold runs in Hm. cbn [map_err mbind outcome_bind].
    destruct (read_meta path f) as [[r|e| |] f']; [|right|done..].
    + destruct Hm as [-> (xs & Hxs & ->)]. left. exists xs. split; [done|]. done.
    + exists e. rewrite E in Hm. tauto.
  - right. exists (Fatal (Io path OtherIo)). split_and!; [done|apply failed|done].
  - set (f1 := mkFile _ _ _ _ _). pose proof (read_meta_ok path f1 (i, c) Hl Hc) as Hm. unfold runs in Hm.
    cbn [map_err mbind outcome_bind]. destruct (read_meta path f1) as [[r|e| |] f']; [|right|done..].
    + destruct Hm as [-> (xs & Hxs & ->)]. left. exists xs. split; [by intros Hf'; rewrite Hf' in E|done].
    + exists e. destruct Hm as [? _]. done.
Qed.

Lemma read_meta_exact path f :
  faults f = [] -> read_meta path f =
    (if len (data f) <? META_REGION_LEN
     then Throw (Fatal (FileTooSmall path (len (data f)) META_REGION_LEN))
     else choose_slot path (slot_at f 0) (slot_at f 1), f).
Proof.
  intros Hf. unfold read_meta.
  rewrite (bind_ret _ _ _ (len (data f)) f).
  2:{ unfold io_at, metadata_len, or_fault, mbind, M_bind, next_fault. by rewrite Hf. }
  rewrite Z.leb_antisym. destruct (len (data f) <? META_REGION_LEN) eqn:E; [done|].
  unfold META_REGION_LEN, META_SLOT_LEN in *.
  destruct (slice_Some (data f) 0 4096) as [a Ha]; [lia..|].
  destruct (slice_Some (data f) 4096 4096) as [b Hb]; [lia..|].
  rewrite (bind_ret _ _ _ tt f) by done.
  rewrite (bind_ret _ _ _ a f) by (unfold io_at; by rewrite (read_exact_at_ok _ _ _ _ Hf Ha)).
  rewrite (bind_ret _ _ _ b f) by (unfold io_at; by rewrite (read_exact_at_ok _ _ _ _ Hf Hb)).
  unfold slot_at, META_SLOT_LEN. change (0 * 4096) with 0. change (1 * 4096) with 4096. by rewrite Ha, Hb.
Qed.

Lemma decode_zeros : decode_meta_slot (zeros META_SLOT_LEN) = None.
Proof. vm_compute. reflexivity. Qed.

Lemma io_at_runs {A} J path (m : IO A) f Q :
  runs (fun e => J (Fatal (Io path e))) m f Q -> runs J (io_at path m) f Q.
Proof. unfold io_at, runs. by destruct (m f) as [[] f']. Qed.

(** What creation writes: one slot, then zeros. *)
Lemma init_file_ok path ps xs0 :
  page_size_wf ps ->
  runs (fun e _ => disk_failure e /\ xs0 <> []) (init_file path ps) (mkFile [] [] [] xs0 []) (fun _ f => exists slot,
    data f = slot ++ zeros META_SLOT_LEN /\ synced f /\ asked f = [(0, slot)] /\ (xs0 = [] -> faults f = []) /\
    len slot = META_SLOT_LEN /\ valid_slot slot = Some (mkMeta ps 0 EMPTY_TREE_ROOT FIRST_DATA_PAGE_ID)).
Proof.
  intros Hwf. assert (Hmwf : meta_wf (mkMeta ps 0 EMPTY_TREE_ROOT FIRST_DATA_PAGE_ID)) by (split; done).
  destruct (encode_meta_slot_ok _ Hmwf) as (slot & Hs & Hl & Hv). unfold init_file.
  eapply runs_bind_lift; [exact Hs|]. clear Hs. set (f0 := mkFile [] [] [] xs0 []).
  assert (Happ : apply_write (WriteAt 0 slot) [] = slot).
  { apply list_eq. intros i. rewrite apply_write_spec by done. case_decide; [f_equal; lia|].
    rewrite lookup_ge_None_2; [symmetry; apply lookup_ge_None_2; lia|].
    change (0 - len []) with 0. simpl. lia. }
  assert (Hset : apply_write (SetLen META_REGION_LEN) slot = slot ++ zeros META_SLOT_LEN).
  { cbn [apply_write]. rewrite Hl. change (META_REGION_LEN - META_SLOT_LEN) with META_SLOT_LEN.
    apply take_ge. rewrite length_app. unfold len in Hl.
    assert (Hz : length (zeros META_SLOT_LEN) = Z.to_nat META_SLOT_LEN) by apply length_replicate.
    rewrite Hz. unfold META_REGION_LEN, META_SLOT_LEN in *. lia. }
  assert (Hfail : forall f' : File, (xs0 = [] -> faults f' = []) -> faults f' <> [] -> disk_failure (Fatal (Io path OtherIo)) /\ xs0 <> []).
  { intros f' Hf Hne. split; [apply failed|auto]. }
  eapply runs_bind with (P := fun _ f => data f = slot /\ asked f = [(0, slot)] /\ (xs0 = [] -> faults f = [])).
  { apply io_at_runs, write_all_at_runs; [|intros n xs; by apply Hfail].
    intros xs Hxs. split_and!; [exact Happ|done|exact Hxs]. }
  intros _ f1 (Hd1 & Ha1 & Hf1).
  eapply runs_bind with (P := fun _ f => data f = slot ++ zeros META_SLOT_LEN /\ asked f = [(0, slot)] /\ (xs0 = [] -> faults f = [])).
  { apply io_at_runs, set_len_runs; [|intros xs Hxs; by eapply Hfail].
    intros xs Hxs. split_and!; [cbn [data]; by rewrite Hd1|done|auto]. }
  intros _ f2 (Hd2 & Ha2 & Hf2). apply io_at_runs, sync_runs; [|intros xs Hxs; by eapply Hfail].
  intros xs Hxs. exists slot. split_and!; [exact Hd2|done|exact Ha2|auto|done|done].
Qed.

(** The pager of such a file *)
Lemma created_settled path ps f slot :
  page_size_wf ps -> data f = slot ++ zeros META_SLOT_LEN -> synced f -> asked f = [(0, slot)] ->
  len slot = META_SLOT_LEN -> valid_slot slot = Some (mkMeta ps 0 EMPTY_TREE_ROOT FIRST_DATA_PAGE_ID) ->
  let p := mkPager f path ps 0 0 EMPTY_TREE_ROOT FIRST_DATA_PAGE_ID in settled p /\ pager_inv (here p) p.
Proof.
  intros Hwf Hd Hsy Ha Hl Hv p.
  assert (Hlz : len (zeros META_SLOT_LEN) = META_SLOT_LEN) by (by apply len_zeros).
  assert (Hslot0 : slot_at f 0 = Some (mkMeta ps 0 EMPTY_TREE_ROOT FIRST_DATA_PAGE_ID)).
  { unfold slot_at. rewrite Hd. change (0 * META_SLOT_LEN) with 0. by rewrite slice_app_l, <-Hl, slice_full by lia. }
  assert (Hslot1 : slot_at f 1 = None).
  { unfold slot_at. rewrite Hd. change (1 * META_SLOT_LEN) with META_SLOT_LEN.
    rewrite slice_app_r, Hl, Z.sub_diag, <-Hlz at 1 by lia. rewrite Hlz.
    assert (Hsf : slice (zeros META_SLOT_LEN) 0 META_SLOT_LEN = Some (zeros META_SLOT_LEN)).
    { rewrite <-Hlz at 2. apply slice_full. }
    rewrite Hsf. cbn [mbind option_bind]. unfold valid_slot.
    destruct (ok (verify_checksum (zeros META_SLOT_LEN))) as [[]|]; [exact decode_zeros|done]. }
  assert (Hset : settled p).
  { split; [done| |intros m Hm; change (slot_at f 1 = Some m) in Hm; congruence].
    intros i b m Hi Hin Hb. change (file p) with f in Hin. rewrite Ha in Hin. apply list_elem_of_singleton in Hin.
    injection Hin as Hi0 ->. left. rewrite Hv in Hb. injection Hb as <-. unfold META_SLOT_LEN in Hi0.
    split; [simpl; lia|done]. }
  split; [done|]. apply pager_here; [by split|by left|exact Hslot0| |done|done].
  change (file p) with f. rewrite Hd, len_app, Hl, Hlz. done.
Qed.

(** [create] makes a file with an empty tree. *)
Lemma create_ok path' ps fs :
  page_size_wf ps -> files fs !! path' = None ->
  runs (fun e _ => disk_failure e /\ new_faults fs <> []) (create path' ps) fs (fun p fs' =>
    fs' = close path' (file p) fs /\ pager_inv (here p) p /\ settled p /\
    path p = path' /\ page_size p = ps /\ root_page_id p = EMPTY_TREE_ROOT /\ txn_id p = 0 /\
    page_count p = FIRST_DATA_PAGE_ID /\ (new_faults fs = [] -> faults (file p) = [])).
Proof.
  intros Hwf Hnone. unfold runs, create, open_create_new. rewrite Hnone.
  assert (Hrun : forall xs0, (new_faults fs = [] -> xs0 = []) ->
    let '(o, f) := init_file path' ps (mkFile [] [] [] xs0 []) in
    match (_ ← o; Ret (mkPager f path' ps 0 0 EMPTY_TREE_ROOT FIRST_DATA_PAGE_ID), close path' f fs) with
    | (Ret p, fs') => fs' = close path' (file p) fs /\ pager_inv (here p) p /\ settled p /\
        path p = path' /\ page_size p = ps /\ root_page_id p = EMPTY_TREE_ROOT /\ txn_id p = 0 /\
        page_count p = FIRST_DATA_PAGE_ID /\ (new_faults fs = [] -> faults (file p) = [])
    | (Throw e, _) => disk_failure e /\ new_faults fs <> []
    | _ => False
    end).
  { intros xs0 Hxs. pose proof (init_file_ok path' ps xs0 Hwf) as Hi. unfold runs in Hi.
    destruct (init_file path' ps (mkFile [] [] [] xs0 [])) as [[[]|e| |] f]; cbn [mbind outcome_bind]; try done.
    - destruct Hi as (slot & Hd & Hsy & Ha & Hf & Hl & Hv).
      destruct (created_settled path' ps f slot Hwf Hd Hsy Ha Hl Hv) as [Hset Hp]. split_and!; auto.
    - destruct Hi as [? Hne]. split; [done|auto]. }
  destruct (new_faults fs) as [|[n|] xs]; [|split; [apply failed|done]|].
  - specialize (Hrun [] ltac:(done)). cbn [tail]. by destruct (init_file _ _ _).
  - specialize (Hrun xs ltac:(done)). cbn [tail]. by destruct (init_file _ _ _).
Qed.

(** On a disk that does not fail: creation returns, and opening a file gives its pager. *)
Lemma create_sound path' ps fs :
  page_size_wf ps -> files fs !! path' = None -> new_faults fs = [] ->
  exists p, create path' ps fs = (Ret p, close path' (file p) fs) /\ pager_inv (here p) p /\ settled p /\
    path p = path' /\ page_size p = ps /\ root_page_id p = EMPTY_TREE_ROOT /\ txn_id p = 0 /\
    page_count p = FIRST_DATA_PAGE_ID /\ faults (file p) = [].
Proof.
  intros Hwf Hnone Hnf. pose proof (create_ok path' ps fs Hwf Hnone) as Hc. unfold runs in Hc.
  destruct (create path' ps fs) as [[p|e| |] fs']; [|by destruct Hc|done..].
  destruct Hc as (-> & ? & ? & ? & ? & ? & ? & ? & ?). exists p. split_and!; auto.
Qed.

Lemma reopen_ok a p fs :
  pager_inv a p -> (forall m, slot_at (file p) (1 - active_slot p) = Some m -> m_txn_id m < txn_id p) ->
  faults (file p) = [] -> open (path p) (close (path p) (file p) fs) = Ret p.
Proof.
  intros Hp Hother Hf.
  destruct (open_ok (path p) (close (path p) (file p) fs) (file p) (active_slot p) (meta_of p)) as [(xs & Hxs & ->)|(e & _ & _ & ?)];
    [apply lookup_insert_eq|apply (pager_len Hp)| | |done].
  - apply choose_slot_ok; [apply (pager_slot Hp)|apply (pager_active Hp)|done].
  - rewrite (Hxs Hf). destruct p as [[]]. simpl in Hf. by rewrite Hf.
Qed.
End pager.

(** ** What the pool relies on *)
Section properties.
Context `{Xxh3} `{BuildProfile}.

(** A meta slot is one page of 4096 bytes that verifies and decodes to what was
    encoded: page size, transaction, root and page count. *)
Theorem meta_slot_roundtrip c :
  meta_wf c -> exists slot, encode_meta_slot c = Ret slot /\ len slot = META_SLOT_LEN /\
    verify_checksum slot = Ret tt /\ decode_meta_slot slot = Some c.
Proof.
  intros Hwf. destruct (encode_meta_slot_ok c Hwf) as (slot & Hs & Hl & Hv). exists slot.
  unfold valid_slot in Hv. destruct (verify_checksum slot) as [[]| | |]; [|discriminate Hv..].
  split_and!; [exact Hs|exact Hl|reflexivity|exact Hv].
Qed.

(** C15: [Pager::open] of a file whose reads do not fail, in full: a missing file, a file
    too short, a file with no valid slot, or the pager of the valid slot with the
    higher transaction, the first one on a tie. *)
Theorem open_exact path fs :
  (forall f, files fs !! path = Some f -> faults f = []) ->
  open path fs =
    match files fs !! path with
    | None => Throw (Fatal (Io path NotFound))
    | Some f =>
      if len (data f) <? META_REGION_LEN then
        Throw (Fatal (FileTooSmall path (len (data f)) META_REGION_LEN))
      else match slot_at f 0, slot_at f 1 with
        | Some a, Some b => Ret (if m_txn_id a <? m_txn_id b then opened f path 1 b else opened f path 0 a)
        | Some a, None => Ret (opened f path 0 a)
        | None, Some b => Ret (opened f path 1 b)
        | None, None => Throw (Fatal (NoValidMetaPage path))
        end
    end.
Proof.
  intros Hfs. unfold open, open_existing. destruct (files fs !! path) as [f|] eqn:Hf; [|done].
  specialize (Hfs f eq_refl). unfold next_fault. rewrite Hfs. cbn [map_err mbind outcome_bind].
  rewrite read_meta_exact by done. case_match; [done|].
  destruct (slot_at f 0) as [a|], (slot_at f 1) as [b|]; simpl; try done. by case_match.
Qed.

(** A page written is read back, up to its checksum, which is the pager's; every
    other page and what an opening sees are as before. *)
Theorem page_write_then_read a p id buf :
  pager_inv a p -> an_next a <= id -> len buf = ps_bytes (page_size p) ->
  runs (fun e p' => disk_stops a e /\ pager_inv a p') (write_data_page id buf ;; read_data_page id) p (fun b p' =>
    len b = len buf /\ content b = content buf /\ meta_of p' = meta_of p /\ pager_inv a p' /\
    others_kept id p p').
Proof.
  intros Hp Hid Hl. eapply runs_bind.
  { eapply runs_weaken; [by apply (write_data_page_ok a)|]. intros e p' (? & ? & _). done. }
  intros _ p' (Hp' & Hsame & Hd & Ho).
  eapply runs_weaken; [eapply runs_mono; [by apply (read_data_page_ok a)|]|].
  2: { intros e p2 [? Hf]. split; [done|by eapply pager_inv_faults]. }
  intros b p2 (Hf & Hlb & Hcb).
  pose proof Hsame as (_ & Hps & _). split_and!; [congruence|done| |by eapply pager_inv_faults|].
  - rewrite (same_fields_meta _ _ (only_faults_fields Hf)). by apply same_fields_meta.
  - intros x c Hx Hne Hc. rewrite (only_faults_page Hf). by apply Ho.
Qed.

(** C14: A commit publishes root and page count, one transaction later, in the slot
    that was not active, and all is on disk: opening the file afterwards gives the
    same pager. No page changes. *)
Theorem commit_then_open a p root count fs :
  pager_inv a p -> an_sound a -> 0 <= root <= u32_max -> an_next a <= count <= u32_max -> txn_id p < u64_max ->
  returns (commit root count) p (fun _ p' =>
    meta_of p' = mkMeta (page_size p) (txn_id p + 1) root count /\
    active_slot p' = 1 - active_slot p /\ durable (file p') = data (file p') /\ pages_le p p' /\
    open (path p) (close (path p) (file p') fs) = Ret p').
Proof.
  intros Hp Hs Hr Hc Ht. eapply runs_returns; [|eapply runs_mono; [by apply (pager_commit_ok a)|]].
  { by intros e p' [[_ Hno] _]. }
  intros _ p' [Hhere [[Hdur _] _ Hother] Hpath Hps Htx Hroot Hcount Hle Hslot Hfl].
  split_and!; [unfold meta_of; congruence|done|done|done|].
  rewrite <-Hpath. apply (reopen_ok (here p')); [done|done|]. apply Hfl. by apply (pg_sound _ _ Hp).
Qed.

(** A pager whose disk may fail. *)
Definition failing (a : anchor) : anchor := mkAnchor (an_pager a) (an_next a) (an_cand a) False (an_limit a).

Lemma pager_failing xs a p : pager_inv a p -> pager_inv (failing a) (set_file (with_faults xs (file p)) p).
Proof. intros [[] ? ? ? ?]. split; [by split|done|by apply file_ok_faults|done|done]. Qed.

(** A file whose slot [i] says [c] and whose other slot is older opens by it. *)
Lemma open_newest path fs f i c :
  files fs !! path = Some f -> faults f = [] -> META_REGION_LEN <= len (data f) -> i = 0 \/ i = 1 ->
  slot_at f i = Some c -> (forall m, slot_at f (1 - i) = Some m -> m_txn_id m < m_txn_id c) ->
  open path fs = Ret (opened f path i c).
Proof.
  intros Hf Hfl Hl Hi Hslot Hoth. assert (Hm : meta_of (opened f path i c) = c) by (by destruct c).
  destruct (open_ok path fs f i c Hf Hl) as [(xs & Hxs & ->)|(e & _ & _ & ?)]; [| |done].
  - etrans; [apply (choose_slot_ok (opened f path i c) path); [exact Hi|by rewrite Hm|exact Hoth]|by rewrite Hm].
  - rewrite (Hxs Hfl). f_equal. destruct f. simpl in Hfl. by rewrite Hfl.
Qed.

(** What a commit does when the disk fails in its last step, the final sync. *)
Lemma commit_refused p root count slot n :
  faults (file p) = [None; None; Some n] -> 0 <= txn_id p -> txn_id p < u64_max ->
  encode_meta_slot (mkMeta (page_size p) (txn_id p + 1) root count) = Ret slot ->
  exists f, commit root count p = (Throw (Fatal (Io (path p) OtherIo)), set_file f p) /\ faults f = [] /\
    data f = apply_write (WriteAt ((1 - active_slot p) * META_SLOT_LEN) slot) (data (file p)).
Proof.
  intros Hf Hpos Ht Hs. eexists.
  unfold commit, sync_data, on_file, zoom, io_at, sync, write_all_at, or_fault, next_fault, ask, do_write,
    modify, lift, get_self, mret, M_ret, mbind, M_bind.
  rewrite Hf. cbn -[apply_write encode_meta_slot add_u64 with_faults].
  unfold add_u64. rewrite wrap_or_panic_ret by lia. rewrite Hs. cbn -[apply_write]. split_and!; reflexivity.
Qed.

(** C38: A commit whose final sync fails is reported as failed, and the pager goes on as it
    was; and yet the slot it wrote is in the file: opening the file again, with no crash in
    between, finds the new root under the new transaction, not the previously active slot.
    This is so for every pager, in any state that failures and commits may leave. *)
Theorem refused_commit_published a p root count n fs :
  pager_inv a p -> faults (file p) = [None; None; Some n] ->
  0 <= root <= u32_max -> 0 <= count <= u32_max -> txn_id p < u64_max ->
  exists p' q, commit root count p = (Throw (Fatal (Io (path p) OtherIo)), p') /\
    (meta_of p' = meta_of p /\ active_slot p' = active_slot p) /\
    open (path p) (close (path p) (file p') fs) = Ret q /\
    meta_of q = mkMeta (page_size p) (txn_id p + 1) root count /\ active_slot q = 1 - active_slot p.
Proof.
  intros Hp Hf Hr Hc Ht. pose proof (pager_meta_wf Hp) as [Hwf [Hpos _] _ _]. simpl in Hwf, Hpos.
  set (c := mkMeta (page_size p) (txn_id p + 1) root count).
  destruct (encode_meta_slot_ok c) as (slot & Hslot & Hsl & Hv); [split; simpl; [done|lia..]|].
  destruct (commit_refused p root count slot n Hf Hpos Ht Hslot) as (f & Hrun & Hfl & Hd).
  pose proof (pager_slot Hp) as Hact. pose proof (pager_len Hp) as Hl. unfold META_REGION_LEN in Hl.
  exists (set_file f p), (opened f (path p) (1 - active_slot p) c). split; [exact Hrun|]. split; [done|].
  split; [|by split; [destruct c|]].
  apply open_newest; [apply lookup_insert_eq|done| |lia| |].
  - rewrite Hd, len_apply_write_at by (unfold META_SLOT_LEN; lia). unfold META_REGION_LEN, META_SLOT_LEN in *. lia.
  - rewrite <-Hv. eapply slot_at_written; [exact Hd|done|lia].
  - intros m. replace (1 - (1 - active_slot p)) with (active_slot p) by lia.
    rewrite (slot_at_write (file p) f _ _ _ Hd), (pager_active Hp) by (unfold META_SLOT_LEN in *; lia).
    intros [= <-]. simpl. lia.
Qed.

(** C16: [Pager::create] refuses a path that is taken and touches nothing; on a free one
    it makes an empty database, on disk, that opens as what [create] returned. *)
Theorem create_then_open path ps fs :
  page_size_wf ps -> new_faults fs = [] ->
  match files fs !! path with
  | Some _ => create path ps fs = (Throw (Permanent (AlreadyExists path)), fs)
  | None => exists p fs', create path ps fs = (Ret p, fs') /\
      meta_of p = mkMeta ps 0 EMPTY_TREE_ROOT FIRST_DATA_PAGE_ID /\ pager_inv (here p) p /\
      durable (file p) = data (file p) /\ open path fs' = Ret p
  end.
Proof.
  intros Hwf Hnf. destruct (files fs !! path) as [f|] eqn:Hf.
  - unfold create, open_create_new. by rewrite Hf.
  - destruct (create_sound path ps fs Hwf Hf Hnf) as (p & Hc & Hp & Hset & Hpath & Hps & Hroot & Htx & Hcount & Hfl).
    exists p, (close path (file p) fs). split_and!; [done|unfold meta_of; congruence|done|apply Hset|].
    rewrite <-Hpath. apply (reopen_ok (here p)); [done|apply Hset|done].
Qed.
End properties.

(** ** Examples, and a failing commit *)
Section examples.
#[local] Instance example_hash : Xxh3 := sum_xxh3.
#[local] Instance example_profile : BuildProfile := Build_BuildProfile true.

Lemma example_size_wf : page_size_wf (mkPageSize 4096).
Proof. unfold page_size_wf. set_solver. Qed.

Lemma example_pager : exists p, pager_inv (here p) p /\ faults (file p) = [] /\ path p = "db"%string /\
  meta_of p = mkMeta (mkPageSize 4096) 0 EMPTY_TREE_ROOT FIRST_DATA_PAGE_ID.
Proof.
  destruct (create_sound "db" (mkPageSize 4096) (mkFileSystem ∅ [])) as (p & _ & Hp & _ & Hpath & Hps & Hr & Ht & Hc & Hf);
    [exact example_size_wf|done|done|].
  exists p. split_and!; [done|done|done|unfold meta_of; congruence].
Qed.

Lemma meta_slot_roundtrip_witness :
  exists slot, encode_meta_slot (mkMeta (mkPageSize 8192) 12 7 9) = Ret slot /\
    decode_meta_slot slot = Some (mkMeta (mkPageSize 8192) 12 7 9).
Proof.
  destruct (meta_slot_roundtrip (mkMeta (mkPageSize 8192) 12 7 9)) as (slot & Hs & _ & _ & Hd).
  { split; vm_compute; try (intuition congruence). right. left. }
  exists slot. split; [exact Hs|exact Hd].
Defined.

Lemma open_exact_witness :
  open "db" (mkFileSystem {["db"%string := mkFile [x00] [x00] [] [] []]} []) =
  Throw (Fatal (FileTooSmall "db" 1 8192)).
Proof.
  rewrite open_exact; [reflexivity|].
  intros f Hf. cbn [files] in Hf. rewrite lookup_singleton_eq in Hf. by injection Hf as <-.
Defined.

Lemma commit_then_open_witness :
  exists p, returns (commit 5 6) p (fun _ p' =>
    meta_of p' = mkMeta (mkPageSize 4096) 1 5 6 /\
    open "db" (close "db" (file p') (mkFileSystem ∅ [])) = Ret p').
Proof.
  destruct example_pager as (p & Hp & Hf & Hpath & Hm). exists p. injection Hm as Hps Ht _ Hc.
  eapply returns_mono; [apply (commit_then_open (here p) p 5 6 (mkFileSystem ∅ []) Hp Hf)|];
    [unfold u32_max; lia|simpl; rewrite Hc; unfold FIRST_DATA_PAGE_ID, u32_max; lia|rewrite Ht; unfold u64_max; lia|].
  intros _ p' (Hm' & _ & _ & _ & Ho). rewrite Hpath, Hps, Ht in *. by split.
Defined.

Lemma create_then_open_witness :
  exists p fs', create "db" (mkPageSize 4096) (mkFileSystem ∅ []) = (Ret p, fs') /\ open "db" fs' = Ret p.
Proof.
  destruct (create_then_open "db" (mkPageSize 4096) (mkFileSystem ∅ []) example_size_wf eq_refl)
    as (p & fs' & Hc & _ & _ & _ & Ho). exists p, fs'. split; [exact Hc|exact Ho].
Defined.

Lemma refused_commit_published_witness :
  exists p p' q, pager_inv (failing (here p)) (set_file (with_faults [None; None; Some 0] (file p)) p) /\
    commit 5 6 (set_file (with_faults [None; None; Some 0] (file p)) p) = (Throw (Fatal (Io "db" OtherIo)), p') /\
    open "db" (close "db" (file p') (mkFileSystem ∅ [])) = Ret q /\ meta_of q = mkMeta (mkPageSize 4096) 1 5 6.
Proof.
  destruct example_pager as (p & Hp & _ & Hpath & Hm). injection Hm as Hps Ht _ _. exists p.
  pose proof (pager_failing [None; None; Some 0] (here p) p Hp) as Hp'.
  destruct (refused_commit_published (failing (here p)) _ 5 6 0 (mkFileSystem ∅ []) Hp' eq_refl)
    as (p' & q & Hc & _ & Ho & Hq & _); [unfold u32_max; lia|unfold u32_max; lia|simpl; rewrite Ht; unfold u64_max; lia|].
  cbn [set_file path page_size txn_id] in Hc, Ho, Hq. rewrite Hpath in Hc, Ho. rewrite Hps, Ht in Hq.
  exists p', q. split; [exact Hp'|]. split; [exact Hc|]. split; [exact Ho|exact Hq].
Defined.
End examples.
