(* ===== verification/RestartSpec.v ===== *)
(** * What a restart finds

    After a crash the file has, at each place, what was durable or what some unsynced write
    put there. The active meta slot and the pages that are not written any more survive it;
    the other slot may be the one that a commit failed to publish. *)

From S2P Require Import Prelude Runs Errors Codec Page Disk FileSpec Pager PagerSpec.

Section restart.
Context `{Xxh3} `{BuildProfile}.

(** The slots of the bytes [c], with their places. *)
Definition slots_of (c : bytes) : list (Z * bytes) :=
  (fun i => (i * META_SLOT_LEN, default [] (slice c (i * META_SLOT_LEN) META_SLOT_LEN))) <$> [0; 1].

(** The file that is found, with the failures to come. *)
Definition found (c : bytes) (fl : list (option Z)) : File := mkFile c c [] fl (slots_of c).

(** A slot that verifies after a crash is one that was to be written there: a torn slot
    would have the checksum of what it was torn from by chance. *)
Definition honest (f : File) (c : bytes) : Prop :=
  forall i slot, i = 0 \/ i = 1 -> slice c (i * META_SLOT_LEN) META_SLOT_LEN = Some slot ->
    verify_checksum slot = Ret tt -> (i * META_SLOT_LEN, slot) ∈ asked f.

(** A file whose slot [i] is the newest opens by it, and is a place to go on from. *)
Lemma opened_ok path c fl i m :
  i = 0 \/ i = 1 -> slot_at (found c fl) i = Some m ->
  (forall m', slot_at (found c fl) (1 - i) = Some m' -> m_txn_id m' < m_txn_id m) ->
  meta_wf m -> FIRST_DATA_PAGE_ID <= m_page_count m -> META_REGION_LEN <= len c ->
  let q := opened (found c fl) path i m in
  choose_slot path (slot_at (found c fl) 0) (slot_at (found c fl) 1) = Ret (i, m) /\
  settled q /\ pager_inv (here q) q.
Proof.
  intros Hi Hslot Hother Hwf Hn Hl q. assert (Hm : meta_of q = m) by (by destruct m).
  assert (Hset : settled q).
  { split; [done| |exact Hother]. intros j b m' Hj Hin Hb.
    assert (Hat : slot_at (found c fl) j = Some m').
    { apply list_elem_of_fmap in Hin as (k & Hkey & Hkin). apply pair_equal_spec in Hkey as [Hk ->].
      assert (j = k) as <- by (unfold META_SLOT_LEN in Hk; lia). unfold slot_at. cbn [found data].
      destruct (slice_Some c (j * META_SLOT_LEN) META_SLOT_LEN) as [x Hx];
        [unfold META_REGION_LEN, META_SLOT_LEN in *; lia..|]. by rewrite Hx in Hb |- *. }
    destruct (decide (j = i)) as [->|Hne].
    - left. rewrite Hslot in Hat. injection Hat as <-. split; [done|]. simpl. lia.
    - right. assert (j = 1 - i) as -> by lia. split; [done|]. left. by apply Hother. }
  split_and!; [|done|].
  - rewrite <-Hm. apply (choose_slot_ok q path); [exact Hi|by rewrite Hm|exact Hother].
  - apply pager_here; [by rewrite Hm|exact Hi|by rewrite Hm|exact Hl|exact Hn|exact Hset].
Qed.

(** What a restart may go on from: the commit of the anchor, or one that failed since. *)
Definition recoverable (a : anchor) (m : MetaContent) : Prop := m = meta_of (an_pager a) \/ an_cand a m.

Lemma found_ok a p c :
  pager_inv a p -> FIRST_DATA_PAGE_ID <= page_count (an_pager a) -> crash (file p) c -> honest (file p) c ->
  META_REGION_LEN <= len c /\ exists i m, recoverable a m /\ forall path fl,
    let q := opened (found c fl) path i m in
    choose_slot path (slot_at (found c fl) 0) (slot_at (found c fl) 1) = Ret (i, m) /\
    settled q /\ pager_inv (here q) q /\
    (forall id x, FIRST_DATA_PAGE_ID <= id < an_next a -> disk_page (an_pager a) id = Some x -> disk_page q id = Some x).
Proof.
  intros Hp Hcount Hc Hhonest. pose proof (pg_anchor _ _ Hp) as Ha. pose proof (pager_slot Hp) as Hslot.
  pose proof (pg_fields _ _ Hp) as (_ & Hps & Has & Htx & _). rewrite Has in Hslot.
  destruct (file_ok_crash _ _ _ _ (pg_file _ _ Hp) Hc) as [Hk Hlen]. pose proof (ao_len _ Ha) as Hl.
  split; [lia|]. set (i := active_slot (an_pager a)) in *.
  assert (Hact : forall fl, slot_at (found c fl) i = Some (meta_of (an_pager a))).
  { intros fl. rewrite <-(ao_active _ Ha). apply (slot_at_keeps (kept a)); [done|done|exact Hk|].
    intros x Hx. by apply kept_slot. }
  (* whichever slot is opened, the pages are there *)
  assert (Hgo : forall j m, j = 0 \/ j = 1 -> (forall fl, slot_at (found c fl) j = Some m) ->
    (forall fl m', slot_at (found c fl) (1 - j) = Some m' -> m_txn_id m' < m_txn_id m) -> recoverable a m ->
    exists i m, recoverable a m /\ forall path fl, let q := opened (found c fl) path i m in
      choose_slot path (slot_at (found c fl) 0) (slot_at (found c fl) 1) = Ret (i, m) /\ settled q /\ pager_inv (here q) q /\
      (forall id x, FIRST_DATA_PAGE_ID <= id < an_next a -> disk_page (an_pager a) id = Some x -> disk_page q id = Some x)).
  { intros j m Hj Hm Hother Hrec. exists j, m. split; [done|]. intros path fl q.
    assert (Hmm : meta_wf m /\ m_page_size m = page_size (an_pager a) /\ FIRST_DATA_PAGE_ID <= m_page_count m).
    { destruct Hrec as [->|[]%(ao_cand _ Ha)]; [split_and!; [apply Ha|done|exact Hcount]|split_and!; [done|done|lia]]. }
    destruct Hmm as (Hwf & Hsize & Hn).
    destruct (opened_ok path c fl j m Hj (Hm fl) (Hother fl) Hwf Hn ltac:(lia)) as (? & ? & ?).
    split_and!; [done|done|done|]. intros id x Hid Hx.
    assert (Hq : disk_page q id = disk_page (set_file (found c fl) (an_pager a)) id) by (by apply disk_page_data).
    rewrite Hq. eapply disk_page_keeps; [apply Ha|exact Hk| |exact Hx]. intros y Hy. by eapply kept_page. }
  destruct (slice_Some c ((1 - i) * META_SLOT_LEN) META_SLOT_LEN) as [sl Hsl];
    [unfold META_REGION_LEN, META_SLOT_LEN in *; lia..|].
  assert (Hoth : forall fl, slot_at (found c fl) (1 - i) = valid_slot sl).
  { intros fl. unfold slot_at. cbn [found data]. by rewrite Hsl. }
  destruct (valid_slot sl) as [m|] eqn:Hv.
  2: { apply (Hgo i (meta_of (an_pager a))); [done|done|intros fl m'; by rewrite Hoth|by left]. }
  assert (Hver : verify_checksum sl = Ret tt).
  { revert Hv. unfold valid_slot. by destruct (verify_checksum sl) as [[]| | |]. }
  destruct (pg_asked _ _ Hp (1 - i) sl m) as [[? _]|[_ [Hlt|Hcand]]];
    [lia|apply Hhonest; [lia|done|done]|done|lia|..].
  - apply (Hgo i (meta_of (an_pager a))); [done|done| |by left].
    intros fl m'. rewrite Hoth. intros [= <-]. simpl. lia.
  - apply (Hgo (1 - i) m); [lia|exact Hoth| |by right].
    intros fl m'. replace (1 - (1 - i)) with i by lia. rewrite Hact. intros [= <-].
    destruct (ao_cand _ Ha _ Hcand). simpl. lia.
Qed.
End restart.
