(* ===== verification/PageStore.v ===== *)
(** * The interface between the B+tree and the buffer pool

    The B+tree is written against the methods of [BufferPool] it calls, as a
    class; the pool is an instance ([BufferPool.v]). *)

From S2P Require Import Prelude Errors Codec Page.

Class PageStore (S : Type) := {
  pool_page_size : S -> PageSize;
  pool_root_page_id : S -> Z;
  pool_allocate_page_id : M S PinaxError Z;
  pool_get : Z -> M S PinaxError bytes;
  pool_put_new : Z -> bytes -> M S PinaxError unit;
  pool_commit : Z -> M S PinaxError unit;
}.
