(* ===== verification/PageStoreSpec.v ===== *)
(** * What the B+tree relies on in its page store

    The laws of [PageStore]: pages that were put are found again, whatever the
    store does to make room; a commit changes the root and no page. A page is
    known by its [content], everything before the checksum: the store is free to
    rewrite the last eight bytes. A run may be stopped by the disk, in a state that
    satisfies [stopped]; a commit may also be stopped [halfway]. *)

From S2P Require Import Prelude Runs Errors Codec Page PageStore.

(** The contents of the pages a store holds, by id. *)
Definition view := Z -> option bytes.

Definition view_le (v v' : view) : Prop := forall id c, v id = Some c -> v' id = Some c.

#[export] Instance view_le_preorder : PreOrder view_le.
Proof. split; [by intros v id c|]. intros v v' v'' H H' id c Hid. by apply H', H. Qed.

(** [buf] is the page [id], up to its checksum. *)
Definition page_at (ps : PageSize) (v : view) (id : Z) (buf : bytes) : Prop :=
  v id = Some (content buf) /\ len buf = ps_bytes ps.

Lemma page_at_le ps v v' id buf : view_le v v' -> page_at ps v id buf -> page_at ps v' id buf.
Proof. intros Hle [Hv Hl]. split; [by apply Hle|done]. Qed.

(** The abstract state of a store. *)
Class StoreModel (S : Type) := {
  store_ok : S -> Prop;
  store_view : S -> view;
  store_next : S -> Z;  (** the next page id *)
  store_txn : S -> Z;   (** the number of commits *)
  store_saved : S -> Prop;  (** nothing was put since the last commit *)
  store_path : S -> string; (** the file the pages are kept in *)
  store_reliable : S -> Prop; (** the disk does not fail *)
}.

(** A run on a store: what it keeps, and what may stop it. *)
Class StoreRun (S : Type) `{StoreModel S} := {
  store_inv : S -> Prop;
  store_root : Z;       (** the root, until a commit *)
  store_size : PageSize;
  store_kept : view;    (** the pages that stay whatever happens *)
  store_limit : Z;      (** the first page id that may not be handed out *)
  store_sound : Prop;   (** the disk does not fail *)
  store_stop : PinaxError -> Prop;        (** the errors of a failing disk *)
  halfway : Z -> PinaxError -> S -> Prop;  (** stopped in the commit of a root *)
}.

(** What is left where the disk stops a run. *)
Definition stopped {S} `{StoreRun S} (e : PinaxError) (s : S) : Prop := store_stop e /\ store_inv s.

(** [J] is what may be left where a run is stopped. *)
Class StopsIn {S : Type} `{StoreRun S} (J : PinaxError -> S -> Prop) :=
  stops_in : forall e s, stopped e s -> J e s.

#[export] Instance stops_in_stopped {S} `{StoreRun S} : StopsIn stopped.
Proof. by intros e s. Qed.

Section extends.
Context {S : Type} `{PageStore S} `{StoreRun S}.

(** Every page id that was handed out has its page. *)
Definition dense (s : S) : Prop :=
  forall id, FIRST_DATA_PAGE_ID <= id < store_next s -> is_Some (store_view s id).

Lemma dense_le s s' : view_le (store_view s) (store_view s') -> store_next s' = store_next s -> dense s -> dense s'.
Proof. intros Hle Hn Hd id Hid. destruct (Hd id) as [c Hc]; [lia|]. exists c. by apply Hle. Qed.

(** [s'] is [s] after [n] pages were added, and any number were read. *)
Record extends (n : Z) (s s' : S) : Prop := {
  ext_inv : store_inv s';
  ext_nonneg : 0 <= n;
  ext_saved : n = 0 -> store_saved s -> store_saved s';
  ext_page_size : pool_page_size s' = pool_page_size s;
  ext_root : pool_root_page_id s' = pool_root_page_id s;
  ext_next : store_next s' = store_next s + n;
  ext_txn : store_txn s' = store_txn s;
  ext_path : store_path s' = store_path s;
  ext_view : view_le (store_view s) (store_view s');
  ext_dense : dense s -> dense s';
}.

Lemma extends_refl s : store_inv s -> extends 0 s s.
Proof. intros. by split; [| | | | |lia| | | |]. Qed.

Lemma extends_trans n m s s' s'' : extends n s s' -> extends m s' s'' -> extends (n + m) s s''.
Proof.
  intros [] []. split; try congruence; [lia| |lia|by etrans|auto].
  intros Hnm Hs. apply ext_saved1; [lia|]. apply ext_saved0; [lia|done].
Qed.

Lemma extends_trans0 n s s' s'' : extends n s s' -> extends 0 s' s'' -> extends n s s''.
Proof. intros Hn Hm. replace n with (n + 0) by lia. by eapply extends_trans. Qed.

Lemma extends_0_trans n s s' s'' : extends 0 s s' -> extends n s' s'' -> extends n s s''.
Proof. intros Hn Hm. by apply (extends_trans 0 n s s'). Qed.

(** What a commit of [root] leaves when it returns. *)
Record commits (root : Z) (s s' : S) : Prop := {
  ct_ok : store_ok s';
  ct_page_size : pool_page_size s' = pool_page_size s;
  ct_root : pool_root_page_id s' = root;
  ct_next : store_next s' = store_next s;
  ct_txn : store_txn s' = store_txn s + 1;
  ct_saved : store_saved s';
  ct_path : store_path s' = store_path s;
  ct_view : view_le (store_view s) (store_view s');
  ct_reliable : store_sound -> store_reliable s';
}.
End extends.

Class PageStoreLaws (S : Type) `{PageStore S} `{StoreRun S} := {
  store_inv_ok s : store_inv s -> store_ok s;
  store_inv_root s : store_inv s -> pool_root_page_id s = store_root;
  store_inv_size s : store_inv s -> pool_page_size s = store_size;
  store_inv_kept s : store_inv s -> view_le store_kept (store_view s);
  store_inv_limit s : store_inv s -> store_next s <= store_limit <= u32_max;
  store_inv_sound s : store_inv s -> store_sound -> store_reliable s;
  store_stop_sound e : store_stop e -> ~ store_sound;
  store_halfway root e s : halfway root e s -> store_stop e /\ store_ok s /\
    pool_root_page_id s = store_root /\ pool_page_size s = store_size /\ view_le store_kept (store_view s);
  store_ok_page_size_wf s : store_ok s -> page_size_wf (pool_page_size s);
  store_ok_next_range s : store_ok s -> FIRST_DATA_PAGE_ID <= store_next s <= u32_max;
  store_ok_view_range s id c :
    store_ok s -> store_view s id = Some c -> FIRST_DATA_PAGE_ID <= id < store_next s;
  (** A page the store holds is read back, up to its checksum. *)
  store_get s id c :
    store_inv s -> store_view s id = Some c ->
    runs stopped (pool_get id) s (fun buf s' =>
      len buf = ps_bytes (pool_page_size s) /\ content buf = c /\ extends 0 s s');
  (** A fresh id, then a page put under it. *)
  store_allocate_put s buf :
    store_inv s -> store_next s + 1 <= store_limit -> len buf = ps_bytes (pool_page_size s) ->
    runs stopped pool_allocate_page_id s (fun id s1 =>
      id = store_next s /\
      runs stopped (pool_put_new id buf) s1 (fun _ s2 =>
        extends 1 s s2 /\ store_view s2 id = Some (content buf)));
  (** A commit moves the root and keeps every page; one that is stopped may still be found
      in the file. *)
  store_commit s root :
    store_inv s -> 0 <= root <= u32_max -> store_txn s < u64_max ->
    runs (fun e s' => stopped e s' \/ (halfway root e s' /\ store_next s' = store_next s /\
        view_le (store_view s) (store_view s')))
      (pool_commit root) s (fun _ s' => commits root s s');
}.

Section laws.
Context {S : Type} `{PageStoreLaws S} {J : PinaxError -> S -> Prop} `{!StopsIn J}.

Lemma store_page_size_wf s : store_inv s -> page_size_wf (pool_page_size s).
Proof. intros. by apply store_ok_page_size_wf, store_inv_ok. Qed.

Lemma store_next_range s : store_inv s -> FIRST_DATA_PAGE_ID <= store_next s <= u32_max.
Proof. intros. by apply store_ok_next_range, store_inv_ok. Qed.

Lemma store_view_range s id c : store_inv s -> store_view s id = Some c -> FIRST_DATA_PAGE_ID <= id < store_next s.
Proof. intros. eapply store_ok_view_range; [by apply store_inv_ok|done]. Qed.

Lemma get_page s v id buf0 Q :
  store_inv s -> view_le v (store_view s) -> page_at (pool_page_size s) v id buf0 ->
  (forall buf s', extends 0 s s' -> page_at (pool_page_size s) v id buf ->
     content buf = content buf0 -> Q buf s') ->
  runs J (pool_get id) s Q.
Proof using All.
  intros Hinv Hle [Hv Hl] HQ. eapply runs_weaken; [|exact stops_in].
  eapply runs_mono; [apply (store_get s id (content buf0)); [done|by apply Hle]|].
  simpl. intros buf s' (? & Hc & ?). apply HQ; [done| |done]. split; [by rewrite Hc|done].
Qed.

(** [id ← allocate; put id buf; k id], the only way the tree adds a page. *)
Lemma put_page {A} (k : Z -> M S PinaxError A) s buf Q :
  store_inv s -> store_next s + 1 <= store_limit -> len buf = ps_bytes (pool_page_size s) ->
  (forall s', extends 1 s s' -> page_at (pool_page_size s) (store_view s') (store_next s) buf ->
     runs J (k (store_next s)) s' Q) ->
  runs J (id ← pool_allocate_page_id; pool_put_new id buf ;; k id) s Q.
Proof using All.
  intros Hinv Hn Hl HQ. eapply runs_bind.
  { eapply runs_weaken; [by apply (store_allocate_put s buf)|exact stops_in]. }
  simpl. intros id s1 [-> Hput]. eapply runs_bind; [eapply runs_weaken; [exact Hput|exact stops_in]|].
  simpl. intros _ s2 [Hext Hv]. apply HQ; [done|]. by split.
Qed.

(** Two pages, one after the other. *)
Lemma put_two_pages {A} (k : Z -> Z -> M S PinaxError A) s bl br Q :
  store_inv s -> store_next s + 2 <= store_limit ->
  len bl = ps_bytes (pool_page_size s) -> len br = ps_bytes (pool_page_size s) ->
  (forall s', extends 2 s s' -> page_at (pool_page_size s) (store_view s') (store_next s) bl ->
     page_at (pool_page_size s) (store_view s') (store_next s + 1) br ->
     runs J (k (store_next s) (store_next s + 1)) s' Q) ->
  runs J (l ← pool_allocate_page_id; pool_put_new l bl ;; r ← pool_allocate_page_id; pool_put_new r br ;; k l r) s Q.
Proof using All.
  intros Hinv Hn Hl Hr HQ. apply (put_page (fun l => r ← pool_allocate_page_id; pool_put_new r br ;; k l r)); [done|lia|done|].
  intros s' Hext Hpage. pose proof (ext_page_size _ _ _ Hext) as Hps. pose proof (ext_next _ _ _ Hext) as Hnx.
  apply (put_page (fun r => k _ r)); [apply Hext|lia|by rewrite Hps|]. intros s'' Hext' Hpage'.
  rewrite Hps, Hnx in Hpage'. rewrite Hnx. apply HQ; [exact (extends_trans 1 1 _ _ _ Hext Hext')| |done].
  eapply page_at_le; [apply Hext'|done].
Qed.

(** On a disk that does not fail nothing is stopped. *)
Lemma stopped_returns {A} (m : M S PinaxError A) s Q : store_sound -> runs stopped m s Q -> returns m s Q.
Proof. intros Hs. apply runs_returns. by intros e s' [?%store_stop_sound _]. Qed.

Lemma stopped_throws {A} (m : M S PinaxError A) s e Q : store_sound -> refuses stopped m s e Q -> throws m s e Q.
Proof. intros Hs. apply refuses_throws. by intros e' s' [?%store_stop_sound _]. Qed.
End laws.
