(* ===== verification/Guarded.v ===== *)
(** * Runs on a damaged state against runs on the state as it was

    A computation on a state that was damaged is compared with the same computation on
    the state as it was, its [calm] state. [guarded m Q]: a run of [m] keeps the state
    [sound] and, unless it ends with an error that reports the damage, is the run from
    the calm state. The predicate is closed under the constructs of the monad, so that it
    follows the structure of the code. *)

From S2P Require Import Prelude.

Class Guard (S E : Type) := {
  calm : S -> S;           (** as it was *)
  faulty : E -> Prop;      (** the errors that report the damage *)
  sound : S -> Prop;
}.

Definition guarded {S E A} `{Guard S E} (m : M S E A) (Q : A -> Prop) : Prop :=
  forall s, sound s ->
  let '(o, s') := m s in
  sound s' /\
  ((exists e, o = Throw e /\ faulty e) \/
   (m (calm s) = (o, calm s') /\ forall a, o = Ret a -> Q a)).

Section guarded.
Context {S E : Type} `{Guard S E}.

Lemma guarded_ret {A} (a : A) (Q : A -> Prop) : Q a -> guarded (mret a) Q.
Proof. intros HQ s Hs. split; [done|]. right. split; [done|]. by intros ? [= <-]. Qed.

Lemma guarded_lift {A} (o : outcome E A) (Q : A -> Prop) :
  (forall a, o = Ret a -> Q a) -> guarded (lift o) Q.
Proof. intros HQ s Hs. split; [done|]. by right. Qed.

Lemma guarded_bind {A B} (m : M S E A) (f : A -> M S E B) (Q : A -> Prop) (R : B -> Prop) :
  guarded m Q -> (forall a, Q a -> guarded (f a) R) -> guarded (m ≫= f) R.
Proof.
  intros Hm Hf s Hs. specialize (Hm s Hs). unfold mbind, M_bind.
  destruct (m s) as [o s'] eqn:E1. destruct Hm as (Hs' & [(e & -> & He)|[Hc HQ]]).
  - split; [done|]. left. by exists e.
  - rewrite Hc. destruct o as [a|e|p|]; [|split; [done|by right]..].
    specialize (Hf a (HQ a eq_refl) s' Hs'). by destruct (f a s') as [o2 s2].
Qed.

Lemma guarded_bind_lift {A B} (o : outcome E A) (f : A -> M S E B) (R : B -> Prop) :
  (forall a, o = Ret a -> guarded (f a) R) -> guarded (lift o ≫= f) R.
Proof. intros Hf. apply guarded_bind with (Q := fun a => o = Ret a); [by apply guarded_lift|done]. Qed.

(** [self] may be read where it does not matter whether it is calm. *)
Lemma guarded_bind_self {B} (f : S -> M S E B) (R : B -> Prop) :
  (forall s, sound s -> f (calm s) = f s) -> (forall s, sound s -> guarded (f s) R) ->
  guarded (get_self ≫= f) R.
Proof.
  intros Hf Hg s Hs. specialize (Hg s Hs s Hs). unfold get_self, mbind, M_bind. by rewrite Hf.
Qed.

Lemma guarded_modify (g : S -> S) :
  (forall s, sound s -> sound (g s) /\ g (calm s) = calm (g s)) -> guarded (modify g) (fun _ => True).
Proof.
  intros Hg s Hs. destruct (Hg s Hs) as (? & Hc). unfold modify. rewrite Hc. split; [done|by right].
Qed.
End guarded.
