(* ===== verification/BufferPool.v ===== *)
(** * The buffer pool ([crates/pinax/src/buffer_pool.rs])

    A bounded LRU cache of pages over the pager. *)

From S2P Require Import Prelude Errors Codec Page Disk Pager PageStore.

(** The order in which [HashSet] iterates is unspecified: a parameter. *)
Class HashOrder := {
  hash_order : gset Z -> list Z;
  hash_order_elements : forall s, hash_order s ≡ₚ elements s;
}.

(** One order, for examples. *)
Definition elements_order : HashOrder :=
  {| hash_order := elements; hash_order_elements s := Permutation_refl (elements s) |}.

Record BufferPool := mkPool {
  pager : Pager;
  capacity : Z;
  entries : gmap Z bytes;
  dirty : gset Z;
  recency : list Z;  (** oldest first *)
  next_page_id : Z;
}.

Definition set_pager (p : Pager) (s : BufferPool) : BufferPool :=
  mkPool p (capacity s) (entries s) (dirty s) (recency s) (next_page_id s).
Definition set_entries (m : gmap Z bytes) (s : BufferPool) : BufferPool :=
  mkPool (pager s) (capacity s) m (dirty s) (recency s) (next_page_id s).
Definition set_dirty (d : gset Z) (s : BufferPool) : BufferPool :=
  mkPool (pager s) (capacity s) (entries s) d (recency s) (next_page_id s).
Definition set_recency (r : list Z) (s : BufferPool) : BufferPool :=
  mkPool (pager s) (capacity s) (entries s) (dirty s) r (next_page_id s).
Definition set_next_page_id (n : Z) (s : BufferPool) : BufferPool :=
  mkPool (pager s) (capacity s) (entries s) (dirty s) (recency s) n.

Definition on_pager {A} (m : M Pager PinaxError A) : M BufferPool PinaxError A :=
  zoom pager set_pager m.

(** [BufferPool::new] *)
Definition new (pager : Pager) (capacity : Z) : result BufferPool :=
  ensure (1 <=? capacity) (Permanent InvalidBufferPoolCapacity) ;;
  Ret (mkPool pager capacity ∅ ∅ [] (page_count pager)).

(** [VecDeque::retain(|&existing| existing != id)] *)
Definition retain_ne (id : Z) (l : list Z) : list Z := filter (fun x => x <> id) l.

(** [BufferPool::touch] *)
Definition touch (id : Z) : M BufferPool PinaxError unit :=
  modify (fun s => set_recency (retain_ne id (recency s) ++ [id]) s).

Section pool.
Context `{Xxh3} `{BuildProfile} `{HashOrder}.

(** [BufferPool::allocate_page_id] *)
Definition allocate_page_id : M BufferPool PinaxError Z :=
  id ← gets next_page_id;
  next ← lift (add_u32 id 1);
  modify (set_next_page_id next) ;;
  mret id.

(** [BufferPool::evict_one] *)
Definition evict_one : M BufferPool PinaxError unit :=
  s ← get_self;
  match recency s with
  | [] => lift (Throw (Fatal PoolInvariantViolated))
  | id :: rest =>
    modify (set_recency rest) ;;
    match entries s !! id with
    | None => lift (Throw (Fatal PoolInvariantViolated))
    | Some buf =>
      modify (set_entries (delete id (entries s))) ;;
      if bool_decide (id ∈ dirty s) then
        modify (set_dirty (dirty s ∖ {[id]})) ;;
        on_pager (write_data_page id buf)
      else mret tt
    end
  end.

(** [while self.entries.len() >= self.capacity { self.evict_one()?; }] *)
Fixpoint evict_loop (fuel : nat) : M BufferPool PinaxError unit :=
  s ← get_self;
  if capacity s <=? Z.of_nat (size (entries s)) then
    match fuel with
    | O => lift Diverge
    | S fuel => evict_one ;; evict_loop fuel
    end
  else mret tt.

(** [BufferPool::insert_cached]. Every [evict_one] removes an entry, so the
    number of entries bounds the loop. *)
Definition insert_cached (id : Z) (buf : bytes) (is_dirty : bool) : M BufferPool PinaxError unit :=
  s ← get_self;
  (if entries s !! id is Some _ then
     modify (set_entries (delete id (entries s))) ;;
     modify (set_recency (retain_ne id (recency s)))
   else mret tt) ;;
  evict_loop (S (size (entries s))) ;;
  (if is_dirty then modify (fun s => set_dirty ({[id]} ∪ dirty s) s) else mret tt) ;;
  modify (fun s => set_entries (<[id := buf]> (entries s)) s) ;;
  modify (fun s => set_recency (recency s ++ [id]) s).

(** [BufferPool::get] *)
Definition get (id : Z) : M BufferPool PinaxError bytes :=
  s ← get_self;
  match entries s !! id with
  | Some buf => touch id ;; mret buf
  | None =>
    buf ← on_pager (read_data_page id);
    insert_cached id buf false ;;
    mret buf
  end.

(** [BufferPool::put_new] *)
Definition put_new (id : Z) (buf : bytes) : M BufferPool PinaxError unit :=
  insert_cached id buf true.

(** The body of the loop of [flush_all_dirty] *)
Definition flush_one (id : Z) : M BufferPool PinaxError unit :=
  s ← get_self;
  (if entries s !! id is Some buf then
     modify (set_entries (<[id := stamped buf]> (entries s))) ;;
     on_pager (write_data_page id buf)
   else mret tt) ;;
  modify (fun s => set_dirty (dirty s ∖ {[id]}) s).

(** [BufferPool::flush_all_dirty] *)
Definition flush_all_dirty : M BufferPool PinaxError unit :=
  s ← get_self;
  for_each (hash_order (dirty s)) flush_one ;;
  on_pager sync_data.

(** [BufferPool::commit] *)
Definition commit (new_root : Z) : M BufferPool PinaxError unit :=
  flush_all_dirty ;;
  s ← get_self;
  on_pager (Pager.commit new_root (next_page_id s)).

#[export] Instance BufferPool_PageStore : PageStore BufferPool := {
  pool_page_size s := page_size (pager s);
  pool_root_page_id s := root_page_id (pager s);
  pool_allocate_page_id := allocate_page_id;
  pool_get := get;
  pool_put_new := put_new;
  pool_commit := commit;
}.
End pool.
