(* ===== verification/PoolSpec.v ===== *)
(** * The buffer pool keeps the laws of a page store

    A pool over a file that may fail is a [PageStore] with the laws of [PageStoreLaws]:
    whatever it evicts and writes back, every page that was put is found again, in the
    cache or on disk, and where the disk stops it the pool is left in order. *)

From S2P Require Import Prelude Runs Errors Codec Page Disk FileSpec Pager PagerSpec PageStore PageStoreSpec BufferPool.

Section pool.
Context `{Xxh3} `{BuildProfile} `{HashOrder}.
Implicit Types s : BufferPool.

Definition pool_page (s : BufferPool) (id : Z) : option bytes :=
  match entries s !! id with
  | Some b => Some (content b)
  | None => disk_page (pager s) id
  end.

(** The cache is bounded and its recency list names its entries, once each; a
    clean entry is on disk; only pages from [an_next] on are ever written. *)
Record pool_inv (a : anchor) (s : BufferPool) : Prop := {
  pi_pager : pager_inv a (pager s);
  pi_capacity : 1 <= capacity s;
  pi_size : Z.of_nat (size (entries s)) <= capacity s;
  pi_NoDup : NoDup (recency s);
  pi_recency : forall id, id ∈ recency s <-> is_Some (entries s !! id);
  pi_dirty : forall id, id ∈ dirty s -> is_Some (entries s !! id) /\ an_next a <= id;
  pi_entries : forall id b, entries s !! id = Some b ->
    len b = ps_bytes (page_size (pager s)) /\ FIRST_DATA_PAGE_ID <= id < next_page_id s;
  pi_clean : forall id b, entries s !! id = Some b -> id ∉ dirty s ->
    disk_page (pager s) id = Some (content b);
  pi_next : an_next a <= next_page_id s <= an_limit a;
}.

Lemma pi_first a s : pool_inv a s -> FIRST_DATA_PAGE_ID <= next_page_id s <= u32_max.
Proof.
  intros Hs. pose proof (pi_next _ _ Hs). pose proof (ao_next _ (pg_anchor _ _ (pi_pager _ _ Hs))).
  pose proof (ao_limit _ (pg_anchor _ _ (pi_pager _ _ Hs))). lia.
Qed.

(** What no cache operation changes. *)
Record same_pool (s s' : BufferPool) : Prop := {
  sp_fields : same_fields (pager s) (pager s');
  sp_capacity : capacity s' = capacity s;
  sp_next : next_page_id s' = next_page_id s;
}.

(** Every page of [s] but [id] is still there. *)
Definition pages_kept (except : Z -> Prop) (s s' : BufferPool) : Prop :=
  forall id c, FIRST_DATA_PAGE_ID <= id -> ~ except id -> pool_page s id = Some c ->
    pool_page s' id = Some c.

Lemma same_pool_refl s : same_pool s s.
Proof. by split; [repeat split|..]. Qed.

Lemma same_pool_trans s s' s'' : same_pool s s' -> same_pool s' s'' -> same_pool s s''.
Proof.
  intros [(? & ? & ? & ? & ? & ?) ? ?] [(? & ? & ? & ? & ? & ?) ? ?].
  split; [|congruence|congruence]. unfold same_fields. split_and!; congruence.
Qed.

Lemma pages_kept_refl P s : pages_kept P s s.
Proof. by intros id c. Qed.

Lemma pages_kept_trans (P : Z -> Prop) s s' s'' : pages_kept P s s' -> pages_kept P s' s'' -> pages_kept P s s''.
Proof. intros Hk Hk' id c ? ? ?. by apply Hk', Hk. Qed.

(** The disk stopped a run from [s]: the pool is in order. *)
Definition pool_stops (a : anchor) (s : BufferPool) (e : PinaxError) (s' : BufferPool) : Prop :=
  disk_stops a e /\ pool_inv a s' /\ same_pool s s'.

Lemma pool_stops_trans a s s' e s'' : same_pool s s' -> pool_stops a s' e s'' -> pool_stops a s e s''.
Proof. intros Hs (? & ? & ?). split_and!; [done|done|by eapply same_pool_trans]. Qed.

(** A step, then a run from where it leads. *)
Lemma stops_bind {A B} a (m : M BufferPool PinaxError A) (f : A -> M BufferPool PinaxError B) s
    (P : A -> BufferPool -> Prop) (Q : B -> BufferPool -> Prop) :
  runs (pool_stops a s) m s P ->
  (forall x s', P x s' -> same_pool s s' /\ runs (pool_stops a s') (f x) s' Q) ->
  runs (pool_stops a s) (m ≫= f) s Q.
Proof.
  intros Hm Hf. eapply runs_bind; [exact Hm|]. intros x s' [Hsame Hrun]%Hf.
  eapply runs_weaken; [exact Hrun|]. intros e s''. by apply pool_stops_trans.
Qed.

Lemma on_pager_runs {A} J (m : M Pager PinaxError A) s Q :
  runs (fun e p' => J e (set_pager p' s)) m (pager s) (fun x p' => Q x (set_pager p' s)) -> runs J (on_pager m) s Q.
Proof. apply runs_zoom. Qed.

(** ** Eviction *)

Lemma elem_of_retain_ne id x l : x ∈ retain_ne id l <-> x ∈ l /\ x <> id.
Proof. unfold retain_ne. rewrite list_elem_of_filter. tauto. Qed.

(** The oldest entry was removed, and the pager may have written its place. *)
Lemma evict_inv a s id buf rest p' :
  pool_inv a s -> recency s = id :: rest -> entries s !! id = Some buf ->
  pager_inv a p' -> same_fields (pager s) p' -> others_kept id (pager s) p' ->
  let s' := mkPool p' (capacity s) (delete id (entries s)) (dirty s ∖ {[id]}) rest (next_page_id s) in
  pool_inv a s' /\ same_pool s s' /\ size (entries s') = pred (size (entries s)).
Proof.
  intros Hinv Hrec Hent Hp' Hsame Hother s'. destruct Hinv. rewrite Hrec in *.
  inversion pi_NoDup0 as [|? ? Hnin Hnd]; subst.
  pose proof Hsame as (_ & Hps & _).
  assert (Hsize : size (delete id (entries s)) = pred (size (entries s))).
  { by rewrite map_size_delete_Some. }
  split_and!; [| |done].
  - split; simpl; try done.
    + rewrite Hsize. lia.
    + intros x. rewrite lookup_delete_is_Some, <-pi_recency0, elem_of_cons. set_solver.
    + intros x [Hx Hne]%elem_of_difference. rewrite lookup_delete_is_Some.
      destruct (pi_dirty0 x Hx). split; [set_solver|done].
    + intros x b [Hne Hx]%lookup_delete_Some. rewrite Hps. by apply pi_entries0.
    + intros x b [Hne Hx]%lookup_delete_Some Hd. apply Hother; [by eapply pi_entries0|done|].
      apply pi_clean0; [done|]. set_solver.
  - by split.
Qed.

(** If the page is on disk, nothing is lost. *)
Lemma evict_pages a s id buf rest p' d' :
  pool_inv a s -> entries s !! id = Some buf -> disk_page p' id = Some (content buf) -> others_kept id (pager s) p' ->
  pages_kept (fun _ => False) s (mkPool p' (capacity s) (delete id (entries s)) d' rest (next_page_id s)).
Proof.
  intros Hinv Hent Hdisk Hother x c Hx _. unfold pool_page. simpl. destruct (decide (x = id)) as [->|].
  - rewrite Hent, lookup_delete_eq. by intros [= <-].
  - rewrite lookup_delete_ne by done. destruct (entries s !! x); [done|]. by apply Hother.
Qed.

(** What an eviction does, when it is not stopped. *)
Record evicted (a : anchor) (s s' : BufferPool) : Prop := {
  ev_inv : pool_inv a s';
  ev_same : same_pool s s';
  ev_pages : pages_kept (fun _ => False) s s';
  ev_absent : forall x, entries s !! x = None -> entries s' !! x = None;
  ev_dirty : dirty s' ⊆ dirty s;
  ev_clean : dirty s = ∅ -> pager s' = pager s;
}.

Lemma evicted_refl a s : pool_inv a s -> evicted a s s.
Proof. intros. by split; [|apply same_pool_refl|apply pages_kept_refl|..]. Qed.

Lemma evicted_trans a s s' s'' : evicted a s s' -> evicted a s' s'' -> evicted a s s''.
Proof.
  intros [] []. split; [done|by eapply same_pool_trans|by eapply pages_kept_trans|auto|set_solver|].
  intros He. rewrite ev_clean1, ev_clean0 by (done || set_solver). done.
Qed.

Lemma evict_one_ok a s :
  pool_inv a s -> (0 < size (entries s))%nat ->
  runs (pool_stops a s) evict_one s (fun _ s' => evicted a s s' /\
    size (entries s') = pred (size (entries s)) /\ recency s' = tail (recency s)).
Proof.
  intros Hinv Hsize. pose proof Hinv as [Hp _ _ _ Hrec Hdirty Hent Hclean _].
  unfold evict_one. apply runs_bind_self. destruct (recency s) as [|id rest] eqn:Er.
  { destruct (map_size_ne_0_lookup_1 (entries s)) as (x & Hx); [lia|].
    pose proof (proj2 (Hrec x) Hx) as Hin. by apply elem_of_nil in Hin. }
  apply runs_bind_modify. destruct (proj1 (Hrec id)) as [buf Hbuf]; [set_solver|]. rewrite Hbuf.
  apply runs_bind_modify. destruct (Hent id buf Hbuf) as [Hl Hid].
  assert (Habs : forall p' x, entries s !! x = None ->
    entries (mkPool p' (capacity s) (delete id (entries s)) (dirty s ∖ {[id]}) rest (next_page_id s)) !! x = None).
  { intros p' x Hx. simpl. by apply lookup_delete_None; right. }
  case_bool_decide as Hd.
  - apply runs_bind_modify, on_pager_runs. simpl.
    eapply runs_mono; [eapply runs_weaken; [apply (write_data_page_ok a (pager s) id buf Hp)|]|].
    + by apply Hdirty.
    + done.
    + intros e p' (He & Hp' & Hsame & Hother).
      destruct (evict_inv a s id buf rest p' Hinv Er Hbuf Hp' Hsame Hother) as (? & ? & _).
      unfold pool_stops. split_and!; [done|assumption|assumption].
    + intros _ p' (Hp' & Hsame & Hdisk & Hother).
      destruct (evict_inv a s id buf rest p' Hinv Er Hbuf Hp' Hsame Hother) as (? & ? & ?).
      split_and!; [split|done|done]; [done|done| |apply Habs|simpl; set_solver|].
      * by apply (evict_pages a s id buf rest p').
      * intros He. simpl in Hd. rewrite He in Hd. set_solver.
  - apply runs_ret. simpl in Hd. assert (Heq : dirty s ∖ {[id]} = dirty s) by set_solver.
    assert (Hother : others_kept id (pager s) (pager s)) by (by intros ?).
    pose proof (evict_inv a s id buf rest (pager s) Hinv Er Hbuf Hp (same_fields_refl _) Hother) as Hev.
    unfold set_entries, set_recency in *. simpl. rewrite <-Heq. destruct Hev as (? & ? & ?).
    split_and!; [split|done|done]; [done|done| |apply Habs|simpl; set_solver|done].
    apply (evict_pages a s id buf rest (pager s)); [done|done| |done]. by apply Hclean.
Qed.

Lemma evict_loop_ok a fuel s :
  pool_inv a s -> (size (entries s) <= fuel)%nat ->
  runs (pool_stops a s) (evict_loop fuel) s (fun _ s' => evicted a s s' /\
    Z.of_nat (size (entries s')) < capacity s' /\
    recency s' = drop (S (size (entries s)) - Z.to_nat (capacity s)) (recency s)).
Proof.
  revert s. induction fuel as [|fuel IH]; intros s Hinv Hf; cbn [evict_loop];
    apply runs_bind_self; pose proof (pi_capacity _ _ Hinv); case_match eqn:E; try lia.
  1, 3: apply runs_ret; split_and!; [by apply evicted_refl|lia|].
  1, 2: replace (S _ - _)%nat with O by lia; done.
  eapply stops_bind; [apply evict_one_ok; [done|lia]|].
  intros _ s1 (He1 & Hsz1 & Hr1). split; [apply He1|].
  eapply runs_mono; [apply IH; [apply He1|lia]|]. simpl.
  intros _ s2 (He2 & Hsz2 & Hr2). split_and!; [by eapply evicted_trans|done|].
  assert (Ht : tail (recency s) = drop 1 (recency s)) by (by destruct (recency s); rewrite ?drop_0).
  rewrite Hr2, Hr1, Ht, drop_drop, Hsz1, (sp_capacity _ _ (ev_same _ _ _ He1)). f_equal. lia.
Qed.

(** ** Caching a page *)

Lemma insert_cached_ok a s id buf (is_dirty : bool) :
  pool_inv a s -> entries s !! id = None -> FIRST_DATA_PAGE_ID <= id < next_page_id s ->
  len buf = ps_bytes (page_size (pager s)) ->
  (if is_dirty then an_next a <= id else disk_page (pager s) id = Some (content buf)) ->
  runs (pool_stops a s) (insert_cached id buf is_dirty) s (fun _ s' => pool_inv a s' /\ same_pool s s' /\
    pages_kept (eq id) s s' /\ pool_page s' id = Some (content buf) /\
    (dirty s' ⊆ if is_dirty then {[id]} ∪ dirty s else dirty s) /\
    recency s' = drop (S (size (entries s)) - Z.to_nat (capacity s)) (recency s) ++ [id] /\
    (dirty s = ∅ -> pager s' = pager s)).
Proof.
  intros Hinv Hnone Hid Hl Hclean. unfold insert_cached. apply runs_bind_self. rewrite Hnone.
  eapply runs_bind; [by apply (runs_ret _ _ (fun _ s' => s' = s))|]. intros _ ? ->.
  eapply runs_bind; [apply (evict_loop_ok a (S (size (entries s))) s Hinv); lia|].
  intros _ s1 ([Hinv1 Hsame Hkept Habs Hdsub Hpg] & Hsz & Hrec). specialize (Habs id Hnone).
  pose proof Hsame as [(_ & Hps & _) Hcap Hnext].
  set (d := if is_dirty then {[id]} ∪ dirty s1 else dirty s1).
  eapply runs_bind with (P := fun _ s' => s' = set_dirty d s1).
  { unfold d. destruct is_dirty; [done|]. apply runs_ret. by destruct s1. }
  intros _ ? ->. apply runs_bind_modify, runs_modify.
  assert (Hclean1 : is_dirty = false -> disk_page (pager s1) id = Some (content buf)).
  { intros ->. specialize (Hkept id (content buf) ltac:(lia)).
    unfold pool_page in Hkept. rewrite Hnone, Habs in Hkept. auto. }
  destruct Hinv1. assert (Hnin : id ∉ recency s1).
  { rewrite pi_recency0, Habs. by intros []. }
  split_and!.
  - split; simpl; try done.
    + rewrite map_size_insert_None by done. lia.
    + apply NoDup_app. split_and!; [done|set_solver|apply NoDup_singleton].
    + intros x. rewrite elem_of_app, list_elem_of_singleton, pi_recency0, lookup_insert_is_Some.
      destruct (decide (id = x)); naive_solver.
    + intros x Hx. rewrite lookup_insert_is_Some'. unfold d in Hx.
      destruct is_dirty; [apply elem_of_union in Hx as [->%elem_of_singleton|Hx]; [by auto|]|];
        destruct (pi_dirty0 x Hx); auto.
    + intros x b [[<- <-]|[Hne Hx]]%lookup_insert_Some; [split; [congruence|lia]|auto].
    + intros x b [[<- <-]|[Hne Hx]]%lookup_insert_Some Hd.
      * apply Hclean1. unfold d in Hd. destruct is_dirty; [|done].
        destruct Hd. apply elem_of_union_l. by apply elem_of_singleton.
      * apply pi_clean0; [done|]. intros Hin. apply Hd. unfold d.
        destruct is_dirty; [apply elem_of_union; by right|done].
  - by split; [apply Hsame|..].
  - intros x c Hx Hne Hc. apply Hkept in Hc; [|done|tauto]. unfold pool_page in *. simpl.
    by rewrite lookup_insert_ne.
  - unfold pool_page. simpl. by rewrite lookup_insert_eq.
  - simpl. unfold d. destruct is_dirty; [by apply union_mono_l|done].
  - simpl. by rewrite Hrec.
  - exact Hpg.
Qed.

(** ** The methods of the pool *)

Lemma allocate_page_id_ok J a s :
  pool_inv a s -> next_page_id s + 1 <= an_limit a ->
  runs J allocate_page_id s (fun id s' => id = next_page_id s /\ pool_inv a s' /\
    s' = set_next_page_id (next_page_id s + 1) s).
Proof.
  intros Hinv Hn. unfold allocate_page_id. pose proof (pi_first _ _ Hinv) as Hr. unfold FIRST_DATA_PAGE_ID in Hr.
  pose proof (ao_limit _ (pg_anchor _ _ (pi_pager _ _ Hinv))) as Hlim.
  eapply runs_bind with (P := fun n s' => n = next_page_id s /\ s' = s); [done|].
  intros ? ? [-> ->]. eapply runs_bind_lift; [apply wrap_or_panic_ret; lia|].
  apply runs_bind_modify, runs_ret. split_and!; [done| |done].
  destruct Hinv. split; simpl; try done.
  - intros id b Hb. destruct (pi_entries0 id b Hb). split; [done|lia].
  - lia.
Qed.

(** What an access does to a list of at most [cap] pages, oldest first: the page goes
    to the end, and the oldest go for as many as are too many. *)
Definition lru (cap : nat) (id : Z) (l : list Z) : list Z :=
  let l := retain_ne id l in drop (S (length l) - cap) l ++ [id].

Lemma retain_ne_absent id l : id ∉ l -> retain_ne id l = l.
Proof.
  intros Hid. unfold retain_ne. induction l as [|x l IH]; [done|].
  apply not_elem_of_cons in Hid as [Hne Hid]. rewrite filter_cons_True by done. by rewrite IH.
Qed.

Lemma recency_size a s : pool_inv a s -> length (recency s) = size (entries s).
Proof.
  intros Hinv. rewrite <-size_dom, <-(size_list_to_set (C := gset Z)) by apply Hinv.
  f_equal. apply set_eq. intros x. by rewrite elem_of_list_to_set, (pi_recency _ _ Hinv), elem_of_dom.
Qed.

(** Only the pager changed, and none of its pages. *)
Lemma pool_inv_pager a s p' :
  pool_inv a s -> pager_inv a p' -> same_fields (pager s) p' ->
  (forall id c, FIRST_DATA_PAGE_ID <= id -> disk_page (pager s) id = Some c -> disk_page p' id = Some c) ->
  pool_inv a (set_pager p' s) /\ same_pool s (set_pager p' s) /\ pages_kept (fun _ => False) s (set_pager p' s).
Proof.
  intros [] Hp Hsame Hle. pose proof Hsame as (_ & Hps & _). split_and!; [|by split|].
  - split; simpl; try done; [by rewrite Hps|]. intros id b Hb Hd. apply Hle; [by eapply pi_entries0|auto].
  - intros id c Hid _. unfold pool_page. simpl. destruct (entries s !! id); [done|]. by apply Hle.
Qed.

Lemma pool_inv_only_faults a s p' :
  pool_inv a s -> only_faults (pager s) p' ->
  pool_inv a (set_pager p' s) /\ same_pool s (set_pager p' s) /\ pages_kept (fun _ => False) s (set_pager p' s).
Proof.
  intros Hinv Hf. apply pool_inv_pager; [done|by eapply pager_inv_faults; [apply Hinv|]|by apply only_faults_fields|].
  intros id c _. by rewrite (only_faults_page Hf).
Qed.

(** A hit or a miss: the page, now the most recent one. *)
Lemma get_page_ok a s id c :
  pool_inv a s -> FIRST_DATA_PAGE_ID <= id < next_page_id s -> pool_page s id = Some c ->
  runs (pool_stops a s) (get id) s (fun buf s' => len buf = ps_bytes (page_size (pager s)) /\ content buf = c /\
    pool_inv a s' /\ same_pool s s' /\ pages_kept (fun _ => False) s s' /\ dirty s' ⊆ dirty s /\
    recency s' = lru (Z.to_nat (capacity s)) id (recency s) /\ (dirty s = ∅ -> only_faults (pager s) (pager s'))).
Proof.
  intros Hinv Hid Hc. unfold get. apply runs_bind_self. unfold pool_page in Hc.
  destruct (entries s !! id) as [buf|] eqn:E.
  - injection Hc as <-. unfold touch. apply runs_bind_modify, runs_ret.
    split_and!; [by apply (pi_entries _ _ Hinv id)|done| |by split; [repeat split|..]|by intros ?|done| |intros _; apply only_faults_id].
    2:{ simpl. unfold lru. replace (S _ - _)%nat with O; [done|].
        assert (Hlt : (length (retain_ne id (recency s)) < length (recency s))%nat).
        { apply (length_filter_lt _ _ id); [by apply (pi_recency _ _ Hinv)|by intros []]. }
        rewrite (recency_size a) in Hlt by done. pose proof (pi_size _ _ Hinv). lia. }
    destruct Hinv. split; simpl; try done.
    + apply NoDup_app. split_and!; [by apply NoDup_filter| |apply NoDup_singleton].
      intros x [_ Hx]%elem_of_retain_ne. set_solver.
    + intros x. rewrite elem_of_app, elem_of_retain_ne, list_elem_of_singleton, pi_recency0.
      destruct (decide (x = id)) as [->|]; [rewrite E|]; naive_solver.
  - eapply stops_bind with (P := fun b s' => exists p', s' = set_pager p' s /\ only_faults (pager s) p' /\
      len b = ps_bytes (page_size (pager s)) /\ content b = c).
    { apply on_pager_runs. eapply runs_mono; [eapply runs_weaken; [apply (read_data_page_ok a); [apply Hinv|exact Hc]|]|].
      - intros e p' [He Hf]. destruct (pool_inv_only_faults a s p' Hinv Hf) as (? & ? & _). by split_and!.
      - simpl. intros b p' (Hf & Hl & Hcb). by exists p'. }
    intros b ? (p' & -> & Hf & Hl & Hcb).
    destruct (pool_inv_only_faults a s p' Hinv Hf) as (Hinv1 & Hs1 & Hk1). split; [done|].
    pose proof (only_faults_fields Hf) as (_ & Hps & _).
    eapply stops_bind; [apply (insert_cached_ok a (set_pager p' s) id b false); try done|].
    { simpl. by rewrite Hps. }
    { simpl. by rewrite (only_faults_page Hf), Hcb. }
    intros _ s' (Hinv' & Hsame & Hkept & Hpage & Hdsub & Hrec & Hpg). split; [done|]. apply runs_ret.
    pose proof (same_pool_trans _ _ _ Hs1 Hsame) as Hs'. split_and!; try done.
    + intros x c' Hx _ Hc'. destruct (decide (id = x)) as [<-|]; [|by apply Hkept, Hk1; tauto].
      unfold pool_page in Hc' at 1. rewrite E in Hc'. congruence.
    + assert (id ∉ recency s) by (rewrite (pi_recency _ _ Hinv), E; by intros []).
      unfold lru. by rewrite retain_ne_absent, (recency_size a) by done.
    + intros Hd. by rewrite Hpg.
Qed.

(** The buffer that [write_data_page] stamps *)
Lemma stamped_ok a p buf :
  pager_inv a p -> len buf = ps_bytes (page_size p) -> len (stamped buf) = len buf /\ content (stamped buf) = content buf.
Proof.
  intros Hp Hl. pose proof (page_size_range _ (pager_size_wf Hp)).
  assert (Hstamp : stamped buf = content buf ++ be_bytes 8 (xxh3_64 (content buf))).
  { unfold stamped. by rewrite stamp_checksum_ok by lia. }
  rewrite Hstamp, content_stamped, len_app, len_content, len_be8 by lia. split; [lia|done].
Qed.

(** [flush_one] writes a dirty page out and keeps it, clean. *)
Lemma flush_one_ok a s id :
  pool_inv a s -> id ∈ dirty s ->
  runs (pool_stops a s) (flush_one id) s (fun _ s' => pool_inv a s' /\ same_pool s s' /\
    pages_kept (fun _ => False) s s' /\ dirty s' = dirty s ∖ {[id]}).
Proof.
  intros Hinv Hd. destruct (pi_dirty _ _ Hinv id Hd) as [[buf Hbuf] Hfree].
  destruct (pi_entries _ _ Hinv id buf Hbuf) as [Hl Hid].
  destruct (stamped_ok a (pager s) buf (pi_pager _ _ Hinv) Hl) as [Hsl Hsc].
  unfold flush_one. apply runs_bind_self. rewrite Hbuf.
  (* the entry is rewritten in place, whatever becomes of the write *)
  assert (Hwritten : forall p' d', pager_inv a p' -> same_fields (pager s) p' -> others_kept id (pager s) p' ->
    d' = dirty s \/ (d' = dirty s ∖ {[id]} /\ disk_page p' id = Some (content buf)) ->
    let s' := mkPool p' (capacity s) (<[id := stamped buf]> (entries s)) d' (recency s) (next_page_id s) in
    pool_inv a s' /\ same_pool s s' /\ pages_kept (fun _ => False) s s').
  { intros p' d' Hp' Hsame Hother Hd' s'. destruct Hinv. pose proof Hsame as (_ & Hpseq & _). split_and!.
    - split; simpl; try done.
      + by rewrite map_size_insert_Some.
      + intros x. rewrite pi_recency0, lookup_insert_is_Some. destruct (decide (id = x)); naive_solver.
      + intros x Hx. rewrite lookup_insert_is_Some'. assert (Hx' : x ∈ dirty s) by (destruct Hd' as [->|[-> _]]; set_solver).
        destruct (pi_dirty0 x Hx'). auto.
      + intros x b [[<- <-]|[Hne Hx]]%lookup_insert_Some; [split; [congruence|lia]|rewrite Hpseq; auto].
      + intros x b [[<- <-]|[Hne Hx]]%lookup_insert_Some Hnd.
        * destruct Hd' as [->|[_ Hdisk]]; [done|by rewrite Hsc].
        * apply Hother; [by eapply pi_entries0|done|]. apply pi_clean0; [done|].
          destruct Hd' as [->|[-> _]]; set_solver.
    - by split.
    - intros x c Hx _. unfold pool_page. simpl. destruct (decide (id = x)) as [<-|].
      + rewrite Hbuf, lookup_insert_eq, Hsc. done.
      + rewrite lookup_insert_ne by done. destruct (entries s !! x); [done|]. by apply Hother. }
  eapply runs_bind with (P := fun _ s' => exists p',
    s' = mkPool p' (capacity s) (<[id := stamped buf]> (entries s)) (dirty s) (recency s) (next_page_id s) /\
    pager_inv a p' /\ same_fields (pager s) p' /\ disk_page p' id = Some (content buf) /\ others_kept id (pager s) p').
  { apply runs_bind_modify, on_pager_runs. simpl.
    eapply runs_mono; [eapply runs_weaken; [by apply (write_data_page_ok a (pager s) id buf); [apply Hinv|..]|]|].
    - intros e p' (He & Hp' & Hsame & Hother).
      destruct (Hwritten p' (dirty s) Hp' Hsame Hother) as (? & ? & _); [by left|]. by split_and!.
    - simpl. intros _ p' Hp'. by exists p'. }
  intros _ ? (p' & -> & Hp' & Hsame & Hdisk & Hother). apply runs_modify.
  destruct (Hwritten p' (dirty s ∖ {[id]}) Hp' Hsame Hother) as (? & ? & ?); [by right|]. by split_and!.
Qed.

Lemma flush_loop_ok a l s :
  pool_inv a s -> NoDup l -> (forall id, id ∈ l -> id ∈ dirty s) ->
  runs (pool_stops a s) (for_each l flush_one) s (fun _ s' => pool_inv a s' /\ same_pool s s' /\
    pages_kept (fun _ => False) s s' /\ dirty s' = dirty s ∖ list_to_set l).
Proof.
  revert s. induction l as [|id l IH]; intros s Hinv Hnd Hl; cbn [for_each].
  { apply runs_ret. split_and!; [done|apply same_pool_refl|apply pages_kept_refl|set_solver]. }
  inversion Hnd as [|? ? Hnin Hnd']; subst.
  eapply stops_bind; [apply (flush_one_ok a s id); [done|set_solver]|].
  intros _ s1 (Hinv1 & Hs1 & Hk1 & Hd1). split; [done|].
  eapply runs_mono; [apply (IH s1); [done|done|]|].
  - intros x Hx. rewrite Hd1. apply elem_of_difference. split; [set_solver|].
    intros ->%elem_of_singleton. done.
  - simpl. intros _ s2 (Hinv2 & Hs2 & Hk2 & Hd2). split_and!; [done| | |set_solver].
    + by eapply same_pool_trans.
    + by eapply pages_kept_trans.
Qed.

Lemma flush_all_dirty_ok a s :
  pool_inv a s -> runs (pool_stops a s) flush_all_dirty s (fun _ s' => pool_inv a s' /\ same_pool s s' /\
    pages_kept (fun _ => False) s s' /\ dirty s' = ∅).
Proof.
  intros Hinv. unfold flush_all_dirty. apply runs_bind_self.
  pose proof (hash_order_elements (dirty s)) as Hperm.
  eapply stops_bind; [apply (flush_loop_ok a (hash_order (dirty s)) s Hinv)|].
  { rewrite Hperm. apply NoDup_elements. }
  { intros id. rewrite Hperm. by rewrite elem_of_elements. }
  intros _ s1 (Hinv1 & Hs1 & Hk1 & Hd1). split; [done|].
  assert (He : dirty s1 = ∅).
  { rewrite Hd1. apply set_eq. intros x. rewrite elem_of_difference, elem_of_list_to_set, Hperm, elem_of_elements.
    set_solver. }
  apply on_pager_runs. eapply runs_mono; [eapply runs_weaken; [by apply (sync_data_ok a (pager s1)), pi_pager|]|].
  - intros e p' [Hst Hf]. destruct (pool_inv_only_faults a s1 p' Hinv1 Hf) as (? & ? & _). by split_and!.
  - simpl. intros _ p' (Hp' & Hsame & Hdata & _).
    destruct (pool_inv_pager a s1 p' Hinv1 Hp' Hsame) as (? & ? & ?).
    { intros id c _. by rewrite (disk_page_data (pager s1) p' id Hdata (proj1 (proj2 Hsame))). }
    split_and!; [done| | |done].
    + by eapply same_pool_trans.
    + by eapply pages_kept_trans.
Qed.

(** The pages of a file below [n]. *)
Definition file_pages (p : Pager) (n : Z) (id : Z) : option bytes :=
  if bool_decide (FIRST_DATA_PAGE_ID <= id < n) then disk_page p id else None.

Lemma file_pages_of p n id c :
  file_pages p n id = Some c <-> FIRST_DATA_PAGE_ID <= id < n /\ disk_page p id = Some c.
Proof. unfold file_pages. case_bool_decide; naive_solver. Qed.

Lemma file_pages_le p n n' : n <= n' -> view_le (file_pages p n) (file_pages p n').
Proof. intros Hn id c. rewrite !file_pages_of. intros [? ?]. split; [lia|done]. Qed.

(** The pages of an anchor that are not written any more. *)
Definition kept_page (a : anchor) : view := file_pages (an_pager a) (an_next a).

Lemma kept_of a id c :
  kept_page a id = Some c <-> FIRST_DATA_PAGE_ID <= id < an_next a /\ disk_page (an_pager a) id = Some c.
Proof. apply file_pages_of. Qed.

Lemma pool_kept_page a s id c : pool_inv a s -> kept_page a id = Some c -> pool_page s id = Some c.
Proof.
  intros Hinv [Hid Hc]%kept_of. apply (pager_kept_page (pi_pager _ _ Hinv)) in Hc; [|done]. unfold pool_page.
  destruct (entries s !! id) as [b|] eqn:E; [|done]. rewrite <-Hc. symmetry. apply (pi_clean _ _ Hinv); [done|].
  intros [_ Hd]%(pi_dirty _ _ Hinv). lia.
Qed.

(** What a commit publishes *)
Definition committing (root : Z) (s : BufferPool) : MetaContent :=
  mkMeta (page_size (pager s)) (txn_id (pager s) + 1) root (next_page_id s).

(** Stopped while it was being published: nothing is left to write but the slot, and all
    that is in the file stays. *)
Definition pool_halfway (a : anchor) (root : Z) (e : PinaxError) (s' : BufferPool) : Prop :=
  disk_stops a e /\ dirty s' = ∅ /\
  pool_inv (also a (next_page_id s') (committing root s') (pager s')) s' /\ same_fields (an_pager a) (pager s') /\
  an_next a <= next_page_id s' /\ (forall id c, kept_page a id = Some c -> pool_page s' id = Some c).

(** Nothing is in memory only. *)
Definition pool_saved (s : BufferPool) : Prop :=
  dirty s = ∅ /\ page_count (pager s) = next_page_id s /\ settled (pager s).

(** A saved pool is a place to go on from. *)
Lemma saved_here a s : pool_inv a s -> pool_saved s -> pool_inv (here (pager s)) s.
Proof.
  intros Hinv (Hd & Hcount & Hset). pose proof (pi_first _ _ Hinv) as Hn.
  pose proof (settled_here a (pager s) (pi_pager _ _ Hinv) Hset ltac:(lia)) as Hp.
  destruct Hinv. split; try done; simpl; [|lia]. intros id. rewrite Hd. by intros ?%elem_of_empty.
Qed.

(** A commit leaves no dirty page, and the pager at the new root. *)
Lemma pool_commit_ok a s root :
  pool_inv a s -> 0 <= root <= u32_max -> txn_id (pager s) < u64_max ->
  runs (fun e s' => pool_stops a s e s' \/
      (pool_halfway a root e s' /\ same_pool s s' /\ pages_kept (fun _ => False) s s'))
    (commit root) s (fun _ s' => pool_inv (here (pager s')) s' /\ capacity s' = capacity s /\
      next_page_id s' = next_page_id s /\
      (exists p, pager_inv a p /\ same_fields (pager s) p /\ published root (next_page_id s) p (pager s')) /\
      pool_saved s' /\ pages_kept (fun _ => False) s s').
Proof.
  intros Hinv Hroot Htxn. unfold commit.
  eapply runs_bind; [eapply runs_weaken; [by apply flush_all_dirty_ok|by left]|].
  intros _ s1 (Hinv1 & Hs1 & Hk1 & Hd1). apply runs_bind_self, on_pager_runs.
  pose proof Hs1 as [(Hpath & Hps & Has & Htx & _) Hcap Hnext].
  pose proof (pi_next _ _ Hinv1) as Hn. pose proof (pi_first _ _ Hinv1) as Hfst.
  (* whatever becomes of the pager *)
  assert (Hnew : forall b p', pager_inv b p' -> page_size p' = page_size (pager s1) -> pages_le (pager s1) p' ->
    an_next b <= next_page_id s1 <= an_limit b ->
    pool_inv b (set_pager p' s1) /\ pages_kept (fun _ => False) s (set_pager p' s1)).
  { intros b p' Hp' Hps' Hle Hb. split.
    - destruct Hinv1. split; simpl; try done.
      + intros id. rewrite Hd1. by intros ?%elem_of_empty.
      + by rewrite Hps'.
      + intros id x Hx Hd. apply Hle; [by eapply pi_entries0|auto].
    - intros id c Hid Hne Hc. apply Hk1 in Hc; [|done|done]. unfold pool_page in *. simpl.
      destruct (entries s1 !! id); [done|]. by apply Hle. }
  eapply runs_mono; [eapply runs_weaken; [apply (pager_commit_ok a (pager s1)); [apply Hinv1|done|lia|lia]|]|].
  - intros e p' (He & Hsame & Hle & Hp'). pose proof Hsame as (Hpath' & Hps' & Has' & Htx' & Hr' & Hc').
    assert (Hs2 : same_pool s (set_pager p' s1)) by (eapply same_pool_trans; [exact Hs1|by split]).
    destruct Hp' as [Hp'|Hp'].
    + destruct (Hnew a p' Hp' Hps' Hle) as [? ?]; [lia|]. left. by split_and!.
    + destruct (Hnew _ p' Hp' Hps' Hle) as [Hi Hpages]; [simpl; lia|]. right. split_and!; [|done|done].
      split_and!; [done|done| | |simpl; lia|].
      * unfold committing. cbn [set_pager pager next_page_id]. by rewrite Hps', Htx'.
      * eapply same_fields_trans; [apply Hinv1|done].
      * intros id c Hc. pose proof (proj1 (kept_of a id c) Hc) as [? _]. eapply Hpages; [lia|by intros []|].
        by eapply pool_kept_page.
  - simpl. intros _ p' Hpub. destruct (Hnew _ p' (pu_here _ _ _ _ Hpub) (pu_page_size _ _ _ _ Hpub) (pu_pages _ _ _ _ Hpub)) as [? ?].
    { simpl. rewrite (pu_count _ _ _ _ Hpub). lia. }
    split_and!; try done; [exists (pager s1)|split_and!; [done| |apply Hpub]].
    + split_and!; [apply Hinv1|apply Hs1|by rewrite <-Hnext].
    + exact (pu_count _ _ _ _ Hpub).
Qed.

(** ** The pool as a page store *)

(** A pool in order, wherever it went on from. *)
Definition pool_ok (s : BufferPool) : Prop := exists a, pool_inv a s.

#[export] Instance BufferPool_StoreModel : StoreModel BufferPool := {
  store_ok := pool_ok;
  store_view s id :=
    if bool_decide (FIRST_DATA_PAGE_ID <= id < next_page_id s) then pool_page s id else None;
  store_next := next_page_id;
  store_txn s := txn_id (pager s);
  store_saved := pool_saved;
  store_path s := path (pager s);
  store_reliable s := faults (file (pager s)) = [];
}.

(** A run that goes on from an anchor *)
Definition pool_run (a : anchor) : StoreRun BufferPool := {|
  store_inv := pool_inv a;
  store_root := root_page_id (an_pager a);
  store_size := page_size (an_pager a);
  store_kept := kept_page a;
  store_limit := an_limit a;
  store_sound := an_sound a;
  store_stop := disk_stops a;
  halfway := pool_halfway a;
|}.

Lemma view_of s id c :
  store_view s id = Some c <-> FIRST_DATA_PAGE_ID <= id < next_page_id s /\ pool_page s id = Some c.
Proof. simpl. case_bool_decide; naive_solver. Qed.

Lemma view_le_of s s' (P : Z -> Prop) :
  next_page_id s <= next_page_id s' -> pages_kept P s s' ->
  (forall id, P id -> next_page_id s <= id) -> view_le (store_view s) (store_view s').
Proof.
  intros Hn Hk HP id c. rewrite !view_of. intros [Hid Hc]. split; [lia|]. apply Hk; [lia| |done].
  intros Hx%HP. lia.
Qed.

Lemma pool_stops_stopped a s e s' : pool_stops a s e s' -> @stopped _ _ (pool_run a) e s'.
Proof. intros (? & ? & _). by split. Qed.

Lemma pool_inv_kept a s : pool_inv a s -> view_le (kept_page a) (store_view s).
Proof.
  intros Hinv id c Hc. pose proof (proj1 (kept_of a id c) Hc) as [? _]. pose proof (pi_next _ _ Hinv).
  apply view_of. split; [lia|]. by eapply pool_kept_page.
Qed.

(** With nothing left to write, what a pool holds is in the file and stays. *)
Lemma view_kept a s : pool_inv a s -> dirty s = ∅ -> an_pager a = pager s -> next_page_id s <= an_next a ->
  view_le (store_view s) (kept_page a).
Proof.
  intros Hinv Hd Ha Hn id c [Hid Hc]%view_of. apply kept_of. split; [lia|]. rewrite Ha. unfold pool_page in Hc.
  destruct (entries s !! id) as [b|] eqn:E; [|done]. injection Hc as <-. apply (pi_clean _ _ Hinv); [done|]. by rewrite Hd.
Qed.

#[export] Instance pool_run_laws a : @PageStoreLaws BufferPool _ _ (pool_run a).
Proof.
  split; cbn [store_inv store_root store_size store_kept store_limit store_sound store_stop halfway pool_run].
  - intros s Hinv. by exists a.
  - intros s Hinv. apply (pg_fields _ _ (pi_pager _ _ Hinv)).
  - intros s Hinv. apply (pg_fields _ _ (pi_pager _ _ Hinv)).
  - intros s. apply pool_inv_kept.
  - intros s Hinv. split; [apply (pi_next _ _ Hinv)|apply (ao_limit _ (pg_anchor _ _ (pi_pager _ _ Hinv)))].
  - intros s Hinv. apply (pg_sound _ _ (pi_pager _ _ Hinv)).
  - intros e [_ Hs]. exact Hs.
  - intros root e s (Hst & _ & Hinv & Hsame & Hn & Hk). split_and!; [done|by eexists|apply Hsame..|].
    intros id c Hc. pose proof (proj1 (kept_of a id c) Hc) as [? _]. apply view_of. split; [lia|]. by apply Hk.
  - intros s [b Hinv]. apply (pager_size_wf (pi_pager _ _ Hinv)).
  - intros s [b Hinv]. apply (pi_first _ _ Hinv).
  - intros s id c _ Hv%view_of. apply Hv.
  - intros s id c Hinv [Hid Hc]%view_of.
    eapply runs_mono; [eapply runs_weaken; [by apply (get_page_ok a s id c)|apply pool_stops_stopped]|]. cbv beta.
    intros buf s' (Hl & Hcb & Hinv' & [(? & Hps & ? & Htx & Hr & Hpc) Hcap Hn] & Hk & Hd & _ & Hpg).
    split_and!; [done|done|].
    split; simpl; try done; [|lia| |].
    + intros _ (Hd0 & Hpc0 & Hset). split_and!; [set_solver|congruence|]. by eapply only_faults_settled, Hset; apply Hpg.
    + apply (view_le_of _ _ (fun _ => False)); [lia|done|done].
    + apply dense_le; [|done]. apply (view_le_of _ _ (fun _ => False)); [lia|done|done].
  - intros s buf Hinv Hn Hl. simpl in Hl.
    eapply runs_mono; [by apply (allocate_page_id_ok _ a)|]. cbv beta.
    intros id s1 (-> & Hinv1 & ->). split; [done|].
    assert (Hnone : entries s !! next_page_id s = None).
    { destruct (entries s !! next_page_id s) as [b|] eqn:E; [|done].
      destruct (pi_entries _ _ Hinv _ _ E). lia. }
    pose proof (pi_next _ _ Hinv) as Hr. pose proof (pi_first _ _ Hinv) as Hf. unfold put_new.
    eapply runs_mono; [eapply runs_weaken; [|apply pool_stops_stopped]|].
    { apply (insert_cached_ok a (set_next_page_id (next_page_id s + 1) s) (next_page_id s) buf true);
        [done|done|simpl; lia|done|simpl; lia]. }
    cbv beta. intros _ s' (Hinv' & [(? & Hps & ? & Htx & Hrt & ?) Hcap Hnx] & Hk & Hpage & _).
    simpl in Hnx.
    assert (Hnew : store_view s' (next_page_id s) = Some (content buf)) by (apply view_of; split; [lia|done]).
    assert (Hle : view_le (store_view s) (store_view s')) by (apply (view_le_of _ _ (eq (next_page_id s))); [lia|done|lia]).
    split; [|done]. split; try done. intros Hd x Hx. destruct (decide (x = next_page_id s)) as [->|]; [by eexists|].
    destruct (Hd x) as [c Hcx]; [simpl in *; lia|]. exists c. by apply Hle.
  - intros s root Hinv Hroot Htxn.
    eapply runs_mono; [eapply runs_weaken; [by apply (pool_commit_ok a s root)|]|]; cbv beta.
    + intros e s' [Hst|(Hst & Hsame & Hk)]; [left; by eapply pool_stops_stopped|right].
      split_and!; [done|apply Hsame|]. apply (view_le_of _ _ (fun _ => False)); [by rewrite (sp_next _ _ Hsame)|done|done].
    + intros _ s' (Hinv' & Hcap & Hn & (p & Hp & (Hpath & Hps & _ & Htx & _) & []) & Hsaved & Hk).
      split; simpl; try done; try congruence.
      * by exists (here (pager s')).
      * apply (view_le_of _ _ (fun _ => False)); [lia|done|done].
      * intros Hsound. by apply pu_faults, (pg_sound _ _ Hp).
Qed.

(** To go on from the same point, up to another limit, on the disk as it is now. *)
Lemma pool_aimed limit a s :
  pool_inv a s -> next_page_id s <= limit <= u32_max -> pool_inv (aimed limit (pager s) a) s.
Proof.
  intros [] [Hl Hlim]. split; try done; [by apply pager_aimed|]. simpl. lia.
Qed.

(** On a disk that does not fail, up to the last page id. *)
Lemma pool_ok_sound s :
  pool_ok s -> faults (file (pager s)) = [] -> exists a, pool_inv a s /\ an_sound a /\ an_limit a = u32_max.
Proof.
  intros [a Hinv] Hf. exists (aimed u32_max (pager s) a). split_and!; [|exact Hf|done].
  apply pool_aimed; [done|]. pose proof (pi_first _ _ Hinv). lia.
Qed.

(** With nothing left to write, the pages are in the file. *)
Lemma dense_file s :
  pool_ok s -> store_saved s -> dense s ->
  (forall id, FIRST_DATA_PAGE_ID <= id < page_count (pager s) -> is_Some (disk_page (pager s) id)) /\
  file_offset (pager s) (page_count (pager s)) <= len (data (file (pager s))).
Proof.
  intros [a Hinv] (Hd & Hcount & _) Hdense.
  assert (Hdisk : forall id, FIRST_DATA_PAGE_ID <= id < page_count (pager s) -> is_Some (disk_page (pager s) id)).
  { intros id Hid. destruct (Hdense id) as [c [_ Hc]%view_of]; [simpl; lia|]. unfold pool_page in Hc.
    destruct (entries s !! id) as [b|] eqn:E; [|by exists c]. exists (content b).
    apply (pi_clean _ _ Hinv id b E). rewrite Hd. set_solver. }
  split; [done|]. pose proof (pi_first _ _ Hinv) as Hn. rewrite <-Hcount in Hn.
  rewrite file_offset_data by lia. destruct (decide (page_count (pager s) = FIRST_DATA_PAGE_ID)) as [->|Hne].
  { pose proof (pager_len (pi_pager _ _ Hinv)). lia. }
  destruct (Hdisk (page_count (pager s) - 1)) as [c Hc]; [lia|]. unfold disk_page in Hc.
  destruct (slice _ _ _) as [b|] eqn:E; [|done]. apply slice_bounds in E. rewrite file_offset_data in E by lia. nia.
Qed.

(** ** A pool over a file *)

Lemma new_pool_inv p capacity :
  pager_inv (here p) p -> settled p -> 1 <= capacity ->
  exists s, BufferPool.new p capacity = Ret s /\ pool_inv (here p) s /\ pool_saved s /\ pager s = p /\
    entries s = ∅ /\ recency s = [] /\ next_page_id s = page_count p.
Proof.
  intros Hp Hset Hcap. unfold BufferPool.new. rewrite (proj2 (Z.leb_le _ _) Hcap).
  cbn [ensure mbind outcome_bind]. eexists. split; [reflexivity|]. split_and!; try done.
  split; simpl; try done; [by rewrite map_size_empty; lia|constructor|
    intros id; rewrite lookup_empty, is_Some_alt; set_solver|].
  pose proof (mw_count _ (pager_meta_wf Hp)) as Hc. simpl in Hc. lia.
Qed.

Lemma fresh_pool_ok path ps capacity fs :
  page_size_wf ps -> 1 <= capacity -> files fs !! path = None -> new_faults fs = [] ->
  exists p s, create path ps fs = (Ret p, close path (file p) fs) /\ BufferPool.new p capacity = Ret s /\
    pager s = p /\ pool_inv (here p) s /\ store_saved s /\ store_reliable s /\ pool_page_size s = ps /\
    pool_root_page_id s = EMPTY_TREE_ROOT /\ store_next s = FIRST_DATA_PAGE_ID /\ store_txn s = 0 /\ store_path s = path.
Proof.
  intros Hwf Hcap Hnone Hnf.
  destruct (create_sound path ps fs Hwf Hnone Hnf) as (p & Hc & Hp & Hset & Hpath & Hps & Hroot & Htx & Hcount & Hf).
  destruct (new_pool_inv p capacity Hp Hset Hcap) as (s & Hs & Hinv & Hsaved & Hpg & _ & _ & Hnext).
  exists p, s. split_and!; simpl; try done; congruence.
Qed.
End pool.

(** An empty pool of one page of 4096 bytes, for examples. *)
Lemma example_pool :
  let _ := sum_xxh3 in let _ := Build_BuildProfile true in let _ := elements_order in
  exists s : BufferPool, pool_ok s /\ store_reliable s /\ store_saved s /\ pool_page_size s = mkPageSize 4096 /\
    pool_root_page_id s = EMPTY_TREE_ROOT /\ store_next s = FIRST_DATA_PAGE_ID /\ store_txn s = 0.
Proof.
  intros x b o. destruct (fresh_pool_ok "db" (mkPageSize 4096) 1 (mkFileSystem ∅ [])) as (p & s & _ & _ & _ & Hinv & Hs);
    [unfold page_size_wf; set_solver|done|done|done|].
  exists s. split; [by exists (here p)|]. naive_solver.
Qed.

(** ** What the tree relies on, and what the pool promises besides *)
Section properties.
Context `{Xxh3} `{BuildProfile} `{HashOrder}.
Implicit Types s : BufferPool.

(** Nothing stops a run on a disk that does not fail. *)
Lemma sound_returns {A} a (m : M BufferPool PinaxError A) s Q :
  an_sound a -> runs (@stopped _ _ (pool_run a)) m s Q -> returns m s Q.
Proof. intros Ha. apply runs_returns. by intros e s' [[_ Hno] _]. Qed.

(** Reading pages one after the other. *)
Definition read_all (ids : list Z) : M BufferPool PinaxError unit :=
  for_each ids (fun id => _ ← get id; mret tt).

Lemma read_all_ok a ids : forall s,
  pool_inv a s -> (forall id, id ∈ ids -> is_Some (store_view s id)) ->
  runs (pool_stops a s) (read_all ids) s (fun _ s' =>
    recency s' = fold_left (fun l id => lru (Z.to_nat (capacity s)) id l) ids (recency s) /\ pool_inv a s' /\
    capacity s' = capacity s).
Proof.
  induction ids as [|id ids IH]; intros s Hinv Hids; cbn [read_all for_each].
  { by apply runs_ret. }
  destruct (Hids id) as [c [Hid Hc]%view_of]; [by left|].
  eapply stops_bind with (P := fun _ s1 => pool_inv a s1 /\ same_pool s s1 /\
    pages_kept (fun _ => False) s s1 /\ recency s1 = lru (Z.to_nat (capacity s)) id (recency s)).
  { eapply runs_bind; [by apply (get_page_ok a s id c)|].
    intros buf s1 (_ & _ & Hinv1 & Hs1 & Hk1 & _ & Hr1 & _). by apply runs_ret. }
  intros _ s1 (Hinv1 & Hs1 & Hk1 & Hr1). split; [done|].
  assert (Hle : view_le (store_view s) (store_view s1)).
  { apply (view_le_of _ _ (fun _ => False)); [by rewrite (sp_next _ _ Hs1)|done|done]. }
  eapply runs_mono; [apply (IH s1 Hinv1)|].
  - intros x Hx. destruct (Hids x) as [y Hy]; [by right|]. exists y. by apply Hle.
  - intros _ s2 (-> & Hinv2 & Hcap2). cbn [fold_left]. rewrite Hr1, (sp_capacity _ _ Hs1) in *. done.
Qed.

(** C20: The pool is an LRU cache: after any reads, the recency list is what the reads make
    of it by [lru], most recent last, and the pages in memory are exactly the ones on
    it, at most [capacity]. *)
Theorem pool_is_lru s ids :
  pool_ok s -> faults (file (pager s)) = [] -> (forall id, id ∈ ids -> is_Some (store_view s id)) ->
  returns (read_all ids) s (fun _ s' =>
    recency s' = fold_left (fun l id => lru (Z.to_nat (capacity s)) id l) ids (recency s) /\
    (forall id, is_Some (entries s' !! id) <-> id ∈ recency s') /\
    Z.of_nat (size (entries s')) <= capacity s).
Proof.
  intros Hok Hf Hids. destruct (pool_ok_sound s Hok Hf) as (a & Hinv & Ha & _).
  apply (sound_returns a); [done|]. eapply runs_mono; [eapply runs_weaken; [by apply (read_all_ok a)|apply pool_stops_stopped]|].
  intros _ s' (Hr & Hinv' & Hcap). split_and!; [done|intros id; by rewrite (pi_recency _ _ Hinv')|].
  rewrite <-Hcap. apply Hinv'.
Qed.

(** The calls on a pool. *)
Inductive pool_call := ReadPage (id : Z) | AddPage (buf : bytes) | CommitRoot (root : Z).

Definition pool_step (c : pool_call) : M BufferPool PinaxError unit :=
  match c with
  | ReadPage id => _ ← pool_get id; mret tt
  | AddPage buf => id ← pool_allocate_page_id; pool_put_new id buf
  | CommitRoot root => pool_commit root
  end.

(** Calls that make sense on [s], and on whatever it becomes. *)
Definition pool_call_ok s (c : pool_call) : Prop :=
  match c with
  | ReadPage id => is_Some (store_view s id)
  | AddPage buf => len buf = ps_bytes (pool_page_size s)
  | CommitRoot root => 0 <= root <= u32_max
  end.

(** The laws, on a disk that does not fail *)
Lemma add_page s buf :
  pool_ok s -> store_reliable s -> store_next s + 1 <= u32_max -> len buf = ps_bytes (pool_page_size s) ->
  returns (id ← pool_allocate_page_id; pool_put_new id buf ;; mret id) s (fun id s' =>
    id = store_next s /\ pool_ok s' /\ store_reliable s' /\ pool_page_size s' = pool_page_size s /\
    store_next s' = store_next s + 1 /\ store_txn s' = store_txn s /\
    view_le (store_view s) (store_view s') /\ store_view s' id = Some (content buf)).
Proof.
  intros Hok Hf Hn Hl. destruct (pool_ok_sound s Hok Hf) as (a & Hinv & Ha & Hlim).
  apply (sound_returns a); [done|]. eapply runs_bind.
  { apply (@store_allocate_put _ _ _ (pool_run a) _ s buf); [done|simpl in *; lia|done]. }
  simpl. intros id s1 [-> Hput]. eapply runs_bind; [exact Hput|]. intros _ s2 [[] Hv]. simpl in *. apply runs_ret.
  split_and!; try done; [by exists a|by apply (pg_sound _ _ (pi_pager _ _ ext_inv))].
Qed.

Lemma pool_step_ok s c :
  pool_ok s -> store_reliable s -> pool_call_ok s c -> store_next s + 1 <= u32_max -> store_txn s + 1 <= u64_max ->
  returns (pool_step c) s (fun _ s' => pool_ok s' /\ store_reliable s' /\ pool_page_size s' = pool_page_size s /\
    store_next s <= store_next s' <= store_next s + 1 /\ store_txn s' <= store_txn s + 1 /\
    view_le (store_view s) (store_view s')).
Proof.
  intros Hok Hf Hc Hn Ht. destruct (pool_ok_sound s Hok Hf) as (a & Hinv & Ha & Hlim).
  destruct c as [id|buf|root]; cbn [pool_step pool_call_ok] in *.
  - destruct Hc as [c Hc]. apply (sound_returns a); [done|].
    eapply runs_bind; [by apply (@store_get _ _ _ (pool_run a) _ s id c)|].
    intros buf s' (_ & _ & []). simpl in *. apply runs_ret.
    split_and!; [by exists a|by apply (pg_sound _ _ (pi_pager _ _ ext_inv))|done|lia|lia|lia|done].
  - destruct (add_page s buf Hok Hf Hn Hc) as (id & s' & Hrun & -> & ? & ? & ? & ? & ? & ? & _).
    assert (Hstep : (id ← pool_allocate_page_id; pool_put_new id buf) s = (Ret tt, s')).
    { revert Hrun. unfold mbind, M_bind. destruct (pool_allocate_page_id s) as [[x| | |] s1]; [|done..].
      destruct (pool_put_new x buf s1) as [[[]| | |] s2]; [|done..]. intros [= _ ->]. done. }
    exists tt, s'. split_and!; [exact Hstep|done|done|done|lia|lia|lia|done].
  - eapply runs_returns; [|eapply runs_mono; [apply (@store_commit _ _ _ (pool_run a) _ s root); [done|done|lia]|]].
    { intros e s' [[[_ Hno] _]|([[_ Hno] _] & _)]; exact (Hno Ha). }
    intros _ s' []. simpl in *. split_and!; try done; [auto|lia|lia|lia].
Qed.

Lemma pool_steps_ok cs : forall s,
  pool_ok s -> store_reliable s -> Forall (pool_call_ok s) cs ->
  store_next s + len cs <= u32_max -> store_txn s + len cs <= u64_max ->
  returns (for_each cs pool_step) s (fun _ s' => pool_ok s' /\ store_reliable s' /\
    pool_page_size s' = pool_page_size s /\ view_le (store_view s) (store_view s')).
Proof.
  induction cs as [|c cs IH]; intros s Hinv Hf Hok Hn Ht; cbn [for_each].
  { by apply returns_ret. }
  apply Forall_cons in Hok as [Hc Hcs]. rewrite len_cons in Hn, Ht. pose proof (len_nonneg cs).
  eapply returns_bind; [apply (pool_step_ok s c); [done|done|done|lia|lia]|].
  intros _ s1 (Hinv1 & Hf1 & Hps1 & Hn1 & Ht1 & Hle1). eapply returns_mono; [apply (IH s1 Hinv1 Hf1); [|lia|lia]|].
  - eapply Forall_impl; [exact Hcs|]. intros []; cbn [pool_call_ok]; [|by rewrite Hps1|done].
    intros [x Hx]. exists x. by apply Hle1.
  - intros _ s2 (Hinv2 & Hf2 & Hps2 & Hle2). split_and!; [done|done|congruence|]. by etrans.
Qed.

(** C12: A page put in the pool is there to stay: after any reads, additions and commits,
    however often it was evicted and written back meanwhile, reading it gives what was
    put, up to the checksum. *)
Theorem page_survives s buf cs :
  pool_ok s -> faults (file (pager s)) = [] -> len buf = ps_bytes (page_size (pager s)) ->
  Forall (pool_call_ok s) cs ->
  next_page_id s + 1 + len cs <= u32_max -> txn_id (pager s) + len cs <= u64_max ->
  returns (id ← allocate_page_id; put_new id buf ;; for_each cs pool_step ;; get id) s
    (fun b s' => content b = content buf /\ len b = len buf /\ pool_ok s').
Proof.
  intros Hok Hf Hl Hcs Hn Ht. pose proof (len_nonneg cs).
  destruct (add_page s buf Hok Hf) as (id & s1 & Hrun & -> & Hok1 & Hf1 & Hps1 & Hn1 & Ht1 & Hle1 & Hv1); [simpl; lia|done|].
  assert (Hgo : returns (for_each cs pool_step ;; get (store_next s)) s1
    (fun b s' => content b = content buf /\ len b = len buf /\ pool_ok s')).
  { simpl in Hn1, Ht1. eapply returns_bind; [apply (pool_steps_ok cs s1 Hok1 Hf1); [|simpl; lia|simpl; lia]|].
    - eapply Forall_impl; [exact Hcs|]. intros []; cbn [pool_call_ok]; [|by rewrite Hps1|done].
      intros [x Hx]. exists x. by apply Hle1.
    - intros _ s2 (Hok2 & Hf2 & Hps2 & Hle2). apply Hle2 in Hv1.
      destruct (pool_ok_sound s2 Hok2 Hf2) as (a & Hinv2 & Ha & _). apply (sound_returns a); [done|].
      change (get (store_next s)) with (pool_get (S := BufferPool) (store_next s)).
      eapply runs_mono; [apply (@store_get _ _ _ (pool_run a) _ s2 _ _ Hinv2 Hv1)|].
      intros b s3 (Hlb & Hcb & He). split_and!; [done| |exists a; apply He]. rewrite Hlb, Hps2, Hps1. done. }
  destruct Hgo as (b & s' & Hgo & Hpost). exists b, s'. split; [|done]. revert Hrun Hgo.
  change (pool_allocate_page_id (S := BufferPool)) with allocate_page_id. change (pool_put_new (S := BufferPool)) with put_new.
  unfold mbind, M_bind. destruct (allocate_page_id s) as [[x| | |] s2]; [|done..].
  destruct (put_new x buf s2) as [[[]| | |] s3]; [|done..]. intros [= -> ->]. done.
Qed.

(** C13: A commit leaves nothing in memory only: the file is synced, its active slot names
    the new root, every page the pool holds reads back from the file, and no page
    has changed. *)
Theorem commit_is_durable s root :
  pool_ok s -> faults (file (pager s)) = [] -> 0 <= root <= u32_max -> txn_id (pager s) < u64_max ->
  returns (commit root) s (fun _ s' =>
    dirty s' = ∅ /\ durable (file (pager s')) = data (file (pager s')) /\
    slot_at (file (pager s')) (active_slot (pager s')) =
      Some (mkMeta (page_size (pager s)) (txn_id (pager s) + 1) root (next_page_id s)) /\
    forall id c, store_view s id = Some c -> disk_page (pager s') id = Some c).
Proof.
  intros Hok Hf Hroot Ht. destruct (pool_ok_sound s Hok Hf) as (a & Hinv & Ha & _).
  eapply runs_returns; [|eapply runs_mono; [by apply (pool_commit_ok a s root)|]].
  { intros e s' [[[_ Hno] _]|([[_ Hno] _] & _)]; exact (Hno Ha). }
  intros _ s' (Hinv' & _ & Hn & (p & _ & (_ & Hps & _ & Htx & _) & []) & (Hd & _) & Hk). split_and!; [done|apply pu_settled| |].
  - rewrite (pager_active (pi_pager _ _ Hinv')). unfold meta_of. congruence.
  - intros id c [Hid Hp]%view_of. apply Hk in Hp; [|lia|tauto]. unfold pool_page in Hp.
    destruct (entries s' !! id) as [b|] eqn:E; [|done]. injection Hp as <-.
    apply (pi_clean _ _ Hinv' id b E). by rewrite Hd.
Qed.

(** A page that is not cached and cannot be read from the file. *)
Lemma get_uncached_refused s id e :
  entries s !! id = None -> read_data_page id (pager s) = (Throw e, pager s) -> get id s = (Throw e, s).
Proof.
  intros Hnone He. change (get id s) with (match entries s !! id with
      | Some buf => touch id ;; mret buf
      | None => buf ← on_pager (read_data_page id); insert_cached id buf false ;; mret buf
      end s). rewrite Hnone. apply bind_throw. unfold on_pager, zoom. rewrite He. by destruct s.
Qed.

(** C18: A page that is not in memory is read from the file: if it is past the end, or its
    checksum does not verify, the read fails with the error that says so, the two checksums
    included, and nothing is cached; otherwise the page is served as it is in the file. *)
Theorem page_read_exact s id :
  pool_ok s -> faults (file (pager s)) = [] -> FIRST_DATA_PAGE_ID <= id < next_page_id s -> entries s !! id = None ->
  match slice (data (file (pager s))) (file_offset (pager s) id) (ps_bytes (page_size (pager s))) with
  | None => get id s = (Throw (Fatal (Io (path (pager s)) UnexpectedEof)), s)
  | Some b =>
    (forall expected actual, verify_checksum b = Throw (expected, actual) ->
      get id s = (Throw (Fatal (Corruption id expected actual)), s)) /\
    (verify_checksum b = Ret tt ->
      returns (get id) s (fun buf s' => content buf = content b /\ len buf = len b /\ pool_ok s'))
  end.
Proof.
  intros Hok Hf Hid Hnone. destruct (pool_ok_sound s Hok Hf) as (a & Hinv & Ha & _).
  pose proof (pager_size_wf (pi_pager _ _ Hinv)) as Hwf.
  pose proof (read_data_page_exact id (pager s) Hf Hwf) as Hread.
  destruct (slice _ _ _) as [b|] eqn:Hs; [|by apply get_uncached_refused].
  pose proof (slice_len _ _ _ _ Hs) as Hl. split.
  - intros expected actual Hv. apply get_uncached_refused; [done|]. by rewrite Hread, Hv.
  - intros Hv. apply (sound_returns a); [done|].
    eapply runs_mono; [eapply runs_weaken; [apply (get_page_ok a s id (content b) Hinv Hid)|apply pool_stops_stopped]|].
    + unfold pool_page, disk_page. rewrite Hnone, Hs. simpl. by rewrite Hv.
    + intros buf s' (Hlb & Hcb & Hinv' & _). split_and!; [done|congruence|by exists a].
Qed.
End properties.

(** ** Examples *)
Section examples.
#[local] Instance example_hash : Xxh3 := sum_xxh3.
#[local] Instance example_profile : BuildProfile := Build_BuildProfile true.
#[local] Instance example_order : HashOrder := elements_order.

(** A pool of one page, with two pages in it. *)
Lemma two_page_pool : exists s : BufferPool, pool_ok s /\ faults (file (pager s)) = [] /\
  page_size (pager s) = mkPageSize 4096 /\
  is_Some (store_view s 2) /\ is_Some (store_view s 3) /\ next_page_id s = 4 /\ txn_id (pager s) = 0.
Proof.
  destruct example_pool as (s & Hok & Hf & _ & Hps & _ & Hn & Ht).
  assert (Hl : len (zeros 4096) = 4096) by (by apply len_zeros). revert Hl. generalize (zeros 4096). intros buf Hl.
  assert (Hmax : u32_max = 4294967295) by done.
  unfold FIRST_DATA_PAGE_ID in Hn. simpl in Hn, Hps, Ht.
  destruct (add_page s buf Hok Hf) as (id & s1 & _ & -> & Hok1 & Hf1 & Hps1 & Hn1 & Ht1 & _ & Hv1);
    [simpl; unfold u32_max; lia|simpl; by rewrite Hps|]. simpl in Hn1, Hps1, Ht1.
  destruct (add_page s1 buf Hok1 Hf1) as (id & s2 & _ & -> & Hok2 & Hf2 & Hps2 & Hn2 & Ht2 & Hle & Hv2);
    [simpl; unfold u32_max; lia|simpl; by rewrite Hps1, Hps|]. simpl in Hn2, Hps2, Ht2.
  apply Hle in Hv1. change (store_next s) with (next_page_id s) in Hv1. change (store_next s1) with (next_page_id s1) in Hv2.
  rewrite Hn in Hv1. replace (next_page_id s1) with 3 in Hv2 by lia.
  exists s2. split_and!; [exact Hok2|exact Hf2|congruence|eexists; exact Hv1|eexists; exact Hv2|lia|lia].
Qed.

Lemma pool_is_lru_witness :
  exists s : BufferPool, returns (read_all [2; 3; 2]) s (fun _ s' =>
    forall id, is_Some (entries s' !! id) <-> id ∈ recency s').
Proof.
  destruct two_page_pool as (s & Hok & Hf & _ & H2 & H3 & _). exists s.
  eapply returns_mono; [apply (pool_is_lru s [2; 3; 2] Hok Hf)|].
  - intros id Hid. repeat (apply elem_of_cons in Hid as [->|Hid]; [done|]). by apply elem_of_nil in Hid.
  - intros _ s' (_ & He & _). exact He.
Defined.

Lemma page_survives_witness :
  exists s : BufferPool, returns (id ← allocate_page_id; put_new id (zeros 4096) ;;
    for_each [ReadPage 2; CommitRoot 2; ReadPage 3] pool_step ;; get id) s
    (fun b _ => content b = content (zeros 4096)).
Proof.
  destruct two_page_pool as (s & Hok & Hf & Hps & H2 & H3 & Hn & Ht). exists s.
  eapply returns_mono; [apply (page_survives s (zeros 4096) [ReadPage 2; CommitRoot 2; ReadPage 3] Hok Hf)|].
  - rewrite Hps. by apply len_zeros.
  - repeat constructor; try done; unfold u32_max; lia.
  - rewrite Hn. vm_compute. discriminate.
  - rewrite Ht. vm_compute. discriminate.
  - intros b s' (Hc & _). exact Hc.
Defined.

Lemma commit_is_durable_witness :
  exists s : BufferPool, returns (commit 2) s (fun _ s' =>
    dirty s' = ∅ /\ durable (file (pager s')) = data (file (pager s'))).
Proof.
  destruct two_page_pool as (s & Hok & Hf & _ & _ & _ & _ & Ht). exists s.
  eapply returns_mono; [apply (commit_is_durable s 2 Hok Hf)|]; [unfold u32_max; lia|rewrite Ht; unfold u64_max; lia|].
  intros _ s' (Hd & Hdur & _). by split.
Defined.

(** A page that was allocated and never written: the file ends before it. *)
Lemma page_read_exact_witness :
  exists s : BufferPool, pool_ok s /\ get 2 s = (Throw (Fatal (Io "db" UnexpectedEof)), s).
Proof.
  destruct (fresh_pool_ok "db" (mkPageSize 4096) 1 (mkFileSystem ∅ [])) as
    (p & s & Hc & Hnew & Hsp & Hinv & _ & Hf & _ & _ & Hn & _ & Hpath); [exact example_size_wf|lia|reflexivity|reflexivity|].
  injection Hnew as Hs. simpl in Hn, Hpath, Hf. rewrite <-Hs in Hinv, Hn, Hpath, Hf. simpl in Hn, Hpath, Hf.
  destruct (runs_returns (fun _ _ => False) _ _ _ (fun _ _ F => F) (allocate_page_id_ok _ _ _ Hinv ltac:(
    cbn [next_page_id an_limit here]; rewrite Hn; unfold FIRST_DATA_PAGE_ID, u32_max; lia))) as (id & s1 & _ & _ & Hinv1 & ->).
  assert (Hend : match (Pager.create "db" (mkPageSize 4096) (mkFileSystem ∅ [])).1 with
    | Ret p => slice (data (file p)) (file_offset p 2) (ps_bytes (page_size p)) = None
    | _ => False end) by (vm_compute; reflexivity).
  rewrite Hc in Hend. simpl in Hend.
  assert (Hok1 : pool_ok (set_next_page_id (page_count p + 1) (mkPool p 1 ∅ ∅ [] (page_count p)))) by (by exists (here p)).
  eexists. split; [exact Hok1|].
  pose proof (page_read_exact _ 2 Hok1) as Hread. cbn [set_next_page_id pager next_page_id entries] in Hread.
  rewrite Hend, Hpath in Hread. apply Hread; [exact Hf|rewrite Hn; unfold FIRST_DATA_PAGE_ID; lia|apply lookup_empty].
Defined.
End examples.
