(* ===== verification/Bounds.v ===== *)
(** * Places in the file, and the end of the page ids

    [file_offset] computes in [u64] without checks, and [allocate_page_id] adds one to a
    [u32]: what fits, and what happens when it no longer does. *)

From S2P Require Import Prelude Errors Codec Page Disk Pager PagerSpec BufferPool.

Section bounds.
Context `{Xxh3} `{BuildProfile} `{HashOrder}.

(** For every page id a [u32] can hold, the place of the page is computed without
    leaving [u64], after the meta slots; two pages from the first data page on never share a
    byte. *)
Theorem page_places_fit p id :
  page_size_wf (page_size p) -> 0 <= id <= u32_max ->
  META_REGION_LEN <= file_offset p id /\
  file_offset p id + ps_bytes (page_size p) <= u64_max /\
  forall id', FIRST_DATA_PAGE_ID <= id -> FIRST_DATA_PAGE_ID <= id' -> id <> id' ->
    file_offset p id + ps_bytes (page_size p) <= file_offset p id' \/
    file_offset p id' + ps_bytes (page_size p) <= file_offset p id.
Proof.
  intros Hwf%page_size_range Hid.
  assert (Hindex : 0 <= saturating_sub id FIRST_DATA_PAGE_ID <= u32_max).
  { unfold saturating_sub, FIRST_DATA_PAGE_ID. lia. }
  split_and!.
  - unfold file_offset. nia.
  - unfold file_offset, META_REGION_LEN, META_SLOT_LEN, u32_max, u64_max in *. nia.
  - intros id' H' Hd Hne. apply file_offset_disjoint; [done|done|done|lia].
Qed.

(** A write to the page 0 is a write to the first data page. *)
Lemma write_page_zero buf p : write_data_page 0 buf p = write_data_page FIRST_DATA_PAGE_ID buf p.
Proof. reflexivity. Qed.

(** C19: There are 2^32 page ids and no check that one is left. After the last one, a build
    with overflow checks panics; one without hands out 0, the id that stands for the empty
    tree, and a page written under it replaces the first data page. *)
Theorem page_ids_run_out s :
  next_page_id s = u32_max ->
  (overflow_checks = true -> allocate_page_id s = (Panic ArithmeticOverflow, s)) /\
  (overflow_checks = false ->
    returns (allocate_page_id ;; allocate_page_id) s (fun id s' => id = EMPTY_TREE_ROOT /\ pager s' = pager s) /\
    forall p buf, page_size_wf (page_size p) -> faults (file p) = [] -> len buf = ps_bytes (page_size p) ->
      returns (write_data_page EMPTY_TREE_ROOT buf) p (fun _ p' =>
        disk_page p' FIRST_DATA_PAGE_ID = Some (content buf))).
Proof.
  intros Hn. assert (Hadd : add_u32 (E := PinaxError) u32_max 1 =
    if overflow_checks then Panic ArithmeticOverflow else Ret 0) by done.
  split.
  - intros Ho. unfold allocate_page_id, gets, lift, mbind, M_bind. cbn -[add_u32]. rewrite Hn, Hadd. by rewrite Ho.
  - intros Ho. rewrite Ho in Hadd. split.
    + unfold allocate_page_id, gets, lift, modify, mret, M_ret, mbind, M_bind. unfold returns. cbn -[add_u32]. rewrite Hn, Hadd. cbn -[add_u32].
      eexists _, _. split; [reflexivity|]. done.
    + intros p buf Hp Hf Hl. eapply returns_run; [apply write_page_zero|]. by apply write_data_page_written.
Qed.
End bounds.

Lemma page_places_fit_witness :
  let p := mkPager (mkFile [] [] [] [] []) "db" (mkPageSize 65536) 0 0 0 2 in
  META_REGION_LEN <= file_offset p u32_max /\ file_offset p u32_max + 65536 <= u64_max.
Proof.
  intros p. destruct (page_places_fit p u32_max) as (H1 & H2 & _).
  - unfold page_size_wf. simpl. set_solver.
  - unfold u32_max. lia.
  - split; [exact H1|exact H2].
Defined.

(** A pool that has used all page ids but one, in a release build. *)
Lemma page_ids_run_out_witness :
  let _ := sum_xxh3 in let _ := Build_BuildProfile false in
  exists s, next_page_id s = u32_max /\
    returns (allocate_page_id ;; allocate_page_id) s (fun id _ => id = EMPTY_TREE_ROOT).
Proof.
  intros x b. exists (mkPool (mkPager (mkFile [] [] [] [] []) "db" (mkPageSize 4096) 0 0 0 u32_max) 1 ∅ ∅ [] u32_max).
  split; [reflexivity|]. eapply returns_mono; [apply page_ids_run_out; reflexivity|].
  intros id s' [Hid _]. exact Hid.
Defined.
