(* ===== verification/Layout.v ===== *)
(** * Slotted pages ([crates/pinax/src/btree/layout.rs])

    [header][pointer array, ascending][free][cells, descending][checksum]. A
    mutator takes [&mut [u8]] in the source; here it returns the new buffer. *)

From S2P Require Import Prelude Errors Codec Page.

Definition LEAF_HEADER_LEN := 5.
Definition INTERIOR_HEADER_LEN := 9.
Definition LEAF_CELL_FIXED_LEN := 16.
Definition INTERIOR_CELL_LEN := 12.
Definition OVERFLOW_HEADER_LEN := 5.
Definition POINTER_LEN := 2.

Section layout.
Context `{BuildProfile}.

(** [init_slotted] *)
Definition init_slotted (buf : bytes) (page_type : Z) : result bytes :=
  usable ← sub_u16 (default u16_max (try_u16 (len buf))) checksum_len_u16;
  buf ← write_u8 buf 0 page_type;
  buf ← write_u16 buf 1 0;
  write_u16 buf 3 usable.

Definition num_cells (buf : bytes) : result Z := read_u16 buf 1.
Definition set_num_cells (buf : bytes) (n : Z) : result bytes := write_u16 buf 1 n.
Definition content_start (buf : bytes) : result Z := read_u16 buf 3.
Definition set_content_start (buf : bytes) (v : Z) : result bytes := write_u16 buf 3 v.

(** [pointer_at] and [set_pointer_at] *)
Definition pointer_at (buf : bytes) (header_len index : Z) : result Z :=
  read_u16 buf (header_len + index * POINTER_LEN).
Definition set_pointer_at (buf : bytes) (header_len index offset : Z) : result bytes :=
  write_u16 buf (header_len + index * POINTER_LEN) offset.

(** [free_space] *)
Definition free_space (buf : bytes) (header_len : Z) : result Z :=
  n ← num_cells buf;
  cs ← content_start buf;
  let header_len_u16 := default u16_max (try_u16 header_len) in
  pointers ← mul_u16 n (default 2 (try_u16 POINTER_LEN));
  used_by_pointers ← add_u16 header_len_u16 pointers;
  Ret (saturating_sub cs used_by_pointers).

(** [insert_cell_at]: the pointers from [index] on move one place right,
    last first. *)
Definition insert_cell_at (buf : bytes) (header_len index : Z) (cell_bytes : bytes) : result bytes :=
  n ← num_cells buf;
  cs ← content_start buf;
  let cell_len := default u16_max (try_u16 (len cell_bytes)) in
  new_cs ← sub_u16 cs cell_len;
  buf ← write_bytes buf new_cs cell_bytes;
  buf ← foldM (fun buf i => p ← pointer_at buf header_len i; set_pointer_at buf header_len (i + 1) p)
          buf (reverse (seqZ index (n - index)));
  buf ← set_pointer_at buf header_len index new_cs;
  buf ← set_num_cells buf (default u16_max (try_u16 (n + 1)));
  set_content_start buf new_cs.

(** [remove_cell_at]: the pointers after [index] move one place left; the
    result also has the cell's former offset. *)
Definition remove_cell_at (buf : bytes) (header_len index : Z) : result (bytes * Z) :=
  n ← num_cells buf;
  offset ← pointer_at buf header_len index;
  let last := saturating_sub n 1 in
  buf ← foldM (fun buf i => p ← pointer_at buf header_len (i + 1); set_pointer_at buf header_len i p)
          buf (seqZ index (last - index));
  buf ← set_num_cells buf (default 0 (try_u16 last));
  Ret (buf, offset).

(** ** Leaf pages *)

Definition init_leaf (buf : bytes) : result bytes := init_slotted buf PAGE_TYPE_LEAF.

Definition leaf_key_at (buf : bytes) (index : Z) : result Z :=
  offset ← pointer_at buf LEAF_HEADER_LEN index;
  read_i64 buf offset.

Record LeafCell := mkLeafCell {
  key : Z;
  payload_len : Z;
  overflow_first : Z;
  local : bytes;
}.

Definition leaf_local_len (payload_len max_local : Z) : Z := Z.min payload_len max_local.

(** [leaf_cell_at] *)
Definition leaf_cell_at (buf : bytes) (index max_local : Z) : result LeafCell :=
  offset ← pointer_at buf LEAF_HEADER_LEN index;
  key ← read_i64 buf offset;
  payload_len ← read_u32 buf (offset + 8);
  overflow_first ← read_u32 buf (offset + 12);
  let local_len := default 0 (try_usize (leaf_local_len payload_len max_local)) in
  local ← read_vec buf (offset + LEAF_CELL_FIXED_LEN) local_len;
  Ret (mkLeafCell key payload_len overflow_first local).

(** [leaf_cell_byte_len] *)
Definition leaf_cell_byte_len (buf : bytes) (index max_local : Z) : result Z :=
  offset ← pointer_at buf LEAF_HEADER_LEN index;
  payload_len ← read_u32 buf (offset + 8);
  let local_len := leaf_local_len payload_len max_local in
  add_u16 (default 16 (try_u16 LEAF_CELL_FIXED_LEN)) (default 0 (try_u16 local_len)).

(** [build_leaf_cell] *)
Definition build_leaf_cell (key payload_len overflow_first : Z) (local : bytes) : bytes :=
  be_bytes 8 key ++ be_bytes 4 payload_len ++ be_bytes 4 overflow_first ++ local.

(** The result of [leaf_search]: [Ok(i)] or [Err(i)] *)
Inductive search := Found (i : Z) | NotFoundAt (i : Z).

(** The loop of [leaf_search] *)
Fixpoint leaf_search_loop (fuel : nat) (buf : bytes) (key lo hi : Z) : result search :=
  if lo <? hi then
    match fuel with
    | O => Diverge
    | S fuel =>
      let mid := lo + (hi - lo) / 2 in
      mid_key ← leaf_key_at buf mid;
      match mid_key ?= key with
      | Eq => Ret (Found mid)
      | Lt => leaf_search_loop fuel buf key (mid + 1) hi
      | Gt => leaf_search_loop fuel buf key lo mid
      end
    end
  else Ret (NotFoundAt lo).

(** [leaf_search]; the interval shrinks at every turn, so [n] turns are enough. *)
Definition leaf_search (buf : bytes) (key : Z) : result search :=
  n ← num_cells buf;
  leaf_search_loop (Z.to_nat n) buf key 0 n.

(** ** Interior pages *)

Definition init_interior (buf : bytes) (rightmost_child : Z) : result bytes :=
  buf ← init_slotted buf PAGE_TYPE_INTERIOR;
  write_u32 buf 5 rightmost_child.

Definition interior_rightmost (buf : bytes) : result Z := read_u32 buf 5.
Definition interior_set_rightmost (buf : bytes) (child : Z) : result bytes := write_u32 buf 5 child.

Definition interior_key_at (buf : bytes) (index : Z) : result Z :=
  offset ← pointer_at buf INTERIOR_HEADER_LEN index;
  read_i64 buf offset.

Definition interior_child_at (buf : bytes) (index : Z) : result Z :=
  offset ← pointer_at buf INTERIOR_HEADER_LEN index;
  read_u32 buf (offset + 8).

Definition interior_set_child_at (buf : bytes) (index child : Z) : result bytes :=
  offset ← pointer_at buf INTERIOR_HEADER_LEN index;
  write_u32 buf (offset + 8) child.

Definition build_interior_cell (key child : Z) : bytes := be_bytes 8 key ++ be_bytes 4 child.

Inductive ChildSlot := Cell (i : Z) | Rightmost.

(** The loop of [interior_find_child_slot] *)
Fixpoint find_child_slot (buf : bytes) (child_id : Z) (idxs : list Z) : result ChildSlot :=
  match idxs with
  | [] => Ret Rightmost
  | i :: idxs =>
    c ← interior_child_at buf i;
    if c =? child_id then Ret (Cell i) else find_child_slot buf child_id idxs
  end.

(** [interior_find_child_slot] *)
Definition interior_find_child_slot (buf : bytes) (child_id : Z) : result ChildSlot :=
  n ← num_cells buf;
  find_child_slot buf child_id (seqZ 0 n).

(** The loop of [interior_find_child_for_key] *)
Fixpoint find_child_for_key (buf : bytes) (key : Z) (idxs : list Z) : result Z :=
  match idxs with
  | [] => interior_rightmost buf
  | i :: idxs =>
    k ← interior_key_at buf i;
    if key <? k then interior_child_at buf i else find_child_for_key buf key idxs
  end.

(** [interior_find_child_for_key] *)
Definition interior_find_child_for_key (buf : bytes) (key : Z) : result Z :=
  n ← num_cells buf;
  find_child_for_key buf key (seqZ 0 n).
End layout.
