(* ===== verification/Overflow.v ===== *)
(** * Overflow chains ([crates/pinax/src/btree/overflow.rs]) *)

From S2P Require Import Prelude Errors Codec Row Page Pager PageStore Layout.

(** [overflow_chunk_cap] *)
Definition overflow_chunk_cap (page_size_bytes : Z) : Z :=
  let usable := page_size_bytes - checksum_len_u32 in
  saturating_sub (default 0 (try_usize usable)) OVERFLOW_HEADER_LEN.

(** The [while] loop of [write_overflow_chain] that cuts [tail] into chunks,
    the possibly short one last. *)
Fixpoint chunk_loop (fuel : nat) (tail : bytes) (chunk_cap start : Z) : result (list bytes) :=
  if start <? len tail then
    match fuel with
    | O => Diverge
    | S fuel =>
      let end_ := Z.min (start + chunk_cap) (len tail) in
      chunk ← context (slice tail start (end_ - start))
                (Fatal (BufferBounds start (end_ - start) (len tail)));
      chunks ← chunk_loop fuel tail chunk_cap end_;
      Ret (chunk :: chunks)
    end
  else Ret [].

(** An overflow page: type byte, next page id, chunk. *)
Definition overflow_page (page_size : Z) (next_id : Z) (chunk : bytes) : result bytes :=
  let buf := zeros page_size in
  buf ← write_u8 buf 0 PAGE_TYPE_OVERFLOW;
  buf ← write_u32 buf 1 next_id;
  write_bytes buf OVERFLOW_HEADER_LEN chunk.

Section overflow.
Context {S : Type} `{PageStore S} `{BuildProfile}.
Abbreviation Pool := (M S PinaxError).

(** The [for] loop of [write_overflow_chain] over the reversed chunks *)
Fixpoint link_chunks (chunks : list bytes) (next_id : Z) : Pool Z :=
  match chunks with
  | [] => mret next_id
  | chunk :: chunks =>
    s ← get_self;
    buf ← lift (overflow_page (bytes_usize (pool_page_size s)) next_id chunk);
    id ← pool_allocate_page_id;
    pool_put_new id buf ;;
    link_chunks chunks id
  end.

(** [write_overflow_chain]; a chunk holds at least one byte, so the length of
    [tail] bounds the first loop. *)
Definition write_overflow_chain (tail : bytes) : Pool Z :=
  if bool_decide (tail = []) then mret 0
  else
    s ← get_self;
    let chunk_cap := overflow_chunk_cap (ps_bytes (pool_page_size s)) in
    chunks ← lift (chunk_loop (length tail) tail chunk_cap 0);
    link_chunks (reverse chunks) 0.

(** The loop of [read_overflow_chain] *)
Fixpoint read_chain_loop (fuel : nat) (current total_len : Z) (out : bytes) : Pool bytes :=
  if negb (current =? 0) && (len out <? total_len) then
    match fuel with
    | O => lift Diverge
    | Datatypes.S fuel =>
      s ← get_self;
      buf ← pool_get current;
      lift (expect_page_type current buf PAGE_TYPE_OVERFLOW "overflow") ;;
      next ← lift (read_u32 buf 1);
      let remaining_needed := total_len - len out in
      let chunk_cap := overflow_chunk_cap (ps_bytes (pool_page_size s)) in
      let take := Z.min remaining_needed chunk_cap in
      chunk ← lift (read_vec buf OVERFLOW_HEADER_LEN take);
      read_chain_loop fuel next total_len (out ++ chunk)
    end
  else mret out.

(** [read_overflow_chain]; every turn reads at least one byte. *)
Definition read_overflow_chain (first_id total_len : Z) : Pool bytes :=
  read_chain_loop (Z.to_nat total_len) first_id total_len [].

(** [spill_if_needed] *)
Definition spill_if_needed (encoded : bytes) : Pool (bytes * Z) :=
  s ← get_self;
  let max_local := default 0 (try_usize (max_local (pool_page_size s))) in
  if len encoded <=? max_local then mret (encoded, 0)
  else
    local ← lift (context (slice encoded 0 max_local)
              (Fatal (BufferBounds 0 max_local (len encoded))));
    tail ← lift (context (slice encoded max_local (len encoded - max_local))
              (Fatal (BufferBounds max_local (len encoded - max_local) (len encoded))));
    overflow_first ← write_overflow_chain tail;
    mret (local, overflow_first).

(** [build_row_cell] *)
Definition build_row_cell (key : Z) (row : Row) : Pool bytes :=
  encoded ← lift (encode row key);
  '(local, overflow_first) ← spill_if_needed encoded;
  let payload_len := default u32_max (try_u32 (len encoded)) in
  mret (build_leaf_cell key payload_len overflow_first local).

(** [reassemble] *)
Definition reassemble (cell : LeafCell) : Pool bytes :=
  if overflow_first cell =? 0 then mret (local cell)
  else
    s ← get_self;
    let max_local := max_local (pool_page_size s) in
    let tail_len := default 0 (try_usize (saturating_sub (payload_len cell) max_local)) in
    tail ← read_overflow_chain (overflow_first cell) tail_len;
    mret (local cell ++ tail).
End overflow.
