(* ===== verification/Mutate.v ===== *)
(** * Path copying ([crates/pinax/src/btree/mutate.rs])

    Descending to a leaf, propagating the result of a leaf change through the
    interior pages above it, and finalising the root. *)

From S2P Require Import Prelude Errors Codec Page Pager PageStore Layout.

Inductive NodeResult :=
  | Replaced (id : Z)
  | Split (left right separator_key : Z).

(** [max_interior_entries] *)
Definition max_interior_entries (page_size : Z) : Z :=
  let usable := saturating_sub page_size 8 in
  let per_cell := INTERIOR_CELL_LEN + POINTER_LEN in
  saturating_sub usable INTERIOR_HEADER_LEN / Z.max per_cell 1.

(** [iter().position(|&c| c == id)] *)
Fixpoint position (id : Z) (l : list Z) : option nat :=
  match l with
  | [] => None
  | c :: l => if c =? id then Some O else S <$> position id l
  end.

(** [splice_split_into_entries] *)
Definition splice_split_into_entries (keys children : list Z)
    (old_child_id separator_key left_child right_child : Z) : list Z * list Z :=
  let position := default (length children - 1)%nat (position old_child_id children) in
  (vec_insert position separator_key keys,
   <[S position := right_child]> (vec_insert position left_child children)).

Section mutate.
Context `{BuildProfile}.

(** [interior_entries] *)
Definition interior_entries (buf : bytes) : result (list Z * list Z) :=
  n ← num_cells buf;
  entries ← traverse (fun i => k ← interior_key_at buf i; c ← interior_child_at buf i; Ret (k, c))
              (seqZ 0 n);
  r ← interior_rightmost buf;
  Ret (entries.*1, entries.*2 ++ [r]).

(** [build_interior_page] *)
Definition build_interior_page (page_size : Z) (keys children : list Z) : result bytes :=
  let buf := zeros page_size in
  let rightmost := default 0 (last children) in
  buf ← init_interior buf rightmost;
  foldM (fun buf '(i, key) =>
      let child := default 0 (children !! i) in
      insert_cell_at buf INTERIOR_HEADER_LEN (Z.of_nat i) (build_interior_cell key child))
    buf (imap pair keys).

Section store.
Context {S : Type} `{PageStore S}.
Abbreviation Pool := (M S PinaxError).

(** The loop of [descend_path]: the page ids from [current] down to a leaf.
    The source loops until it meets a leaf; [fuel] bounds the depth. *)
Fixpoint descend (fuel : nat) (current key : Z) : Pool (list Z) :=
  match fuel with
  | O => lift Diverge
  | Datatypes.S fuel =>
    buf ← pool_get current;
    page_type ← lift (read_u8 buf 0);
    if page_type =? PAGE_TYPE_LEAF then mret [current]
    else
      lift (expect_page_type current buf PAGE_TYPE_INTERIOR "interior") ;;
      next ← lift (interior_find_child_for_key buf key);
      path ← descend fuel next key;
      mret (current :: path)
  end.

(** [descend_path] *)
Definition descend_path (fuel : nat) (root key : Z) : Pool (list Z) := descend fuel root key.

(** [split_interior_entries] *)
Definition split_interior_entries (page_size : Z) (keys children : list Z) : Pool NodeResult :=
  let mid := (length keys / 2)%nat in
  promoted ← lift (context (keys !! mid)
               (Fatal (BufferBounds (Z.of_nat mid) 1 (len keys))));
  let left_keys := take mid keys in
  let left_children := take (Datatypes.S mid) children in
  let right_keys := drop (Datatypes.S mid) keys in
  let right_children := drop (Datatypes.S mid) children in
  left_buf ← lift (build_interior_page page_size left_keys left_children);
  right_buf ← lift (build_interior_page page_size right_keys right_children);
  left_id ← pool_allocate_page_id;
  pool_put_new left_id left_buf ;;
  right_id ← pool_allocate_page_id;
  pool_put_new right_id right_buf ;;
  mret (Split left_id right_id promoted).

(** [apply_result_to_interior] *)
Definition apply_result_to_interior (ancestor_id old_child_id : Z) (result : NodeResult)
    : Pool NodeResult :=
  s ← get_self;
  let page_size := bytes_usize (pool_page_size s) in
  match result with
  | Replaced new_child =>
    buf ← pool_get ancestor_id;
    slot ← lift (interior_find_child_slot buf old_child_id);
    buf ← lift (match slot with
                | Cell idx => interior_set_child_at buf idx new_child
                | Rightmost => interior_set_rightmost buf new_child
                end);
    new_id ← pool_allocate_page_id;
    pool_put_new new_id buf ;;
    mret (Replaced new_id)
  | Split left_ right_ separator_key =>
    buf ← pool_get ancestor_id;
    '(keys, children) ← lift (interior_entries buf);
    let '(keys, children) :=
      splice_split_into_entries keys children old_child_id separator_key left_ right_ in
    if len keys <=? max_interior_entries page_size then
      rebuilt ← lift (build_interior_page page_size keys children);
      new_id ← pool_allocate_page_id;
      pool_put_new new_id rebuilt ;;
      mret (Replaced new_id)
    else split_interior_entries page_size keys children
  end.

(** [finalize_root] *)
Definition finalize_root (result : NodeResult) : Pool Z :=
  match result with
  | Replaced id => mret id
  | Split left_ right_ separator_key =>
    s ← get_self;
    let buf := zeros (bytes_usize (pool_page_size s)) in
    buf ← lift (init_interior buf right_);
    buf ← lift (insert_cell_at buf INTERIOR_HEADER_LEN 0 (build_interior_cell separator_key left_));
    id ← pool_allocate_page_id;
    pool_put_new id buf ;;
    mret id
  end.

(** [collapse_root_if_needed] *)
Definition collapse_root_if_needed (root : Z) : Pool Z :=
  buf ← pool_get root;
  page_type ← lift (read_u8 buf 0);
  if negb (page_type =? PAGE_TYPE_INTERIOR) then mret root
  else
    n ← lift (num_cells buf);
    if n =? 0 then lift (interior_rightmost buf) else mret root.
End store.
End mutate.
