(* ===== verification/LayoutSpec.v ===== *)
(** * Slotted pages: invariant and the specification of every operation

    [slotted] says what a page holds: the cells in pointer order, each with
    its offset. The operations of [Layout.v] are proved to act on that list. *)

From S2P Require Import Prelude Errors Codec Page Layout Mutate.

(** ** Buffers that agree outside an interval *)

Definition same_outside (lo hi : Z) (buf buf' : bytes) : Prop :=
  len buf' = len buf /\
  forall o x, (o + len x <= lo \/ hi <= o) -> at_offset buf o x -> at_offset buf' o x.

Lemma same_outside_refl lo hi buf : same_outside lo hi buf buf.
Proof. by split. Qed.

Lemma same_outside_trans lo hi buf1 buf2 buf3 :
  same_outside lo hi buf1 buf2 -> same_outside lo hi buf2 buf3 -> same_outside lo hi buf1 buf3.
Proof. intros [? H12] [? H23]. split; [congruence|]. eauto. Qed.

Lemma same_outside_weaken lo hi lo' hi' buf buf' :
  same_outside lo hi buf buf' -> lo' <= lo -> hi <= hi' -> same_outside lo' hi' buf buf'.
Proof. intros [? Hs] ??. split; [done|]. intros o x Hd. apply Hs. lia. Qed.

Lemma write_bytes_at buf o x :
  0 <= o -> o + len x <= len buf ->
  exists buf', write_bytes buf o x = Ret buf' /\ at_offset buf' o x /\
    same_outside o (o + len x) buf buf'.
Proof.
  intros Ho Hl. destruct (write_bytes_ok buf o x Ho Hl) as (buf' & ? & Hs).
  exists buf'. split_and!; [done|by eapply at_offset_splice_same|].
  split; [by eapply splice_len|]. intros o' y Hd. by eapply at_offset_splice_other.
Qed.

Lemma write_u16_at buf o v :
  0 <= o -> o + 2 <= len buf ->
  exists buf', write_u16 buf o v = Ret buf' /\ at_offset buf' o (be_bytes 2 v) /\
    same_outside o (o + 2) buf buf'.
Proof. intros. apply write_bytes_at; len_solve. Qed.

Lemma write_u32_at buf o v :
  0 <= o -> o + 4 <= len buf ->
  exists buf', write_u32 buf o v = Ret buf' /\ at_offset buf' o (be_bytes 4 v) /\
    same_outside o (o + 4) buf buf'.
Proof. intros. apply write_bytes_at; len_solve. Qed.

Lemma write_u8_at buf o v :
  0 <= o -> o + 1 <= len buf ->
  exists buf', write_u8 buf o v = Ret buf' /\ at_offset buf' o [Z_byte v] /\
    same_outside o (o + 1) buf buf'.
Proof. intros. apply write_bytes_at; len_solve. Qed.

(** The bytes of a buffer that lie below its checksum trailer. *)
Definition below (usable : Z) (buf buf' : bytes) : Prop :=
  len buf' = len buf /\
  forall o x, o + len x <= usable -> at_offset buf o x -> at_offset buf' o x.

(** ** The invariant *)

Definition disjoint_cells (a b : Z * bytes) : Prop :=
  a.1 + len a.2 <= b.1 \/ b.1 + len b.2 <= a.1.

(** The total length of the cells *)
Fixpoint total (ocs : list (Z * bytes)) : Z :=
  match ocs with [] => 0 | c :: ocs => len c.2 + total ocs end.

Definition ptr (buf : bytes) (hdr : Z) (i : nat) (o : Z) : Prop :=
  at_offset buf (hdr + Z.of_nat i * POINTER_LEN) (be_bytes 2 o).

Record slotted (hdr usable ty : Z) (buf : bytes) (ocs : list (Z * bytes)) (cs : Z) : Prop := {
  sl_hdr : 5 <= hdr;
  sl_usable : usable <= u16_max /\ usable + 8 <= len buf;
  sl_type : at_offset buf 0 [Z_byte ty];
  sl_num : at_offset buf 1 (be_bytes 2 (len ocs));
  sl_start : at_offset buf 3 (be_bytes 2 cs);
  sl_ptr : forall i c, ocs !! i = Some c -> ptr buf hdr i c.1;
  sl_cell : forall i c, ocs !! i = Some c -> at_offset buf c.1 c.2;
  sl_range : forall i c, ocs !! i = Some c -> cs <= c.1 /\ c.1 + len c.2 <= usable;
  sl_disj : forall i j a b, i <> j -> ocs !! i = Some a -> ocs !! j = Some b -> disjoint_cells a b;
  sl_room : hdr + POINTER_LEN * len ocs <= cs;
  sl_total : cs + total ocs <= usable;
}.

Lemma total_nonneg ocs : 0 <= total ocs.
Proof. induction ocs as [|c ocs IH]; simpl; [lia|]. pose proof (len_nonneg c.2). lia. Qed.

Lemma total_app l k : total (l ++ k) = total l + total k.
Proof. induction l; simpl; lia. Qed.

Lemma total_take_drop i l : total l = total (take i l) + total (drop i l).
Proof. rewrite <-total_app. by rewrite take_drop. Qed.

Lemma slotted_below hdr usable ty buf buf' ocs cs :
  slotted hdr usable ty buf ocs cs -> below usable buf buf' -> slotted hdr usable ty buf' ocs cs.
Proof.
  intros [] [Hlen Hb]. pose proof (total_nonneg ocs). pose proof (len_nonneg ocs).
  unfold POINTER_LEN in *. split; try done.
  - rewrite Hlen. done.
  - apply Hb; [len_solve|done].
  - apply Hb; [len_solve|done].
  - apply Hb; [len_solve|done].
  - intros i c Hi. apply Hb; [|by apply sl_ptr0]. apply lookup_lt_Some in Hi.
    unfold POINTER_LEN, len in *. rewrite length_be_bytes. lia.
  - intros i c Hi. apply Hb; [|by eapply sl_cell0]. destruct (sl_range0 _ _ Hi). lia.
Qed.

Section slotted.
Context `{BuildProfile}.

Section readers.
Context {hdr usable ty : Z} {buf : bytes} {ocs : list (Z * bytes)} {cs : Z}.
Hypothesis Hsl : slotted hdr usable ty buf ocs cs.

Lemma slotted_bounds :
  0 <= cs <= u16_max /\ 0 <= len ocs <= u16_max /\ hdr + 2 * len ocs <= cs /\ cs <= usable /\
  usable <= u16_max /\ usable + 8 <= len buf /\ 5 <= hdr.
Proof.
  destruct Hsl. pose proof (total_nonneg ocs). pose proof (len_nonneg ocs).
  unfold POINTER_LEN in *. lia.
Qed.

Lemma slotted_type : 0 <= ty <= u8_max -> read_u8 buf 0 = Ret ty.
Proof. intros. apply read_u8_at; [apply Hsl|done]. Qed.

Lemma slotted_num_cells : num_cells buf = Ret (len ocs).
Proof. apply read_u16_at; [apply Hsl|]. pose proof slotted_bounds. lia. Qed.

Lemma slotted_content_start : content_start buf = Ret cs.
Proof. apply read_u16_at; [apply Hsl|]. pose proof slotted_bounds. lia. Qed.

Lemma slotted_pointer_at i c :
  ocs !! i = Some c -> pointer_at buf hdr (Z.of_nat i) = Ret c.1.
Proof.
  intros Hi. apply read_u16_at; [by eapply sl_ptr|].
  pose proof slotted_bounds. pose proof (len_nonneg c.2).
  destruct (sl_range _ _ _ _ _ _ Hsl _ _ Hi). lia.
Qed.

Lemma slotted_free_space :
  free_space buf hdr = Ret (cs - (hdr + 2 * len ocs)).
Proof.
  pose proof slotted_bounds. unfold free_space.
  rewrite slotted_num_cells, slotted_content_start. simpl.
  rewrite (try_u16_Some hdr) by lia. unfold mul_u16, add_u16, POINTER_LEN. simpl.
  rewrite wrap_or_panic_ret by lia. simpl. rewrite wrap_or_panic_ret by lia. simpl.
  unfold saturating_sub. f_equal. lia.
Qed.
End readers.

(** ** A fresh page, and moving pointers *)

(** The first content offset of a page of [n] bytes *)
Definition usable_of (n : Z) : Z := Z.min n u16_max - CHECKSUM_LEN.

Lemma init_slotted_ok hdr n ty :
  5 <= hdr <= 64 -> 4096 <= n ->
  exists buf, init_slotted (zeros n) ty = Ret buf /\ len buf = n /\
    slotted hdr (usable_of n) ty buf [] (usable_of n).
Proof.
  intros Hh Hn. pose proof (len_zeros n ltac:(lia)) as Hz. unfold init_slotted, usable_of.
  assert (default u16_max (try_u16 (len (zeros n))) = Z.min n u16_max) as ->.
  { rewrite Hz. unfold try_u16. case_match; simpl; len_solve. }
  unfold sub_u16, checksum_len_u16, CHECKSUM_LEN_U16, CHECKSUM_LEN. rewrite wrap_or_panic_ret by len_solve. simpl.
  edestruct (write_u8_at (zeros n) 0 ty) as (b1 & -> & Ht & Hl1 & Hs1); [lia..|]. simpl.
  edestruct (write_u16_at b1 1 0) as (b2 & -> & Hn2 & Hl2 & Hs2); [lia..|]. simpl.
  edestruct (write_u16_at b2 3 (Z.min n u16_max - 8)) as (b3 & -> & Hc3 & Hl3 & Hs3); [lia..|].
  exists b3. split_and!; [done|congruence|].
  split; try done; try lia.
  - apply Hs3; [len_solve|]. apply Hs2; [len_solve|done].
  - apply Hs3; [len_solve|done].
  - unfold POINTER_LEN. len_solve.
  - simpl. len_solve.
Qed.

(** One step of a pointer shift: copy pointer [i] to [j]. *)
Lemma copy_pointer_ok hdr buf i j o :
  ptr buf hdr i o -> 0 <= o <= u16_max -> 0 <= hdr -> hdr + 2 * Z.of_nat j + 2 <= len buf ->
  exists buf', (p ← pointer_at buf hdr (Z.of_nat i); set_pointer_at buf hdr (Z.of_nat j) p) = Ret buf' /\
    ptr buf' hdr j o /\
    same_outside (hdr + 2 * Z.of_nat j) (hdr + 2 * Z.of_nat j + 2) buf buf'.
Proof.
  intros Hp Ho Hh Hl. unfold pointer_at. rewrite (read_u16_at _ _ o) by done. simpl.
  unfold set_pointer_at, ptr, POINTER_LEN.
  destruct (write_u16_at buf (hdr + Z.of_nat j * 2) o) as (buf' & -> & Hat & Hs); [lia..|].
  exists buf'. split_and!; try done. eapply same_outside_weaken; [done|lia..].
Qed.

(** The loop of [insert_cell_at]: pointers [k..n] move one place right. *)
Lemma shift_right_ok hdr n k (offs : list Z) buf :
  (k <= n)%nat -> (n <= length offs)%nat -> 0 <= hdr ->
  Forall (fun o => 0 <= o <= u16_max) offs ->
  hdr + 2 * Z.of_nat n + 2 <= len buf ->
  (forall i o, (i < n)%nat -> offs !! i = Some o -> ptr buf hdr i o) ->
  exists buf',
    foldM (fun buf i => p ← pointer_at buf hdr i; set_pointer_at buf hdr (i + 1) p)
      buf (reverse (seqZ (Z.of_nat k) (Z.of_nat n - Z.of_nat k))) = Ret buf' /\
    same_outside (hdr + 2 * Z.of_nat k + 2) (hdr + 2 * Z.of_nat n + 2) buf buf' /\
    (forall i o, (k <= i < n)%nat -> offs !! i = Some o -> ptr buf' hdr (S i) o).
Proof.
  revert buf. induction n as [|n IH]; intros buf Hkn Hn Hh Hr Hlen Hp.
  { replace k with O by lia. simpl. exists buf.
    split_and!; [done|apply same_outside_refl|]. lia. }
  destruct (decide (k = S n)) as [->|].
  { rewrite Z.sub_diag. simpl. exists buf.
    split_and!; [done|apply same_outside_refl|]. lia. }
  destruct (lookup_lt_is_Some_2 offs n) as [o Ho]; [lia|].
  replace (Z.of_nat (S n) - Z.of_nat k) with (Z.of_nat (S (n - k))) by lia.
  rewrite seqZ_S, reverse_app. cbn [reverse rev_append app foldM].
  replace (Z.of_nat k + Z.of_nat (n - k)) with (Z.of_nat n) by lia.
  replace (Z.of_nat (n - k)) with (Z.of_nat n - Z.of_nat k) by lia.
  destruct (copy_pointer_ok hdr buf n (S n) o) as (b1 & Hb1 & Hp1 & Hs1); [auto with lia| |lia..|].
  { by eapply Forall_lookup_1 in Hr. }
  replace (Z.of_nat n + 1) with (Z.of_nat (S n)) by lia. rewrite Hb1. simpl.
  destruct (IH b1) as (b2 & Hb2 & Hs2 & Hp2); [lia|lia|done|done|destruct Hs1; lia| |].
  { intros i o' Hi Ho'. apply Hs1; [|by apply Hp; [lia|]].
    rewrite len_be2. unfold POINTER_LEN. lia. }
  exists b2. split_and!; [done| |].
  - eapply same_outside_trans; [eapply (same_outside_weaken _ _ _ _ _ _ Hs1)
      | eapply (same_outside_weaken _ _ _ _ _ _ Hs2)]; lia.
  - intros i o' Hi Ho'. destruct (decide (i = n)) as [->|]; [|apply Hp2; [lia|done]].
    simplify_eq. apply Hs2; [|done]. rewrite len_be2. unfold POINTER_LEN. lia.
Qed.

(** The loop of [remove_cell_at]: pointers [k + 1..n] move one place left. *)
Lemma shift_left_ok hdr n k (offs : list Z) buf :
  (k < n)%nat -> (n <= length offs)%nat -> 0 <= hdr ->
  Forall (fun o => 0 <= o <= u16_max) offs ->
  hdr + 2 * Z.of_nat n <= len buf ->
  (forall i o, (k < i < n)%nat -> offs !! i = Some o -> ptr buf hdr i o) ->
  exists buf',
    foldM (fun buf i => p ← pointer_at buf hdr (i + 1); set_pointer_at buf hdr i p)
      buf (seqZ (Z.of_nat k) (Z.of_nat n - 1 - Z.of_nat k)) = Ret buf' /\
    same_outside (hdr + 2 * Z.of_nat k) (hdr + 2 * Z.of_nat n) buf buf' /\
    (forall i o, (k < i < n)%nat -> offs !! i = Some o -> ptr buf' hdr (i - 1) o).
Proof.
  remember (n - 1 - k)%nat as m eqn:Hm. revert k buf Hm.
  induction m as [|m IH]; intros k buf Hm Hkn Hn Hh Hr Hlen Hp.
  { replace (Z.of_nat n - 1 - Z.of_nat k) with 0 by lia. simpl. exists buf.
    split_and!; [done|apply same_outside_refl|]. lia. }
  destruct (lookup_lt_is_Some_2 offs (S k)) as [o Ho]; [lia|].
  rewrite seqZ_cons by lia. simpl.
  destruct (copy_pointer_ok hdr buf (S k) k o) as (b1 & Hb1 & Hp1 & Hs1); [auto with lia| |lia..|].
  { by eapply Forall_lookup_1 in Hr. }
  replace (Z.of_nat k + 1) with (Z.of_nat (S k)) by lia. rewrite Hb1. simpl.
  replace (Z.succ (Z.of_nat k)) with (Z.of_nat (S k)) by lia.
  replace (Z.pred (Z.of_nat n - 1 - Z.of_nat k)) with (Z.of_nat n - 1 - Z.of_nat (S k)) by lia.
  destruct (IH (S k) b1) as (b2 & Hb2 & Hs2 & Hp2); [lia|lia|lia|done|done|destruct Hs1; lia| |].
  { intros i o' Hi Ho'. apply Hs1; [|by apply Hp; [lia|]].
    rewrite len_be2. unfold POINTER_LEN. lia. }
  exists b2. split_and!; [done| |].
  - eapply same_outside_trans; [eapply (same_outside_weaken _ _ _ _ _ _ Hs1)
      | eapply (same_outside_weaken _ _ _ _ _ _ Hs2)]; lia.
  - intros i o' Hi Ho'. destruct (decide (i = S k)) as [->|]; [|apply Hp2; [lia|done]].
    simplify_eq. replace (S k - 1)%nat with k by lia. apply Hs2; [|done].
    rewrite len_be2. unfold POINTER_LEN. lia.
Qed.
(** ** Inserting and removing a cell *)

Lemma total_vec_insert i c ocs : total (vec_insert i c ocs) = total ocs + len c.2.
Proof.
  unfold vec_insert. rewrite (total_take_drop i ocs), total_app. simpl. lia.
Qed.

Lemma disjoint_cells_sym a b : disjoint_cells a b -> disjoint_cells b a.
Proof. unfold disjoint_cells. lia. Qed.

(** What [insert_cell_at] writes: the two counts, the cell below the others, the pointers
    with that of the cell among them; nothing else is touched. *)
Record cell_inserted (hdr : Z) (ocs : list (Z * bytes)) (cs : Z) (i : nat) (cell buf buf' : bytes) : Prop := {
  ci_len : len buf' = len buf;
  ci_num : at_offset buf' 1 (be_bytes 2 (len ocs + 1));
  ci_start : at_offset buf' 3 (be_bytes 2 (cs - len cell));
  ci_cell : at_offset buf' (cs - len cell) cell;
  ci_ptr : forall j o, vec_insert i (cs - len cell) ocs.*1 !! j = Some o -> ptr buf' hdr j o;
  ci_keep : forall o x, (o + len x <= 1 \/ 5 <= o) -> (o + len x <= hdr \/ hdr + 2 * (len ocs + 1) <= o) ->
    (o + len x <= cs - len cell \/ cs <= o) -> at_offset buf o x -> at_offset buf' o x;
}.

(** The offsets of the cells fit a pointer. *)
Lemma slotted_offsets hdr usable ty buf ocs cs :
  slotted hdr usable ty buf ocs cs -> Forall (fun o => 0 <= o <= u16_max) ocs.*1.
Proof.
  intros Hsl. pose proof (slotted_bounds Hsl). apply Forall_fmap, Forall_lookup. intros j c Hj. simpl.
  pose proof (len_nonneg c.2). destruct (sl_range _ _ _ _ _ _ Hsl _ _ Hj). lia.
Qed.

Lemma insert_cell_at_writes hdr usable ty buf ocs cs i cell :
  slotted hdr usable ty buf ocs cs -> (i <= length ocs)%nat ->
  hdr + 2 * (len ocs + 1) + len cell <= cs ->
  exists buf', insert_cell_at buf hdr (Z.of_nat i) cell = Ret buf' /\ cell_inserted hdr ocs cs i cell buf buf'.
Proof.
  intros Hsl Hi Hroom. pose proof (slotted_bounds Hsl) as Hb.
  pose proof (len_nonneg cell). pose proof (total_nonneg ocs).
  unfold insert_cell_at. rewrite (slotted_num_cells Hsl), (slotted_content_start Hsl). simpl.
  rewrite (try_u16_Some (len cell)) by lia. unfold sub_u16. simpl.
  rewrite wrap_or_panic_ret by lia. simpl. set (new_cs := cs - len cell) in *.
  destruct (write_bytes_at buf new_cs cell) as (b1 & -> & Hc1 & Hs1); [lia..|]. simpl.
  assert (Hl1 : len b1 = len buf) by apply Hs1.
  destruct (shift_right_ok hdr (length ocs) i ocs.*1 b1) as (b2 & Hb2 & Hs2 & Hp2);
    [lia|by rewrite length_fmap|lia|by eapply slotted_offsets|unfold len in *; lia| |].
  { intros j o Hj Ho. apply list_lookup_fmap_Some in Ho as (c & -> & Hc).
    apply Hs1; [|by eapply sl_ptr]. rewrite len_be2. unfold POINTER_LEN, len in *. lia. }
  change (Z.of_nat (length ocs)) with (len ocs) in *. rewrite Hb2. simpl.
  assert (Hl2 : len b2 = len b1) by apply Hs2.
  destruct (write_u16_at b2 (hdr + Z.of_nat i * POINTER_LEN) new_cs) as (b3 & Hb3 & Hp3 & Hs3);
    [unfold POINTER_LEN, len in *; lia..|].
  unfold set_pointer_at. rewrite Hb3. simpl. assert (Hl3 : len b3 = len b2) by apply Hs3.
  rewrite (try_u16_Some (len ocs + 1)) by lia. unfold set_num_cells, set_content_start. simpl.
  destruct (write_u16_at b3 1 (len ocs + 1)) as (b4 & -> & Hn4 & Hs4); [lia..|]. simpl.
  assert (Hl4 : len b4 = len b3) by apply Hs4.
  destruct (write_u16_at b4 3 new_cs) as (b5 & -> & Hc5 & Hs5); [lia..|].
  assert (Hl5 : len b5 = len b4) by apply Hs5.
  assert (Hfix : forall o x, (o + len x <= 1 \/ 5 <= o) -> (o + len x <= hdr \/ hdr + 2 * (len ocs + 1) <= o) ->
    at_offset b1 o x -> at_offset b5 o x).
  { intros o x Ho Hx Hat. apply Hs5; [lia|]. apply Hs4; [lia|].
    apply Hs3; [unfold POINTER_LEN, len in *; lia|]. apply Hs2; [unfold len in *; lia|done]. }
  exists b5. split; [done|]. split; [congruence| |done| | |].
  - apply Hs5; [len_solve|done].
  - subst new_cs. pose proof (len_nonneg ocs). apply Hfix; [lia..|done].
  - intros j o Hj. apply Hs5; [unfold POINTER_LEN; lia|]. apply Hs4; [unfold POINTER_LEN; lia|].
    apply lookup_vec_insert_Some in Hj as [[-> ->]|(j' & Hj & ->)]; [done| |by rewrite length_fmap].
    apply lookup_lt_Some in Hj as Hlt. rewrite length_fmap in Hlt.
    apply Hs3; [rewrite len_be2; unfold POINTER_LEN; case_decide; lia|].
    case_decide; [|apply Hp2; [lia|done]].
    apply Hs2; [rewrite len_be2; unfold POINTER_LEN; lia|].
    apply Hs1; [rewrite len_be2; unfold POINTER_LEN, len in *; lia|].
    apply list_lookup_fmap_Some in Hj as (c & -> & Hc). by eapply sl_ptr.
  - intros o x ? ? ? Hx. apply Hfix; [done..|]. apply Hs1; [lia|done].
Qed.

Lemma slotted_inserted hdr usable ty buf ocs cs i cell buf' :
  slotted hdr usable ty buf ocs cs -> (i <= length ocs)%nat ->
  hdr + 2 * (len ocs + 1) + len cell <= cs -> cell_inserted hdr ocs cs i cell buf buf' ->
  slotted hdr usable ty buf' (vec_insert i (cs - len cell, cell) ocs) (cs - len cell).
Proof.
  intros Hsl Hi Hroom [Hlen Hnum Hstart Hcell Hptr Hkeep]. pose proof (slotted_bounds Hsl) as Hb.
  pose proof (len_nonneg cell). pose proof (total_nonneg ocs). split; try lia.
  - apply Hkeep; [len_solve..|apply Hsl].
  - by rewrite len_vec_insert.
  - done.
  - intros j c Hj. apply Hptr. change (cs - len cell) with (fst (cs - len cell, cell)).
    by rewrite <-vec_insert_fmap, list_lookup_fmap, Hj.
  - intros j c [[-> ->]|(j' & Hj & ->)]%lookup_vec_insert_Some; [done| |done].
    destruct (sl_range _ _ _ _ _ _ Hsl _ _ Hj). apply Hkeep; [lia..|by eapply sl_cell].
  - intros j c [[-> ->]|(j' & Hj & ->)]%lookup_vec_insert_Some; [simpl; lia| |done].
    destruct (sl_range _ _ _ _ _ _ Hsl _ _ Hj). lia.
  - intros j k a b Hjk Ha Hb'.
    apply lookup_vec_insert_Some in Ha as [[-> ->]|(j' & Ha & ->)]; [| |done];
    apply lookup_vec_insert_Some in Hb' as [[-> ->]|(k' & Hb' & ->)]; try done.
    + destruct (sl_range _ _ _ _ _ _ Hsl _ _ Hb'). left. simpl. lia.
    + destruct (sl_range _ _ _ _ _ _ Hsl _ _ Ha). right. simpl. lia.
    + eapply sl_disj; [done| |done..]. intros ->. done.
  - rewrite len_vec_insert. unfold POINTER_LEN. lia.
  - rewrite total_vec_insert. simpl. destruct Hsl. lia.
Qed.

(** [insert_cell_at] on a page with room puts the cell at its index, and
    keeps the header bytes after the fixed five (the rightmost child). *)
Lemma insert_cell_at_ok hdr usable ty buf ocs cs i cell :
  slotted hdr usable ty buf ocs cs -> (i <= length ocs)%nat ->
  hdr + 2 * (len ocs + 1) + len cell <= cs ->
  exists buf', insert_cell_at buf hdr (Z.of_nat i) cell = Ret buf' /\
    slotted hdr usable ty buf' (vec_insert i (cs - len cell, cell) ocs) (cs - len cell) /\
    (forall o x, 5 <= o -> o + len x <= hdr -> at_offset buf o x -> at_offset buf' o x) /\
    len buf' = len buf.
Proof.
  intros Hsl Hi Hroom. pose proof (slotted_bounds Hsl) as Hb. pose proof (len_nonneg ocs).
  destruct (insert_cell_at_writes _ _ _ _ _ _ i cell Hsl Hi Hroom) as (buf' & Hrun & Hins).
  exists buf'. split_and!; [done|by eapply slotted_inserted| |apply Hins].
  intros o x ? ? Hx. apply (ci_keep _ _ _ _ _ _ _ Hins); [lia..|done].
Qed.

Lemma total_delete i c ocs : ocs !! i = Some c -> total ocs = len c.2 + total (delete i ocs).
Proof.
  revert i. induction ocs as [|d ocs IH]; intros [|i]; simpl; [done|done|naive_solver|].
  intros Hi. rewrite (IH i) by done. lia.
Qed.

(** [remove_cell_at] drops the cell at its index; the space it took in the
    content area is not reclaimed. *)
Lemma remove_cell_at_ok hdr usable ty buf ocs cs i (c : Z * bytes) :
  slotted hdr usable ty buf ocs cs -> ocs !! i = Some c ->
  exists buf', remove_cell_at buf hdr (Z.of_nat i) = Ret (buf', c.1) /\
    slotted hdr usable ty buf' (delete i ocs) cs /\ len buf' = len buf.
Proof.
  intros Hsl Hi. pose proof (slotted_bounds Hsl) as Hb. apply lookup_lt_Some in Hi as Hlt.
  unfold remove_cell_at. rewrite (slotted_num_cells Hsl). simpl.
  rewrite (slotted_pointer_at Hsl i c) by done. simpl.
  destruct (shift_left_ok hdr (length ocs) i ocs.*1 buf) as (b2 & Hb2 & Hs2 & Hp2);
    [lia|by rewrite length_fmap|lia|by eapply slotted_offsets|unfold len in *; lia| |].
  { intros j o Hj Ho. apply list_lookup_fmap_Some in Ho as (d & -> & Hd).
    by eapply sl_ptr. }
  change (Z.of_nat (length ocs)) with (len ocs) in *.
  assert (saturating_sub (len ocs) 1 = len ocs - 1) as ->
    by (unfold saturating_sub, len; lia).
  rewrite Hb2. simpl. rewrite try_u16_Some by (unfold len in *; lia). simpl.
  unfold set_num_cells. assert (Hl2 : len b2 = len buf) by apply Hs2.
  destruct (write_u16_at b2 1 (len ocs - 1)) as (b3 & -> & Hn3 & Hs3); [lia..|]. simpl.
  assert (Hl3 : len b3 = len b2) by apply Hs3. exists b3.
  assert (Hkeep : forall o x, 3 <= o \/ o + len x <= 1 ->
    (o + len x <= hdr + 2 * Z.of_nat i \/ hdr + 2 * len ocs <= o) ->
    at_offset buf o x -> at_offset b3 o x).
  { intros o x ?? Hx. apply Hs3; [lia|]. apply Hs2; [lia|done]. }
  assert (Hlk : forall j d, delete i ocs !! j = Some d ->
    exists j', ocs !! j' = Some d /\ j' = if decide (j < i)%nat then j else S j).
  { intros j d. rewrite list_lookup_delete. eauto. }
  pose proof (total_delete i c ocs Hi). pose proof (len_nonneg c.2).
  assert (Hld : len (delete i ocs) = len ocs - 1).
  { unfold len. rewrite length_delete by eauto. lia. }
  split_and!; [done| |congruence]. split; try lia.
  - apply Hkeep; [len_solve..|apply Hsl].
  - by rewrite Hld.
  - apply Hkeep; [len_solve..|apply Hsl].
  - intros j d (j' & Hj & ->)%Hlk. apply lookup_lt_Some in Hj as ?.
    unfold ptr in *. unfold POINTER_LEN in *. case_decide.
    + apply Hkeep; [len_solve..|]. by eapply sl_ptr in Hj; [|done].
    + apply Hs3; [len_solve|].
      replace j with (S j - 1)%nat by lia. apply Hp2; [lia|]. by rewrite list_lookup_fmap, Hj.
  - intros j d (j' & Hj & ->)%Hlk. destruct (sl_range _ _ _ _ _ _ Hsl _ _ Hj).
    apply Hkeep; [lia|lia|]. by eapply sl_cell.
  - intros j d (j' & Hj & ->)%Hlk. by eapply sl_range.
  - intros j k a b Hjk (j' & Hj & ->)%Hlk (k' & Hk & ->)%Hlk.
    eapply sl_disj; [done| |done..]. repeat case_decide; lia.
  - destruct Hsl. unfold POINTER_LEN in *. lia.
  - destruct Hsl. lia.
Qed.

(** ** Filling a page with cells in order *)

(** The total length of a list of byte strings *)
Fixpoint sizes (l : list bytes) : Z :=
  match l with [] => 0 | c :: l => len c + sizes l end.

Lemma sizes_app l k : sizes (l ++ k) = sizes l + sizes k.
Proof. induction l; simpl; lia. Qed.

Lemma sizes_nonneg l : 0 <= sizes l.
Proof. induction l as [|c l IH]; simpl; [lia|]. pose proof (len_nonneg c). lia. Qed.

Lemma vec_insert_end {A} (x : A) l : vec_insert (length l) x l = l ++ [x].
Proof. unfold vec_insert. by rewrite firstn_all, drop_all. Qed.

(** Appending cells one after the other, numbered from the cell count. *)
Lemma append_cells_ok hdr usable ty cells : forall buf ocs cs,
  slotted hdr usable ty buf ocs cs ->
  hdr + 2 * (len ocs + len cells) + sizes cells <= cs ->
  exists buf' ocs',
    foldM (fun buf '(i, cell) => insert_cell_at buf hdr (Z.of_nat i) cell)
      buf (imap (fun i cell => ((length ocs + i)%nat, cell)) cells) = Ret buf' /\
    slotted hdr usable ty buf' ocs' (cs - sizes cells) /\
    ocs'.*2 = ocs.*2 ++ cells /\
    (forall o x, 5 <= o -> o + len x <= hdr -> at_offset buf o x -> at_offset buf' o x) /\
    len buf' = len buf.
Proof.
  induction cells as [|c cells IH]; intros buf ocs cs Hsl Hroom; simpl in *.
  { exists buf, ocs. rewrite app_nil_r, Z.sub_0_r. done. }
  rewrite len_cons in Hroom. pose proof (len_nonneg cells). pose proof (sizes_nonneg cells).
  rewrite Nat.add_0_r.
  destruct (insert_cell_at_ok _ _ _ _ _ _ (length ocs) c Hsl) as (b1 & -> & Hs1 & Hf1 & Hl1);
    [lia|lia|]. simpl. rewrite vec_insert_end in Hs1.
  destruct (IH _ _ _ Hs1) as (b2 & ocs2 & Hb2 & Hs2 & Ho2 & Hf2 & Hl2).
  { rewrite len_app, len_cons, len_nil. lia. }
  exists b2, ocs2. split_and!.
  - rewrite <-Hb2. f_equal. apply imap_ext. intros i x _. simpl.
    rewrite length_app. simpl. f_equal. lia.
  - by replace (cs - (len c + sizes cells)) with (cs - len c - sizes cells) by lia.
  - rewrite Ho2, fmap_app. simpl. by rewrite <-app_assoc.
  - intros o x ???. apply Hf2; [done..|]. by apply Hf1.
  - congruence.
Qed.

(** The same on a page without cells. *)
Lemma fill_cells_ok hdr usable ty cells buf cs :
  slotted hdr usable ty buf [] cs ->
  hdr + 2 * len cells + sizes cells <= cs ->
  exists buf' ocs',
    foldM (fun buf '(i, cell) => insert_cell_at buf hdr (Z.of_nat i) cell)
      buf (imap pair cells) = Ret buf' /\
    slotted hdr usable ty buf' ocs' (cs - sizes cells) /\
    ocs'.*2 = cells /\
    (forall o x, 5 <= o -> o + len x <= hdr -> at_offset buf o x -> at_offset buf' o x) /\
    len buf' = len buf.
Proof.
  intros Hsl Hroom. destruct (append_cells_ok _ _ _ cells _ _ _ Hsl) as (b & ocs & ?); [done|].
  by exists b, ocs.
Qed.
End slotted.

(** ** What a caller of the slotted page relies on *)

(** C23: Inserting a cell that [free_space] has room for, with its pointer: the
    page has the cell at its index and the others in their order, not one of them
    moved or changed, and exactly so much less free space. *)
Theorem insert_cell_exact `{BuildProfile} hdr usable ty buf ocs cs i cell room :
  slotted hdr usable ty buf ocs cs -> (i <= length ocs)%nat ->
  free_space buf hdr = Ret room -> len cell + POINTER_LEN <= room ->
  exists buf' o cs', insert_cell_at buf hdr (Z.of_nat i) cell = Ret buf' /\
    slotted hdr usable ty buf' (vec_insert i (o, cell) ocs) cs' /\ len buf' = len buf /\
    free_space buf' hdr = Ret (room - (len cell + POINTER_LEN)).
Proof.
  intros Hsl Hi Hfree Hroom. rewrite (slotted_free_space Hsl) in Hfree. injection Hfree as <-.
  unfold POINTER_LEN in *. destruct (insert_cell_at_ok hdr usable ty buf ocs cs i cell)
    as (buf' & Hb & Hsl' & _ & Hl); [done|done|lia|].
  exists buf', (cs - len cell), (cs - len cell). split_and!; [done|done|done|].
  rewrite (slotted_free_space Hsl').
  unfold vec_insert. rewrite len_app, len_cons, len_take, len_drop. f_equal. unfold len in *. lia.
Qed.

Lemma insert_cell_exact_witness :
  let _ := Build_BuildProfile true in
  exists buf buf', init_slotted (zeros 4096) 1 = Ret buf /\
    insert_cell_at buf 5 0 [Z_byte 7; Z_byte 8] = Ret buf' /\ free_space buf' 5 = Ret 4079.
Proof.
  intros prof. destruct (init_slotted_ok 5 4096 1) as (buf & Hi & Hl & Hsl); [lia|lia|].
  destruct (insert_cell_exact 5 _ 1 buf [] _ 0 [Z_byte 7; Z_byte 8] _ Hsl (le_n 0)
    (slotted_free_space Hsl)) as (buf' & o & cs' & Hb & _ & _ & Hf); [vm_compute; discriminate|].
  exists buf, buf'. split_and!; [done|done|]. rewrite Hf. reflexivity.
Defined.

(** C24: Removing a cell gives its offset and the page without it, the other cells
    in their order, unmoved; only the pointer's two bytes are free again, the
    cell's own are not. *)
Theorem remove_cell_exact `{BuildProfile} hdr usable ty buf ocs cs i o cell :
  slotted hdr usable ty buf ocs cs -> ocs !! i = Some (o, cell) ->
  exists buf' room, remove_cell_at buf hdr (Z.of_nat i) = Ret (buf', o) /\
    slotted hdr usable ty buf' (delete i ocs) cs /\ len buf' = len buf /\
    free_space buf hdr = Ret room /\ free_space buf' hdr = Ret (room + POINTER_LEN).
Proof.
  intros Hsl Hi. destruct (remove_cell_at_ok hdr usable ty buf ocs cs i (o, cell)) as (buf' & Hb & Hsl' & Hl);
    [done|done|].
  exists buf', (cs - (hdr + 2 * len ocs)). split_and!; [done|done|done|by apply (slotted_free_space Hsl)|].
  rewrite (slotted_free_space Hsl'). apply lookup_lt_Some in Hi as Hlt.
  f_equal. unfold len. rewrite length_delete by (by eexists). unfold POINTER_LEN. lia.
Qed.

Lemma remove_cell_exact_witness :
  let _ := Build_BuildProfile true in
  exists buf buf1 buf2 o, init_slotted (zeros 4096) 1 = Ret buf /\
    insert_cell_at buf 5 0 [Z_byte 7; Z_byte 8] = Ret buf1 /\ remove_cell_at buf1 5 0 = Ret (buf2, o) /\
    free_space buf1 5 = Ret 4079 /\ free_space buf2 5 = Ret 4081.
Proof.
  intros prof. destruct (init_slotted_ok 5 4096 1) as (buf & Hi & Hl & Hsl); [lia|lia|].
  destruct (insert_cell_at_ok 5 _ 1 buf [] _ 0 [Z_byte 7; Z_byte 8] Hsl (le_n 0))
    as (buf1 & Hb1 & Hsl1 & _ & _); [vm_compute; discriminate|].
  destruct (remove_cell_exact 5 _ 1 buf1 _ _ 0 _ _ Hsl1 eq_refl) as (buf2 & room & Hb2 & _ & _ & Hf & Hf2).
  assert (room = 4079) as -> by (rewrite (slotted_free_space Hsl1) in Hf; by injection Hf as <-).
  exists buf, buf1, buf2. eexists. split_and!; [done|done|done|done|done].
Defined.
