(* ===== verification/LeafSpec.v ===== *)
(** * Leaf pages: the list of cells a leaf holds *)

From S2P Require Import Prelude Errors Codec Page Layout Mutate LayoutSpec.

(** The bytes of a leaf cell *)
Definition cell_bytes (c : LeafCell) : bytes :=
  build_leaf_cell (key c) (payload_len c) (overflow_first c) (local c).

(** The fields fit their widths and the local part is what the page keeps. *)
Record cell_wf (ml : Z) (c : LeafCell) : Prop := {
  cw_key : in_i64 (key c);
  cw_payload : 0 <= payload_len c <= u32_max;
  cw_overflow : 0 <= overflow_first c <= u32_max;
  cw_local : len (local c) = leaf_local_len (payload_len c) ml;
}.

Definition leaf_page (ml usable : Z) (buf : bytes) (cells : list LeafCell) (cs : Z) : Prop :=
  exists ocs, slotted LEAF_HEADER_LEN usable PAGE_TYPE_LEAF buf ocs cs /\
    ocs.*2 = cell_bytes <$> cells /\ Forall (cell_wf ml) cells.

Lemma len_cell_bytes c : len (cell_bytes c) = LEAF_CELL_FIXED_LEN + len (local c).
Proof. unfold cell_bytes, build_leaf_cell, LEAF_CELL_FIXED_LEN. len_solve. Qed.

(** Strictly increasing keys *)
Definition ascending (ks : list Z) : Prop :=
  forall i j x y, (i < j)%nat -> ks !! i = Some x -> ks !! j = Some y -> x < y.

(** What [leaf_search] answers *)
Definition search_spec (ks : list Z) (k : Z) (r : search) : Prop :=
  match r with
  | Found i => exists j, i = Z.of_nat j /\ ks !! j = Some k
  | NotFoundAt i => exists j, i = Z.of_nat j /\ (j <= length ks)%nat /\
      (forall m x, (m < j)%nat -> ks !! m = Some x -> x < k) /\
      (forall m x, (j <= m)%nat -> ks !! m = Some x -> k < x)
  end.

Section leaf.
Context `{BuildProfile}.

Section page.
Context {ml usable : Z} {buf : bytes} {cells : list LeafCell} {cs : Z}.
Hypothesis Hml : 0 <= ml <= 65493.
Hypothesis Hpage : leaf_page ml usable buf cells cs.

Lemma leaf_num_cells : num_cells buf = Ret (len cells).
Proof.
  destruct Hpage as (ocs & Hsl & Hc & _). rewrite (slotted_num_cells Hsl). f_equal.
  unfold len. f_equal. by rewrite <-(length_fmap snd), Hc, length_fmap.
Qed.

Lemma leaf_type : read_u8 buf 0 = Ret PAGE_TYPE_LEAF.
Proof. destruct Hpage as (ocs & Hsl & _). by apply (slotted_type Hsl). Qed.

Lemma leaf_cell_parts i c :
  cells !! i = Some c -> exists o,
    pointer_at buf LEAF_HEADER_LEN (Z.of_nat i) = Ret o /\
    at_offset buf o (be_bytes 8 (key c)) /\ at_offset buf (o + 8) (be_bytes 4 (payload_len c)) /\
    at_offset buf (o + 12) (be_bytes 4 (overflow_first c)) /\
    at_offset buf (o + 16) (local c) /\ at_offset buf o (cell_bytes c) /\ cell_wf ml c.
Proof.
  intros Hi. destruct Hpage as (ocs & Hsl & Hc & Hwf).
  assert (exists o, ocs !! i = Some (o, cell_bytes c)) as [o Ho].
  { assert (ocs.*2 !! i = Some (cell_bytes c)) as Hx by (rewrite Hc; by rewrite list_lookup_fmap, Hi).
    apply list_lookup_fmap_Some in Hx as ([o b] & ? & Hx). simpl in *. subst. by exists o. }
  exists o. split; [by rewrite (slotted_pointer_at Hsl _ _ Ho)|].
  pose proof (sl_cell _ _ _ _ _ _ Hsl _ _ Ho) as Hat. simpl in Hat.
  assert (cell_wf ml c) by (by eapply Forall_lookup_1 in Hwf).
  pose proof Hat as Hat'. unfold cell_bytes, build_leaf_cell in Hat.
  apply at_offset_app in Hat as [? Hat]. apply at_offset_app in Hat as [? Hat].
  apply at_offset_app in Hat as [? Hat]. rewrite ?len_be8, ?len_be4 in *.
  replace (o + 8 + 4 + 4) with (o + 16) in * by lia.
  replace (o + 8 + 4) with (o + 12) in * by lia. done.
Qed.

Lemma leaf_key_at_ok i c : cells !! i = Some c -> leaf_key_at buf (Z.of_nat i) = Ret (key c).
Proof.
  intros Hi. destruct (leaf_cell_parts i c Hi) as (o & Hp & Hk & _ & _ & _ & _ & Hwf).
  unfold leaf_key_at. rewrite Hp. simpl. apply read_i64_at; [done|apply Hwf].
Qed.

Lemma leaf_cell_at_ok i c : cells !! i = Some c -> leaf_cell_at buf (Z.of_nat i) ml = Ret c.
Proof.
  intros Hi. destruct (leaf_cell_parts i c Hi) as (o & Hp & Hk & Hpl & Hov & Hlo & _ & []).
  unfold leaf_cell_at. rewrite Hp. simpl. rewrite (read_i64_at _ _ (key c)) by done. simpl.
  rewrite (read_u32_at _ _ _ Hpl cw_payload0). simpl.
  rewrite (read_u32_at _ _ _ Hov cw_overflow0). simpl.
  unfold leaf_local_len in *. rewrite try_usize_Some by len_solve. simpl.
  rewrite (read_vec_at _ _ (local c)) by done. by destruct c.
Qed.

Lemma leaf_cell_byte_len_ok i c :
  cells !! i = Some c -> leaf_cell_byte_len buf (Z.of_nat i) ml = Ret (len (cell_bytes c)).
Proof.
  intros Hi. destruct (leaf_cell_parts i c Hi) as (o & Hp & _ & Hpl & _ & _ & _ & []).
  unfold leaf_cell_byte_len. rewrite Hp. simpl.
  rewrite (read_u32_at _ _ _ Hpl cw_payload0). simpl.
  rewrite len_cell_bytes, cw_local0. unfold leaf_local_len, LEAF_CELL_FIXED_LEN, add_u16.
  rewrite (try_u16_Some (Z.min _ _)) by len_solve. simpl.
  by rewrite wrap_or_panic_ret by len_solve.
Qed.

(** Binary search: never out of fuel, and right on sorted keys. *)
Lemma leaf_search_loop_ok fuel k lo hi :
  ascending (key <$> cells) -> (lo <= hi)%nat -> (hi <= length cells)%nat -> (hi - lo <= fuel)%nat ->
  (forall m x, (m < lo)%nat -> (key <$> cells) !! m = Some x -> x < k) ->
  (forall m x, (hi <= m)%nat -> (key <$> cells) !! m = Some x -> k < x) ->
  exists r, leaf_search_loop fuel buf k (Z.of_nat lo) (Z.of_nat hi) = Ret r /\
    search_spec (key <$> cells) k r.
Proof.
  intros Hasc. revert lo hi. induction fuel as [|fuel IH]; intros lo hi Hlh Hhi Hf Hlow Hhigh; simpl.
  { replace (Z.of_nat lo <? Z.of_nat hi) with false by lia. eexists; split; [done|].
    exists lo. replace hi with lo in * by lia. rewrite length_fmap. split_and!; eauto. }
  case_match eqn:E; cycle 1.
  { eexists; split; [done|]. exists lo. replace hi with lo in * by lia.
    rewrite length_fmap. split_and!; eauto. }
  set (mid := (lo + (hi - lo) / 2)%nat).
  assert (Hmid : Z.of_nat lo + (Z.of_nat hi - Z.of_nat lo) / 2 = Z.of_nat mid).
  { subst mid. rewrite Nat2Z.inj_add, Nat2Z.inj_div, Nat2Z.inj_sub by lia. done. }
  assert (lo <= mid < hi)%nat.
  { subst mid. assert ((hi - lo) / 2 < hi - lo)%nat by (apply Nat.div_lt; lia). lia. }
  rewrite Hmid. destruct (lookup_lt_is_Some_2 cells mid) as [c Hc]; [lia|].
  rewrite (leaf_key_at_ok _ _ Hc). simpl.
  assert (Hck : (key <$> cells) !! mid = Some (key c)) by (by rewrite list_lookup_fmap, Hc).
  destruct (Z.compare_spec (key c) k) as [Heq|Hlt|Hgt].
  - rewrite Heq in Hck. eexists; split; [done|]. exists mid. done.
  - replace (Z.of_nat mid + 1) with (Z.of_nat (S mid)) by lia. apply IH; try lia; [|done].
    intros m x Hm Hx. destruct (decide (m = mid)) as [->|]; [naive_solver|].
    assert (x < key c); [|lia]. eapply (Hasc m mid); eauto. lia.
  - apply IH; try lia; [done|]. intros m x Hm Hx.
    destruct (decide (m = mid)) as [->|]; [naive_solver|].
    assert (key c < x); [|lia]. eapply (Hasc mid m); eauto. lia.
Qed.

Lemma leaf_search_ok k :
  ascending (key <$> cells) ->
  exists r, leaf_search buf k = Ret r /\ search_spec (key <$> cells) k r.
Proof.
  intros Hasc. unfold leaf_search. rewrite leaf_num_cells. simpl.
  unfold len at 1. rewrite Nat2Z.id.
  apply (leaf_search_loop_ok _ k 0 (length cells)); [done|lia|done|lia|lia|].
  intros m x Hm Hx. apply lookup_lt_Some in Hx. rewrite length_fmap in Hx. lia.
Qed.
End page.

(** ** Building, growing and shrinking a leaf *)

Fixpoint cells_size (cells : list LeafCell) : Z :=
  match cells with [] => 0 | c :: cells => len (cell_bytes c) + cells_size cells end.

Lemma total_cells_size ocs cells : ocs.*2 = cell_bytes <$> cells -> total ocs = cells_size cells.
Proof.
  revert cells. induction ocs as [|o ocs IH]; intros [|c cells] Hc; try done.
  injection Hc as Ho Hc. simpl. by rewrite Ho, (IH cells).
Qed.

Lemma cells_size_app l k : cells_size (l ++ k) = cells_size l + cells_size k.
Proof. induction l; simpl; lia. Qed.

Lemma leaf_page_size ml usable buf cells cs :
  leaf_page ml usable buf cells cs ->
  cs + cells_size cells <= usable /\ LEAF_HEADER_LEN + 2 * len cells <= cs.
Proof.
  intros (ocs & Hsl & Hc & _). destruct Hsl. unfold POINTER_LEN in *.
  rewrite <-(total_cells_size _ _ Hc). split; [done|].
  assert (len cells = len ocs) as ->; [|done].
  unfold len. f_equal. by rewrite <-(length_fmap snd ocs), Hc, length_fmap.
Qed.

Lemma leaf_free_space ml usable buf cells cs :
  leaf_page ml usable buf cells cs ->
  free_space buf LEAF_HEADER_LEN = Ret (cs - (LEAF_HEADER_LEN + 2 * len cells)).
Proof.
  intros (ocs & Hsl & Hc & _). rewrite (slotted_free_space Hsl).
  do 3 f_equal. f_equal. unfold len. f_equal. by rewrite <-(length_fmap snd ocs), Hc, length_fmap.
Qed.

Lemma init_leaf_ok ml n :
  4096 <= n ->
  exists buf, init_leaf (zeros n) = Ret buf /\ len buf = n /\
    leaf_page ml (usable_of n) buf [] (usable_of n).
Proof.
  intros Hn. destruct (init_slotted_ok LEAF_HEADER_LEN n PAGE_TYPE_LEAF) as (buf & ? & ? & ?);
    [done|done|]. exists buf. split_and!; [done|done|]. by exists [].
Qed.

Lemma leaf_insert_ok ml usable buf cells cs i c :
  leaf_page ml usable buf cells cs -> cell_wf ml c -> (i <= length cells)%nat ->
  LEAF_HEADER_LEN + 2 * (len cells + 1) + len (cell_bytes c) <= cs ->
  exists buf', insert_cell_at buf LEAF_HEADER_LEN (Z.of_nat i) (cell_bytes c) = Ret buf' /\
    leaf_page ml usable buf' (vec_insert i c cells) (cs - len (cell_bytes c)) /\ len buf' = len buf.
Proof.
  intros (ocs & Hsl & Hc & Hwf) Hcw Hi Hroom.
  assert (Hlen : length ocs = length cells) by (by rewrite <-(length_fmap snd ocs), Hc, length_fmap).
  destruct (insert_cell_at_ok _ _ _ _ _ _ i (cell_bytes c) Hsl) as (buf' & ? & Hsl' & _ & ?);
    [lia|unfold len in *; lia|].
  exists buf'. split_and!; [done| |done]. eexists; split; [done|]. split.
  - rewrite !vec_insert_fmap. by rewrite Hc.
  - unfold vec_insert. apply Forall_app. split; [by apply Forall_take|].
    constructor; [done|by apply Forall_drop].
Qed.

Lemma leaf_remove_ok ml usable buf cells cs i c :
  leaf_page ml usable buf cells cs -> cells !! i = Some c ->
  exists buf' o, remove_cell_at buf LEAF_HEADER_LEN (Z.of_nat i) = Ret (buf', o) /\
    leaf_page ml usable buf' (delete i cells) cs /\ len buf' = len buf.
Proof.
  intros (ocs & Hsl & Hc & Hwf) Hi.
  assert (exists d, ocs !! i = Some d) as [d Hd].
  { apply lookup_lt_is_Some_2. rewrite <-(length_fmap snd ocs), Hc, length_fmap.
    by eapply lookup_lt_Some. }
  destruct (remove_cell_at_ok _ _ _ _ _ _ i d Hsl Hd) as (buf' & ? & Hsl' & ?).
  exists buf', d.1. split_and!; [done| |done]. eexists; split; [done|]. split.
  - by rewrite !list_fmap_delete, Hc.
  - by apply Forall_delete.
Qed.
End leaf.

(** ** Binary search against counting *)

(** How many keys are below [k]. *)
Definition rank (ks : list Z) (k : Z) : nat := length (filter (fun x => x < k) ks).

Lemma rank_app l l' k : rank (l ++ l') k = (rank l k + rank l' k)%nat.
Proof. unfold rank. by rewrite filter_app, length_app. Qed.

Lemma rank_all ks k : Forall (fun x => x < k) ks -> rank ks k = length ks.
Proof.
  induction 1 as [|x l Hx Hl IH]; [done|]. unfold rank in *. rewrite filter_cons_True by done.
  simpl. by rewrite IH.
Qed.

Lemma rank_none ks k : Forall (fun x => k <= x) ks -> rank ks k = 0%nat.
Proof.
  induction 1 as [|x l Hx Hl IH]; [done|]. unfold rank in *. rewrite filter_cons_False by lia. done.
Qed.

Lemma rank_unique ks k j :
  (j <= length ks)%nat -> (forall m x, (m < j)%nat -> ks !! m = Some x -> x < k) ->
  (forall m x, (j <= m)%nat -> ks !! m = Some x -> k <= x) -> rank ks k = j.
Proof.
  intros Hj Hlow Hhigh. rewrite <-(take_drop j ks), rank_app, rank_all, rank_none.
  - rewrite length_take. lia.
  - apply Forall_forall. intros x [m Hm]%list_elem_of_lookup. rewrite lookup_drop in Hm.
    apply (Hhigh (j + m)%nat); [lia|done].
  - apply Forall_forall. intros x [m Hm]%list_elem_of_lookup. apply lookup_take_Some in Hm as [Hm ?].
    by eapply Hlow.
Qed.

Lemma search_spec_rank ks k r :
  ascending ks -> search_spec ks k r ->
  r = if decide (k ∈ ks) then Found (Z.of_nat (rank ks k)) else NotFoundAt (Z.of_nat (rank ks k)).
Proof.
  intros Ha. destruct r as [i|i]; simpl.
  - intros (j & -> & Hj). rewrite decide_True by (by eapply list_elem_of_lookup_2).
    rewrite (rank_unique ks k j); [done|by apply Nat.lt_le_incl, (lookup_lt_Some _ _ _ Hj)| |].
    + intros m x Hm Hx. by apply (Ha m j).
    + intros m x Hm Hx. destruct (decide (m = j)) as [->|]; [simplify_eq; lia|].
      assert (k < x) by (apply (Ha j m); [lia|done..]). lia.
  - intros (j & -> & Hj & Hlow & Hhigh).
    rewrite (rank_unique ks k j); [|done|done|intros m x Hm Hx; specialize (Hhigh m x Hm Hx); lia].
    rewrite decide_False; [done|]. intros [m Hm]%list_elem_of_lookup.
    destruct (decide (m < j)%nat) as [Hlt|Hlt].
    + specialize (Hlow m k Hlt Hm). lia.
    + specialize (Hhigh m k ltac:(lia) Hm). lia.
Qed.

(** C21: The binary search of a leaf terminates within as many turns as there are
    cells and finds exactly what counting finds: the place of the key if it is
    there, the number of smaller keys if it is not. *)
Theorem leaf_search_exact `{BuildProfile} ml usable buf cells cs k :
  0 <= ml <= 65493 -> leaf_page ml usable buf cells cs -> ascending (key <$> cells) ->
  leaf_search buf k = Ret (if decide (k ∈ key <$> cells)
    then Found (Z.of_nat (rank (key <$> cells) k)) else NotFoundAt (Z.of_nat (rank (key <$> cells) k))).
Proof.
  intros Hml Hp Ha. destruct (leaf_search_ok Hml Hp k Ha) as (r & Hr & Hspec).
  rewrite Hr. f_equal. by apply search_spec_rank.
Qed.

Lemma leaf_search_exact_witness :
  let _ := Build_BuildProfile true in
  exists buf buf', init_leaf (zeros 4096) = Ret buf /\
    insert_cell_at buf LEAF_HEADER_LEN 0 (build_leaf_cell (-5) 1 0 [x00]) = Ret buf' /\
    leaf_search buf' (-5) = Ret (Found 0) /\ leaf_search buf' 3 = Ret (NotFoundAt 1).
Proof.
  intros prof. destruct (init_leaf_ok 4053 4096) as (buf & Hi & Hl & Hp); [lia|].
  destruct (leaf_insert_ok 4053 _ buf [] _ 0 (mkLeafCell (-5) 1 0 [x00]) Hp) as (buf' & Hb & Hp' & _);
    [split; vm_compute; intuition congruence|done|vm_compute; discriminate|].
  assert (Ha : ascending (key <$> vec_insert 0 (mkLeafCell (-5) 1 0 [x00]) [])).
  { intros [|i] [|j] x y Hij Hx Hy; try lia; done. }
  exists buf, buf'. split_and!; [done|done|..];
    rewrite (leaf_search_exact 4053 _ buf' _ _ _ ltac:(lia) Hp' Ha); vm_compute; reflexivity.
Defined.
