(* ===== verification/InteriorSpec.v ===== *)
(** * Interior pages: the keys and children an interior page holds *)

From S2P Require Import Prelude Errors Codec Page Layout Mutate LayoutSpec.

(** [keys] with the child left of each in [cs], and the rightmost child [r]. *)
Definition interior_page (usable : Z) (buf : bytes) (keys cs : list Z) (r : Z) : Prop :=
  exists ocs start, slotted INTERIOR_HEADER_LEN usable PAGE_TYPE_INTERIOR buf ocs start /\
    ocs.*2 = zip_with build_interior_cell keys cs /\ length keys = length cs /\
    at_offset buf 5 (be_bytes 4 r) /\
    Forall in_i64 keys /\ Forall (fun c => 0 <= c <= u32_max) (cs ++ [r]).

Section interior.
Context `{BuildProfile}.

Section page.
Context {usable : Z} {buf : bytes} {keys cs : list Z} {r : Z}.
Hypothesis Hpage : interior_page usable buf keys cs r.

Lemma interior_num_cells : num_cells buf = Ret (len keys).
Proof.
  destruct Hpage as (ocs & st & Hsl & Hc & Hlen & _). rewrite (slotted_num_cells Hsl).
  unfold len. do 2 f_equal. rewrite <-(length_fmap snd), Hc, length_zip_with. lia.
Qed.

Lemma interior_type : read_u8 buf 0 = Ret PAGE_TYPE_INTERIOR.
Proof. destruct Hpage as (ocs & st & Hsl & _). by apply (slotted_type Hsl). Qed.

Lemma interior_rightmost_ok : interior_rightmost buf = Ret r.
Proof.
  destruct Hpage as (ocs & st & _ & _ & _ & Hr & _ & Hu). apply read_u32_at; [done|].
  apply Forall_app in Hu as [_ Hu]. rewrite Forall_singleton in Hu. exact Hu.
Qed.

Lemma interior_cell_parts i k c :
  keys !! i = Some k -> cs !! i = Some c -> exists o ocs st,
    slotted INTERIOR_HEADER_LEN usable PAGE_TYPE_INTERIOR buf ocs st /\
    ocs.*2 = zip_with build_interior_cell keys cs /\
    ocs !! i = Some (o, build_interior_cell k c) /\
    pointer_at buf INTERIOR_HEADER_LEN (Z.of_nat i) = Ret o /\
    at_offset buf o (be_bytes 8 k) /\ at_offset buf (o + 8) (be_bytes 4 c) /\
    in_i64 k /\ 0 <= c <= u32_max.
Proof.
  intros Hk Hc. destruct Hpage as (ocs & st & Hsl & Hz & Hlen & Hr & Hi & Hu).
  assert (exists o, ocs !! i = Some (o, build_interior_cell k c)) as [o Ho].
  { assert (ocs.*2 !! i = Some (build_interior_cell k c)) as Hx.
    { rewrite Hz. apply lookup_zip_with_Some. eauto. }
    apply list_lookup_fmap_Some in Hx as ([o b] & ? & Hx). simpl in *. subst. by exists o. }
  exists o, ocs, st. pose proof (sl_cell _ _ _ _ _ _ Hsl _ _ Ho) as Hat. simpl in Hat.
  unfold build_interior_cell in Hat. apply at_offset_app in Hat as [? ?].
  apply Forall_app in Hu as [Hu _].
  pose proof (proj1 (Forall_lookup _ _) Hu _ _ Hc) as Hcr. simpl in Hcr.
  pose proof (proj1 (Forall_lookup _ _) Hi _ _ Hk).
  by rewrite (slotted_pointer_at Hsl _ _ Ho).
Qed.

Lemma interior_lookup i : (i < length keys)%nat -> exists k c, keys !! i = Some k /\ cs !! i = Some c.
Proof.
  intros Hi. destruct Hpage as (ocs & st & _ & _ & Hlen & _).
  destruct (lookup_lt_is_Some_2 keys i), (lookup_lt_is_Some_2 cs i); [lia|lia|lia|eauto].
Qed.

Lemma interior_key_at_ok i k : keys !! i = Some k -> interior_key_at buf (Z.of_nat i) = Ret k.
Proof.
  intros Hk. destruct (interior_lookup i) as (k' & c & ? & Hc); [by eapply lookup_lt_Some|].
  assert (k' = k) as -> by congruence. destruct (interior_cell_parts i k c) as (o & ocs & st & _ & _ & _ & Hp & ? & _ & ? & _);
    [done..|]. unfold interior_key_at. rewrite Hp. simpl. by apply read_i64_at.
Qed.

Lemma interior_child_at_ok i c : cs !! i = Some c -> interior_child_at buf (Z.of_nat i) = Ret c.
Proof.
  intros Hc. destruct (interior_lookup i) as (k & c' & Hk & ?).
  { destruct Hpage as (? & ? & _ & _ & -> & _). by eapply lookup_lt_Some. }
  assert (c' = c) as -> by congruence. destruct (interior_cell_parts i k c) as (o & ocs & st & _ & _ & _ & Hp & _ & ? & _ & ?);
    [done..|]. unfold interior_child_at. rewrite Hp. simpl. by apply read_u32_at.
Qed.

Lemma interior_length : length keys = length cs.
Proof. by destruct Hpage as (? & ? & _ & _ & ? & _). Qed.

(** Which index a child is at: [i < n] for a cell, [n] for the rightmost. *)
Lemma interior_find_child_slot_ok c i :
  NoDup (cs ++ [r]) -> (cs ++ [r]) !! i = Some c ->
  interior_find_child_slot buf c =
    Ret (if decide (i < length cs)%nat then Cell (Z.of_nat i) else Rightmost).
Proof.
  intros Hnd Hi. unfold interior_find_child_slot. rewrite interior_num_cells. simpl.
  pose proof interior_length as Hlen. apply lookup_lt_Some in Hi as Hlt.
  rewrite length_app in Hlt. simpl in Hlt.
  assert (Hloop : forall m j, (j + m = length cs)%nat -> (j <= i)%nat ->
    find_child_slot buf c (seqZ (Z.of_nat j) (Z.of_nat m)) =
    Ret (if decide (i < length cs)%nat then Cell (Z.of_nat i) else Rightmost)).
  { induction m as [|m IH]; intros j Hjm Hji.
    { simpl. by rewrite decide_False by lia. }
    rewrite seqZ_cons by lia. simpl.
    destruct (lookup_lt_is_Some_2 cs j) as [d Hd]; [lia|].
    rewrite (interior_child_at_ok _ _ Hd). simpl.
    assert (Hd' : (cs ++ [r]) !! j = Some d) by (rewrite lookup_app_l by lia; done).
    destruct (decide (j = i)) as [->|].
    - simplify_eq. rewrite Z.eqb_refl. by rewrite decide_True by lia.
    - replace (d =? c) with false.
      2:{ symmetry. apply Z.eqb_neq. intros ->. assert (j = i) by (eapply NoDup_lookup; done). done. }
      replace (Z.succ (Z.of_nat j)) with (Z.of_nat (S j)) by lia.
      replace (Z.pred (Z.of_nat (S m))) with (Z.of_nat m) by lia. apply IH; lia. }
  unfold len. rewrite Hlen. apply (Hloop (length cs) O); lia.
Qed.

(** Routing: the child left of the first greater key, or the rightmost. *)
Lemma interior_find_child_for_key_ok k :
  exists i c, interior_find_child_for_key buf k = Ret c /\ (cs ++ [r]) !! i = Some c /\
    (i <= length keys)%nat /\
    (forall m x, (m < i)%nat -> keys !! m = Some x -> x <= k) /\
    (forall x, keys !! i = Some x -> k < x).
Proof.
  unfold interior_find_child_for_key. rewrite interior_num_cells. simpl.
  pose proof interior_length as Hlen.
  assert (Hloop : forall m j, (j + m = length keys)%nat ->
    (forall n x, (n < j)%nat -> keys !! n = Some x -> x <= k) ->
    exists i c, find_child_for_key buf k (seqZ (Z.of_nat j) (Z.of_nat m)) = Ret c /\
      (cs ++ [r]) !! i = Some c /\ (i <= length keys)%nat /\
      (forall n x, (n < i)%nat -> keys !! n = Some x -> x <= k) /\
      (forall x, keys !! i = Some x -> k < x)).
  { induction m as [|m IH]; intros j Hjm Hlow.
    { simpl. exists (length cs), r. rewrite interior_rightmost_ok.
      split_and!; [done| |lia| |].
      - rewrite lookup_app_r by lia. by rewrite Nat.sub_diag.
      - intros n x Hn Hx. apply (Hlow n x); [lia|done].
      - intros x Hx%lookup_lt_Some. lia. }
    rewrite seqZ_cons by lia. simpl.
    destruct (interior_lookup j) as (x & d & Hx & Hd); [lia|].
    rewrite (interior_key_at_ok _ _ Hx). simpl. case_match eqn:E.
    - exists j, d. rewrite (interior_child_at_ok _ _ Hd).
      split_and!; [done| |lia|done|].
      + by rewrite lookup_app_l by lia.
      + intros x' ?. simplify_eq. lia.
    - replace (Z.succ (Z.of_nat j)) with (Z.of_nat (S j)) by lia.
      replace (Z.pred (Z.of_nat (S m))) with (Z.of_nat m) by lia.
      apply IH; [lia|]. intros n y Hn Hy. destruct (decide (n = j)) as [->|].
      + simplify_eq. lia.
      + apply (Hlow n y); [lia|done]. }
  unfold len. apply (Hloop _ O); [lia|]. intros ???. lia.
Qed.

Lemma interior_entries_ok : interior_entries buf = Ret (keys, cs ++ [r]).
Proof.
  unfold interior_entries. rewrite interior_num_cells. simpl.
  rewrite (outcome_bind_Ret _ _ (zip keys cs)).
  - rewrite interior_rightmost_ok. simpl.
    pose proof interior_length. rewrite fst_zip, snd_zip by lia. done.
  - apply traverse_ret, Forall2_same_length_lookup. split.
    { rewrite length_seqZ, length_zip_with. pose proof interior_length. unfold len. lia. }
    intros i x [k c] Hx Hkc. apply lookup_seqZ in Hx as [-> Hi].
    apply lookup_zip_with_Some in Hkc as (k' & c' & [= <- <-] & Hk & Hc).
    rewrite Z.add_0_l, (interior_key_at_ok _ _ Hk). simpl.
    by rewrite (interior_child_at_ok _ _ Hc).
Qed.
End page.

(** ** Repointing a child, and building a page *)

Lemma disjoint_outside (o : Z) (x : bytes) (d : Z * bytes) :
  disjoint_cells (o, x) d -> d.1 + len d.2 <= o \/ o + len x <= d.1.
Proof. unfold disjoint_cells. simpl. lia. Qed.

Lemma total_ext ocs ocs' :
  Forall2 (fun a b => a.1 = b.1 /\ len a.2 = len b.2) ocs ocs' -> total ocs = total ocs'.
Proof. induction 1 as [|a b ocs ocs' [_ Hl] _ IH]; simpl; lia. Qed.

(** Overwriting part of one cell in place. *)
Lemma slotted_update_cell hdr usable ty buf ocs st i o c c' buf' lo x :
  slotted hdr usable ty buf ocs st -> ocs !! i = Some (o, c) -> len c' = len c ->
  splice buf lo x = Some buf' -> o <= lo -> lo + len x <= o + len c -> at_offset buf' o c' ->
  slotted hdr usable ty buf' (<[i := (o, c')]> ocs) st.
Proof.
  intros Hsl Hi Hlc Hs Ho1 Ho2 Hc'. pose proof (slotted_bounds Hsl) as Hb.
  pose proof (splice_len _ _ _ _ Hs) as Hl. pose proof (sl_range _ _ _ _ _ _ Hsl _ _ Hi) as Hri.
  simpl in Hri. apply lookup_lt_Some in Hi as Hlt.
  assert (Hkeep : forall o' y, (o' + len y <= o \/ o + len c <= o') ->
    at_offset buf o' y -> at_offset buf' o' y).
  { intros o' y Hd. eapply at_offset_splice_other; [done|lia]. }
  assert (Hlk : forall j d, <[i:=(o, c')]> ocs !! j = Some d ->
    (j = i /\ d = (o, c')) \/ (j <> i /\ ocs !! j = Some d)).
  { intros j d. destruct (decide (j = i)) as [->|].
    - rewrite list_lookup_insert_eq by done. naive_solver.
    - rewrite list_lookup_insert_ne by done. naive_solver. }
  assert (Hn : len (<[i:=(o, c')]> ocs) = len ocs) by (unfold len; by rewrite length_insert).
  split; rewrite ?Hn; try lia.
  - apply Hkeep; [len_solve|apply Hsl].
  - apply Hkeep; [len_solve|apply Hsl].
  - apply Hkeep; [len_solve|apply Hsl].
  - intros j d [[-> ->]|[Hj Hd]]%Hlk; simpl.
    + apply Hkeep; [unfold POINTER_LEN, len in *; rewrite length_be_bytes; lia|].
      by apply (sl_ptr _ _ _ _ _ _ Hsl _ (o, c)).
    + apply Hkeep; [|by eapply sl_ptr]. apply lookup_lt_Some in Hd.
      unfold POINTER_LEN, len in *; rewrite length_be_bytes; lia.
  - intros j d [[-> ->]|[Hj Hd]]%Hlk; simpl; [done|].
    apply Hkeep; [|by eapply sl_cell].
    pose proof (sl_disj _ _ _ _ _ _ Hsl _ _ _ _ (not_eq_sym Hj) Hi Hd) as Hdis.
    apply disjoint_outside in Hdis. lia.
  - intros j d [[-> ->]|[Hj Hd]]%Hlk; simpl; [lia|]. by eapply sl_range.
  - intros j k a b Hjk [[-> ->]|[Hj Ha]]%Hlk [[-> ->]|[Hk Hb']]%Hlk; [done| | |].
    + pose proof (sl_disj _ _ _ _ _ _ Hsl _ _ _ _ Hjk Hi Hb') as Hd.
      unfold disjoint_cells in *. simpl in *. lia.
    + pose proof (sl_disj _ _ _ _ _ _ Hsl _ _ _ _ Hjk Ha Hi) as Hd.
      unfold disjoint_cells in *. simpl in *. lia.
    + by eapply (sl_disj _ _ _ _ _ _ Hsl j k).
  - apply Hsl.
  - rewrite (total_ext _ ocs); [apply Hsl|].
    apply Forall2_same_length_lookup. split; [by rewrite length_insert|].
    intros j a b [[-> ->]|[Hj Ha]]%Hlk Hb'; simplify_eq; simpl; done.
Qed.

Lemma zip_with_insert_r {A B C} (f : A -> B -> C) l k i a b :
  l !! i = Some a -> <[i := f a b]> (zip_with f l k) = zip_with f l (<[i := b]> k).
Proof.
  revert l k. induction i as [|i IH]; intros [|x l] [|y k] Hl; simplify_eq/=; try done.
  by rewrite IH.
Qed.

Lemma interior_set_child_at_ok usable buf keys cs r i c :
  interior_page usable buf keys cs r -> (i < length cs)%nat -> 0 <= c <= u32_max ->
  exists buf', interior_set_child_at buf (Z.of_nat i) c = Ret buf' /\
    interior_page usable buf' keys (<[i := c]> cs) r /\ len buf' = len buf.
Proof.
  intros Hp Hi Hc. pose proof (interior_length Hp) as Hlen.
  destruct (interior_lookup Hp i) as (k & d & Hk & Hd); [lia|].
  destruct (interior_cell_parts Hp i k d) as (o & ocs & st & Hsl & Hz & Ho & Hpt & Hat & _ & Hki & _);
    [done..|].
  destruct Hp as (_ & _ & _ & _ & _ & Hr & Hik & Hu).
  pose proof (slotted_bounds Hsl) as Hb. pose proof (sl_range _ _ _ _ _ _ Hsl _ _ Ho) as Hrg.
  assert (Hlb : forall a b, len (build_interior_cell a b) = 12)
    by (intros; unfold build_interior_cell; len_solve).
  simpl in Hrg. rewrite Hlb in Hrg.
  unfold interior_set_child_at. rewrite Hpt. simpl. unfold write_u32.
  destruct (write_bytes_ok buf (o + 8) (be_bytes 4 c)) as (buf' & -> & Hs); [lia|len_solve|].
  exists buf'. assert (Hlb' : len buf' = len buf) by (by eapply splice_len).
  assert (Hat' : at_offset buf' o (build_interior_cell k c)).
  { unfold build_interior_cell. apply at_offset_app. split.
    - eapply at_offset_splice_other; [done| |done]. len_solve.
    - rewrite len_be8. by eapply at_offset_splice_same. }
  split_and!; [done| |done].
  eexists _, st. split.
  { eapply (slotted_update_cell _ _ _ _ _ _ i); [done|done| |done|lia| |done].
    - by rewrite !Hlb.
    - rewrite Hlb. len_solve. }
  split_and!.
  - rewrite list_fmap_insert, Hz. exact (zip_with_insert_r build_interior_cell _ _ _ _ c Hk).
  - by rewrite length_insert.
  - eapply at_offset_splice_other; [done| |done].
    unfold INTERIOR_HEADER_LEN in *. len_solve.
  - done.
  - apply Forall_app in Hu as [? ?]. apply Forall_app. split; [|done]. by apply Forall_insert.
Qed.

Lemma interior_set_rightmost_ok usable buf keys cs r c :
  interior_page usable buf keys cs r -> 0 <= c <= u32_max ->
  exists buf', interior_set_rightmost buf c = Ret buf' /\
    interior_page usable buf' keys cs c /\ len buf' = len buf.
Proof.
  intros (ocs & st & Hsl & Hz & Hlen & Hr & Hik & Hu) Hc.
  pose proof (slotted_bounds Hsl) as Hb. unfold INTERIOR_HEADER_LEN in *.
  unfold interior_set_rightmost. destruct (write_u32_at buf 5 c) as (buf' & -> & Hat & Hs); [lia..|].
  destruct Hs as [Hl Hs]. exists buf'. split_and!; [done| |done].
  exists ocs, st. split_and!; try done.
  - split; try apply Hsl.
    + destruct (sl_usable _ _ _ _ _ _ Hsl). lia.
    + apply Hs; [len_solve|apply Hsl].
    + apply Hs; [len_solve|apply Hsl].
    + apply Hs; [len_solve|apply Hsl].
    + intros i d Hi. apply Hs; [unfold POINTER_LEN, INTERIOR_HEADER_LEN; lia|].
      by apply (sl_ptr _ _ _ _ _ _ Hsl _ _ Hi).
    + intros i d Hi. apply Hs; [|by eapply sl_cell].
      destruct (sl_range _ _ _ _ _ _ Hsl _ _ Hi). lia.
  - apply Forall_app in Hu as [? ?]. apply Forall_app. split; [done|]. by constructor.
Qed.

Lemma len_build_interior_cell k c : len (build_interior_cell k c) = INTERIOR_CELL_LEN.
Proof. unfold build_interior_cell, INTERIOR_CELL_LEN. len_solve. Qed.

Lemma sizes_interior keys cs :
  length keys = length cs -> sizes (zip_with build_interior_cell keys cs) = 12 * len keys.
Proof.
  revert cs. induction keys as [|k keys IH]; intros [|c cs] Hl; simplify_eq/=; [done|].
  rewrite IH, len_build_interior_cell, len_cons by done. unfold INTERIOR_CELL_LEN. lia.
Qed.

Lemma init_interior_ok n r :
  4096 <= n ->
  exists buf, init_interior (zeros n) r = Ret buf /\ len buf = n /\
    slotted INTERIOR_HEADER_LEN (usable_of n) PAGE_TYPE_INTERIOR buf [] (usable_of n) /\
    at_offset buf 5 (be_bytes 4 r).
Proof.
  intros Hn. unfold init_interior.
  destruct (init_slotted_ok INTERIOR_HEADER_LEN n PAGE_TYPE_INTERIOR)
    as (b & -> & Hl & Hsl); [done|done|]. simpl.
  destruct (write_u32_at b 5 r) as (b' & Hb' & Hat & Hl' & Hs); [lia|lia|].
  exists b'. split_and!; [done|lia| |done]. pose proof (slotted_bounds Hsl).
  split; try apply Hsl.
  - destruct (sl_usable _ _ _ _ _ _ Hsl). lia.
  - apply Hs; [len_solve|apply Hsl].
  - apply Hs; [len_solve|apply Hsl].
  - apply Hs; [len_solve|apply Hsl].
  - done.
  - done.
Qed.

Lemma imap_zip_cells keys cs r :
  length keys = length cs ->
  imap pair (zip_with build_interior_cell keys cs) =
  (fun '(i, k) => (i, build_interior_cell k (default 0 ((cs ++ [r]) !! i)))) <$> imap pair keys.
Proof.
  intros Hl. apply list_eq. intros i.
  rewrite list_lookup_fmap, !list_lookup_imap, lookup_zip_with.
  destruct (keys !! i) as [k|] eqn:Hk; simpl; [|done].
  destruct (lookup_lt_is_Some_2 cs i) as [c Hc].
  { rewrite <-Hl. by eapply lookup_lt_Some. }
  by rewrite (lookup_app_l_Some _ _ _ _ Hc), Hc.
Qed.

(** A page of [keys] and [cs ++ [r]] is built when its cells fit. *)
Lemma build_interior_page_ok n keys cs r :
  4096 <= n -> length keys = length cs -> Forall in_i64 keys ->
  Forall (fun c => 0 <= c <= u32_max) (cs ++ [r]) ->
  INTERIOR_HEADER_LEN + 14 * len keys <= usable_of n ->
  exists buf, build_interior_page n keys (cs ++ [r]) = Ret buf /\
    interior_page (usable_of n) buf keys cs r /\ len buf = n.
Proof.
  intros Hn Hlen Hk Hc Hroom. unfold build_interior_page. rewrite last_snoc. simpl.
  destruct (init_interior_ok n r Hn) as (b & -> & Hl & Hsl & Hr). simpl.
  pose proof (sizes_interior _ _ Hlen) as Hsz.
  destruct (fill_cells_ok _ _ _ (zip_with build_interior_cell keys cs) _ _ Hsl)
    as (b' & ocs & Hb' & Hsl' & Hocs & Hf & Hl').
  { unfold len at 1. rewrite length_zip_with, Hsz, Hlen, Nat.min_id.
    change (Z.of_nat (length cs)) with (len cs). unfold len in *. lia. }
  exists b'. split_and!; [|exists ocs; eexists|congruence].
  - rewrite <-Hb', (imap_zip_cells keys cs r) by done. rewrite foldM_fmap.
    apply foldM_ext. by intros ? [].
  - split_and!; try done. apply Hf; [lia|rewrite len_be4; done|done].
Qed.
End interior.

(** ** Building and taking apart *)

(** C25: An interior page built from separators and children that fit it gives
    them back, in order, and takes any of its children to the slot it is in. *)
Theorem interior_build_entries `{BuildProfile} n keys cs r :
  4096 <= n -> length keys = length cs -> Forall in_i64 keys ->
  Forall (fun c => 0 <= c <= u32_max) (cs ++ [r]) ->
  INTERIOR_HEADER_LEN + 14 * len keys <= usable_of n ->
  exists buf, build_interior_page n keys (cs ++ [r]) = Ret buf /\ len buf = n /\
    interior_entries buf = Ret (keys, cs ++ [r]) /\
    (NoDup (cs ++ [r]) -> forall i c, (cs ++ [r]) !! i = Some c ->
      interior_find_child_slot buf c =
        Ret (if decide (i < length cs)%nat then Cell (Z.of_nat i) else Rightmost)).
Proof.
  intros Hn Hl Hk Hc Hroom. destruct (build_interior_page_ok n keys cs r) as (buf & Hb & Hp & Hlen); [done..|].
  exists buf. split_and!; [done|done|by eapply interior_entries_ok|].
  intros Hnd i c Hi. by eapply interior_find_child_slot_ok.
Qed.

Lemma interior_build_entries_witness :
  let _ := Build_BuildProfile true in
  exists buf, build_interior_page 4096 [10; 20] [4; 5; 6] = Ret buf /\
    interior_entries buf = Ret ([10; 20], [4; 5; 6]) /\
    interior_find_child_slot buf 5 = Ret (Cell 1) /\ interior_find_child_slot buf 6 = Ret Rightmost.
Proof.
  intros prof. destruct (interior_build_entries 4096 [10; 20] [4; 5] 6) as (buf & Hb & _ & He & Hs);
    [lia|done|repeat constructor; vm_compute; discriminate|repeat constructor; vm_compute; discriminate|
     vm_compute; discriminate|].
  assert (Hnd : NoDup ([4; 5] ++ [6])) by (apply (bool_decide_unpack _); vm_compute; reflexivity).
  exists buf. split_and!; [done|done|exact (Hs Hnd 1%nat 5 eq_refl)|exact (Hs Hnd 2%nat 6 eq_refl)].
Defined.

(** Pointing a child of an interior page elsewhere changes that child alone;
    the separators and the other children stay. *)
Theorem interior_repoint_exact `{BuildProfile} n keys cs r i c :
  4096 <= n -> length keys = length cs -> Forall in_i64 keys ->
  Forall (fun c => 0 <= c <= u32_max) (cs ++ [r]) ->
  INTERIOR_HEADER_LEN + 14 * len keys <= usable_of n -> (i <= length cs)%nat -> 0 <= c <= u32_max ->
  exists buf buf', build_interior_page n keys (cs ++ [r]) = Ret buf /\
    (if decide (i < length cs)%nat then interior_set_child_at buf (Z.of_nat i) c
     else interior_set_rightmost buf c) = Ret buf' /\
    len buf' = n /\ interior_entries buf' = Ret (keys, <[i := c]> (cs ++ [r])).
Proof.
  intros Hn Hl Hk Hcs Hroom Hi Hc.
  destruct (build_interior_page_ok n keys cs r) as (buf & Hb & Hp & Hlen); [done..|].
  exists buf. case_decide as Hlt.
  - destruct (interior_set_child_at_ok _ buf keys cs r i c Hp Hlt Hc) as (buf' & Hs & Hp' & Hl').
    exists buf'. split_and!; [done|done|congruence|]. rewrite insert_app_l by done.
    by eapply interior_entries_ok.
  - destruct (interior_set_rightmost_ok _ buf keys cs r c Hp Hc) as (buf' & Hs & Hp' & Hl').
    exists buf'. split_and!; [done|done|congruence|]. assert (i = length cs) as -> by lia.
    rewrite insert_app_r_alt, Nat.sub_diag by done. by eapply interior_entries_ok.
Qed.

Lemma interior_repoint_exact_witness :
  let _ := Build_BuildProfile true in
  exists buf buf', build_interior_page 4096 [10; 20] [4; 5; 6] = Ret buf /\
    interior_set_child_at buf 1 9 = Ret buf' /\ interior_entries buf' = Ret ([10; 20], [4; 9; 6]).
Proof.
  intros prof. destruct (interior_repoint_exact 4096 [10; 20] [4; 5] 6 1 9) as (buf & buf' & Hb & Hs & _ & He);
    [lia|done|repeat constructor; vm_compute; discriminate|repeat constructor; vm_compute; discriminate|
     vm_compute; discriminate|simpl; lia|vm_compute; intuition congruence|].
  exists buf, buf'. by split_and!.
Defined.
