(* ===== verification/OverflowSpec.v ===== *)
(** * Overflow chains, written and read back *)

From S2P Require Import Prelude Runs Errors Codec Lexis Row Page Pager PageStore PageStoreSpec Layout Overflow LayoutSpec LeafSpec.

(** The bytes one overflow page holds. *)
Definition chunk_cap (ps : PageSize) : Z := ps_bytes ps - 13.

(** [chain ps v id b]: the pages from [id] hold the bytes [b], every page but the
    last full. *)
Inductive chain (ps : PageSize) (v : view) : Z -> bytes -> Prop :=
  | chain_nil : chain ps v 0 []
  | chain_cons id buf next chunk rest :
      page_at ps v id buf -> 0 < id ->
      at_offset buf 0 [Z_byte PAGE_TYPE_OVERFLOW] ->
      at_offset buf 1 (be_bytes 4 next) -> 0 <= next <= u32_max ->
      at_offset buf OVERFLOW_HEADER_LEN chunk ->
      1 <= len chunk <= chunk_cap ps -> (rest = [] \/ len chunk = chunk_cap ps) ->
      chain ps v next rest ->
      chain ps v id (chunk ++ rest).

Lemma chain_le ps v v' id b : view_le v v' -> chain ps v id b -> chain ps v' id b.
Proof.
  intros Hle. induction 1; [constructor|]. econstructor; try done. by eapply page_at_le.
Qed.

(** The pages a tail of [n] bytes takes. *)
Definition overflow_pages (ps : PageSize) (n : Z) : Z := (n + chunk_cap ps - 1) / chunk_cap ps.

(** The part of an encoded row that stays in its leaf, and the pages of the rest. *)
Definition local_size (ps : PageSize) (row : Row) : Z := Z.min (row_size row) (max_local ps).
Definition row_pages (ps : PageSize) (row : Row) : Z :=
  overflow_pages ps (Z.max 0 (row_size row - max_local ps)).

(** A row the engine can store whole. *)
Definition row_ok (row : Row) : Prop := row_wf row /\ row_fits row /\ row_size row <= u32_max.
#[export] Instance row_ok_dec row : Decision (row_ok row).
Proof. unfold row_ok; apply _. Defined.

(** What of a row is in the leaf and what in the chain. *)
Record cell_holds (ps : PageSize) (v : view) (c : LeafCell) (k : Z) (row : Row) : Prop := {
  ch_wf : row_wf row;
  ch_fits : row_fits row;
  ch_size : row_size row <= u32_max;
  ch_cell : cell_wf (max_local ps) c;
  ch_key : key c = k;
  ch_bytes : exists enc tail, encode row k = Ret enc /\ enc = local c ++ tail /\
    payload_len c = len enc /\ chain ps v (overflow_first c) tail;
}.

Lemma cell_holds_le ps v v' c k row :
  view_le v v' -> cell_holds ps v c k row -> cell_holds ps v' c k row.
Proof.
  intros Hle [? ? ? ? ? (enc & tail & ? & ? & ? & ?)]. split; try done.
  exists enc, tail. split_and!; try done. by eapply chain_le.
Qed.

(** The two parts of the chunks of a tail. *)
Lemma chunk_loop_ok cap fuel tail start :
  1 <= cap -> 0 <= start < len tail -> len tail - start <= Z.of_nat fuel -> exists full last,
    chunk_loop fuel tail cap start = Ret (full ++ [last]) /\
    Forall (fun c => len c = cap) full /\ 1 <= len last <= cap /\
    drop (Z.to_nat start) tail = concat full ++ last.
Proof.
  intros Hcap. revert start. induction fuel as [|fuel IH]; intros start Hs Hf; [lia|].
  cbn [chunk_loop]. replace (start <? len tail) with true by lia. cbv zeta.
  destruct (slice_Some tail start (Z.min (start + cap) (len tail) - start)) as [x Hx]; [lia..|].
  rewrite Hx. cbn [context mbind outcome_bind].
  pose proof (slice_len _ _ _ _ Hx) as Hxl.
  assert (Hdx : drop (Z.to_nat start) tail =
                x ++ drop (Z.to_nat (Z.min (start + cap) (len tail))) tail).
  { unfold slice in Hx. case_match; [|done]. injection Hx as <-.
    rewrite <-(take_drop (Z.to_nat (Z.min (start + cap) (len tail) - start)) (drop (Z.to_nat start) tail)) at 1.
    f_equal. rewrite drop_drop. f_equal. lia. }
  destruct (decide (start + cap < len tail)).
  - destruct (IH (Z.min (start + cap) (len tail))) as (full & last & -> & Hfull & Hlast & Hd); [lia|lia|].
    exists (x :: full), last. simpl. split_and!; try done; try lia.
    + constructor; [lia|done].
    + by rewrite Hdx, Hd, app_assoc.
  - exists [], x. replace (Z.min (start + cap) (len tail)) with (len tail) by lia.
    replace (chunk_loop fuel tail cap (len tail)) with (@Ret PinaxError (list bytes) []).
    2:{ destruct fuel; simpl; by rewrite Z.ltb_irrefl. }
    simpl. split_and!; try done; try lia. rewrite Hdx.
    replace (Z.min (start + cap) (len tail)) with (len tail) by lia.
    rewrite (drop_ge tail) by (unfold len; lia). by rewrite app_nil_r.
Qed.

Lemma len_concat_full cap (full : list bytes) :
  Forall (fun c => len c = cap) full -> len (concat full) = cap * len full.
Proof.
  induction 1 as [|c full Hc Hfull IH]; simpl; [unfold len; simpl; lia|].
  rewrite len_app, len_cons, IH, Hc. lia.
Qed.


Lemma overflow_page_ok n next chunk :
  13 + len chunk <= n -> 0 <= n -> exists buf, overflow_page n next chunk = Ret buf /\ len buf = n /\
    at_offset buf 0 [Z_byte PAGE_TYPE_OVERFLOW] /\ at_offset buf 1 (be_bytes 4 next) /\
    at_offset buf OVERFLOW_HEADER_LEN chunk.
Proof.
  intros Hn Hn0. pose proof (len_nonneg chunk). pose proof (len_zeros n Hn0) as Hz.
  unfold overflow_page, write_u8, write_u32, OVERFLOW_HEADER_LEN.
  destruct (write_bytes_ok (zeros n) 0 [Z_byte PAGE_TYPE_OVERFLOW]) as (b1 & -> & Hs1); [lia|len_solve|].
  pose proof (splice_len _ _ _ _ Hs1). simpl.
  destruct (write_bytes_ok b1 1 (be_bytes 4 next)) as (b2 & -> & Hs2); [lia|len_solve|].
  pose proof (splice_len _ _ _ _ Hs2). simpl.
  destruct (write_bytes_ok b2 5 chunk) as (b3 & -> & Hs3); [lia|len_solve|].
  pose proof (splice_len _ _ _ _ Hs3). exists b3. split_and!; [done|lia|..].
  - eapply at_offset_splice_other; [done|len_solve|].
    eapply at_offset_splice_other; [done|len_solve|]. by eapply at_offset_splice_same.
  - eapply at_offset_splice_other; [done|len_solve|]. by eapply at_offset_splice_same.
  - by eapply at_offset_splice_same.
Qed.

Section overflow.
Context {S : Type} `{PageStoreLaws S} {J : PinaxError -> S -> Prop} `{!StopsIn J} `{BuildProfile}.
Implicit Types s : S.

(** Linking chunks in front of a chain. *)
Lemma link_chunks_ok chunks next rest s :
  store_inv s -> store_next s + len chunks <= store_limit -> 0 <= next <= u32_max ->
  let ps := pool_page_size s in
  chain ps (store_view s) next rest ->
  Forall (fun c => 1 <= len c <= chunk_cap ps) chunks ->
  Forall (fun c => len c = chunk_cap ps) (tail chunks) ->
  (rest = [] \/ Forall (fun c => len c = chunk_cap ps) chunks) ->
  runs J (link_chunks chunks next) s (fun id s' =>
    extends (len chunks) s s' /\ chain ps (store_view s') id (concat (reverse chunks) ++ rest) /\
    0 <= id <= u32_max /\ (chunks = [] -> id = next) /\ (chunks <> [] -> 0 < id)).
Proof.
  intros Hinv Hn Hnext ps. revert next rest s Hinv Hn Hnext ps.
  induction chunks as [|c chunks IH]; intros next rest s Hinv Hn Hnext ps Hch Hsz Hfull Hlast.
  { cbn [link_chunks]. apply runs_ret. split_and!; [by apply extends_refl|done|lia|lia|done|done]. }
  cbn [link_chunks]. apply runs_bind_self.
  pose proof (store_page_size_wf s Hinv) as Hwf. pose proof (page_size_range _ Hwf) as Hps.
  rewrite bytes_usize_wf by done. inversion Hsz as [|? ? Hc Hsz']; subst.
  unfold chunk_cap in Hc. fold ps in Hps.
  destruct (overflow_page_ok (ps_bytes ps) next c) as (buf & Hbuf & Hl & Ht & Hnx & Hck); [lia|lia|].
  eapply runs_bind_lift; [exact Hbuf|].
  rewrite len_cons in Hn. pose proof (len_nonneg chunks).
  pose proof (store_next_range s Hinv) as Hr. unfold FIRST_DATA_PAGE_ID in Hr.
  apply (put_page (fun id => link_chunks chunks id)); [done|lia|done|].
  intros s' Hext Hpage. pose proof (ext_inv _ _ _ Hext) as Hinv'.
  pose proof (ext_page_size _ _ _ Hext) as Hps'. pose proof (ext_next _ _ _ Hext) as Hnx'.
  assert (Hch' : chain ps (store_view s') (store_next s) (c ++ rest)).
  { econstructor; try done; [lia| |].
    - destruct Hlast as [->|Hf]; [by left|right]. by inversion Hf.
    - eapply chain_le; [apply Hext|done]. }
  eapply runs_mono.
  { apply (IH (store_next s) (c ++ rest) s'); try done; try lia.
    - by rewrite Hps'.
    - by rewrite Hps'.
    - rewrite Hps'. simpl in Hfull. destruct Hfull; [constructor|done].
    - right. rewrite Hps'. exact Hfull. }
  simpl. intros id s'' (Hext' & Hchain & Hid & Hnil & Hpos). rewrite Hps' in Hchain. split_and!.
  - rewrite len_cons. by eapply extends_trans.
  - rewrite reverse_cons, concat_app. simpl. by rewrite app_nil_r, <-app_assoc.
  - lia.
  - lia.
  - done.
  - intros _. destruct chunks; [|by apply Hpos]. rewrite Hnil by done. lia.
Qed.

Lemma overflow_chunk_cap_ok ps : page_size_wf ps -> overflow_chunk_cap (ps_bytes ps) = chunk_cap ps.
Proof.
  intros ?%page_size_range.
  unfold overflow_chunk_cap, chunk_cap, checksum_len_u32, CHECKSUM_LEN_U32, CHECKSUM_LEN, OVERFLOW_HEADER_LEN, saturating_sub.
  rewrite try_usize_Some by (unfold usize_max, u64_max; lia). simpl. lia.
Qed.

Lemma chunk_count ps (full : list bytes) (last : bytes) tail :
  0 < chunk_cap ps -> Forall (fun c => len c = chunk_cap ps) full -> 1 <= len last <= chunk_cap ps ->
  tail = concat full ++ last -> len (full ++ [last]) = overflow_pages ps (len tail).
Proof.
  intros Hc Hf Hl ->. unfold overflow_pages. rewrite !len_app, (len_concat_full _ _ Hf).
  rewrite len_cons, len_nil. apply (Z.div_unique _ _ _ (len last - 1)); lia.
Qed.

Lemma overflow_pages_nonneg ps n : 0 < chunk_cap ps -> 0 <= n -> 0 <= overflow_pages ps n.
Proof. intros. apply Z.div_pos; lia. Qed.

Lemma write_overflow_chain_ok tail s :
  store_inv s -> let ps := pool_page_size s in
  store_next s + overflow_pages ps (len tail) <= store_limit ->
  runs J (write_overflow_chain tail) s (fun id s' =>
    extends (overflow_pages ps (len tail)) s s' /\ chain ps (store_view s') id tail /\
    0 <= id <= u32_max).
Proof.
  intros Hinv ps Hn. pose proof (store_page_size_wf s Hinv) as Hwf.
  pose proof (page_size_range _ Hwf) as Hps. fold ps in Hwf, Hps.
  unfold write_overflow_chain. case_bool_decide as Ht.
  { subst. apply runs_ret. rewrite len_nil in *. unfold overflow_pages.
    assert (1 < chunk_cap ps) by (unfold chunk_cap; lia). rewrite Z.div_small by lia.
    split_and!; [by apply extends_refl|constructor|done|done]. }
  apply runs_bind_self. fold ps. rewrite overflow_chunk_cap_ok by done.
  destruct (chunk_loop_ok (chunk_cap ps) (length tail) tail 0)
    as (full & last & Hcl & Hfull & Hlast & Hd).
  { unfold chunk_cap. lia. }
  { unfold len. destruct tail; simpl in *; [done|lia]. }
  { unfold len. lia. }
  rewrite drop_0 in Hd. eapply runs_bind_lift; [exact Hcl|].
  pose proof (chunk_count ps full last tail ltac:(unfold chunk_cap; lia) Hfull Hlast Hd) as Hcnt.
  assert (Hlr : len (reverse (full ++ [last])) = overflow_pages ps (len tail)).
  { rewrite <-Hcnt. unfold len. by rewrite length_reverse. }
  assert (Hlen : forall c : bytes, len c = chunk_cap ps -> 1 <= len c <= chunk_cap ps)
    by (intros c ->; unfold chunk_cap; lia).
  eapply runs_mono.
  - eapply (link_chunks_ok _ 0 [] s Hinv); fold ps; [by rewrite Hlr|unfold u32_max; lia|constructor| | |by left].
    + apply Forall_reverse, Forall_app. split; [|by constructor]. by eapply Forall_impl.
    + rewrite reverse_snoc. simpl. by apply Forall_reverse.
  - simpl. intros id s' (Hext & Hch & Hid & _). rewrite Hlr in Hext.
    rewrite app_nil_r, reverse_involutive, concat_app in Hch. simpl in Hch.
    rewrite app_nil_r, <-Hd in Hch. done.
Qed.

(** A page of a chain, read: the type, the next page and the chunk. *)
Lemma chain_page_read ps v id buf0 buf next chunk :
  page_size_wf ps -> page_at ps v id buf0 -> page_at ps v id buf ->
  at_offset buf0 0 [Z_byte PAGE_TYPE_OVERFLOW] -> at_offset buf0 1 (be_bytes 4 next) ->
  0 <= next <= u32_max -> at_offset buf0 OVERFLOW_HEADER_LEN chunk -> len chunk <= chunk_cap ps ->
  expect_page_type id buf PAGE_TYPE_OVERFLOW "overflow" = Ret tt /\
  read_u32 buf 1 = Ret next /\ read_vec buf OVERFLOW_HEADER_LEN (len chunk) = Ret chunk.
Proof.
  intros Hwf [Hv Hl] [Hv' Hl'] Ht Hn Hr Hc Hcap. pose proof (page_size_range _ Hwf).
  assert (Htr : forall o x, o + len x <= ps_bytes ps - 8 -> at_offset buf0 o x -> at_offset buf o x).
  { intros o x Hx. apply at_offset_content; [congruence|lia|unfold CHECKSUM_LEN; lia]. }
  unfold chunk_cap, OVERFLOW_HEADER_LEN in *. pose proof (len_nonneg chunk).
  apply Htr in Ht; [|len_solve]. apply Htr in Hn; [|len_solve]. apply Htr in Hc; [|lia].
  split_and!.
  - unfold expect_page_type. by rewrite (read_u8_at _ _ _ Ht).
  - by apply read_u32_at.
  - by apply read_vec_at.
Qed.

Lemma read_chain_loop_ok fuel id tail out v s :
  store_inv s -> let ps := pool_page_size s in
  view_le v (store_view s) -> chain ps v id tail -> (length tail <= fuel)%nat ->
  runs J (read_chain_loop fuel id (len out + len tail) out) s (fun b s' =>
    b = out ++ tail /\ extends 0 s s').
Proof.
  revert id tail out s. induction fuel as [|fuel IH]; intros id tail out s Hinv ps Hle Hch Hf.
  { destruct tail; simpl in Hf; [|lia]. cbn [read_chain_loop].
    replace (len out <? len out + len (@nil byte)) with false by (rewrite len_nil; lia).
    rewrite andb_false_r. apply runs_ret. rewrite app_nil_r. split; [done|by apply extends_refl]. }
  cbn [read_chain_loop]. pose proof (store_page_size_wf s Hinv) as Hwf.
  pose proof (page_size_range _ Hwf) as Hps. fold ps in Hwf, Hps.
  inversion Hch as [|? buf0 next chunk rest Hpage Hid Ht Hnx Hnr Hck Hsz Hfull Hrest]; subst.
  { simpl. apply runs_ret. rewrite app_nil_r. split; [done|by apply extends_refl]. }
  rewrite len_app in *. pose proof (len_nonneg rest).
  replace (negb (id =? 0) && (len out <? len out + (len chunk + len rest))) with true by lia.
  apply runs_bind_self.
  eapply runs_bind with (P := fun buf s' => extends 0 s s' /\ page_at ps v id buf).
  { by eapply get_page. }
  intros buf s' [Hext Hpage']. fold ps.
  destruct (chain_page_read ps v id buf0 buf next chunk) as (He & Hn' & Hc'); try done; [lia|].
  eapply runs_bind_lift; [exact He|]. eapply runs_bind_lift; [exact Hn'|]. cbv zeta.
  rewrite overflow_chunk_cap_ok by done.
  replace (Z.min (len out + (len chunk + len rest) - len out) (chunk_cap ps)) with (len chunk).
  2:{ destruct Hfull as [->|]; [rewrite len_nil|]; lia. }
  eapply runs_bind_lift; [exact Hc'|].
  replace (len out + (len chunk + len rest)) with (len (out ++ chunk) + len rest) by (rewrite len_app; lia).
  pose proof (ext_page_size _ _ _ Hext) as Hps'.
  eapply runs_mono.
  - apply (IH next rest (out ++ chunk) s'); [apply Hext| |by rewrite Hps'|].
    + etrans; [done|apply Hext].
    + rewrite length_app in Hf. unfold len in Hsz. lia.
  - simpl. intros b s'' [-> Hext']. split; [by rewrite <-app_assoc|by eapply extends_trans0].
Qed.

Lemma max_local_wf ps : page_size_wf ps -> max_local ps = ps_bytes ps - 43.
Proof.
  intros ?%page_size_range. unfold max_local, usable_space, saturating_sub, CHECKSUM_LEN_U32. lia.
Qed.

(** [build_row_cell] makes a cell that holds the row. *)
Lemma build_row_cell_ok k row s :
  store_inv s -> let ps := pool_page_size s in
  in_i64 k -> row_ok row -> store_next s + row_pages ps row <= store_limit ->
  runs J (build_row_cell k row) s (fun b s' => exists c,
    b = cell_bytes c /\ cell_holds ps (store_view s') c k row /\
    len (local c) = local_size ps row /\ extends (row_pages ps row) s s').
Proof.
  intros Hinv ps Hk (Hwf & Hfit & Hsize) Hn.
  pose proof (store_page_size_wf s Hinv) as Hpwf. fold ps in Hpwf.
  pose proof (page_size_range _ Hpwf) as Hps. pose proof (max_local_wf _ Hpwf) as Hml.
  destruct (encode_fits row k Hfit) as [enc Henc]. destruct (encode_size _ _ _ Henc) as [_ Hlen].
  unfold build_row_cell. eapply runs_bind_lift; [exact Henc|].
  pose proof (len_nonneg enc).
  eapply runs_bind with (P := fun '(loc, ov) s' => exists tail, enc = loc ++ tail /\
    len loc = local_size ps row /\ chain ps (store_view s') ov tail /\ 0 <= ov <= u32_max /\
    extends (row_pages ps row) s s').
  - unfold spill_if_needed, row_pages, local_size in *. apply runs_bind_self. fold ps.
    rewrite try_usize_Some by (unfold usize_max, u64_max; lia). cbn [from_option Datatypes.id]. cbv zeta.
    rewrite Hml in Hn |- *. case_match eqn:E.
    { apply runs_ret. exists []. rewrite app_nil_r. unfold overflow_pages.
      rewrite Z.max_l by lia. rewrite Z.div_small by (unfold chunk_cap; lia).
      split_and!; [done|lia|constructor|done|done|by apply extends_refl]. }
    destruct (slice_Some enc 0 (ps_bytes ps - 43)) as [loc Hloc]; [lia..|].
    destruct (slice_Some enc (ps_bytes ps - 43) (len enc - (ps_bytes ps - 43))) as [tl Htl]; [lia..|].
    rewrite Hloc, Htl. eapply runs_bind_lift; [done|]. eapply runs_bind_lift; [done|].
    pose proof (slice_len _ _ _ _ Hloc). pose proof (slice_len _ _ _ _ Htl) as Htll.
    assert (Henc' : enc = loc ++ tl).
    { unfold slice in Hloc, Htl. repeat case_match; simplify_eq. rewrite drop_0.
      rewrite (take_ge (drop _ _)) by (rewrite length_drop; unfold len in *; lia).
      by rewrite take_drop. }
    replace (Z.max 0 (row_size row - (ps_bytes ps - 43))) with (len tl) in * by lia.
    eapply runs_bind; [by apply (write_overflow_chain_ok tl)|].
    simpl. intros ov s' (Hext & Hch & Hov). apply runs_ret. exists tl.
    split_and!; [done|lia|done|lia|lia|done].
  - intros [loc ov] s' (tail & Henc' & Hl & Hch & Hov & Hext). cbv zeta.
    rewrite try_u32_Some by lia. cbn [from_option Datatypes.id]. apply runs_ret.
    exists (mkLeafCell k (len enc) ov loc).
    split_and!; [done| |done|done]. split; simpl; try done.
    + split; simpl; [done|lia|done|]. unfold leaf_local_len, local_size in *. congruence.
    + by exists enc, tail.
Qed.

(** [reassemble] gives back the bytes the row was encoded to. *)
Lemma reassemble_ok c k row v s :
  store_inv s -> let ps := pool_page_size s in
  view_le v (store_view s) -> cell_holds ps v c k row ->
  runs J (reassemble c) s (fun b s' => decode b = Ret row /\ extends 0 s s').
Proof.
  intros Hinv ps Hle [Hwf _ Hsz Hc _ (enc & tail & Henc & Hsplit & Hpl & Hch)].
  assert (Hdec : decode enc = Ret row).
  { rewrite <-(app_nil_r enc). by eapply decode_encode_app. }
  pose proof (store_page_size_wf s Hinv) as Hpwf. fold ps in Hpwf.
  unfold reassemble. case_match eqn:E.
  { inversion Hch; [|lia]. apply runs_ret. subst tail. rewrite app_nil_r in Hsplit. subst.
    split; [done|by apply extends_refl]. }
  apply runs_bind_self. fold ps.
  inversion Hch as [|? ? ? chunk rest _ Hid _ _ _ _ Hcl]; [lia|]. subst tail.
  pose proof (cw_local _ _ Hc) as Hl. unfold leaf_local_len in Hl. rewrite Hpl in Hl.
  pose proof (len_nonneg rest). pose proof (len_nonneg (local c)).
  assert (Hle' : len enc = len (local c) + (len chunk + len rest)) by (rewrite Hsplit, !len_app; lia).
  pose proof (encode_size _ _ _ Henc) as [_ Hes].
  unfold saturating_sub. rewrite try_usize_Some by (unfold usize_max, u64_max, u32_max in *; lia).
  cbn [from_option Datatypes.id]. cbv zeta.
  replace (Z.max 0 (payload_len c - max_local ps)) with (len (chunk ++ rest)) by (rewrite len_app; lia).
  eapply runs_bind.
  - unfold read_overflow_chain.
    apply (read_chain_loop_ok (Z.to_nat (len (chunk ++ rest))) _ (chunk ++ rest) [] v); try done.
    unfold len. lia.
  - simpl. intros b s' [-> Hext]. apply runs_ret. split; [|done].
    by rewrite <-Hsplit.
Qed.
End overflow.

(** ** A row in a cell and its overflow chain *)

