(* ===== verification/BTree.v ===== *)
(** * The B+tree operations ([crates/pinax/src/btree/mod.rs])

    [fuel] bounds the depth of the tree walked: the loops of the source that
    follow child pointers have no bound of their own. *)

From S2P Require Import Prelude Errors Codec Lexis Row Page Pager PageStore Layout Overflow Mutate.

Section btree.
Context {S : Type} `{PageStore S} `{BuildProfile}.
Abbreviation Pool := (M S PinaxError).

(** The cells of a leaf with the new one inserted, as
    [leaf_split_with_new_cell] collects them. *)
Definition collect_cells (leaf_buf : bytes) (max_local insert_idx : Z) (new_cell : bytes)
    : result (list bytes) :=
  n ← num_cells leaf_buf;
  all_cells ← traverse (fun i =>
      offset ← pointer_at leaf_buf LEAF_HEADER_LEN i;
      len_ ← leaf_cell_byte_len leaf_buf i max_local;
      read_vec leaf_buf offset len_) (seqZ 0 n);
  let clamped_idx := Z.min insert_idx (len all_cells) in
  Ret (vec_insert (Z.to_nat clamped_idx) new_cell all_cells).

(** A fresh leaf page holding [cells] in order. *)
Definition build_leaf_page (page_size : Z) (cells : list bytes) : result bytes :=
  buf ← init_leaf (zeros page_size);
  foldM (fun buf '(i, cell) => insert_cell_at buf LEAF_HEADER_LEN (Z.of_nat i) cell)
    buf (imap pair cells).

(** [leaf_split_with_new_cell] *)
Definition leaf_split_with_new_cell (leaf_buf : bytes) (insert_idx : Z) (new_cell : bytes)
    : Pool NodeResult :=
  s ← get_self;
  let page_size := bytes_usize (pool_page_size s) in
  let max_local := max_local (pool_page_size s) in
  all_cells ← lift (collect_cells leaf_buf max_local insert_idx new_cell);
  let mid := (length all_cells / 2)%nat in
  let left_half := take mid all_cells in
  let right_half := drop mid all_cells in
  left_buf ← lift (build_leaf_page page_size left_half);
  right_buf ← lift (build_leaf_page page_size right_half);
  first ← lift (context (head right_half) (Fatal (BufferBounds 0 1 0)));
  separator_key ← lift (read_i64 first 0);
  left_id ← pool_allocate_page_id;
  pool_put_new left_id left_buf ;;
  right_id ← pool_allocate_page_id;
  pool_put_new right_id right_buf ;;
  mret (Split left_id right_id separator_key).

(** [leaf_insert_or_split] *)
Definition leaf_insert_or_split (leaf_buf : bytes) (insert_idx : Z) (cell : bytes)
    : Pool NodeResult :=
  let needed := default u16_max (try_u16 (len cell + POINTER_LEN)) in
  free ← lift (free_space leaf_buf LEAF_HEADER_LEN);
  if needed <=? free then
    buf ← lift (insert_cell_at leaf_buf LEAF_HEADER_LEN insert_idx cell);
    id ← pool_allocate_page_id;
    pool_put_new id buf ;;
    mret (Replaced id)
  else leaf_split_with_new_cell leaf_buf insert_idx cell.

(** [path.last()] *)
Definition path_last (path : list Z) : result Z :=
  context (last path) (Fatal (BufferBounds 0 1 0)).

(** The [for] loop of [insert], [update] and [delete] over the ancestors,
    deepest first. *)
Fixpoint propagate (ancestors : list Z) (old_child_id : Z) (result : NodeResult) : Pool NodeResult :=
  match ancestors with
  | [] => mret result
  | ancestor_id :: ancestors =>
    result ← apply_result_to_interior ancestor_id old_child_id result;
    propagate ancestors ancestor_id result
  end.

(** [path.get(..path.len() - 1).iter().rev()] *)
Definition ancestors (path : list Z) : list Z := reverse (take (length path - 1) path).

(** [insert] *)
Definition insert (fuel : nat) (key : Z) (row : Row) : Pool Z :=
  s ← get_self;
  let root := pool_root_page_id s in
  if root =? EMPTY_TREE_ROOT then
    cell ← build_row_cell key row;
    s ← get_self;
    buf ← lift (init_leaf (zeros (bytes_usize (pool_page_size s))));
    buf ← lift (insert_cell_at buf LEAF_HEADER_LEN 0 cell);
    id ← pool_allocate_page_id;
    pool_put_new id buf ;;
    pool_commit id ;;
    mret id
  else
    path ← descend_path fuel root key;
    leaf_id ← lift (path_last path);
    leaf_buf ← pool_get leaf_id;
    found ← lift (leaf_search leaf_buf key);
    insert_idx ← lift (match found with
                       | Found _ => Throw (Permanent (KeyAlreadyExists key))
                       | NotFoundAt idx => Ret idx
                       end);
    cell ← build_row_cell key row;
    result ← leaf_insert_or_split leaf_buf insert_idx cell;
    result ← propagate (ancestors path) leaf_id result;
    new_root ← finalize_root result;
    pool_commit new_root ;;
    mret new_root.

(** The loop of [get] *)
Fixpoint get_loop (fuel : nat) (current key max_local : Z) : Pool (option Row) :=
  match fuel with
  | O => lift Diverge
  | Datatypes.S fuel =>
    buf ← pool_get current;
    page_type ← lift (read_u8 buf 0);
    if page_type =? PAGE_TYPE_LEAF then
      found ← lift (leaf_search buf key);
      match found with
      | Found idx =>
        cell ← lift (leaf_cell_at buf idx max_local);
        full ← reassemble cell;
        row ← lift (decode full);
        mret (Some row)
      | NotFoundAt _ => mret None
      end
    else
      lift (expect_page_type current buf PAGE_TYPE_INTERIOR "interior") ;;
      next ← lift (interior_find_child_for_key buf key);
      get_loop fuel next key max_local
  end.

(** [get] *)
Definition get (fuel : nat) (key : Z) : Pool (option Row) :=
  s ← get_self;
  let root := pool_root_page_id s in
  if root =? EMPTY_TREE_ROOT then mret None
  else get_loop fuel root key (max_local (pool_page_size s)).

(** The index of [key] in its leaf, for [update] and [delete] *)
Definition find_existing (leaf_buf : bytes) (key : Z) : result Z :=
  found ← leaf_search leaf_buf key;
  match found with
  | Found idx => Ret idx
  | NotFoundAt _ => Throw (Permanent (KeyNotFound key))
  end.

(** [update] *)
Definition update (fuel : nat) (key : Z) (row : Row) : Pool Z :=
  s ← get_self;
  let root := pool_root_page_id s in
  if root =? EMPTY_TREE_ROOT then lift (Throw (Permanent (KeyNotFound key)))
  else
    path ← descend_path fuel root key;
    leaf_id ← lift (path_last path);
    leaf_buf ← pool_get leaf_id;
    idx ← lift (find_existing leaf_buf key);
    new_cell ← build_row_cell key row;
    '(buf, _) ← lift (remove_cell_at leaf_buf LEAF_HEADER_LEN idx);
    result ← leaf_insert_or_split buf idx new_cell;
    result ← propagate (ancestors path) leaf_id result;
    new_root ← finalize_root result;
    pool_commit new_root ;;
    mret new_root.

(** [delete] *)
Definition delete (fuel : nat) (key : Z) : Pool (Z * Row) :=
  s ← get_self;
  let root := pool_root_page_id s in
  if root =? EMPTY_TREE_ROOT then lift (Throw (Permanent (KeyNotFound key)))
  else
    let max_local := max_local (pool_page_size s) in
    path ← descend_path fuel root key;
    leaf_id ← lift (path_last path);
    leaf_buf ← pool_get leaf_id;
    idx ← lift (find_existing leaf_buf key);
    removed_cell ← lift (leaf_cell_at leaf_buf idx max_local);
    removed_full ← reassemble removed_cell;
    removed_row ← lift (decode removed_full);
    '(buf, _) ← lift (remove_cell_at leaf_buf LEAF_HEADER_LEN idx);
    new_leaf_id ← pool_allocate_page_id;
    pool_put_new new_leaf_id buf ;;
    result ← propagate (ancestors path) leaf_id (Replaced new_leaf_id);
    new_root ← finalize_root result;
    new_root ← collapse_root_if_needed new_root;
    pool_commit new_root ;;
    mret (new_root, removed_row).

(** The [for] loop of [scan_node] over the cells of a leaf *)
Fixpoint scan_cells (buf : bytes) (max_local : Z) (idxs : list Z) : Pool (list (Z * Row)) :=
  match idxs with
  | [] => mret []
  | i :: idxs =>
    cell ← lift (leaf_cell_at buf i max_local);
    full ← reassemble cell;
    row ← lift (decode full);
    rest ← scan_cells buf max_local idxs;
    mret ((key cell, row) :: rest)
  end.

(** The [for] loop of [scan_node] over children, for a given [scan_node] *)
Fixpoint scan_children (scan_node : Z -> Pool (list (Z * Row))) (children : list Z)
    : Pool (list (Z * Row)) :=
  match children with
  | [] => mret []
  | child :: children =>
    out ← scan_node child;
    rest ← scan_children scan_node children;
    mret (out ++ rest)
  end.

(** [scan_node]: what it appends to [out] *)
Fixpoint scan_node (fuel : nat) (id : Z) : Pool (list (Z * Row)) :=
  match fuel with
  | O => lift Diverge
  | Datatypes.S fuel =>
    buf ← pool_get id;
    page_type ← lift (read_u8 buf 0);
    if page_type =? PAGE_TYPE_LEAF then
      s ← get_self;
      n ← lift (num_cells buf);
      scan_cells buf (max_local (pool_page_size s)) (seqZ 0 n)
    else
      lift (expect_page_type id buf PAGE_TYPE_INTERIOR "interior") ;;
      '(_, children) ← lift (interior_entries buf);
      scan_children (scan_node fuel) children
  end.

(** [scan] *)
Definition scan (fuel : nat) : Pool (list (Z * Row)) :=
  s ← get_self;
  let root := pool_root_page_id s in
  if root =? EMPTY_TREE_ROOT then mret [] else scan_node fuel root.
End btree.
