(* ===== verification/GuardedReads.v ===== *)
(** * The reads of the tree on a damaged store

    Lookups and scans on any store that is [GuardedReads]: where they do not report the
    damage they answer what they answer on the store as it was. *)

From S2P Require Import Prelude Errors Codec Lexis Row Page Pager PageStore Guarded.
From S2P Require Import Layout Overflow Mutate BTree.

(** What the reads of the tree need. *)
Class GuardedReads (S : Type) `{PageStore S} `{Guard S PinaxError} := {
  gs_page_size_calm s : pool_page_size (calm s) = pool_page_size s;
  gs_root_calm s : pool_root_page_id (calm s) = pool_root_page_id s;
  gs_get id : guarded (pool_get id) (fun _ => True);
}.

Abbreviation any := (fun _ => True).

Section reads.
Context {S : Type} `{GuardedReads S} `{BuildProfile}.

Lemma guarded_get {A} id (f : bytes -> M S PinaxError A) (Q : A -> Prop) :
  (forall buf, guarded (f buf) Q) -> guarded (pool_get id ≫= f) Q.
Proof. intros Hf. eapply guarded_bind; [apply gs_get|]. intros buf _. apply Hf. Qed.

(** Page size and root are the same, calm or not. *)
Lemma guarded_self {A} (f : S -> M S PinaxError A) (Q : A -> Prop) :
  (forall s, f (calm s) = f s) -> (forall s, guarded (f s) Q) -> guarded (get_self ≫= f) Q.
Proof. intros Hf Hg. by apply guarded_bind_self. Qed.

(** One construct of the monad, then the rest. *)
Ltac follow_step :=
  cbv zeta;
  match goal with
  | |- guarded (lift _ ≫= _) _ => apply guarded_bind_lift; intros ? ?
  | |- guarded (pool_get _ ≫= _) _ => apply guarded_get; intros ?
  | |- guarded (get_self ≫= _) _ =>
      apply guarded_self; [intros ?; by rewrite ?gs_page_size_calm, ?gs_root_calm|intros ?]
  | |- guarded (if ?b then _ else _) _ => destruct b eqn:?
  | |- guarded (match ?x with _ => _ end) _ => destruct x eqn:?
  | |- guarded (mret _) _ => by apply guarded_ret
  | |- guarded (lift _) _ => apply guarded_lift; intros ? ?
  end.
Ltac follow := repeat follow_step; try done.

Lemma read_chain_loop_guarded fuel : forall current total out,
  guarded (read_chain_loop fuel current total out : M S PinaxError bytes) any.
Proof.
  induction fuel as [|fuel IH]; intros current total out; cbn [read_chain_loop]; follow.
Qed.

Lemma reassemble_guarded cell : guarded (reassemble cell : M S PinaxError bytes) any.
Proof.
  unfold reassemble, read_overflow_chain. follow.
  eapply guarded_bind; [apply read_chain_loop_guarded|]. intros. follow.
Qed.

Lemma get_loop_guarded fuel : forall id key ml,
  guarded (get_loop fuel id key ml : M S PinaxError (option Row)) any.
Proof.
  induction fuel as [|fuel IH]; intros id key ml; cbn [get_loop]; [by apply guarded_lift|].
  follow. eapply guarded_bind; [apply reassemble_guarded|]. intros. follow.
Qed.

Lemma get_guarded fuel key : guarded (BTree.get fuel key : M S PinaxError (option Row)) any.
Proof. unfold BTree.get. follow. apply get_loop_guarded. Qed.

Lemma scan_cells_guarded buf ml idxs :
  guarded (scan_cells buf ml idxs : M S PinaxError (list (Z * Row))) any.
Proof.
  induction idxs as [|i idxs IH]; cbn [scan_cells]; follow.
  eapply guarded_bind; [apply reassemble_guarded|]. intros. follow_step.
  eapply guarded_bind; [apply IH|]. intros. follow.
Qed.

Lemma scan_children_guarded (f : Z -> M S PinaxError (list (Z * Row))) children :
  (forall c, guarded (f c) any) -> guarded (scan_children f children) any.
Proof.
  intros Hf. induction children as [|c children IH]; cbn [scan_children]; [follow|].
  eapply guarded_bind; [apply Hf|]. intros. eapply guarded_bind; [apply IH|]. intros. follow.
Qed.

Lemma scan_node_guarded fuel : forall id,
  guarded (scan_node fuel id : M S PinaxError (list (Z * Row))) any.
Proof.
  induction fuel as [|fuel IH]; intros id; cbn [scan_node]; follow.
  - apply scan_cells_guarded.
  - by apply scan_children_guarded.
Qed.

Lemma scan_guarded fuel : guarded (BTree.scan fuel : M S PinaxError (list (Z * Row))) any.
Proof. unfold BTree.scan. follow. apply scan_node_guarded. Qed.
End reads.
