(* ===== verification/TreeSpec.v ===== *)
(** * The B+tree as pages, and what path copying does to it

    [tree v d id lo hi kvs]: in the pages [v], the page [id] is the root of a tree
    of depth [d] whose keys are in [lo..hi) and which holds the rows [kvs] in
    order. The view only grows, so a tree stays a tree. *)

From S2P Require Import Prelude Runs Errors Codec Lexis Row Page Pager PageStore PageStoreSpec Layout Overflow Mutate.
From S2P Require Import LayoutSpec LeafSpec InteriorSpec OverflowSpec BTree.

Abbreviation kv := (Z * Row)%type.

(** ** Ascending lists of keys *)

Lemma ascending_app l k :
  ascending (l ++ k) <-> ascending l /\ ascending k /\ (forall x y, x ∈ l -> y ∈ k -> x < y).
Proof.
  split.
  - intros Ha. split_and!.
    + intros i j x y Hij Hx Hy. apply (Ha i j); [done|..]; by apply lookup_app_l_Some.
    + intros i j x y Hij Hx Hy. apply (Ha (length l + i)%nat (length l + j)%nat); [lia|..];
        rewrite lookup_app_r by lia; by rewrite Nat.add_sub_swap, Nat.sub_diag by lia.
    + intros x y [i Hx]%list_elem_of_lookup [j Hy]%list_elem_of_lookup.
      apply (Ha i (length l + j)%nat).
      * apply lookup_lt_Some in Hx. lia.
      * by apply lookup_app_l_Some.
      * rewrite lookup_app_r by lia. by rewrite Nat.add_sub_swap, Nat.sub_diag by lia.
  - intros (Hl & Hk & Hlk) i j x y Hij Hx Hy.
    apply lookup_app_Some in Hx as [Hx|[? Hx]], Hy as [Hy|[? Hy]].
    + by eapply Hl.
    + apply Hlk; by eapply list_elem_of_lookup_2.
    + apply lookup_lt_Some in Hy. lia.
    + eapply (Hk (i - length l)%nat (j - length l)%nat); [lia|done..].
Qed.

Lemma ascending_nil : ascending [].
Proof. by intros i j x y ?. Qed.

Lemma ascending_singleton x : ascending [x].
Proof. intros i j a b Hij Ha%lookup_lt_Some Hb%lookup_lt_Some. simpl in *. lia. Qed.

Lemma ascending_NoDup l : ascending l -> NoDup l.
Proof.
  intros Ha. apply NoDup_alt. intros i j x Hi Hj.
  destruct (decide (i = j)); [done|]. destruct (decide (i < j)%nat).
  - specialize (Ha i j x x ltac:(lia) Hi Hj). lia.
  - specialize (Ha j i x x ltac:(lia) Hj Hi). lia.
Qed.

(** Ascending, and within [lo..hi). *)
Definition sorted_in (lo hi : Z) (kvs : list kv) : Prop :=
  ascending kvs.*1 /\ Forall (fun k => lo <= k < hi) kvs.*1.

Lemma sorted_in_app lo mid hi l k :
  lo <= mid <= hi -> sorted_in lo mid l -> sorted_in mid hi k -> sorted_in lo hi (l ++ k).
Proof.
  intros Hm [Hl Fl] [Hk Fk]. rewrite Forall_forall in Fl, Fk. split.
  - rewrite fmap_app. apply ascending_app. split_and!; [done..|].
    intros x y Hx%Fl Hy%Fk. lia.
  - rewrite fmap_app. apply Forall_forall. intros x [Hx%Fl|Hx%Fk]%elem_of_app; lia.
Qed.

Lemma sorted_in_nil lo hi : sorted_in lo hi [].
Proof. split; [apply ascending_nil|constructor]. Qed.

(** ** Sequences of subtrees

    [segs P lo hi es kvs]: the entries [es], each a key and a child, cut [lo..hi)
    into adjacent ranges, each ending at its key; the children hold [kvs]. *)
Section segs.
Implicit Types P : Z -> Z -> Z -> list kv -> Prop.

Fixpoint segs P (lo hi : Z) (es : list (Z * Z)) (kvs : list kv) : Prop :=
  match es with
  | [] => lo = hi /\ kvs = []
  | (k, c) :: es => exists kvs1 kvs2, kvs = kvs1 ++ kvs2 /\ lo <= k /\ P c lo k kvs1 /\
      segs P k hi es kvs2
  end.

Lemma segs_app P lo hi es1 es2 kvs :
  segs P lo hi (es1 ++ es2) kvs <-> exists mid kvs1 kvs2,
    segs P lo mid es1 kvs1 /\ segs P mid hi es2 kvs2 /\ kvs = kvs1 ++ kvs2.
Proof.
  revert lo kvs. induction es1 as [|[k c] es1 IH]; intros lo kvs; simpl.
  { split; [|naive_solver]. intros. by exists lo, [], kvs. }
  setoid_rewrite IH. split.
  - intros (l1 & ? & -> & ? & ? & mid & l2 & l3 & ? & ? & ->).
    exists mid, (l1 ++ l2), l3. rewrite app_assoc. split_and!; eauto 10.
  - intros (mid & ? & l3 & (l1 & l2 & -> & ? & ? & ?) & ? & ->).
    exists l1, (l2 ++ l3). rewrite app_assoc. split_and!; eauto 10.
Qed.

Lemma segs_le P lo hi es kvs : segs P lo hi es kvs -> lo <= hi.
Proof.
  revert lo kvs. induction es as [|[k c] es IH]; intros lo kvs; simpl; [lia|].
  intros (? & ? & -> & ? & _ & ?%IH). lia.
Qed.

Lemma segs_snoc P lo hi es k c kvs :
  segs P lo hi (es ++ [(k, c)]) kvs <-> k = hi /\ exists mid kvs1 kvs2,
    segs P lo mid es kvs1 /\ mid <= hi /\ P c mid hi kvs2 /\ kvs = kvs1 ++ kvs2.
Proof.
  rewrite segs_app. simpl. split.
  - intros (mid & l1 & ? & ? & (l2 & ? & -> & ? & ? & -> & ->) & ->). split; [done|].
    rewrite app_nil_r. eauto 10.
  - intros (-> & mid & l1 & l2 & ? & ? & ? & ->). exists mid, l1, l2. split_and!; [done| |done].
    exists l2, []. by rewrite app_nil_r.
Qed.

Lemma segs_mono P Q lo hi es kvs :
  (forall c lo hi kvs, P c lo hi kvs -> Q c lo hi kvs) -> segs P lo hi es kvs -> segs Q lo hi es kvs.
Proof.
  intros HPQ. revert lo kvs. induction es as [|[k c] es IH]; intros lo kvs; simpl; [done|].
  intros (l1 & l2 & -> & ? & ? & ?). eauto 10.
Qed.

Lemma segs_sorted P lo hi es kvs :
  (forall c lo hi kvs, lo <= hi -> P c lo hi kvs -> sorted_in lo hi kvs) ->
  segs P lo hi es kvs -> sorted_in lo hi kvs.
Proof.
  intros HP. revert lo kvs. induction es as [|[k c] es IH]; intros lo kvs; simpl.
  { intros [-> ->]. apply sorted_in_nil. }
  intros (l1 & l2 & -> & ? & Hc & Hs). pose proof (segs_le _ _ _ _ _ Hs).
  apply (sorted_in_app lo k hi); [lia| |by apply IH]. by eapply HP.
Qed.

(** The children of [segs]. *)
Lemma segs_child P lo hi es kvs k c :
  segs P lo hi es kvs -> (k, c) ∈ es -> exists lo' kvs', P c lo' k kvs'.
Proof.
  revert lo kvs. induction es as [|[k' c'] es IH]; intros lo kvs; simpl.
  { intros _ []%elem_of_nil. }
  intros (l1 & l2 & -> & ? & ? & ?) [[= -> ->]|?]%elem_of_cons; eauto.
Qed.

(** Where an entry is. *)
Lemma segs_lookup P lo hi es kvs i k c :
  segs P lo hi es kvs -> es !! i = Some (k, c) -> exists clo pre mid post,
    segs P lo clo (take i es) pre /\ clo <= k /\ P c clo k mid /\
    segs P k hi (drop (S i) es) post /\ kvs = pre ++ mid ++ post.
Proof.
  intros Hs Hi. rewrite <-(take_drop_middle _ _ _ Hi) in Hs.
  apply segs_app in Hs as (clo & pre & ? & ? & (mid & post & -> & ? & ? & ?) & ->).
  eauto 10.
Qed.
End segs.

(** ** Trees *)

Definition usable (ps : PageSize) : Z := usable_of (ps_bytes ps).

(** The page [id] is a leaf with [cells], or an interior page. *)
Definition leaf_at (ps : PageSize) (v : view) (id : Z) (cells : list LeafCell) : Prop :=
  exists buf cs, page_at ps v id buf /\ leaf_page (max_local ps) (usable ps) buf cells cs.

Definition interior_at (ps : PageSize) (v : view) (id : Z) (keys cs : list Z) (r : Z) : Prop :=
  exists buf, page_at ps v id buf /\ interior_page (usable ps) buf keys cs r.

(** The entries of an interior page whose range ends at [hi]. *)
Definition entries_to (hi : Z) (keys children : list Z) : list (Z * Z) := zip (keys ++ [hi]) children.

Fixpoint tree (ps : PageSize) (v : view) (d : nat) (id lo hi : Z) (kvs : list kv) : Prop :=
  match d with
  | O => exists cells, leaf_at ps v id cells /\
      Forall2 (fun c '(k, row) => cell_holds ps v c k row) cells kvs /\ sorted_in lo hi kvs
  | S d => exists keys cs r, interior_at ps v id keys cs r /\ NoDup (cs ++ [r]) /\
      segs (tree ps v d) lo hi (entries_to hi keys (cs ++ [r])) kvs
  end.

(** What a change of a subtree of depth [d] made of it: a page or two, with ids
    from [n0] on. *)
Definition node_ok (ps : PageSize) (v : view) (d : nat) (n0 : Z) (res : NodeResult) (lo hi : Z)
    (kvs : list kv) : Prop :=
  match res with
  | Replaced id => n0 <= id /\ tree ps v d id lo hi kvs
  | Split left_ right_ sep => n0 <= left_ /\ n0 <= right_ /\ left_ <> right_ /\ in_i64 sep /\
      lo <= sep <= hi /\ exists kl kr, kvs = kl ++ kr /\
        tree ps v d left_ lo sep kl /\ tree ps v d right_ sep hi kr
  end.

Lemma below_content ps buf buf' :
  page_size_wf ps -> len buf = ps_bytes ps -> len buf' = ps_bytes ps -> content buf = content buf' ->
  below (usable ps) buf buf'.
Proof.
  intros Hwf Hl Hl' Hc. split; [congruence|]. intros o x Hx. apply at_offset_content; [done|congruence|].
  unfold usable, usable_of in Hx. lia.
Qed.

Lemma leaf_page_below ml u buf buf' cells cs :
  below u buf buf' -> leaf_page ml u buf cells cs -> leaf_page ml u buf' cells cs.
Proof. intros Hb (ocs & ? & ? & ?). exists ocs. split_and!; [|done..]. by eapply slotted_below. Qed.

Lemma interior_page_below u buf buf' keys cs r :
  below u buf buf' -> interior_page u buf keys cs r -> interior_page u buf' keys cs r.
Proof.
  intros Hb (ocs & st & Hsl & ? & ? & Hr & ? & ?). exists ocs, st. split_and!; try done.
  - by eapply slotted_below.
  - destruct Hb as [_ Hb]. apply Hb; [|done]. rewrite len_be4.
    destruct Hsl. pose proof (total_nonneg ocs). pose proof (len_nonneg ocs).
    unfold POINTER_LEN, INTERIOR_HEADER_LEN in *. lia.
Qed.

(** Whatever buffer the store gives for such a page is such a page. *)
Lemma leaf_at_read ps v id cells buf :
  page_size_wf ps -> leaf_at ps v id cells -> page_at ps v id buf ->
  exists cs, leaf_page (max_local ps) (usable ps) buf cells cs.
Proof.
  intros Hwf (buf0 & cs & [Hv0 Hl0] & Hp) [Hv Hl]. exists cs. eapply leaf_page_below; [|done].
  apply below_content; [done..|]. congruence.
Qed.

Lemma interior_at_read ps v id keys cs r buf :
  page_size_wf ps -> interior_at ps v id keys cs r -> page_at ps v id buf ->
  interior_page (usable ps) buf keys cs r.
Proof.
  intros Hwf (buf0 & [Hv0 Hl0] & Hp) [Hv Hl]. eapply interior_page_below; [|done].
  apply below_content; [done..|]. congruence.
Qed.

Lemma leaf_at_le ps v v' id cells : view_le v v' -> leaf_at ps v id cells -> leaf_at ps v' id cells.
Proof. intros Hle (buf & cs & ? & ?). exists buf, cs. split; [by eapply page_at_le|done]. Qed.

Lemma interior_at_le ps v v' id keys cs r :
  view_le v v' -> interior_at ps v id keys cs r -> interior_at ps v' id keys cs r.
Proof. intros Hle (buf & ? & ?). exists buf. split; [by eapply page_at_le|done]. Qed.

Lemma tree_le ps v v' d id lo hi kvs :
  view_le v v' -> tree ps v d id lo hi kvs -> tree ps v' d id lo hi kvs.
Proof.
  intros Hle. revert id lo hi kvs. induction d as [|d IH]; intros id lo hi kvs; simpl.
  - intros (cells & ? & Hc & ?). exists cells. split_and!; [by eapply leaf_at_le| |done].
    eapply Forall2_impl; [done|]. intros c [k row]. by apply cell_holds_le.
  - intros (keys & cs & r & ? & ? & Hs). exists keys, cs, r.
    split_and!; [by eapply interior_at_le|done|]. eapply segs_mono; [|done]. eauto.
Qed.

Lemma node_ok_le ps v v' d n0 res lo hi kvs :
  view_le v v' -> node_ok ps v d n0 res lo hi kvs -> node_ok ps v' d n0 res lo hi kvs.
Proof.
  intros Hle. pose proof (tree_le ps v v' d) as Ht. destruct res; simpl.
  - intros [? ?]. eauto.
  - intros (? & ? & ? & ? & ? & kl & kr & ? & ? & ?). do 5 (split; [done|]). exists kl, kr. eauto.
Qed.

Lemma tree_sorted ps v d id lo hi kvs :
  tree ps v d id lo hi kvs -> sorted_in lo hi kvs.
Proof.
  revert id lo hi kvs. induction d as [|d IH]; intros id lo hi kvs; simpl.
  - by intros (cells & _ & _ & ?).
  - intros (keys & cs & r & _ & _ & Hs). eapply segs_sorted; [|done]. eauto.
Qed.

(** The root of a tree is a page of the view. *)
Lemma tree_in_view ps v d id lo hi kvs : tree ps v d id lo hi kvs -> exists c, v id = Some c.
Proof.
  destruct d; simpl.
  - intros (cells & (buf & cs & [? _] & _) & _). eauto.
  - intros (keys & cs & r & (buf & [? _] & _) & _). eauto.
Qed.

Lemma interior_at_length ps v id keys cs r : interior_at ps v id keys cs r -> length keys = length cs.
Proof. intros (buf & _ & Hp). apply (interior_length Hp). Qed.

(** All children of an interior page are pages of the view. *)
Lemma tree_children ps v d lo hi keys cs r kvs c :
  length keys = length cs ->
  segs (tree ps v d) lo hi (entries_to hi keys (cs ++ [r])) kvs -> c ∈ cs ++ [r] ->
  exists x, v c = Some x.
Proof.
  intros Hl Hs [i Hi]%list_elem_of_lookup.
  destruct (lookup_lt_is_Some_2 (keys ++ [hi]) i) as [k Hk].
  { apply lookup_lt_Some in Hi. rewrite length_app in *. simpl in *. lia. }
  destruct (segs_child _ _ _ _ _ k c Hs) as (? & ? & Ht).
  - eapply (list_elem_of_lookup_2 _ i). unfold entries_to. by apply lookup_zip_with_Some; eauto 10.
  - by eapply tree_in_view.
Qed.

(** ** Entries of an interior page, edited *)

Lemma entries_to_lookup hi keys children i k c :
  entries_to hi keys children !! i = Some (k, c) <->
  (keys ++ [hi]) !! i = Some k /\ children !! i = Some c.
Proof. unfold entries_to. rewrite lookup_zip_with_Some. naive_solver. Qed.

Lemma entries_to_replace hi keys children i k c' :
  (keys ++ [hi]) !! i = Some k ->
  entries_to hi keys (<[i := c']> children) = <[i := (k, c')]> (entries_to hi keys children).
Proof.
  intros Hk. unfold entries_to. apply list_eq. intros j.
  destruct (decide (i = j)) as [<-|].
  - rewrite lookup_zip_with, Hk. simpl.
    destruct (children !! i) as [c|] eqn:Hc.
    + rewrite !list_lookup_insert_eq; [done|..].
      * rewrite length_zip_with. apply lookup_lt_Some in Hk, Hc. lia.
      * by eapply lookup_lt_Some.
    + rewrite lookup_ge_None_2 by (rewrite length_insert; by apply lookup_ge_None).
      symmetry. apply lookup_ge_None_2. rewrite length_insert, length_zip_with.
      apply lookup_ge_None in Hc. simpl. lia.
  - by rewrite list_lookup_insert_ne, !lookup_zip_with, list_lookup_insert_ne by done.
Qed.

Lemma vec_insert_app_l {A} i (x : A) l k :
  (i <= length l)%nat -> vec_insert i x (l ++ k) = vec_insert i x l ++ k.
Proof.
  intros. unfold vec_insert. rewrite take_app_le, drop_app_le by done. by rewrite <-app_assoc.
Qed.

Lemma zip_vec_insert {A B} i (a : A) (b : B) l k :
  length l = length k -> zip (vec_insert i a l) (vec_insert i b k) = vec_insert i (a, b) (zip l k).
Proof.
  intros Hl. unfold vec_insert. rewrite zip_with_app by (rewrite !length_take; lia). simpl.
  by rewrite zip_with_take, zip_with_drop.
Qed.

Lemma insert_vec_insert {A} i (x y : A) l :
  (i < length l)%nat -> <[S i := y]> (vec_insert i x l) = vec_insert i x (<[i := y]> l).
Proof.
  intros Hi. unfold vec_insert.
  rewrite (insert_take_drop l) by done.
  replace (S i) with (length (take i l) + 1)%nat at 1 by (rewrite length_take; lia).
  rewrite insert_app_r. destruct (lookup_lt_is_Some_2 l i Hi) as [z Hz].
  rewrite (drop_S _ _ _ Hz). simpl.
  rewrite take_app_length', drop_app_length' by (rewrite length_take; lia).
  done.
Qed.

Lemma position_NoDup l i c : NoDup l -> l !! i = Some c -> position c l = Some i.
Proof.
  revert i. induction l as [|x l IH]; intros i Hnd Hi; [done|]. simpl.
  inversion Hnd as [|? ? Hx Hl]; subst. destruct i as [|i]; simpl in Hi.
  - simplify_eq. by rewrite Z.eqb_refl.
  - replace (x =? c) with false.
    + by rewrite (IH i).
    + symmetry. apply Z.eqb_neq. intros ->. apply Hx. by eapply list_elem_of_lookup_2.
Qed.

(** What a split of the child at [i] makes of the entries. *)
Lemma splice_ok keys children i c sep l r :
  NoDup children -> children !! i = Some c ->
  splice_split_into_entries keys children c sep l r =
  (vec_insert i sep keys, vec_insert i l (<[i := r]> children)).
Proof.
  intros Hnd Hi. unfold splice_split_into_entries. rewrite (position_NoDup _ _ _ Hnd Hi). simpl.
  by rewrite insert_vec_insert by (by eapply lookup_lt_Some).
Qed.

Lemma entries_to_split hi keys children i k sep l r :
  length children = S (length keys) -> (keys ++ [hi]) !! i = Some k ->
  entries_to hi (vec_insert i sep keys) (vec_insert i l (<[i := r]> children)) =
  vec_insert i (sep, l) (<[i := (k, r)]> (entries_to hi keys children)).
Proof.
  intros Hl Hk. apply lookup_lt_Some in Hk as Hi. rewrite length_app in Hi. simpl in Hi.
  rewrite <-entries_to_replace by done. unfold entries_to.
  rewrite <-vec_insert_app_l by lia.
  apply zip_vec_insert. rewrite length_app, length_insert. simpl. lia.
Qed.

Lemma NoDup_replace (l : list Z) i c : NoDup l -> c ∉ l -> NoDup (<[i := c]> l).
Proof.
  intros Hnd Hc. destruct (decide (i < length l)%nat).
  - rewrite insert_take_drop by done.
    destruct (lookup_lt_is_Some_2 l i) as [x Hx]; [done|].
    rewrite <-(take_drop_middle _ _ _ Hx) in Hnd, Hc.
    rewrite NoDup_app, NoDup_cons in *. set_solver.
  - by rewrite list_insert_ge by lia.
Qed.

Lemma NoDup_vec_insert (l : list Z) i c : NoDup l -> c ∉ l -> NoDup (vec_insert i c l).
Proof.
  intros Hnd Hc. unfold vec_insert. rewrite <-(take_drop i l) in Hnd, Hc.
  rewrite NoDup_app, NoDup_cons in *. set_solver.
Qed.

Lemma elem_of_vec_insert {A} (l : list A) i c x : x ∈ vec_insert i c l <-> x = c \/ x ∈ l.
Proof.
  unfold vec_insert. rewrite <-(take_drop i l) at 3. set_solver.
Qed.

Lemma elem_of_insert_weaken {A} (l : list A) i c x : x ∈ <[i := c]> l -> x = c \/ x ∈ l.
Proof.
  intros [j Hj]%list_elem_of_lookup. destruct (decide (i = j)) as [<-|].
  - destruct (decide (i < length l)%nat).
    + rewrite list_lookup_insert_eq in Hj by done. left. congruence.
    + rewrite list_insert_ge in Hj by lia. right. by eapply list_elem_of_lookup_2.
  - rewrite list_lookup_insert_ne in Hj by done. right. by eapply list_elem_of_lookup_2.
Qed.

(** Editing [segs] at one entry. *)
Lemma segs_replace P lo hi es i k c' clo pre mid post :
  (i < length es)%nat -> segs P lo clo (take i es) pre -> clo <= k -> P c' clo k mid ->
  segs P k hi (drop (S i) es) post ->
  segs P lo hi (<[i := (k, c')]> es) (pre ++ mid ++ post).
Proof.
  intros Hi Hpre Hle Hc Hpost. rewrite insert_take_drop by done.
  apply segs_app. exists clo, pre, (mid ++ post). split_and!; [done| |done]. simpl. eauto 10.
Qed.

Lemma segs_split P lo hi es i k sep l r clo pre kl kr post :
  (i < length es)%nat -> segs P lo clo (take i es) pre -> clo <= sep <= k ->
  P l clo sep kl -> P r sep k kr -> segs P k hi (drop (S i) es) post ->
  segs P lo hi (vec_insert i (sep, l) (<[i := (k, r)]> es)) (pre ++ (kl ++ kr) ++ post).
Proof.
  intros Hi Hpre Hle Hl Hr Hpost. unfold vec_insert. rewrite insert_take_drop by done.
  assert (Hlen : length (take i es) = i) by (rewrite length_take; lia).
  rewrite take_app_length', drop_app_length' by done.
  apply segs_app. exists clo, pre, ((kl ++ kr) ++ post). split_and!; [done| |done]. simpl.
  exists kl, (kr ++ post). rewrite <-app_assoc. split_and!; [done|lia|done|].
  exists kr, post. split_and!; [done|lia|done|done].
Qed.

(** ** Propagating a change through one interior page *)

Lemma max_interior_entries_ok ps n :
  page_size_wf ps -> n <= max_interior_entries (ps_bytes ps) ->
  INTERIOR_HEADER_LEN + 14 * n <= usable ps.
Proof.
  intros Hwf Hn. unfold max_interior_entries, saturating_sub in Hn.
  change (Z.max (INTERIOR_CELL_LEN + POINTER_LEN) 1) with 14 in Hn.
  set (x := Z.max 0 _) in Hn. pose proof (Z.mul_div_le x 14 ltac:(lia)). subst x.
  unfold usable, usable_of, INTERIOR_HEADER_LEN, CHECKSUM_LEN, u16_max in *.
  destruct (page_size_wf_cases _ Hwf) as [E|[E|[E|[E|E]]]]; rewrite E in *; lia.
Qed.

Section propagate.
Context {S : Type} `{PageStoreLaws S} {J : PinaxError -> S -> Prop} `{!StopsIn J} `{BuildProfile}.
Implicit Types s : S.

Lemma tree_id_range s d id lo hi kvs :
  store_inv s -> tree (pool_page_size s) (store_view s) d id lo hi kvs ->
  FIRST_DATA_PAGE_ID <= id < store_next s.
Proof. intros Hinv [c Hc]%tree_in_view. by eapply store_view_range. Qed.

Lemma segs_child_range s d lo hi keys children kvs c :
  store_inv s -> length children = Datatypes.S (length keys) ->
  segs (tree (pool_page_size s) (store_view s) d) lo hi (entries_to hi keys children) kvs ->
  c ∈ children -> 0 <= c <= u32_max.
Proof.
  intros Hinv Hl Hs [i Hi]%list_elem_of_lookup.
  destruct (lookup_lt_is_Some_2 (keys ++ [hi]) i) as [k Hk].
  { apply lookup_lt_Some in Hi. rewrite length_app. simpl. lia. }
  destruct (segs_child _ _ _ _ _ k c Hs) as (lo' & kvs' & Ht).
  { eapply (list_elem_of_lookup_2 _ i). by apply entries_to_lookup. }
  pose proof (tree_id_range _ _ _ _ _ _ Hinv Ht). pose proof (store_next_range s Hinv).
  unfold FIRST_DATA_PAGE_ID in *. lia.
Qed.

(** An interior page for [keys] and [children]. *)
Lemma build_interior_ok s d lo hi keys children kvs :
  store_inv s -> let ps := pool_page_size s in
  length children = Datatypes.S (length keys) -> Forall in_i64 keys -> NoDup children ->
  segs (tree ps (store_view s) d) lo hi (entries_to hi keys children) kvs ->
  INTERIOR_HEADER_LEN + 14 * len keys <= usable ps ->
  exists buf, build_interior_page (ps_bytes ps) keys children = Ret buf /\ len buf = ps_bytes ps /\
    forall v id, view_le (store_view s) v -> page_at ps v id buf ->
      tree ps v (Datatypes.S d) id lo hi kvs.
Proof.
  intros Hinv ps Hl Hik Hnd Hs Hroom.
  pose proof (page_size_range _ (store_page_size_wf s Hinv)) as Hps. fold ps in Hps.
  destruct (exists_last (l := children)) as (cs & r & ->); [by intros ->|].
  rewrite length_app in Hl. simpl in Hl.
  destruct (build_interior_page_ok (ps_bytes ps) keys cs r) as (buf & Hb & Hp & Hlb);
    [lia|lia|done| |done|].
  { apply Forall_forall. intros c Hc. eapply segs_child_range; [done| |done|done].
    rewrite length_app. simpl. lia. }
  exists buf. split_and!; [done|done|]. intros v id Hle Hpage.
  exists keys, cs, r. split_and!; [by exists buf|done|].
  eapply segs_mono; [|done]. intros. by eapply tree_le.
Qed.

(** The page [id] is an interior page whose child [c], at [i], holds [clo..chi);
    the others hold [pre] and [post] and are older than [n0]. *)
Record focused_at (ps : PageSize) (v : view) (d : nat) (n0 id lo hi : Z) (keys cs : list Z) (r : Z)
    (i : nat) (c clo chi : Z) (pre post : list kv) : Prop := {
  fa_page : interior_at ps v id keys cs r;
  fa_NoDup : NoDup (cs ++ [r]);
  fa_child : (cs ++ [r]) !! i = Some c;
  fa_key : (keys ++ [hi]) !! i = Some chi;
  fa_le : clo <= chi;
  fa_pre : segs (tree ps v d) lo clo (take i (entries_to hi keys (cs ++ [r]))) pre;
  fa_post : segs (tree ps v d) chi hi (drop (Datatypes.S i) (entries_to hi keys (cs ++ [r]))) post;
  fa_old : forall x, x ∈ cs ++ [r] -> x < n0;
}.

Section focused_at.
Context {ps : PageSize} {v : view} {d : nat} {n0 id lo hi : Z} {keys cs : list Z} {r : Z} {i : nat}.
Context {c clo chi : Z} {pre post : list kv}.
Hypothesis Hfa : focused_at ps v d n0 id lo hi keys cs r i c clo chi pre post.

Lemma fa_length : length (cs ++ [r]) = Datatypes.S (length keys).
Proof. rewrite length_app. simpl. rewrite (interior_at_length _ _ _ _ _ _ (fa_page _ _ _ _ _ _ _ _ _ _ _ _ _ _ _ _ Hfa)). lia. Qed.

Lemma fa_lt : (i < length (entries_to hi keys (cs ++ [r])))%nat.
Proof.
  destruct Hfa. eapply lookup_lt_Some. by apply entries_to_lookup.
Qed.

Lemma fa_replace v' c' mid :
  view_le v v' -> tree ps v' d c' clo chi mid ->
  segs (tree ps v' d) lo hi (entries_to hi keys (<[i := c']> (cs ++ [r]))) (pre ++ mid ++ post).
Proof.
  intros Hle Hc. destruct Hfa. rewrite (entries_to_replace _ _ _ _ chi) by done.
  eapply segs_replace; try done; [apply fa_lt|eapply segs_mono; [|done]..]; intros; by eapply tree_le.
Qed.

Lemma fa_split v' l r' sep kl kr :
  view_le v v' -> clo <= sep <= chi -> tree ps v' d l clo sep kl -> tree ps v' d r' sep chi kr ->
  segs (tree ps v' d) lo hi
    (entries_to hi (vec_insert i sep keys) (vec_insert i l (<[i := r']> (cs ++ [r]))))
    (pre ++ (kl ++ kr) ++ post).
Proof.
  intros Hle Hsep Hl Hr. pose proof fa_length. destruct Hfa.
  rewrite (entries_to_split _ _ _ _ chi) by done.
  eapply segs_split; try done; [apply fa_lt|eapply segs_mono; [|done]..]; intros; by eapply tree_le.
Qed.
End focused_at.

Lemma entries_to_take hi keys children m p :
  keys !! m = Some p ->
  take (Datatypes.S m) (entries_to hi keys children) =
  entries_to p (take m keys) (take (Datatypes.S m) children).
Proof.
  intros Hm. apply lookup_lt_Some in Hm as Hlt. unfold entries_to.
  by rewrite <-(take_S_r _ _ _ Hm), zip_with_take, take_app_le by lia.
Qed.

Lemma entries_to_drop hi keys children m :
  (m <= length keys)%nat ->
  drop m (entries_to hi keys children) = entries_to hi (drop m keys) (drop m children).
Proof. intros. unfold entries_to. by rewrite zip_with_drop, drop_app_le by lia. Qed.

(** An interior page with one entry too many becomes two. *)
Lemma split_interior_entries_ok s d n0 lo hi keys children kvs :
  store_inv s -> let ps := pool_page_size s in
  length children = Datatypes.S (length keys) -> Forall in_i64 keys -> NoDup children ->
  segs (tree ps (store_view s) d) lo hi (entries_to hi keys children) kvs ->
  0 < len keys -> INTERIOR_HEADER_LEN + 14 * (len keys - 1) <= usable ps ->
  n0 <= store_next s -> store_next s + 2 <= store_limit ->
  runs J (split_interior_entries (ps_bytes ps) keys children) s (fun res s' =>
    extends 2 s s' /\ node_ok ps (store_view s') (Datatypes.S d) n0 res lo hi kvs).
Proof.
  intros Hinv ps Hl Hik Hnd Hs Hpos Hroom Hn0 Hn. remember (length keys / 2)%nat as m eqn:Em.
  assert (Hm : (m < length keys)%nat) by (rewrite Em; unfold len in Hpos; apply Nat.div_lt; lia).
  assert (Hm2 : (2 * m <= length keys < 2 * m + 2)%nat).
  { rewrite Em. pose proof (Nat.div_mod_eq (length keys) 2). pose proof (Nat.mod_upper_bound (length keys) 2). lia. }
  destruct (lookup_lt_is_Some_2 keys m Hm) as [p Hp].
  rewrite <-(take_drop (Datatypes.S m) (entries_to hi keys children)) in Hs.
  apply segs_app in Hs as (mid & kl & kr & Hsl & Hsr & ->).
  rewrite (entries_to_take _ _ _ _ p Hp) in Hsl. rewrite entries_to_drop in Hsr by lia.
  assert (Hmid : mid = p).
  { unfold entries_to in Hsl.
    destruct (exists_last (l := take (Datatypes.S m) children)) as (cl & c & Hcl).
    { destruct children; simpl in *; [lia|done]. }
    assert (length cl = m).
    { apply (f_equal length) in Hcl. rewrite length_take, length_app, Hl in Hcl. simpl in Hcl. lia. }
    rewrite Hcl, zip_with_app in Hsl by (rewrite length_take; lia). simpl in Hsl.
    by apply segs_snoc in Hsl as [-> _]. }
  subst mid. pose proof (segs_le _ _ _ _ _ Hsl). pose proof (segs_le _ _ _ _ _ Hsr).
  destruct (build_interior_ok s d lo p (take m keys) (take (Datatypes.S m) children) kl)
    as (bl & Hbl & Hll & Htl); [done|rewrite !length_take; lia|by apply Forall_take| |done| |].
  { rewrite <-(take_drop (Datatypes.S m) children) in Hnd. by apply NoDup_app in Hnd as (? & _). }
  { unfold len in *. rewrite length_take. fold ps. lia. }
  destruct (build_interior_ok s d p hi (drop (Datatypes.S m) keys) (drop (Datatypes.S m) children) kr)
    as (br & Hbr & Hlr & Htr); [done|rewrite !length_drop; lia|by apply Forall_drop| |done| |].
  { rewrite <-(take_drop (Datatypes.S m) children) in Hnd. by apply NoDup_app in Hnd as (_ & _ & ?). }
  { unfold len in *. rewrite length_drop. fold ps. lia. }
  fold ps in Hbl, Hll, Htl, Hbr, Hlr, Htr.
  unfold split_interior_entries. rewrite <-Em. cbv zeta. rewrite Hp. eapply runs_bind_lift; [done|].
  eapply runs_bind_lift; [exact Hbl|]. eapply runs_bind_lift; [exact Hbr|].
  apply put_two_pages; [done|lia|done|done|]. intros s' He Hpl Hpr. apply runs_ret.
  split; [done|]. simpl. split; [lia|]. split; [lia|]. split; [lia|].
  split; [by eapply (proj1 (Forall_lookup _ _) Hik)|]. split; [lia|].
  exists kl, kr. split_and!; [done|apply Htl; [apply He|done]|apply Htr; [apply He|done]].
Qed.

(** Repointing the child at [i], in its cell or as the rightmost child. *)
Lemma repoint_ok u buf keys cs r i c c' :
  interior_page u buf keys cs r -> NoDup (cs ++ [r]) -> (cs ++ [r]) !! i = Some c ->
  0 <= c' <= u32_max ->
  exists slot buf' cs' r', interior_find_child_slot buf c = Ret slot /\
    (match slot with
     | Cell idx => interior_set_child_at buf idx c'
     | Rightmost => interior_set_rightmost buf c'
     end) = Ret buf' /\
    interior_page u buf' keys cs' r' /\ cs' ++ [r'] = <[i := c']> (cs ++ [r]) /\ len buf' = len buf.
Proof.
  intros Hp Hnd Hi Hc. pose proof (interior_find_child_slot_ok Hp c i Hnd Hi) as Hslot.
  case_decide.
  - destruct (interior_set_child_at_ok u buf keys cs r i c') as (buf' & ? & ? & ?); [done..|].
    eexists _, buf', _, _. split_and!; [done|done|done| |done]. by rewrite insert_app_l.
  - destruct (interior_set_rightmost_ok u buf keys cs r c') as (buf' & ? & ? & ?); [done..|].
    eexists _, buf', _, _. split_and!; [done|done|done| |done].
    apply lookup_lt_Some in Hi. rewrite length_app in Hi. simpl in Hi.
    replace i with (length cs + 0)%nat by lia. by rewrite insert_app_r.
Qed.

Section apply.
Context (s : S) (v : view) (d : nat) (n0 id lo hi : Z) (keys cs : list Z) (r : Z) (i : nat).
Context (c clo chi : Z) (pre post mid : list kv).
Let ps := pool_page_size s.
Hypothesis Hinv : store_inv s.
Hypothesis Hle : view_le v (store_view s).
Hypothesis Hfa : focused_at ps v d n0 id lo hi keys cs r i c clo chi pre post.
Hypothesis Hn0 : n0 <= store_next s.
Hypothesis Hnext : store_next s + 2 <= store_limit.

Lemma read_interior Q :
  (forall buf s', extends 0 s s' -> interior_page (usable ps) buf keys cs r ->
     len buf = ps_bytes ps -> Q buf s') ->
  runs J (pool_get id) s Q.
Proof.
  intros HQ. destruct Hfa. destruct fa_page0 as (buf0 & Hpage0 & Hp0).
  apply (get_page s v id buf0); [done..|]. intros buf s' Hext Hpage _.
  apply HQ; [done| |apply Hpage].
  eapply interior_at_read; [by apply store_page_size_wf|by exists buf0|done].
Qed.

Lemma apply_replaced_ok id' :
  node_ok ps (store_view s) d n0 (Replaced id') clo chi mid ->
  runs J (apply_result_to_interior id c (Replaced id')) s (fun res s' => exists n,
    0 <= n <= 2 /\ extends n s s' /\
    node_ok ps (store_view s') (Datatypes.S d) n0 res lo hi (pre ++ mid ++ post)).
Proof.
  intros [Hid Ht]. unfold apply_result_to_interior. apply runs_bind_self. cbv zeta.
  pose proof (tree_id_range _ _ _ _ _ _ Hinv Ht) as Hr. pose proof (store_next_range s Hinv) as Hnr.
  unfold FIRST_DATA_PAGE_ID in *.
  eapply runs_bind; [apply (read_interior (fun buf s' => extends 0 s s' /\
    interior_page (usable ps) buf keys cs r /\ len buf = ps_bytes ps)); auto|].
  intros buf s' (Hext & Hp & Hl). pose proof Hfa as [_ Hnd Hc _ _ _ _ Hold].
  destruct (repoint_ok (usable ps) buf keys cs r i c id') as (slot & buf' & cs' & r' & Hs & Hb & Hp' & Hcs & Hl');
    [done..|lia|].
  eapply runs_bind_lift; [exact Hs|]. eapply runs_bind_lift; [exact Hb|].
  pose proof (ext_page_size _ _ _ Hext) as Hps. pose proof (ext_next _ _ _ Hext) as Hn.
  apply put_page; [apply Hext|lia|rewrite Hps; fold ps; congruence|].
  intros s'' Hext' Hpage. apply runs_ret. exists 1. pose proof (extends_0_trans _ _ _ _ Hext Hext') as He.
  split_and!; [lia|lia|done|]. split; [lia|]. rewrite Hps in Hpage. fold ps in Hpage.
  exists keys, cs', r'. split_and!; [by exists buf'| |].
  - rewrite Hcs. apply NoDup_replace; [done|]. intros Hin%Hold. lia.
  - rewrite Hcs. pose proof (ext_view _ _ _ He). eapply (fa_replace Hfa); [by etrans|by eapply tree_le].
Qed.

Lemma interior_size u buf : interior_page u buf keys cs r -> INTERIOR_HEADER_LEN + 14 * len keys <= u.
Proof.
  intros (ocs & st & [] & Hz & Hl & _). unfold POINTER_LEN in *.
  assert (Ht : total ocs = sizes ocs.*2) by (clear; induction ocs as [|o ocs IH]; [done|]; rewrite fmap_cons; simpl; by rewrite IH).
  rewrite Hz, sizes_interior in Ht by done.
  assert (len ocs = len keys); [|lia].
  unfold len. f_equal. by rewrite <-(length_fmap snd ocs), Hz, length_zip_with, Hl, Nat.min_id.
Qed.

(** The separators and children around a child that was split are in order. *)
Lemma spliced_ok left_ right_ sep :
  n0 <= left_ -> n0 <= right_ -> left_ <> right_ -> in_i64 sep -> Forall in_i64 keys ->
  let ks := vec_insert i sep keys in let ch := vec_insert i left_ (<[i := right_]> (cs ++ [r])) in
  length ch = Datatypes.S (length ks) /\ Forall in_i64 ks /\ NoDup ch /\ len ks = len keys + 1.
Proof.
  intros Hl Hr Hne Hsep Hik ks ch. pose proof Hfa as [_ Hnd _ _ _ _ _ Hold]. pose proof (fa_length Hfa).
  split_and!.
  - unfold ch, ks. rewrite !length_vec_insert, length_insert. lia.
  - apply Forall_forall. intros k [->|Hk]%elem_of_vec_insert; [done|]. by eapply Forall_forall.
  - assert (Hl0 : left_ ∉ cs ++ [r]) by (intros Hin%Hold; lia).
    assert (Hr0 : right_ ∉ cs ++ [r]) by (intros Hin%Hold; lia).
    apply NoDup_vec_insert; [by apply NoDup_replace|]. intros [?|?]%elem_of_insert_weaken; done.
  - apply len_vec_insert.
Qed.

Lemma apply_split_ok left_ right_ sep :
  node_ok ps (store_view s) d n0 (Split left_ right_ sep) clo chi mid ->
  runs J (apply_result_to_interior id c (Split left_ right_ sep)) s (fun res s' => exists n,
    0 <= n <= 2 /\ extends n s s' /\
    node_ok ps (store_view s') (Datatypes.S d) n0 res lo hi (pre ++ mid ++ post)).
Proof.
  intros (Hnl & Hnr & Hne & Hsep & Hsr & kl & kr & -> & Hl & Hr).
  unfold apply_result_to_interior. apply runs_bind_self. cbv zeta.
  pose proof (store_page_size_wf s Hinv) as Hwf. rewrite bytes_usize_wf by done.
  eapply runs_bind; [apply (read_interior (fun buf s' => extends 0 s s' /\
    interior_page (usable ps) buf keys cs r)); auto|].
  intros buf s' (Hext & Hp).
  eapply runs_bind_lift; [exact (interior_entries_ok Hp)|]. cbv beta iota.
  pose proof (interior_size _ _ Hp) as Hroom. pose proof (fa_length Hfa) as Hlen.
  pose proof Hfa as [_ Hnd Hc _ _ _ _ Hold].
  assert (Hik : Forall in_i64 keys) by (by destruct Hp as (? & ? & _ & _ & _ & _ & ? & _)).
  rewrite (splice_ok _ _ i) by done. cbv beta iota.
  pose proof (ext_page_size _ _ _ Hext) as Hps. pose proof (ext_next _ _ _ Hext) as Hn.
  pose proof (ext_view _ _ _ Hext) as Hle'.
  assert (Hl' := tree_le _ _ _ _ _ _ _ _ Hle' Hl). assert (Hr' := tree_le _ _ _ _ _ _ _ _ Hle' Hr).
  assert (Hle2 : view_le v (store_view s')) by (by etrans).
  pose proof (fa_split Hfa _ _ _ _ _ _ Hle2 Hsr Hl' Hr') as Hsegs.
  fold ps. rewrite len_vec_insert. set (ks := vec_insert i sep keys) in *.
  set (ch := vec_insert i left_ _) in *.
  destruct (spliced_ok left_ right_ sep ltac:(lia) ltac:(lia) Hne Hsep Hik) as (Hlks & Hiks & Hndch & Hlk).
  fold ks ch in Hlks, Hiks, Hndch, Hlk.
  rewrite <-Hlk. case_match eqn:E.
  - destruct (build_interior_ok s' d lo hi ks ch (pre ++ (kl ++ kr) ++ post))
      as (b & Hb & Hlb & Hbt); try done; [apply Hext| |rewrite Hps|].
    { by rewrite Hps. }
    { apply max_interior_entries_ok; [done|]. fold ps. lia. }
    rewrite Hps in Hb, Hlb, Hbt. fold ps in Hb, Hlb, Hbt. eapply runs_bind_lift; [exact Hb|].
    apply put_page; [apply Hext|lia|rewrite Hps; fold ps; congruence|].
    intros s'' Hext' Hpage. apply runs_ret. exists 1.
    pose proof (extends_0_trans _ _ _ _ Hext Hext') as He. rewrite Hps in Hpage.
    split_and!; [lia|lia|done|]. split; [lia|]. apply Hbt; [apply Hext'|done].
  - eapply runs_mono.
    + replace (ps_bytes ps) with (ps_bytes (pool_page_size s')) by (by rewrite Hps).
      apply (split_interior_entries_ok s' d n0 lo hi ks ch (pre ++ (kl ++ kr) ++ post));
        try done; [apply Hext| |pose proof (len_nonneg keys); lia|rewrite Hps; fold ps; lia|lia|lia].
      by rewrite Hps.
    + simpl. intros res s'' [Hext' Hok]. exists 2. rewrite Hps in Hok. fold ps in Hok.
      split_and!; [lia|lia|by eapply extends_0_trans|done].
Qed.
End apply.
End propagate.
