(* ===== verification/SplitSpec.v ===== *)
(** * Inserting in a leaf, or splitting it

    [leaf_split_with_new_cell] cuts a full leaf in two halves of equally many
    cells, whatever their sizes. The halves fit their pages when the sizes are in
    a class for which [split_safe] holds; two such classes are given. *)

From S2P Require Import Prelude Runs Errors Codec Lexis Row Page Pager PageStore PageStoreSpec Layout Overflow Mutate.
From S2P Require Import LayoutSpec LeafSpec InteriorSpec OverflowSpec BTree TreeSpec.

(** ** Classes of row sizes *)

Fixpoint sum (l : list Z) : Z := match l with [] => 0 | x :: l => x + sum l end.

Lemma sum_mono {A} (f g : A -> Z) l : (forall x, f x <= g x) -> sum (f <$> l) <= sum (g <$> l).
Proof.
  intros Hfg. induction l as [|x l IH]; [done|]. rewrite !fmap_cons. cbn [sum]. specialize (Hfg x). lia.
Qed.

Lemma sum_nonneg {A} (f : A -> Z) l : (forall x, 0 <= f x) -> 0 <= sum (f <$> l).
Proof. intros Hf. induction l as [|x l IH]; [done|]. rewrite fmap_cons. cbn [sum]. specialize (Hf x). lia. Qed.

Lemma sum_app l k : sum (l ++ k) = sum l + sum k.
Proof. induction l; simpl; lia. Qed.

Lemma sum_bounds lo hi l :
  Forall (fun x => lo <= x <= hi) l -> lo * len l <= sum l <= hi * len l.
Proof. induction 1 as [|x l Hx Hl IH]; [rewrite len_nil; simpl; lia|]. simpl. rewrite len_cons. lia. Qed.

(** Cells of [lo] to [hi] bytes, pointer included, that fitted [u] bytes before
    the last one came: by halves, they fit again. *)
Definition split_safe (u lo hi : Z) : Prop :=
  forall l x, Forall (fun y => lo <= y <= hi) l -> x <= hi -> sum l - x <= u ->
    let mid := (length l / 2)%nat in sum (take mid l) <= u /\ sum (drop mid l) <= u.

Lemma halves (l : list Z) :
  let mid := (length l / 2)%nat in
  sum l = sum (take mid l) + sum (drop mid l) /\
  2 * len (take mid l) <= len l /\ 2 * len (drop mid l) <= len l + 1 /\
  len (take mid l) + len (drop mid l) = len l.
Proof.
  intros mid. assert (Hm : (2 * mid <= length l < 2 * mid + 2)%nat).
  { pose proof (Nat.div_mod_eq (length l) 2). pose proof (Nat.mod_upper_bound (length l) 2). lia. }
  rewrite <-sum_app, take_drop, len_take, len_drop. unfold len. lia.
Qed.

(** Rows that all take the same room. *)
Lemma split_safe_uniform u z : 0 < z <= u -> split_safe u z z.
Proof.
  intros Hz l x Hl Hx Hs mid. destruct (halves l) as (Hsum & H1 & H2 & H3). fold mid in Hsum, H1, H2, H3.
  pose proof (sum_bounds z z l Hl). pose proof (Forall_take _ mid _ Hl) as Ht.
  pose proof (Forall_drop _ mid _ Hl) as Hd. apply sum_bounds in Ht, Hd.
  pose proof (len_nonneg (take mid l)). pose proof (len_nonneg (drop mid l)).
  assert (Hcap : forall n, 0 <= n -> n <= 1 \/ n <= len l - 1 -> z * n <= u).
  { intros n Hn [Hn1|Hn1].
    - pose proof (Z.mul_le_mono_nonneg_l n 1 z). lia.
    - pose proof (Z.mul_le_mono_nonneg_l n (len l - 1) z). lia. }
  pose proof (Hcap (len (take mid l))). pose proof (Hcap (len (drop mid l))). lia.
Qed.

(** Rows that are small against the page: the largest squared, and a little more,
    is no larger than the smallest times the page. *)
Lemma split_safe_small u lo hi :
  0 < lo <= hi -> hi * (hi + lo) <= lo * u -> split_safe u lo hi.
Proof.
  intros Hlo Hhi l x Hl Hx Hs mid. destruct (halves l) as (Hsum & H1 & H2 & H3). fold mid in Hsum, H1, H2, H3.
  pose proof (Forall_take _ mid _ Hl) as Ht.
  pose proof (Forall_drop _ mid _ Hl) as Hd. apply sum_bounds in Ht, Hd.
  pose proof (len_nonneg (take mid l)). pose proof (len_nonneg (drop mid l)).
  set (a := len (take mid l)) in *. set (b := len (drop mid l)) in *.
  assert (a <= b <= a + 1) by lia. assert (0 <= hi * lo) by (apply Z.mul_nonneg_nonneg; lia).
  split; apply Z.nlt_ge; intros Hbig.
  - assert (lo * b < hi) by lia. assert (u < hi * a) by lia.
    assert (lo * u < lo * (hi * a)) by (apply Z.mul_lt_mono_pos_l; lia).
    assert (hi * (lo * a) <= hi * (lo * b)) by (do 2 (apply Z.mul_le_mono_nonneg_l; [lia|]); lia).
    assert (hi * (lo * b) <= hi * hi) by (apply Z.mul_le_mono_nonneg_l; lia). lia.
  - assert (lo * a < hi) by lia. assert (u < hi * b) by lia.
    assert (lo * u < lo * (hi * b)) by (apply Z.mul_lt_mono_pos_l; lia).
    assert (hi * (lo * b) <= hi * (lo * (a + 1))) by (do 2 (apply Z.mul_le_mono_nonneg_l; [lia|]); lia).
    assert (hi * (lo * a) <= hi * hi) by (apply Z.mul_le_mono_nonneg_l; lia). lia.
Qed.

(** What a row takes in its leaf: the cell and its pointer. *)
Definition entry_size (ps : PageSize) (row : Row) : Z :=
  LEAF_CELL_FIXED_LEN + POINTER_LEN + local_size ps row.

(** The room for cells and pointers in a leaf. *)
Definition leaf_room (ps : PageSize) : Z := usable ps - LEAF_HEADER_LEN.

(** A class of rows the tree can always make room for. *)
Record row_class (ps : PageSize) := {
  rc_lo : Z;
  rc_hi : Z;
  rc_max : rc_hi <= leaf_room ps;
  rc_safe : split_safe (leaf_room ps) rc_lo rc_hi;
}.
Arguments rc_lo {ps}. Arguments rc_hi {ps}. Arguments rc_safe {ps}. Arguments rc_max {ps}.

Definition in_class {ps} (C : row_class ps) (row : Row) : Prop :=
  row_ok row /\ rc_lo C <= entry_size ps row <= rc_hi C.

Lemma cell_holds_size ps v c k row :
  cell_holds ps v c k row -> len (cell_bytes c) + POINTER_LEN = entry_size ps row.
Proof.
  intros [_ _ _ [_ _ _ Hl] _ (enc & tail & Henc & _ & Hpl & _)].
  rewrite len_cell_bytes, Hl. unfold entry_size, leaf_local_len, local_size.
  destruct (encode_size _ _ _ Henc) as [_ <-]. rewrite Hpl. unfold POINTER_LEN. lia.
Qed.

(** ** Collecting the cells of a leaf, and laying out a new one *)
Section leaf_ops.
Context `{BuildProfile}.

Lemma collect_cells_ok ml u buf cells cs i new :
  0 <= ml <= 65493 -> leaf_page ml u buf cells cs ->
  (i <= length cells)%nat ->
  collect_cells buf ml (Z.of_nat i) new = Ret (vec_insert i new (cell_bytes <$> cells)).
Proof.
  intros Hml Hp Hi. unfold collect_cells. rewrite (leaf_num_cells Hp). simpl.
  rewrite (outcome_bind_Ret _ _ (cell_bytes <$> cells)).
  - do 2 f_equal. unfold len. rewrite length_fmap. lia.
  - apply traverse_ret, Forall2_same_length_lookup. split.
    { rewrite length_seqZ, length_fmap. unfold len. lia. }
    intros j x b Hx Hb. apply lookup_seqZ in Hx as [-> Hj].
    apply list_lookup_fmap_Some in Hb as (c & -> & Hc). rewrite Z.add_0_l.
    destruct (leaf_cell_parts Hp j c Hc) as (o & Hpt & _ & _ & _ & _ & Hat & _).
    rewrite Hpt. simpl. rewrite (leaf_cell_byte_len_ok Hml Hp j c Hc). simpl.
    by apply read_vec_at.
Qed.

Lemma sizes_cells cells : sizes (cell_bytes <$> cells) = cells_size cells.
Proof. induction cells as [|c cells IH]; [done|]. rewrite fmap_cons. simpl. by rewrite IH. Qed.

Lemma build_leaf_page_ok ml n cells :
  4096 <= n -> Forall (cell_wf ml) cells ->
  LEAF_HEADER_LEN + 2 * len cells + cells_size cells <= usable_of n ->
  exists buf cs, build_leaf_page n (cell_bytes <$> cells) = Ret buf /\ len buf = n /\
    leaf_page ml (usable_of n) buf cells cs.
Proof.
  intros Hn Hwf Hroom. unfold build_leaf_page.
  destruct (init_slotted_ok LEAF_HEADER_LEN n PAGE_TYPE_LEAF) as (b & Hb & Hl & Hsl); [done|done|].
  unfold init_leaf. rewrite Hb. simpl.
  destruct (fill_cells_ok _ _ _ (cell_bytes <$> cells) _ _ Hsl) as (b' & ocs & Hb' & Hsl' & Hocs & _ & Hl').
  { rewrite sizes_cells. unfold len in *. rewrite length_fmap. lia. }
  exists b'. eexists. split_and!; [done|congruence|]. by exists ocs.
Qed.
End leaf_ops.

Lemma Forall2_vec_insert {A B} (R : A -> B -> Prop) i x y l k :
  Forall2 R l k -> R x y -> Forall2 R (vec_insert i x l) (vec_insert i y k).
Proof.
  intros Hl Hxy. unfold vec_insert. apply Forall2_app; [by apply Forall2_take|].
  constructor; [done|by apply Forall2_drop].
Qed.

Lemma sorted_in_split lo hi l x r :
  sorted_in lo hi (l ++ x :: r) ->
  sorted_in lo x.1 l /\ sorted_in x.1 hi (x :: r) /\ lo <= x.1 < hi.
Proof.
  intros [Ha Hf]. rewrite fmap_app, fmap_cons in *.
  apply ascending_app in Ha as (Hl & Hr & Hlr). rewrite Forall_forall in Hf.
  assert (lo <= x.1 < hi) by (apply Hf; set_solver).
  assert (Hx : forall y, y ∈ r.*1 -> x.1 < y).
  { intros y [j Hy]%list_elem_of_lookup. by apply (Hr O (S j)); [lia|..]. }
  split_and!; try lia; split; try done.
  - apply Forall_forall. intros y Hy. assert (lo <= y < hi) by (apply Hf; set_solver).
    assert (y < x.1) by (apply Hlr; set_solver). lia.
  - apply Forall_forall. rewrite fmap_cons. intros y Hy. assert (lo <= y < hi) by (apply Hf; set_solver).
    apply elem_of_cons in Hy as [->|Hy%Hx]; lia.
Qed.

Lemma sum_entry_sizes cells :
  sum ((fun c => len (cell_bytes c) + POINTER_LEN) <$> cells) = cells_size cells + 2 * len cells.
Proof.
  induction cells as [|c cells IH]; [done|]. rewrite fmap_cons, len_cons. simpl. rewrite IH.
  unfold POINTER_LEN. lia.
Qed.

Lemma cells_size_vec_insert i c cells :
  cells_size (vec_insert i c cells) = cells_size cells + len (cell_bytes c).
Proof.
  unfold vec_insert. rewrite cells_size_app. simpl.
  rewrite <-(take_drop i cells) at 3. rewrite cells_size_app. lia.
Qed.

(** The cells of a leaf hold these rows. *)
Abbreviation leaf_rows ps v := (Forall2 (fun c '(k, row) => cell_holds ps v c k row)).

Lemma leaf_rows_wf ps v cells lkvs : leaf_rows ps v cells lkvs -> Forall (cell_wf (max_local ps)) cells.
Proof. induction 1 as [|c [k row] cells kvs Hc]; constructor; [apply Hc|done]. Qed.

Lemma leaf_rows_le ps v v' cells lkvs :
  view_le v v' -> leaf_rows ps v cells lkvs -> leaf_rows ps v' cells lkvs.
Proof.
  intros Hle Hr. eapply Forall2_impl; [exact Hr|]. intros c [k row]. by apply cell_holds_le.
Qed.

Lemma leaf_rows_keys ps v cells lkvs : leaf_rows ps v cells lkvs -> key <$> cells = lkvs.*1.
Proof.
  induction 1 as [|c [k row] cells kvs Hc Hcs IH]; [done|].
  rewrite !fmap_cons, IH, (ch_key _ _ _ _ _ Hc). done.
Qed.

Lemma leaf_rows_sizes ps (C : row_class ps) v cells lkvs :
  leaf_rows ps v cells lkvs -> Forall (fun '(_, row) => in_class C row) lkvs ->
  Forall (fun y => rc_lo C <= y <= rc_hi C) ((fun c => len (cell_bytes c) + POINTER_LEN) <$> cells).
Proof.
  induction 1 as [|c [k row] cells kvs Hc Hcs IH]; intros Hf; [constructor|].
  apply Forall_cons in Hf as [[_ Hx] Hf]. rewrite fmap_cons. constructor; [|by apply IH].
  by rewrite (cell_holds_size _ _ _ _ _ Hc).
Qed.

Section leaf_insert.
Context {S : Type} `{PageStoreLaws S} {J : PinaxError -> S -> Prop} `{!StopsIn J} `{BuildProfile}.
Implicit Types s : S.

(** A page built from cells is a leaf. *)
Lemma leaf_tree ps v id lo hi buf cells cs lkvs :
  page_at ps v id buf -> leaf_page (max_local ps) (usable ps) buf cells cs ->
  leaf_rows ps v cells lkvs -> sorted_in lo hi lkvs -> tree ps v 0 id lo hi lkvs.
Proof. intros. exists cells. split_and!; [by exists buf, cs|done|done]. Qed.

Lemma max_local_range ps : page_size_wf ps -> 4053 <= max_local ps <= 65493.
Proof. intros Hwf. rewrite max_local_wf by done. apply page_size_range in Hwf. lia. Qed.

Lemma cell_bytes_key ml c : cell_wf ml c -> read_i64 (cell_bytes c) 0 = Ret (key c).
Proof.
  intros Hc. apply read_i64_at; [|apply Hc].
  pose proof (at_offset_self (cell_bytes c)) as Hat.
  by apply (proj1 (at_offset_app _ _ (be_bytes 8 (key c)) _)) in Hat as [? _].
Qed.

(** The cells fit a leaf. *)
Definition fits_leaf (ps : PageSize) (cells : list LeafCell) : Prop :=
  LEAF_HEADER_LEN + 2 * len cells + cells_size cells <= usable ps.

(** The page [id] of the store is a leaf of these cells. *)
Definition leaf_stored s (id : Z) (cells : list LeafCell) : Prop :=
  exists b cs, page_at (pool_page_size s) (store_view s) id b /\
    leaf_page (max_local (pool_page_size s)) (usable (pool_page_size s)) b cells cs.

Lemma leaf_stored_fits s id cells : leaf_stored s id cells -> fits_leaf (pool_page_size s) cells.
Proof. intros (b & cs & _ & Hp). apply leaf_page_size in Hp. unfold fits_leaf. lia. Qed.

(** Two leaves for the cells of a leaf and the new one, cut at half their number. *)
Definition split_leaves (all : list LeafCell) (res : NodeResult) s : Prop :=
  let mid := (length all / 2)%nat in
  exists l r k, res = Split l r k /\ leaf_stored s l (take mid all) /\ leaf_stored s r (drop mid all) /\
    head (key <$> drop mid all) = Some k.

Lemma leaf_split_fits s buf cells cs i c :
  store_inv s -> let ps := pool_page_size s in
  leaf_page (max_local ps) (usable ps) buf cells cs -> cell_wf (max_local ps) c -> (i <= length cells)%nat ->
  store_next s + 2 <= store_limit ->
  let all := vec_insert i c cells in let mid := (length all / 2)%nat in
  fits_leaf ps (take mid all) -> fits_leaf ps (drop mid all) ->
  runs J (leaf_split_with_new_cell buf (Z.of_nat i) (cell_bytes c)) s (fun res s' =>
    extends 2 s s' /\ exists k, res = Split (store_next s) (store_next s + 1) k /\
      leaf_stored s' (store_next s) (take mid all) /\ leaf_stored s' (store_next s + 1) (drop mid all) /\
      head (key <$> drop mid all) = Some k).
Proof.
  intros Hinv ps Hp Hc Hi Hn all mid Hleft Hright.
  pose proof (store_page_size_wf s Hinv) as Hwf. fold ps in Hwf. pose proof (max_local_range _ Hwf) as Hml.
  pose proof (page_size_range _ Hwf) as Hps.
  assert (Hall : Forall (cell_wf (max_local ps)) all).
  { destruct Hp as (_ & _ & _ & Hcells). rewrite Forall_forall in *.
    intros x [->|Hx]%elem_of_vec_insert; [done|by apply Hcells]. }
  unfold leaf_split_with_new_cell. apply runs_bind_self. fold ps. cbv zeta. rewrite bytes_usize_wf by done.
  eapply runs_bind_lift; [apply (collect_cells_ok (max_local ps) _ _ _ _ i (cell_bytes c) ltac:(lia) Hp Hi)|].
  rewrite <-vec_insert_fmap, length_fmap, <-fmap_take, <-fmap_drop. fold all mid.
  destruct (build_leaf_page_ok (max_local ps) (ps_bytes ps) (take mid all)) as (bl & csl & Hbl & Hll & Hpl);
    [lia|by apply Forall_take|done|].
  destruct (build_leaf_page_ok (max_local ps) (ps_bytes ps) (drop mid all)) as (br & csr & Hbr & Hlr & Hpr);
    [lia|by apply Forall_drop|done|].
  eapply runs_bind_lift; [exact Hbl|]. eapply runs_bind_lift; [exact Hbr|].
  assert (Hmid : (mid < length all)%nat).
  { apply Nat.div_lt; [unfold all; rewrite length_vec_insert; lia|lia]. }
  assert (Hwr : Forall (cell_wf (max_local ps)) (drop mid all)) by (by apply Forall_drop).
  destruct (drop mid all) as [|c0 right] eqn:Hdrop.
  { apply (f_equal length) in Hdrop. rewrite length_drop in Hdrop. simpl in Hdrop. lia. }
  rewrite fmap_cons. cbn [head context]. eapply runs_bind_lift; [done|].
  apply Forall_cons in Hwr as [Hc0 _]. eapply runs_bind_lift; [by eapply cell_bytes_key|].
  apply put_two_pages; [done|lia|done|done|]. intros s' He Hpagel Hpager. apply runs_ret. split; [done|].
  pose proof (ext_page_size _ _ _ He) as Hps'. exists (key c0). unfold leaf_stored. rewrite Hps'.
  split_and!; [done|by exists bl, csl|by exists br, csr|done].
Qed.

(** A leaf of cells that hold rows is a tree. *)
Lemma leaf_stored_tree s v id lo hi cells lkvs :
  leaf_stored s id cells -> leaf_rows (pool_page_size s) v cells lkvs -> view_le v (store_view s) ->
  sorted_in lo hi lkvs -> tree (pool_page_size s) (store_view s) 0 id lo hi lkvs.
Proof. intros (b & cs & Hpage & Hp) Hrows Hle Hs. eapply leaf_tree; [done|done|by eapply leaf_rows_le|done]. Qed.

(** The halves of a leaf of rows of a class fit. *)
Lemma class_halves_fit ps v buf cells cs i c k row lkvs (C : row_class ps) :
  leaf_page (max_local ps) (usable ps) buf cells cs ->
  leaf_rows ps v cells lkvs -> cell_holds ps v c k row ->
  Forall (fun '(_, row) => in_class C row) (vec_insert i (k, row) lkvs) ->
  let all := vec_insert i c cells in let mid := (length all / 2)%nat in
  fits_leaf ps (take mid all) /\ fits_leaf ps (drop mid all).
Proof.
  intros Hp Hrows Hc Hclass all mid.
  pose proof (Forall2_vec_insert _ i c (k, row) _ _ Hrows Hc) as Hall. fold all in Hall.
  destruct (leaf_page_size _ _ _ _ _ Hp) as [Hs1 Hs2].
  destruct (rc_safe C ((fun c => len (cell_bytes c) + POINTER_LEN) <$> all)
              (len (cell_bytes c) + POINTER_LEN)) as [Hleft Hright].
  { by eapply leaf_rows_sizes. }
  { rewrite (cell_holds_size _ _ _ _ _ Hc). apply (proj1 (Forall_forall _ _) Hclass (k, row)).
    apply elem_of_vec_insert. by left. }
  { rewrite sum_entry_sizes. unfold all. rewrite cells_size_vec_insert, len_vec_insert.
    unfold leaf_room, POINTER_LEN, LEAF_HEADER_LEN in *. lia. }
  rewrite length_fmap in Hleft, Hright. rewrite <-!fmap_take, <-!fmap_drop in *.
  rewrite sum_entry_sizes in Hleft, Hright. fold mid in Hleft, Hright.
  unfold fits_leaf, leaf_room in *. lia.
Qed.

(** Cutting the cells, the new one included, in two pages. *)
Lemma leaf_split_ok s n0 buf cells cs i c k row lkvs lo hi (C : row_class (pool_page_size s)) :
  store_inv s -> let ps := pool_page_size s in
  leaf_page (max_local ps) (usable ps) buf cells cs -> len buf = ps_bytes ps ->
  leaf_rows ps (store_view s) cells lkvs -> cell_holds ps (store_view s) c k row ->
  (i <= length cells)%nat -> sorted_in lo hi (vec_insert i (k, row) lkvs) ->
  Forall (fun '(_, row) => in_class C row) (vec_insert i (k, row) lkvs) ->
  n0 <= store_next s -> store_next s + 2 <= store_limit ->
  runs J (leaf_split_with_new_cell buf (Z.of_nat i) (cell_bytes c)) s (fun res s' =>
    extends 2 s s' /\ node_ok ps (store_view s') 0 n0 res lo hi (vec_insert i (k, row) lkvs)).
Proof.
  intros Hinv ps Hp Hl Hrows Hc Hi Hsorted Hclass Hn0 Hn.
  destruct (class_halves_fit ps _ _ _ _ i c k row _ C Hp Hrows Hc Hclass) as [Hleft Hright].
  eapply runs_mono; [apply (leaf_split_fits s buf cells cs i c); try done; apply Hc|].
  intros res s' (He & sep & -> & Hat1 & Hat2 & Hhead). split; [done|].
  pose proof (Forall2_vec_insert _ i c (k, row) _ _ Hrows Hc) as Hall.
  set (all := vec_insert i c cells) in *. set (mid := (length all / 2)%nat) in *.
  rewrite <-(take_drop mid all) in Hall. apply Forall2_app_inv_l in Hall as (kl & kr & Hkl & Hkr & Hk).
  fold ps in Hkl, Hkr. rewrite Hk in *. pose proof (ext_view _ _ _ He) as Hle.
  pose proof (ext_page_size _ _ _ He) as Hps. pose proof (leaf_rows_keys _ _ _ _ Hkr) as Hkeys.
  pose proof (leaf_rows_wf _ _ _ _ Hkr) as Hwr. rewrite Hkeys in Hhead.
  destruct kr as [|[k0 row0] kr]; [done|]. injection Hhead as <-.
  apply sorted_in_split in Hsorted as (Hsl & Hsr & Hrange). simpl in Hsl, Hsr, Hrange.
  simpl. split; [lia|]. split; [lia|]. split; [lia|]. split.
  { destruct (drop mid all) as [|c0 right]; [done|]. apply Forall_cons in Hwr as [Hc0 _].
    rewrite fmap_cons in Hkeys. injection Hkeys as <- _. apply Hc0. }
  split; [lia|]. exists kl, ((k0, row0) :: kr). unfold ps in *. rewrite <-Hps in *.
  split_and!; [done|by eapply leaf_stored_tree|by eapply leaf_stored_tree].
Qed.

(** Inserting in place, when the leaf has room; splitting it otherwise. *)
Lemma leaf_insert_or_split_ok s n0 buf cells cs i c k row lkvs lo hi (C : row_class (pool_page_size s)) :
  store_inv s -> let ps := pool_page_size s in
  leaf_page (max_local ps) (usable ps) buf cells cs -> len buf = ps_bytes ps ->
  leaf_rows ps (store_view s) cells lkvs -> cell_holds ps (store_view s) c k row ->
  (i <= length cells)%nat -> sorted_in lo hi (vec_insert i (k, row) lkvs) ->
  Forall (fun '(_, row) => in_class C row) (vec_insert i (k, row) lkvs) ->
  n0 <= store_next s -> store_next s + 2 <= store_limit ->
  runs J (leaf_insert_or_split buf (Z.of_nat i) (cell_bytes c)) s (fun res s' => exists n,
    1 <= n <= 2 /\ extends n s s' /\
    node_ok ps (store_view s') 0 n0 res lo hi (vec_insert i (k, row) lkvs)).
Proof.
  intros Hinv ps Hp Hl Hrows Hc Hi Hsorted Hclass Hn0 Hn.
  pose proof (store_page_size_wf s Hinv) as Hwf. fold ps in Hwf.
  pose proof (max_local_range _ Hwf) as Hml.
  pose proof (cell_holds_size _ _ _ _ _ Hc) as Hsz. unfold entry_size, local_size in Hsz.
  unfold leaf_insert_or_split. cbv zeta. pose proof (len_nonneg (cell_bytes c)).
  unfold LEAF_CELL_FIXED_LEN, POINTER_LEN in Hsz.
  rewrite try_u16_Some by (unfold POINTER_LEN, u16_max in *; lia). cbn [from_option Datatypes.id].
  eapply runs_bind_lift; [exact (leaf_free_space _ _ _ _ _ Hp)|]. case_match eqn:E.
  - destruct (leaf_insert_ok (max_local ps) (usable ps) buf cells cs i c) as (buf' & Hb & Hp' & Hl');
      [done|apply Hc|done|unfold POINTER_LEN in *; lia|].
    eapply runs_bind_lift; [exact Hb|].
    apply put_page; [done|lia|fold ps; congruence|]. intros s' Hext Hpage. apply runs_ret.
    exists 1. split_and!; [lia|lia|done|]. split; [lia|].
    eapply leaf_tree; [done|exact Hp'| |done]. eapply leaf_rows_le; [apply Hext|].
    by apply Forall2_vec_insert.
  - eapply runs_mono; [by eapply (leaf_split_ok s n0)|].
    simpl. intros res s' [? ?]. exists 2. split_and!; [lia|lia|done|done].
Qed.

(** A fresh leaf page holding one cell, the first page of an empty tree. *)
Lemma single_leaf_ok ps v c k row :
  page_size_wf ps -> cell_holds ps v c k row -> exists b0 buf cs,
    init_leaf (zeros (ps_bytes ps)) = Ret b0 /\
    insert_cell_at b0 LEAF_HEADER_LEN 0 (cell_bytes c) = Ret buf /\ len buf = ps_bytes ps /\
    leaf_page (max_local ps) (usable ps) buf [c] cs.
Proof.
  intros Hwf Hc. pose proof (page_size_range _ Hwf) as Hps. pose proof (max_local_wf _ Hwf) as Hml.
  destruct (init_leaf_ok (max_local ps) (ps_bytes ps)) as (b0 & Hb0 & Hl & Hp); [lia|].
  pose proof (cell_holds_size _ _ _ _ _ Hc) as Hsz. unfold entry_size, local_size in Hsz.
  destruct (leaf_insert_ok (max_local ps) (usable ps) b0 [] (usable_of (ps_bytes ps)) 0 c)
    as (buf & Hb & Hp' & Hl'); [done|apply Hc|simpl; lia| |].
  { rewrite len_nil. unfold LEAF_HEADER_LEN, LEAF_CELL_FIXED_LEN, POINTER_LEN, usable_of, CHECKSUM_LEN, u16_max in *. lia. }
  exists b0, buf, (usable_of (ps_bytes ps) - len (cell_bytes c)). split_and!; [done|done|lia|done].
Qed.

Lemma leaf_insert_or_split_class ps (C : row_class ps) s n0 buf cells cs i c k row lkvs lo hi :
  store_inv s -> pool_page_size s = ps ->
  leaf_page (max_local ps) (usable ps) buf cells cs -> len buf = ps_bytes ps ->
  leaf_rows ps (store_view s) cells lkvs -> cell_holds ps (store_view s) c k row ->
  (i <= length cells)%nat -> sorted_in lo hi (vec_insert i (k, row) lkvs) ->
  Forall (fun '(_, row) => in_class C row) (vec_insert i (k, row) lkvs) ->
  n0 <= store_next s -> store_next s + 2 <= store_limit ->
  runs J (leaf_insert_or_split buf (Z.of_nat i) (cell_bytes c)) s (fun res s' => exists n,
    1 <= n <= 2 /\ extends n s s' /\
    node_ok ps (store_view s') 0 n0 res lo hi (vec_insert i (k, row) lkvs)).
Proof. intros ? <-. by apply leaf_insert_or_split_ok. Qed.
End leaf_insert.

Section properties.
Context {S : Type} `{PageStoreLaws S} `{BuildProfile}.

(** C37: A full leaf is split by the number of its cells, and rightly exactly when both halves
    fit a page. On a disk that does not fail and with page ids left, the split of any well-formed
    leaf with a new cell at any index returns two leaf pages that hold between them the cells
    of the leaf and the new one, in order and none lost, the first key of the right one as the
    separator, if and only if the cells of each half fit a page. The sizes of the cells
    are not looked at: with halves that do not fit, the split fails or what it returns does
    not hold the cells, in either build. *)
Theorem leaf_split_exact (s : S) buf cells cs i c :
  store_inv s -> store_sound -> let ps := pool_page_size s in
  leaf_page (max_local ps) (usable ps) buf cells cs -> cell_wf (max_local ps) c -> (i <= length cells)%nat ->
  store_next s + 2 <= store_limit ->
  let all := vec_insert i c cells in let mid := (length all / 2)%nat in
  (fits_leaf ps (take mid all) /\ fits_leaf ps (drop mid all)) <->
  returns (leaf_split_with_new_cell buf (Z.of_nat i) (cell_bytes c)) s (fun res s' =>
    extends 2 s s' /\ split_leaves all res s').
Proof.
  intros Hinv Hsound ps Hp Hc Hi Hn all mid. split.
  - intros [Hleft Hright]. apply stopped_returns; [done|].
    eapply runs_mono; [by apply (leaf_split_fits (J := stopped) s buf cells cs i c)|].
    intros res s' (He & k & -> & ? & ? & ?). split; [done|]. by eexists _, _, k.
  - intros (res & s' & _ & He & l & r & k & _ & Hl & Hr & _). apply leaf_stored_fits in Hl, Hr.
    by rewrite (ext_page_size _ _ _ He) in Hl, Hr.
Qed.
End properties.

(** ** Two classes of rows *)

Lemma leaf_room_range ps : page_size_wf ps -> max_local ps + 18 <= leaf_room ps /\ 4083 <= leaf_room ps.
Proof.
  intros Hwf. rewrite max_local_wf by done. unfold leaf_room, usable, usable_of, LEAF_HEADER_LEN, CHECKSUM_LEN, u16_max.
  apply page_size_range in Hwf. lia.
Qed.

Lemma row_size_min row : 4 <= row_size row.
Proof.
  unfold row_size. enough (0 <= values_size row) by lia.
  induction row as [|[] row IH]; simpl; try pose proof (len_nonneg s); try pose proof (len_nonneg b); lia.
Qed.

(** The rows of at most 238 encoded bytes. *)
Program Definition small_rows (ps : PageSize) (Hwf : page_size_wf ps) : row_class ps :=
  {| rc_lo := 22; rc_hi := 256 |}.
Next Obligation. intros ps Hwf. pose proof (leaf_room_range ps Hwf). lia. Qed.
Next Obligation. intros ps Hwf. pose proof (leaf_room_range ps Hwf). apply split_safe_small; lia. Qed.

Lemma in_small_rows ps Hwf row : row_ok row -> row_size row <= 238 -> in_class (small_rows ps Hwf) row.
Proof.
  intros Hok Hle. split; [done|]. simpl. pose proof (row_size_min row). pose proof (max_local_range ps Hwf).
  unfold entry_size, local_size, LEAF_CELL_FIXED_LEN, POINTER_LEN. lia.
Qed.

(** The rows that fill their local part, whatever they spill to overflow pages. *)
Program Definition spilling_rows (ps : PageSize) (Hwf : page_size_wf ps) : row_class ps :=
  {| rc_lo := 18 + max_local ps; rc_hi := 18 + max_local ps |}.
Next Obligation. intros ps Hwf. pose proof (leaf_room_range ps Hwf). lia. Qed.
Next Obligation.
  intros ps Hwf. pose proof (leaf_room_range ps Hwf). pose proof (max_local_range ps Hwf).
  apply split_safe_uniform. lia.
Qed.

Lemma in_spilling_rows ps Hwf row :
  row_ok row -> max_local ps <= row_size row -> in_class (spilling_rows ps Hwf) row.
Proof.
  intros Hok Hle. split; [done|]. simpl. unfold entry_size, local_size, LEAF_CELL_FIXED_LEN, POINTER_LEN. lia.
Qed.
