(* ===== verification/PathSpec.v ===== *)
(** * The path from the root to a leaf, down and up again

    [focus] is the walk of [descend_path] on the tree; changing the leaf it ends
    at and propagating the change up the same path changes the tree there only. *)

From S2P Require Import Prelude Runs Errors Codec Lexis Row Page Pager PageStore PageStoreSpec Layout Overflow Mutate.
From S2P Require Import LayoutSpec LeafSpec InteriorSpec OverflowSpec BTree TreeSpec.

(** The index of the child [interior_find_child_for_key] chooses. *)
Fixpoint route (keys : list Z) (k : Z) : nat :=
  match keys with
  | [] => O
  | x :: keys => if k <? x then O else S (route keys k)
  end.

Lemma route_unique keys k i :
  (i <= length keys)%nat ->
  (forall m x, (m < i)%nat -> keys !! m = Some x -> x <= k) ->
  (forall x, keys !! i = Some x -> k < x) -> i = route keys k.
Proof.
  revert i. induction keys as [|x keys IH]; intros i Hi Hlow Hhigh; simpl in *; [lia|].
  case_match eqn:E.
  - destruct i as [|i]; [done|]. specialize (Hlow O x ltac:(lia) eq_refl). lia.
  - destruct i as [|i]; [specialize (Hhigh x eq_refl); lia|]. f_equal.
    apply IH; [lia| |done]. intros m y Hm. by apply (Hlow (S m)); [lia|..].
Qed.

Lemma route_spec keys k :
  (route keys k <= length keys)%nat /\
  (forall m x, (m < route keys k)%nat -> keys !! m = Some x -> x <= k) /\
  (forall x, keys !! route keys k = Some x -> k < x).
Proof.
  induction keys as [|y keys (IH1 & IH2 & IH3)]; simpl; [split_and!; [lia|lia|done]|].
  case_match eqn:E; simpl.
  - split_and!; [lia|lia|]. intros. simplify_eq. lia.
  - split_and!; [lia| |done]. intros [|m] x Hm; simpl; intros; [simplify_eq; lia|].
    apply (IH2 m); [lia|done].
Qed.

Lemma find_child_route `{BuildProfile} u buf keys cs r k c :
  interior_page u buf keys cs r -> (cs ++ [r]) !! route keys k = Some c ->
  interior_find_child_for_key buf k = Ret c.
Proof.
  intros Hp Hc. destruct (interior_find_child_for_key_ok Hp k) as (i & c' & Hf & Hc' & Hi & Hlow & Hhigh).
  assert (i = route keys k) as -> by (by apply route_unique). congruence.
Qed.

Section focus.
Context (ps : PageSize) (v : view) (n0 k : Z).

Inductive focus : nat -> Z -> Z -> Z -> list Z -> Z -> Z -> Z -> list kv -> list kv -> list kv -> Prop :=
  | focus_leaf id lo hi kvs :
      tree ps v 0 id lo hi kvs -> lo <= k < hi ->
      focus 0 id lo hi [id] id lo hi [] kvs []
  | focus_node d id lo hi keys cs r c clo chi kpre kpost path lid llo lhi pre lkvs post :
      focused_at ps v d n0 id lo hi keys cs r (route keys k) c clo chi kpre kpost ->
      focus d c clo chi path lid llo lhi pre lkvs post ->
      focus (S d) id lo hi (id :: path) lid llo lhi (kpre ++ pre) lkvs (post ++ kpost).

(** The range of the child that [k] is routed to. *)
Lemma route_range d lo hi keys children clo chi pre :
  length children = S (length keys) -> lo <= k < hi ->
  (keys ++ [hi]) !! route keys k = Some chi ->
  segs (tree ps v d) lo clo (take (route keys k) (entries_to hi keys children)) pre ->
  clo <= k < chi.
Proof.
  intros Hl Hk Hchi Hpre. destruct (route_spec keys k) as (Hr & Hlow & Hhigh).
  split; cycle 1.
  { apply lookup_app_Some in Hchi as [Hchi|[? Hchi]]; [by apply Hhigh|].
    apply list_lookup_singleton_Some in Hchi as [_ <-]. lia. }
  destruct (route keys k) as [|i]; [simpl in Hpre; destruct Hpre; lia|].
  destruct (lookup_lt_is_Some_2 keys i) as [x Hx]; [lia|].
  destruct (lookup_lt_is_Some_2 children i) as [c Hc]; [lia|].
  rewrite (take_S_r _ _ (x, c)) in Hpre.
  - apply segs_snoc in Hpre as [<- _]. by apply (Hlow i); [lia|].
  - apply entries_to_lookup. split; [by apply lookup_app_l_Some|done].
Qed.

Lemma focus_exists d id lo hi kvs :
  (forall id c, v id = Some c -> id < n0) ->
  tree ps v d id lo hi kvs -> lo <= k < hi ->
  exists path lid llo lhi pre lkvs post,
    focus d id lo hi path lid llo lhi pre lkvs post /\ kvs = pre ++ lkvs ++ post.
Proof.
  intros Hold. revert id lo hi kvs. induction d as [|d IH]; intros id lo hi kvs Ht Hk.
  { exists [id], id, lo, hi, [], kvs, []. rewrite app_nil_r. split; [by constructor|done]. }
  destruct Ht as (keys & cs & r & Hp & Hnd & Hs).
  pose proof (interior_at_length _ _ _ _ _ _ Hp) as Hl.
  assert (Hlen : length (cs ++ [r]) = S (length keys)) by (rewrite length_app; simpl; lia).
  destruct (route_spec keys k) as (Hr & _).
  destruct (lookup_lt_is_Some_2 (cs ++ [r]) (route keys k)) as [c Hc]; [lia|].
  destruct (lookup_lt_is_Some_2 (keys ++ [hi]) (route keys k)) as [chi Hchi];
    [rewrite length_app; simpl; lia|].
  destruct (segs_lookup _ _ _ _ _ (route keys k) chi c Hs) as (clo & kpre & mid & kpost & Hpre & Hle & Hc' & Hpost & ->).
  { by apply entries_to_lookup. }
  pose proof (route_range _ _ _ _ _ _ _ _ Hlen Hk Hchi Hpre) as Hkc.
  destruct (IH c clo chi mid Hc' Hkc) as (path & lid & llo & lhi & pre & lkvs & post & Hf & ->).
  eexists _, lid, llo, lhi, (kpre ++ pre), lkvs, (post ++ kpost). split.
  - econstructor; [|exact Hf]. split; try done.
    intros x Hx. destruct (tree_children _ _ _ _ _ _ _ _ _ _ Hl Hs Hx). by eapply Hold.
  - by rewrite <-!app_assoc.
Qed.

Section facts.
Context {d : nat} {id lo hi : Z} {path : list Z} {lid llo lhi : Z} {pre lkvs post : list kv}.

Lemma focus_range :
  focus d id lo hi path lid llo lhi pre lkvs post -> llo <= k < lhi /\ tree ps v 0 lid llo lhi lkvs.
Proof. induction 1; [done|]. by apply IHfocus. Qed.

Lemma focus_path :
  focus d id lo hi path lid llo lhi pre lkvs post -> exists rest, path = id :: rest /\ last path = Some lid.
Proof.
  induction 1 as [|????????????????????? IH]; [eauto|].
  destruct IH as (rest & -> & Hlast). eexists. split; [done|]. by rewrite last_cons, Hlast.
Qed.
End facts.
End focus.

(** ** The two walks *)
Section walks.
Context {S : Type} `{PageStoreLaws S} {J : PinaxError -> S -> Prop} `{!StopsIn J} `{BuildProfile}.
Implicit Types s : S.

Lemma ancestors_cons id path : path <> [] -> ancestors (id :: path) = ancestors path ++ [id].
Proof.
  intros Hne. unfold ancestors. destruct path as [|c path]; [done|]. simpl.
  rewrite !Nat.sub_0_r. by rewrite reverse_cons.
Qed.

Lemma ancestors_last id rest lid :
  last (id :: rest) = Some lid -> default lid (last (ancestors (id :: rest))) = id.
Proof.
  unfold ancestors. destruct rest as [|c rest]; simpl.
  - by intros [= <-].
  - intros _. by rewrite reverse_cons, last_snoc.
Qed.

Lemma propagate_snoc l a old res s :
  propagate (l ++ [a]) old res s =
  (res' ← propagate l old res; apply_result_to_interior a (default old (last l)) res') s.
Proof.
  revert old res s. induction l as [|b l IH]; intros old res s; cbn [app propagate].
  - unfold mbind, M_bind. simpl. by destruct (apply_result_to_interior a old res s) as [[]].
  - assert (Hd : default b (last l) = default old (last (b :: l))).
    { rewrite last_cons. by destruct (last l). }
    rewrite <-Hd. unfold mbind, M_bind.
    destruct (apply_result_to_interior b old res s) as [[x| | |] s']; [|done..].
    by rewrite IH.
Qed.

Section focus.
Context {ps : PageSize} {v : view} {n0 k : Z}.

Lemma descend_ok d id lo hi path lid llo lhi pre lkvs post fuel s :
  focus ps v n0 k d id lo hi path lid llo lhi pre lkvs post -> (d < fuel)%nat ->
  store_inv s -> pool_page_size s = ps -> view_le v (store_view s) ->
  runs J (descend fuel id k) s (fun p s' => p = path /\ extends 0 s s').
Proof.
  intros Hf. revert fuel s. induction Hf as [id lo hi kvs Ht _|
    d id lo hi keys cs r c clo chi kpre kpost path lid llo lhi pre lkvs post Hfa Hf IH];
    intros [|fuel] s Hfuel Hinv Hps Hle; try lia; cbn [descend].
  - destruct Ht as (cells & Hleaf & _). pose proof Hleaf as (buf0 & cs & Hpage0 & _).
    pose proof (store_page_size_wf s Hinv) as Hwf. rewrite Hps in Hwf. rewrite <-Hps in Hpage0.
    eapply runs_bind; [eapply (get_page s v id buf0 (fun buf s' => extends 0 s s' /\ read_u8 buf 0 = Ret PAGE_TYPE_LEAF)); [done..|]|].
    { intros buf s' Hext Hpage _. split; [done|]. rewrite Hps in Hpage.
      destruct (leaf_at_read _ _ _ _ buf Hwf Hleaf Hpage) as [cs' Hp]. apply (leaf_type Hp). }
    intros buf s' [Hext Hty]. eapply runs_bind_lift; [exact Hty|].
    apply runs_ret. by split.
  - eapply runs_bind; [apply (read_interior s v d n0 id lo hi keys cs r (route keys k) c clo chi kpre kpost
      Hinv Hle ltac:(by rewrite Hps) (fun buf s' => extends 0 s s' /\
        interior_page (usable ps) buf keys cs r)); rewrite Hps; auto|].
    intros buf s' [Hext Hp]. eapply runs_bind_lift; [exact (interior_type Hp)|]. simpl.
    eapply runs_bind_lift.
    { unfold expect_page_type. by rewrite (interior_type Hp). }
    eapply runs_bind_lift; [eapply (find_child_route _ _ _ _ _ _ _ Hp); apply Hfa|].
    eapply runs_bind; [apply (IH fuel s')|].
    + lia.
    + apply Hext.
    + rewrite <-Hps. apply Hext.
    + etrans; [done|apply Hext].
    + simpl. intros p s'' [-> Hext']. apply runs_ret. split; [done|]. by eapply extends_trans0.
Qed.

Lemma propagate_ok d id lo hi path lid llo lhi pre lkvs post s res lkvs' :
  focus ps v n0 k d id lo hi path lid llo lhi pre lkvs post ->
  store_inv s -> pool_page_size s = ps -> view_le v (store_view s) -> n0 <= store_next s ->
  store_next s + 2 * Z.of_nat d <= store_limit ->
  node_ok ps (store_view s) 0 n0 res llo lhi lkvs' ->
  runs J (propagate (ancestors path) lid res) s (fun res' s' => exists n,
    0 <= n <= 2 * Z.of_nat d /\ extends n s s' /\
    node_ok ps (store_view s') d n0 res' lo hi (pre ++ lkvs' ++ post)).
Proof.
  intros Hf Hinv Hps Hle Hn0. induction Hf as [id lo hi kvs Ht _|
    d id lo hi keys cs r c clo chi kpre kpost path lid llo lhi pre lkvs post Hfa Hf IH]; intros Hn Hres.
  { apply runs_ret. exists 0. rewrite app_nil_r. split_and!; [lia|lia|by apply extends_refl|done]. }
  destruct (focus_path _ _ _ _ Hf) as (rest & -> & Hlast).
  rewrite ancestors_cons by done. unfold runs. rewrite propagate_snoc.
  rewrite (ancestors_last _ _ _ Hlast). apply (runs_bind _ _ _ _ _ (IH ltac:(lia) Hres)).
  intros res' s' (n & Hnr & Hext & Hok).
  pose proof (ext_page_size _ _ _ Hext) as Hps'. pose proof (ext_next _ _ _ Hext) as Hn'.
  assert (Hap : runs J (apply_result_to_interior id c res') s' (fun res s'' => exists n,
    0 <= n <= 2 /\ extends n s' s'' /\
    node_ok ps (store_view s'') (Datatypes.S d) n0 res lo hi (kpre ++ (pre ++ lkvs' ++ post) ++ kpost))).
  { rewrite <-Hps, <-Hps'. rewrite <-Hps, <-Hps' in Hfa, Hok.
    destruct res'; [eapply (apply_replaced_ok s' v)|eapply (apply_split_ok s' v)]; try done;
      try apply Hext; try lia; etrans; try done; apply Hext. }
  eapply runs_mono; [exact Hap|]. intros res2 s'' (m & Hm & Hext' & Hok').
  exists (n + m). split_and!; [lia|lia|by eapply extends_trans|].
  by rewrite <-!app_assoc in *.
Qed.
End focus.
End walks.

(** ** Routing *)

(** C22: The scan of an interior page for a key ends at the child that follows the
    separators not above the key, for ascending separators their number: a key
    equal to a separator goes right of it. *)
Theorem find_child_exact `{BuildProfile} u buf keys cs r k :
  interior_page u buf keys cs r -> ascending keys ->
  exists c, interior_find_child_for_key buf k = Ret c /\
    (cs ++ [r]) !! length (filter (fun x => x <= k) keys) = Some c.
Proof.
  intros Hp Ha. assert (Hrank : route keys k = length (filter (fun x => x <= k) keys)).
  { assert (Hr : rank keys (k + 1) = length (filter (fun x => x <= k) keys)).
    { unfold rank. f_equal. apply list_filter_iff. intros x. lia. }
    rewrite <-Hr. symmetry. destruct (route_spec keys k) as (Hle & Hlow & Hhigh).
    apply rank_unique; [done|intros m x Hm Hx; specialize (Hlow m x Hm Hx); lia|].
    intros m x Hm Hx. destruct (lookup_lt_is_Some_2 keys (route keys k)) as [y Hy].
    { apply lookup_lt_Some in Hx. lia. }
    specialize (Hhigh y Hy). destruct (decide (m = route keys k)) as [->|]; [simplify_eq; lia|].
    assert (y < x) by (apply (Ha (route keys k) m); [lia|done..]). lia. }
  pose proof (interior_length Hp) as Hl.
  destruct (lookup_lt_is_Some_2 (cs ++ [r]) (route keys k)) as [c Hc].
  { rewrite length_app. simpl. destruct (route_spec keys k) as [Hle _]. lia. }
  exists c. split; [by eapply find_child_route|]. by rewrite <-Hrank.
Qed.

Lemma find_child_exact_witness :
  let _ := Build_BuildProfile true in
  exists buf, build_interior_page 4096 [10; 20] [4; 5; 6] = Ret buf /\
    interior_find_child_for_key buf 10 = Ret 5 /\ interior_find_child_for_key buf 9 = Ret 4.
Proof.
  intros prof.
  assert (Ha : ascending [10; 20]).
  { intros i j x y Hij Hx Hy. destruct i as [|[|i]], j as [|[|j]]; try lia;
      simpl in Hx, Hy; rewrite ?lookup_nil in Hx; rewrite ?lookup_nil in Hy; simplify_eq; lia. }
  destruct (build_interior_page_ok 4096 [10; 20] [4; 5] 6) as (buf & Hb & Hp & _);
    [lia|done|repeat constructor; vm_compute; discriminate|repeat constructor; vm_compute; discriminate|
     vm_compute; discriminate|].
  exists buf. split; [done|]. split.
  - destruct (find_child_exact _ buf [10; 20] [4; 5] 6 10 Hp Ha) as (c & Hf & Hc).
    vm_compute in Hc. injection Hc as <-. exact Hf.
  - destruct (find_child_exact _ buf [10; 20] [4; 5] 6 9 Hp Ha) as (c & Hf & Hc).
    vm_compute in Hc. injection Hc as <-. exact Hf.
Defined.
