(* ===== verification/BTreeSpec.v ===== *)
(** * The B+tree refines a finite map

    [repr C d m s]: the pages of the store [s] hold a tree of depth [d] whose rows
    are the map [m]. Every operation of the tree, run on such a store, does what
    the map operation does, and leaves such a store. Nothing is used of the store
    but the laws of [PageStoreLaws]. *)

From S2P Require Import Prelude Runs Errors Codec Lexis Row Page Pager PageStore PageStoreSpec Layout Overflow Mutate.
From S2P Require Import LayoutSpec LeafSpec InteriorSpec OverflowSpec BTree TreeSpec SplitSpec PathSpec.

(** The range of all keys. *)
Definition key_lo : Z := i64_min.
Definition key_hi : Z := i64_max + 1.

(** ** Rows as a list and as a map *)

Lemma sorted_in_NoDup lo hi (kvs : list kv) : sorted_in lo hi kvs -> NoDup kvs.*1.
Proof. intros [? _]. by apply ascending_NoDup. Qed.

Lemma vec_insert_Permutation {A} i (x : A) l : vec_insert i x l ≡ₚ x :: l.
Proof. unfold vec_insert. rewrite <-(take_drop i l) at 3. by rewrite Permutation_middle. Qed.

Lemma delete_Permutation_cons {A} i (x : A) l : l !! i = Some x -> x :: base.delete i l ≡ₚ l.
Proof. intros Hi. symmetry. by apply delete_Permutation. Qed.

Section kvs.
Implicit Types kvs : list kv.

(** The rows around the leaf where [k] belongs. *)
Context (pre post : list kv) (k : Z).
Hypothesis Hpre : k ∉ pre.*1.
Hypothesis Hpost : k ∉ post.*1.

Lemma around_lookup_None lkvs :
  k ∉ lkvs.*1 -> (list_to_map (pre ++ lkvs ++ post) : gmap Z Row) !! k = None.
Proof. intros. apply not_elem_of_list_to_map_1. rewrite !fmap_app. set_solver. Qed.

Lemma around_lookup_Some lkvs row :
  NoDup (pre ++ lkvs ++ post).*1 -> (k, row) ∈ lkvs ->
  (list_to_map (pre ++ lkvs ++ post) : gmap Z Row) !! k = Some row.
Proof. intros. apply elem_of_list_to_map_1; [done|]. set_solver. Qed.

Lemma around_insert lkvs j row :
  NoDup (pre ++ lkvs ++ post).*1 -> k ∉ lkvs.*1 ->
  list_to_map (pre ++ vec_insert j (k, row) lkvs ++ post) =
  <[k := row]> (list_to_map (pre ++ lkvs ++ post) : gmap Z Row).
Proof.
  intros Hnd Hk.
  assert (Hp : pre ++ vec_insert j (k, row) lkvs ++ post ≡ₚ (k, row) :: pre ++ lkvs ++ post).
  { rewrite vec_insert_Permutation. simpl. symmetry. apply Permutation_middle. }
  rewrite <-list_to_map_cons. apply list_to_map_proper; [|done].
  rewrite Hp. rewrite fmap_cons. constructor; [|done]. rewrite !fmap_app. set_solver.
Qed.

Lemma around_delete_perm lkvs j row :
  lkvs !! j = Some (k, row) ->
  pre ++ lkvs ++ post ≡ₚ (k, row) :: pre ++ base.delete j lkvs ++ post.
Proof.
  intros Hj. rewrite <-(delete_Permutation_cons _ _ _ Hj) at 1. simpl. symmetry. apply Permutation_middle.
Qed.

Lemma around_delete lkvs j row :
  NoDup (pre ++ lkvs ++ post).*1 -> lkvs !! j = Some (k, row) ->
  NoDup (pre ++ base.delete j lkvs ++ post).*1 /\ (k ∉ (base.delete j lkvs).*1) /\
  list_to_map (pre ++ base.delete j lkvs ++ post) =
  base.delete k (list_to_map (pre ++ lkvs ++ post) : gmap Z Row).
Proof.
  intros Hnd Hj. pose proof (around_delete_perm _ _ _ Hj) as Hp.
  rewrite (list_to_map_proper _ _ Hnd Hp), list_to_map_cons.
  rewrite Hp, fmap_cons, NoDup_cons in Hnd. destruct Hnd as [Hk Hnd]. split_and!; [done| |].
  - simpl in Hk. rewrite !fmap_app in Hk. set_solver.
  - rewrite delete_insert_id; [done|]. by apply not_elem_of_list_to_map_1.
Qed.

Lemma around_update lkvs j row row' :
  NoDup (pre ++ lkvs ++ post).*1 -> lkvs !! j = Some (k, row') ->
  (vec_insert j (k, row) (base.delete j lkvs)).*1 = lkvs.*1 /\
  list_to_map (pre ++ vec_insert j (k, row) (base.delete j lkvs) ++ post) =
  <[k := row]> (list_to_map (pre ++ lkvs ++ post) : gmap Z Row).
Proof.
  intros Hnd Hj. destruct (around_delete _ _ _ Hnd Hj) as (Hnd' & Hk & Hmap). split.
  - rewrite vec_insert_fmap, list_fmap_delete. simpl.
    assert (Hkj : lkvs.*1 !! j = Some k) by (by rewrite list_lookup_fmap, Hj).
    unfold vec_insert. rewrite delete_take_drop. apply lookup_lt_Some in Hkj as Hlt.
    rewrite take_app_length', drop_app_length' by (rewrite length_take; lia).
    by apply take_drop_middle.
  - rewrite around_insert by done. rewrite Hmap. apply insert_delete_eq.
Qed.
End kvs.

(** Ascending again, after a row was put where [leaf_search] says or removed. *)
Lemma sorted_in_insert lo hi lkvs j k row :
  sorted_in lo hi lkvs -> lo <= k < hi -> search_spec (lkvs.*1) k (NotFoundAt (Z.of_nat j)) ->
  (j <= length lkvs)%nat /\ (k ∉ lkvs.*1) /\ sorted_in lo hi (vec_insert j (k, row) lkvs).
Proof.
  intros [Ha Hf] Hk (j' & Hj & Hle & Hlow & Hhigh). assert (j' = j) as -> by lia.
  rewrite length_fmap in Hle. split_and!; [done| |split].
  - intros [m Hm]%list_elem_of_lookup. destruct (decide (m < j)%nat).
    + specialize (Hlow _ _ l Hm). lia.
    + specialize (Hhigh m k ltac:(lia) Hm). lia.
  - rewrite vec_insert_fmap. simpl. unfold vec_insert.
    rewrite <-(take_drop j lkvs.*1) in Ha. apply ascending_app in Ha as (Hl & Hr & Hlr).
    change (k :: drop j lkvs.*1) with ([k] ++ drop j lkvs.*1).
    assert (Hlowj : forall x, x ∈ take j lkvs.*1 -> x < k).
    { intros x [m Hm]%list_elem_of_lookup. apply lookup_take_Some in Hm as [Hm ?]. by eapply Hlow. }
    assert (Hhighj : forall x, x ∈ drop j lkvs.*1 -> k < x).
    { intros x [m Hm]%list_elem_of_lookup. rewrite lookup_drop in Hm. eapply Hhigh; [|done]. lia. }
    apply ascending_app. split_and!; [done| |].
    + apply ascending_app. split_and!; [apply ascending_singleton|done|].
      intros x y ->%list_elem_of_singleton. auto.
    + intros x y Hx [->%list_elem_of_singleton|Hy]%elem_of_app; [auto|]. by apply Hlr.
  - rewrite vec_insert_fmap. rewrite Forall_forall in *.
    intros x [->|Hx]%elem_of_vec_insert; [done|auto].
Qed.

Lemma ascending_delete j l : ascending l -> ascending (base.delete j l).
Proof.
  intros Ha. rewrite delete_take_drop. rewrite <-(take_drop j l) in Ha.
  apply ascending_app in Ha as (Hl & Hr & Hlr).
  assert (Hd : drop (S j) l = drop 1 (drop j l)) by (by rewrite drop_drop, Nat.add_1_r).
  apply ascending_app. rewrite Hd. split_and!; [done| |].
  - destruct (drop j l) as [|x r]; [done|]. simpl. change (x :: r) with ([x] ++ r) in Hr.
    by apply ascending_app in Hr as (_ & ? & _).
  - intros x y Hx Hy. apply Hlr; [done|]. destruct (drop j l); simpl in Hy; [done|]. by right.
Qed.

Lemma sorted_in_delete lo hi j (lkvs : list kv) : sorted_in lo hi lkvs -> sorted_in lo hi (base.delete j lkvs).
Proof.
  intros [Ha Hf]. split; rewrite list_fmap_delete; [by apply ascending_delete|by apply Forall_delete].
Qed.

(** ** The representation *)
Section repr.
Context {S : Type} `{PageStoreLaws S} `{BuildProfile}.
Context {ps : PageSize} (C : row_class ps).
Implicit Types s : S.

(** The rows a tree under [root] holds, in order, and its depth. *)
Definition rooted (v : view) (root : Z) (d : nat) (kvs : list kv) : Prop :=
  (root = EMPTY_TREE_ROOT /\ d = O /\ kvs = []) \/
  (root <> EMPTY_TREE_ROOT /\ tree ps v d root key_lo key_hi kvs).

(** In the pages [v], under [root], stands the map [m]. *)
Definition stands (v : view) (root : Z) (d : nat) (m : gmap Z Row) : Prop :=
  exists kvs, m = list_to_map kvs /\ rooted v root d kvs /\ Forall (fun '(_, row) => in_class C row) kvs.

Record repr (d : nat) (m : gmap Z Row) (s : S) : Prop := {
  rp_ok : store_ok s;
  rp_page_size : pool_page_size s = ps;
  rp_rows : stands (store_view s) (pool_root_page_id s) d m;
}.

Lemma rooted_le v v' root d kvs : view_le v v' -> rooted v root d kvs -> rooted v' root d kvs.
Proof. intros Hle [?|[? ?]]; [by left|right]. split; [done|]. by eapply tree_le. Qed.

Lemma stands_le v v' root d m : view_le v v' -> stands v root d m -> stands v' root d m.
Proof. intros Hle (kvs & ? & ? & ?). exists kvs. split_and!; [done|by eapply rooted_le|done]. Qed.

(** Reading pages changes nothing that [repr] sees. *)
Lemma repr_extends n d m s s' : extends n s s' -> repr d m s -> repr d m s'.
Proof.
  intros Hext [? ? Hst]. split; [apply store_inv_ok, Hext|rewrite (ext_page_size _ _ _ Hext); done|].
  rewrite (ext_root _ _ _ Hext). eapply stands_le; [apply Hext|done].
Qed.

(** A map that stands in the pages that stay is there however a run is stopped. *)
Lemma kept_repr d m s :
  stands store_kept store_root d m -> store_size = ps -> store_inv s -> repr d m s.
Proof.
  intros Hst Hps Hinv. split; [by apply store_inv_ok|by rewrite store_inv_size|]. rewrite store_inv_root by done.
  eapply stands_le; [by apply store_inv_kept|done].
Qed.

Lemma rooted_sorted v root d kvs : rooted v root d kvs -> sorted_in key_lo key_hi kvs.
Proof. intros [(_ & _ & ->)|[_ ?]]; [apply sorted_in_nil|by eapply tree_sorted]. Qed.

(** ** Down to a leaf *)

(** What the operations know when they have read the leaf of [k]. *)
Record at_leaf (s : S) (d : nat) (root k : Z) (kvs : list kv) (path : list Z) (lid : Z) (buf : bytes)
    (lo hi : Z) (pre lkvs post : list kv) (cells : list LeafCell) (cs : Z) (r : search) : Prop := {
  al_focus : focus ps (store_view s) (store_next s) k d root key_lo key_hi path lid lo hi pre lkvs post;
  al_kvs : kvs = pre ++ lkvs ++ post;
  al_pre : k ∉ pre.*1;
  al_post : k ∉ post.*1;
  al_page : leaf_page (max_local ps) (usable ps) buf cells cs;
  al_len : len buf = ps_bytes ps;
  al_rows : leaf_rows ps (store_view s) cells lkvs;
  al_sorted : sorted_in lo hi lkvs;
  al_range : lo <= k < hi;
  al_search : leaf_search buf k = Ret r;
  al_found : search_spec (lkvs.*1) k r;
}.

Lemma focus_outside v n0 k d id lo hi path lid llo lhi pre lkvs post :
  focus ps v n0 k d id lo hi path lid llo lhi pre lkvs post ->
  lo <= llo /\ lhi <= hi /\ (forall x, x ∈ pre.*1 -> x < llo) /\ (forall x, x ∈ post.*1 -> lhi <= x).
Proof.
  induction 1 as [id lo hi kvs Ht _|
    d id lo hi keys cs r c clo chi kpre kpost path lid llo lhi pre lkvs post [_ _ _ _ _ Hp1 Hp2 _] Hf (IH1 & IH2 & IH3 & IH4)].
  { split_and!; [lia|lia|by intros ? []%elem_of_nil..]. }
  pose proof (segs_le _ _ _ _ _ Hp1). pose proof (segs_le _ _ _ _ _ Hp2).
  assert (Hs : forall a b c' k', a <= b -> tree ps v d c' a b k' -> sorted_in a b k')
    by (intros; by eapply tree_sorted).
  apply (segs_sorted _ _ _ _ _ (fun c a b k' => Hs a b c k')) in Hp1 as [_ Hpre], Hp2 as [_ Hpost].
  rewrite Forall_forall in Hpre, Hpost. split_and!; [lia|lia| |].
  - intros x. rewrite fmap_app. intros [Hx%Hpre|Hx%IH3]%elem_of_app; lia.
  - intros x. rewrite fmap_app. intros [Hx%IH4|Hx%Hpost]%elem_of_app; lia.
Qed.

(** The walk to the leaf of [k], and its page *)
Definition leaf_of (fuel : nat) (root k : Z) : M S PinaxError (list Z * Z * bytes) :=
  path ← descend_path fuel root k; leaf_id ← lift (path_last path); buf ← pool_get leaf_id; mret (path, leaf_id, buf).

Lemma leaf_of_bind {A} fuel root k (cont : list Z -> Z -> bytes -> M S PinaxError A) s :
  (path ← descend_path fuel root k; leaf_id ← lift (path_last path); buf ← pool_get leaf_id; cont path leaf_id buf) s =
  ('(path, leaf_id, buf) ← leaf_of fuel root k; cont path leaf_id buf) s.
Proof.
  unfold leaf_of, mbind, M_bind. destruct (descend_path fuel root k s) as [[path| | |] s1]; [|done..].
  destruct (lift (path_last path) s1) as [[lid| | |] s2]; [|done..]. by destruct (pool_get lid s2) as [[buf| | |] s3].
Qed.

Lemma leaf_of_ok {J : PinaxError -> S -> Prop} `{!StopsIn J} s d kvs k fuel :
  store_inv s -> pool_page_size s = ps -> in_i64 k -> (d < fuel)%nat ->
  let root := pool_root_page_id s in
  tree ps (store_view s) d root key_lo key_hi kvs ->
  runs J (leaf_of fuel root k) s (fun '(path, lid, buf) s' => exists lo hi pre lkvs post cells cs r,
    at_leaf s d root k kvs path lid buf lo hi pre lkvs post cells cs r /\ extends 0 s s').
Proof.
  intros Hinv Hps Hk Hfuel root Ht.
  assert (Hold : forall id c, store_view s id = Some c -> id < store_next s).
  { intros id c Hc. destruct (store_view_range s id c Hinv Hc). done. }
  destruct (focus_exists ps (store_view s) (store_next s) k d root key_lo key_hi kvs Hold Ht)
    as (path & lid & lo & hi & pre & lkvs & post & Hf & Hkvs).
  { unfold key_lo, key_hi, in_i64 in *. lia. }
  destruct (focus_range _ _ _ _ Hf) as [Hrange Hleaf].
  destruct (focus_outside _ _ _ _ _ _ _ _ _ _ _ _ _ _ Hf) as (_ & _ & Hpre & Hpost).
  destruct Hleaf as (cells & Hlp & Hrows & Hsorted). pose proof Hlp as (buf0 & cs0 & Hpage0 & _).
  destruct (focus_path _ _ _ _ Hf) as (rest & _ & Hlast).
  unfold leaf_of, descend_path. eapply runs_bind.
  { apply (descend_ok d root key_lo key_hi path lid lo hi pre lkvs post fuel s Hf Hfuel Hinv Hps (reflexivity _)). }
  intros p s1 [-> Hext]. pose proof (ext_page_size _ _ _ Hext) as Hps1.
  eapply (runs_bind_lift _ _ _ lid); [unfold path_last; by rewrite Hlast|].
  eapply runs_bind with (P := fun buf s2 => extends 0 s1 s2 /\ page_at ps (store_view s) lid buf).
  { apply (get_page s1 (store_view s) lid buf0); [apply Hext|apply Hext|by rewrite Hps1, Hps|].
    intros buf s2 ? Hp _. rewrite Hps1, Hps in Hp. done. }
  intros buf s2 [Hext2 Hpage]. apply runs_ret.
  pose proof (store_page_size_wf s Hinv) as Hwf. rewrite Hps in Hwf.
  destruct (leaf_at_read _ _ _ _ buf Hwf Hlp Hpage) as [cs Hp].
  pose proof (leaf_rows_keys _ _ _ _ Hrows) as Hkeys.
  assert (Hml : 0 <= max_local ps <= 65493) by (pose proof (max_local_range _ Hwf); lia).
  destruct (leaf_search_ok Hml Hp k) as (r & Hsearch & Hfound).
  { rewrite Hkeys. apply Hsorted. }
  rewrite Hkeys in Hfound. exists lo, hi, pre, lkvs, post, cells, cs, r.
  split; [|by eapply extends_trans0]. split; try done; [intros Hin%Hpre; lia|intros Hin%Hpost; lia|apply Hpage].
Qed.

Section at_leaf.
Context {s : S} {d : nat} {root k : Z} {kvs : list kv} {path : list Z} {lid : Z} {buf : bytes}.
Context {lo hi : Z} {pre lkvs post : list kv} {cells : list LeafCell} {cs : Z} {r : search}.
Hypothesis Hal : at_leaf s d root k kvs path lid buf lo hi pre lkvs post cells cs r.

(** The answer of the search is the map's. *)
Lemma at_leaf_lookup :
  NoDup kvs.*1 ->
  match r with
  | Found i => exists j row c, i = Z.of_nat j /\ lkvs !! j = Some (k, row) /\ cells !! j = Some c /\
      cell_holds ps (store_view s) c k row /\ (list_to_map kvs : gmap Z Row) !! k = Some row
  | NotFoundAt i => exists j, i = Z.of_nat j /\ (list_to_map kvs : gmap Z Row) !! k = None
  end.
Proof.
  destruct Hal. intros Hnd. destruct r as [i|i].
  - destruct al_found0 as (j & -> & Hj). apply list_lookup_fmap_Some in Hj as ([k' row] & Hk & Hj).
    simpl in Hk. subst k'. exists j, row.
    destruct (Forall2_lookup_r _ _ _ _ _ al_rows0 Hj) as (c & Hc & Hch). exists c.
    split_and!; try done. rewrite al_kvs0 in *. apply around_lookup_Some; try done.
    by eapply list_elem_of_lookup_2.
  - destruct al_found0 as (j & -> & Hrest). exists j. split; [done|]. rewrite al_kvs0.
    apply around_lookup_None; [done|done|].
    destruct (sorted_in_insert lo hi lkvs j k []) as (_ & ? & _); [done|done|by exists j|done].
Qed.
End at_leaf.

(** ** Up again, and the commit *)

(** A new version was committed, with [lo] to [n] more pages. *)
Record committed (lo n : Z) (s s' : S) : Prop := {
  cm_next : store_next s + lo <= store_next s' <= store_next s + n;
  cm_txn : store_txn s' = store_txn s + 1;
  cm_saved : store_saved s';
  cm_path : store_path s' = store_path s;
  cm_view : view_le (store_view s) (store_view s');
  cm_dense : dense s -> dense s';
  cm_reliable : store_sound -> store_reliable s';
}.

Lemma committed_after n l m lo k s s' s'' :
  extends n s s' -> committed l m s' s'' -> lo <= n + l -> n + m <= k -> committed lo k s s''.
Proof.
  intros Hext [Hn Ht Hs Hp Hv Hd Hf] Hlo Hk. pose proof (ext_next _ _ _ Hext). pose proof (ext_nonneg _ _ _ Hext).
  split; [lia|rewrite Ht, (ext_txn _ _ _ Hext); done|done|rewrite Hp; apply Hext| | |done].
  - etrans; [apply Hext|done].
  - intros Hdense. by apply Hd, Hext.
Qed.

Abbreviation all_in_class := (Forall (fun '(_, row) => in_class C row)).

(** What may be left where a write that makes [m] is stopped, before its commit or in it. *)
Definition write_stops (n : nat) (m : gmap Z Row) (e : PinaxError) (s' : S) : Prop :=
  stopped e s' \/ exists root d, halfway root e s' /\ (d <= n)%nat /\ stands (store_view s') root d m.

#[local] Instance write_stops_in n m : StopsIn (write_stops n m).
Proof. intros e s ?. by left. Qed.

Lemma write_returns {A} n m (c : M S PinaxError A) s Q :
  store_sound -> runs (write_stops n m) c s Q -> returns c s Q.
Proof.
  intros Hs. apply runs_returns.
  intros e s' [[?%store_stop_sound _]|(root & d & (?%store_stop_sound & _)%store_halfway & _)]; done.
Qed.

(** Committing a tree that is not empty. *)
Lemma tree_commit_ok n d kvs root s :
  store_inv s -> pool_page_size s = ps -> store_txn s < u64_max -> all_in_class kvs -> (d <= n)%nat ->
  tree ps (store_view s) d root key_lo key_hi kvs ->
  runs (write_stops n (list_to_map kvs)) (pool_commit root) s (fun _ s' =>
    repr d (list_to_map kvs) s' /\ committed 0 0 s s' /\ pool_root_page_id s' = root).
Proof.
  intros Hinv Hps Htxn Hclass Hdn Ht. assert (Hr : FIRST_DATA_PAGE_ID <= root < store_next s).
  { rewrite <-Hps in Ht. by eapply tree_id_range. }
  pose proof (store_next_range s Hinv) as Hn. unfold FIRST_DATA_PAGE_ID in *.
  assert (Hst : forall s', view_le (store_view s) (store_view s') -> stands (store_view s') root d (list_to_map kvs)).
  { intros s' Hle. exists kvs. split_and!; [done| |done]. right. unfold EMPTY_TREE_ROOT.
    split; [lia|]. by eapply tree_le. }
  eapply runs_mono; [eapply runs_weaken; [apply (store_commit s root); [done|lia|done]|]|]; cbv beta.
  - intros e s' [?|(Hhalf & _ & Hle)]; [by left|right]. exists root, d. auto.
  - intros _ s' []. split_and!; [|split; [lia|lia|done|done|done|by apply dense_le|done]|done].
    split; [done|congruence|]. rewrite ct_root. by apply Hst.
Qed.

(** [finalize_root]: a root that was split gets a new root above it. *)
Lemma finalize_ok {J : PinaxError -> S -> Prop} `{!StopsIn J} d n0 res kvs s :
  store_inv s -> pool_page_size s = ps -> store_next s + 1 <= store_limit ->
  node_ok ps (store_view s) d n0 res key_lo key_hi kvs ->
  runs J (finalize_root res) s (fun root s' => exists n d',
    0 <= n <= 1 /\ extends n s s' /\ (d <= d' <= Datatypes.S d)%nat /\
    tree ps (store_view s') d' root key_lo key_hi kvs).
Proof.
  intros Hinv Hps Hn. pose proof (store_page_size_wf s Hinv) as Hwf. rewrite Hps in Hwf.
  destruct res as [id|l r sep].
  - intros [_ Ht]. apply runs_ret. exists 0, d. split_and!; [lia|lia|by apply extends_refl|lia|lia|done].
  - intros (_ & _ & Hne & Hsep & Hrange & kl & kr & -> & Hl & Hr). unfold finalize_root.
    apply runs_bind_self. cbv zeta. rewrite Hps, bytes_usize_wf by done.
    destruct (build_interior_ok s d key_lo key_hi [sep] [l; r] (kl ++ kr)) as (buf & Hb & Hlb & Ht).
    + done.
    + done.
    + by constructor.
    + by repeat (constructor || set_solver).
    + simpl. rewrite Hps. exists kl, kr. split_and!; [done|lia|done|].
      exists kr, []. rewrite app_nil_r. split_and!; [done|lia|done|done|done].
    + rewrite Hps. unfold usable, usable_of, INTERIOR_HEADER_LEN, CHECKSUM_LEN, u16_max.
      pose proof (page_size_range _ Hwf). unfold len. simpl. lia.
    + rewrite Hps in Hb, Hlb, Ht. unfold build_interior_page in Hb. simpl in Hb.
      destruct (init_interior (zeros (ps_bytes ps)) r) as [b0| | |]; simpl in Hb; try done.
      eapply runs_bind_lift; [done|].
      eapply (runs_bind_lift _ _ _ buf).
      { revert Hb. change (Z.of_nat 0) with 0. by destruct (insert_cell_at b0 INTERIOR_HEADER_LEN 0 (build_interior_cell sep l)). }
      apply (put_page (fun id => mret id)); [done|done|by rewrite Hps|].
      intros s' Hext Hpage. rewrite Hps in Hpage. apply runs_ret.
      exists 1, (Datatypes.S d). split_and!; [lia|lia|done|lia|lia|]. apply Ht; [apply Hext|done].
Qed.

(** The common end of [insert] and [update]: from the changed leaf to the commit. *)
Lemma finish_ok d v n0 k root path lid lo hi pre lkvs post s res lkvs' :
  store_inv s -> pool_page_size s = ps -> view_le v (store_view s) ->
  focus ps v n0 k d root key_lo key_hi path lid lo hi pre lkvs post ->
  n0 <= store_next s -> store_next s + 2 * Z.of_nat d + 1 <= store_limit -> store_txn s < u64_max ->
  all_in_class (pre ++ lkvs' ++ post) ->
  node_ok ps (store_view s) 0 n0 res lo hi lkvs' ->
  runs (write_stops (Datatypes.S d) (list_to_map (pre ++ lkvs' ++ post)))
          (result ← propagate (ancestors path) lid res; new_root ← finalize_root result;
           pool_commit new_root ;; mret new_root) s (fun r s' => exists d',
    (d <= d' <= Datatypes.S d)%nat /\ repr d' (list_to_map (pre ++ lkvs' ++ post)) s' /\
    committed 0 (2 * Z.of_nat d + 1) s s').
Proof.
  intros Hinv Hps Hle Hf Hn0 Hn Htxn Hclass Hres.
  eapply runs_bind; [apply (propagate_ok d root key_lo key_hi path lid lo hi pre lkvs post s res lkvs' Hf
    Hinv Hps Hle Hn0 ltac:(lia) Hres)|].
  intros res' s1 (n & Hnr & Hext & Hok).
  pose proof (ext_page_size _ _ _ Hext) as Hps1. pose proof (ext_next _ _ _ Hext) as Hn1.
  pose proof (ext_txn _ _ _ Hext) as Ht1.
  eapply runs_bind; [apply (finalize_ok d n0 res' (pre ++ lkvs' ++ post) s1);
    [apply Hext|congruence|lia|done]|].
  intros newroot s2 (m & d' & Hm & Hext2 & Hd' & Ht).
  pose proof (ext_page_size _ _ _ Hext2) as Hps2. pose proof (ext_next _ _ _ Hext2) as Hn2.
  pose proof (ext_txn _ _ _ Hext2) as Ht2.
  eapply runs_bind; [apply (tree_commit_ok _ d' (pre ++ lkvs' ++ post) newroot s2);
    [apply Hext2|congruence|lia|done|lia|done]|].
  simpl. intros _ s3 (Hrepr & Hcm & _). apply runs_ret. exists d'. split_and!; [lia|lia|done|].
  apply (committed_after _ _ _ _ _ _ _ _ (extends_trans _ _ _ _ _ Hext Hext2) Hcm); lia.
Qed.

(** ** insert *)

(** The pages an insert or update may add to a tree of depth [d]. *)
Definition write_pages (d : nat) (row : Row) : Z := row_pages ps row + 2 * Z.of_nat d + 3.

Lemma row_pages_nonneg row : page_size_wf ps -> 0 <= row_pages ps row.
Proof.
  intros Hwf%page_size_range. apply overflow_pages_nonneg; [unfold chunk_cap; lia|lia].
Qed.

Lemma all_in_class_insert (pre lkvs post : list kv) j k row :
  all_in_class (pre ++ lkvs ++ post) -> in_class C row ->
  all_in_class (vec_insert j (k, row) lkvs) /\ all_in_class (pre ++ vec_insert j (k, row) lkvs ++ post).
Proof.
  intros Hall Hrow. apply Forall_app in Hall as [Hp Hall]. apply Forall_app in Hall as [Hl Hq].
  assert (Hv : all_in_class (vec_insert j (k, row) lkvs)).
  { rewrite Forall_forall in *. intros x [->|Hx]%elem_of_vec_insert; [done|by apply Hl]. }
  split; [done|]. apply Forall_app. split; [done|]. by apply Forall_app.
Qed.

Lemma insert_empty_ok k row s :
  store_inv s -> pool_page_size s = ps -> pool_root_page_id s = EMPTY_TREE_ROOT ->
  in_i64 k -> in_class C row -> store_next s + write_pages 0 row <= store_limit -> store_txn s < u64_max ->
  forall fuel, runs (write_stops 1 (<[k := row]> ∅)) (insert fuel k row) s (fun _ s' =>
    repr 0 (<[k := row]> ∅) s' /\ committed 1 (write_pages 0 row) s s' /\
    pool_root_page_id s' = store_next s + row_pages ps row).
Proof.
  intros Hinv Hps Hroot Hk [Hrow Hsize] Hn Htxn fuel. unfold insert. apply runs_bind_self.
  cbv zeta. rewrite Hroot. cbn [Z.eqb EMPTY_TREE_ROOT]. unfold write_pages in Hn.
  pose proof (store_page_size_wf s Hinv) as Hwf. rewrite Hps in Hwf.
  pose proof (row_pages_nonneg row Hwf) as Hrp.
  eapply runs_bind; [apply (build_row_cell_ok k row s); [done|done|done|rewrite Hps; lia]|].
  rewrite Hps. intros b s1 (c & -> & Hc & _ & Hext). apply runs_bind_self.
  pose proof (ext_page_size _ _ _ Hext) as Hps1. pose proof (ext_next _ _ _ Hext) as Hn1.
  rewrite Hps1, Hps, bytes_usize_wf by done.
  destruct (single_leaf_ok ps _ c k row Hwf Hc) as (b0 & buf & cs & Hb0 & Hb & Hl & Hp).
  eapply runs_bind_lift; [exact Hb0|]. eapply runs_bind_lift; [exact Hb|].
  apply (put_page (fun id => pool_commit id ;; mret id)); [apply Hext|lia|congruence|].
  intros s2 Hext2 Hpage. rewrite Hps1, Hps in Hpage.
  pose proof (extends_trans _ _ _ _ _ Hext Hext2) as He.
  pose proof (ext_txn _ _ _ He) as Ht. pose proof (ext_next _ _ _ He) as Hn2.
  eapply runs_bind.
  - apply (tree_commit_ok 1 0 [(k, row)] (store_next s1) s2); [apply He|rewrite (ext_page_size _ _ _ He); done|lia| |lia|].
    + apply Forall_singleton. done.
    + eapply leaf_tree; [exact Hpage|exact Hp| |].
      * constructor; [|constructor]. eapply cell_holds_le; [apply Hext2|done].
      * split; simpl; [apply ascending_singleton|]. constructor; [|constructor].
        unfold key_lo, key_hi, in_i64 in *. lia.
  - simpl. intros _ s3 (Hrepr & Hcm & Hroot3). apply runs_ret. split_and!; [done| |by rewrite Hroot3].
    apply (committed_after _ _ _ _ _ _ _ _ He Hcm); unfold write_pages; lia.
Qed.

(** What [insert], [update] and [delete] share: where the tree is not empty, its leaf for
    [k], and the state in which it was read. *)
Definition leaf_read (s : S) (d : nat) (m : gmap Z Row) (root k : Z) : list Z * Z * bytes -> S -> Prop :=
  fun '(path, lid, buf) s' => exists kvs lo hi pre lkvs post cells cs r,
    m = list_to_map kvs /\ all_in_class kvs /\ NoDup kvs.*1 /\
    at_leaf s d root k kvs path lid buf lo hi pre lkvs post cells cs r /\ extends 0 s s'.

Lemma leaf_read_ok {J : PinaxError -> S -> Prop} `{!StopsIn J} d m k s fuel :
  store_inv s -> repr d m s -> pool_root_page_id s <> EMPTY_TREE_ROOT -> in_i64 k -> (d < fuel)%nat ->
  let root := pool_root_page_id s in runs J (leaf_of fuel root k) s (leaf_read s d m root k).
Proof.
  intros Hinv [_ Hps (kvs & Hm & Hh & Hc)] Hroot Hk Hfuel root.
  pose proof (sorted_in_NoDup _ _ _ (rooted_sorted _ _ _ _ Hh)) as Hnd.
  destruct Hh as [(? & _)|[_ Ht]]; [done|].
  eapply runs_mono; [by apply (leaf_of_ok s d kvs k fuel)|].
  intros [[path lid] buf] s' (lo & hi & pre & lkvs & post & cells & cs & r & Hal & Hext).
  exists kvs, lo, hi, pre, lkvs, post, cells, cs, r. auto.
Qed.

Section leaf_read.
Context {J : PinaxError -> S -> Prop} `{!StopsIn J} {A : Type} {d : nat} {m : gmap Z Row} {k : Z} {s : S} {fuel : nat}.
Context {cont : list Z -> Z -> bytes -> M S PinaxError A}.
Context (Hinv : store_inv s) (Hr : repr d m s) (Hroot : pool_root_page_id s <> EMPTY_TREE_ROOT).
Context (Hk : in_i64 k) (Hfuel : (d < fuel)%nat).
Let root := pool_root_page_id s.
Let to_leaf := path ← descend_path fuel root k; leaf_id ← lift (path_last path); buf ← pool_get leaf_id; cont path leaf_id buf.

Lemma runs_to_leaf Q :
  (forall path lid buf s', leaf_read s d m root k (path, lid, buf) s' -> runs J (cont path lid buf) s' Q) ->
  runs J to_leaf s Q.
Proof using All.
  intros HQ. unfold runs, to_leaf. rewrite leaf_of_bind. apply (runs_bind _ _ _ (leaf_read s d m root k)).
  { by apply leaf_read_ok. }
  intros [[path lid] buf] s' Hl. by apply HQ.
Qed.

Lemma refuses_to_leaf e Q :
  (forall path lid buf s', leaf_read s d m root k (path, lid, buf) s' -> refuses J (cont path lid buf) s' e Q) ->
  refuses J to_leaf s e Q.
Proof using All.
  intros HQ. unfold refuses, to_leaf. rewrite leaf_of_bind. apply (refuses_bind _ _ _ _ (leaf_read s d m root k)).
  { by apply leaf_read_ok. }
  intros [[path lid] buf] s' Hl. by apply HQ.
Qed.
End leaf_read.

Lemma repr_empty d m s : repr d m s -> pool_root_page_id s = EMPTY_TREE_ROOT -> m = ∅ /\ d = O.
Proof.
  intros [_ _ (kvs & -> & [(_ & -> & ->)|[Hne _]] & _)] Hr; [done|]. by destruct Hne.
Qed.

(** Building the cell and changing the leaf, from the state in which it was read. *)
Lemma change_leaf_ok s s1 d root k kvs path lid buf0 lo hi pre lkvs0 post cells0 cs0 r
    buf cells cs lkvs j row :
  store_inv s -> pool_page_size s = ps ->
  at_leaf s d root k kvs path lid buf0 lo hi pre lkvs0 post cells0 cs0 r -> extends 0 s s1 ->
  leaf_page (max_local ps) (usable ps) buf cells cs -> len buf = ps_bytes ps ->
  leaf_rows ps (store_view s) cells lkvs -> (j <= length cells)%nat ->
  sorted_in lo hi (vec_insert j (k, row) lkvs) ->
  all_in_class (pre ++ lkvs ++ post) -> in_class C row ->
  store_next s + write_pages d row <= store_limit -> store_txn s < u64_max ->
  forall c s2, extends (row_pages ps row) s1 s2 -> cell_holds ps (store_view s2) c k row ->
  runs (write_stops (Datatypes.S d) (list_to_map (pre ++ vec_insert j (k, row) lkvs ++ post)))
          (result ← leaf_insert_or_split buf (Z.of_nat j) (cell_bytes c);
           result ← propagate (ancestors path) lid result; new_root ← finalize_root result;
           pool_commit new_root ;; mret new_root) s2 (fun _ s' => exists d',
    (d <= d' <= Datatypes.S d)%nat /\
    repr d' (list_to_map (pre ++ vec_insert j (k, row) lkvs ++ post)) s' /\
    committed 1 (write_pages d row) s s').
Proof.
  intros Hinv Hps Hal Hext1 Hp Hl Hrows Hj Hsorted Hall Hrow Hn Htxn c s2 Hext2 Hc.
  pose proof (extends_0_trans _ _ _ _ Hext1 Hext2) as He.
  pose proof (store_page_size_wf s Hinv) as Hwf. rewrite Hps in Hwf.
  pose proof (row_pages_nonneg row Hwf) as Hrp.
  pose proof (ext_next _ _ _ He) as Hn2. pose proof (ext_txn _ _ _ He) as Ht2.
  pose proof (ext_page_size _ _ _ He) as Hps2. unfold write_pages in Hn.
  destruct (all_in_class_insert pre lkvs post j k row Hall Hrow) as [Hcl Hcl'].
  eapply runs_bind.
  - apply (leaf_insert_or_split_class ps C s2 (store_next s) buf cells cs j c k row lkvs lo hi);
      [apply He|congruence|done|done| |done|done|done|done|lia|lia].
    eapply leaf_rows_le; [apply He|done].
  - intros res s3 (n & Hnr & Hext3 & Hok).
    pose proof (ext_next _ _ _ Hext3) as Hn3. pose proof (ext_txn _ _ _ Hext3) as Ht3.
    pose proof (ext_page_size _ _ _ Hext3) as Hps3.
    eapply runs_mono.
    + apply (finish_ok d (store_view s) (store_next s) k root path lid lo hi pre lkvs0 post s3 res
        (vec_insert j (k, row) lkvs)); [apply Hext3|congruence| |apply Hal|lia|lia|lia|done|done].
      etrans; [apply He|apply Hext3].
    + simpl. intros _ s4 (d' & Hd & Hrepr & Hcm). exists d'. split_and!; [lia|lia|done|].
      apply (committed_after _ _ _ _ _ _ _ _ (extends_trans _ _ _ _ _ He Hext3) Hcm); unfold write_pages; lia.
Qed.

(** [insert] puts a new row in the map, and refuses a key that is there. *)
Lemma insert_ok d m k row s fuel :
  store_inv s -> repr d m s -> in_i64 k -> in_class C row -> (d < fuel)%nat ->
  store_next s + write_pages d row <= store_limit -> store_txn s < u64_max ->
  match m !! k with
  | Some _ => refuses stopped (insert fuel k row) s (Permanent (KeyAlreadyExists k)) (fun s' => extends 0 s s')
  | None => runs (write_stops (Datatypes.S d) (<[k := row]> m)) (insert fuel k row) s (fun _ s' => exists d', (d <= d' <= Datatypes.S d)%nat /\
      repr d' (<[k := row]> m) s' /\ committed 1 (write_pages d row) s s')
  end.
Proof.
  intros Hinv Hr Hk Hrow Hfuel Hn Htxn. pose proof Hr as [_ Hps Hst].
  destruct (decide (pool_root_page_id s = EMPTY_TREE_ROOT)) as [Hroot|Hroot].
  { destruct (repr_empty _ _ _ Hr Hroot) as [-> ->]. rewrite lookup_empty.
    eapply runs_mono; [by apply insert_empty_ok|]. simpl. intros _ s' (? & ? & _). exists O. split_and!; [lia|lia|done|done]. }
  pose proof (proj2 (Z.eqb_neq _ _) Hroot) as Hroot'. unfold insert.
  destruct (m !! k) as [row0|] eqn:Hm; [apply refuses_bind_self|apply runs_bind_self]; cbv zeta; rewrite Hroot';
    [apply (refuses_to_leaf Hinv Hr Hroot Hk Hfuel)|apply (runs_to_leaf Hinv Hr Hroot Hk Hfuel)];
    intros path lid buf s' (kvs & lo & hi & pre & lkvs & post & cells & cs & r & -> & Hclass & Hnd & Hal & Hext);
    pose proof (at_leaf_lookup Hal Hnd) as Hlook;
    pose proof Hal as [_ Hkvs Hpre Hpost Hp Hl Hrows Hsort Hrange Hsearch Hfound].
  - destruct r as [i|i]; [|naive_solver].
    eapply refuses_bind_lift; [exact Hsearch|]. by apply refuses_bind_first, refuses_lift.
  - destruct r as [i|i]; [naive_solver|]. destruct Hlook as (j & -> & _).
    eapply runs_bind_lift; [exact Hsearch|]. eapply runs_bind_lift; [done|].
    destruct (sorted_in_insert lo hi lkvs j k row Hsort Hrange Hfound) as (Hj & Hnk & Hs').
    pose proof (ext_next _ _ _ Hext) as Hn1. pose proof (ext_page_size _ _ _ Hext) as Hps1.
    pose proof Hrow as [Hok _]. unfold write_pages in Hn.
    eapply runs_bind; [apply (build_row_cell_ok k row s'); [apply Hext|done|done|rewrite Hps1, Hps; lia]|].
    rewrite Hps1, Hps. intros b s2 (c & -> & Hc & _ & Hext2).
    subst kvs. rewrite <-(around_insert pre post k Hpre Hpost lkvs j row Hnd Hnk).
    eapply change_leaf_ok; try done.
    by rewrite (Forall2_length _ _ _ Hrows).
Qed.

(** [update] replaces the row of a key that is there, and refuses another. *)
Lemma update_ok d m k row s fuel :
  store_inv s -> repr d m s -> in_i64 k -> in_class C row -> (d < fuel)%nat ->
  store_next s + write_pages d row <= store_limit -> store_txn s < u64_max ->
  match m !! k with
  | None => refuses stopped (update fuel k row) s (Permanent (KeyNotFound k)) (fun s' => extends 0 s s')
  | Some _ => runs (write_stops (Datatypes.S d) (<[k := row]> m)) (update fuel k row) s (fun _ s' => exists d', (d <= d' <= Datatypes.S d)%nat /\
      repr d' (<[k := row]> m) s' /\ committed 1 (write_pages d row) s s')
  end.
Proof.
  intros Hinv Hr Hk Hrow Hfuel Hn Htxn. pose proof Hr as [_ Hps Hst]. unfold update.
  destruct (decide (pool_root_page_id s = EMPTY_TREE_ROOT)) as [Hroot|Hroot].
  { destruct (repr_empty _ _ _ Hr Hroot) as [-> ->]. rewrite lookup_empty.
    apply refuses_bind_self. cbv zeta. rewrite Hroot. apply refuses_lift; [done|by apply extends_refl]. }
  pose proof (proj2 (Z.eqb_neq _ _) Hroot) as Hroot'. unfold find_existing.
  destruct (m !! k) as [row0|] eqn:Hm; [apply runs_bind_self|apply refuses_bind_self]; cbv zeta; rewrite Hroot';
    [apply (runs_to_leaf Hinv Hr Hroot Hk Hfuel)|apply (refuses_to_leaf Hinv Hr Hroot Hk Hfuel)];
    intros path lid buf s' (kvs & lo & hi & pre & lkvs & post & cells & cs & r & -> & Hclass & Hnd & Hal & Hext);
    pose proof (at_leaf_lookup Hal Hnd) as Hlook;
    pose proof Hal as [_ Hkvs Hpre Hpost Hp Hl Hrows Hsort Hrange Hsearch Hfound].
  - destruct r as [i|i]; [|naive_solver]. destruct Hlook as (j & row' & c' & -> & Hj & Hcj & _ & _).
    eapply runs_bind_lift; [by rewrite Hsearch|].
    pose proof (ext_next _ _ _ Hext) as Hn1. pose proof (ext_page_size _ _ _ Hext) as Hps1.
    pose proof Hrow as [Hok _]. pose proof Hn as Hn'. unfold write_pages in Hn'.
    eapply runs_bind; [apply (build_row_cell_ok k row s'); [apply Hext|done|done|rewrite Hps1, Hps; lia]|].
    rewrite Hps1, Hps. intros b s2 (c & -> & Hc & _ & Hext2).
    destruct (leaf_remove_ok (max_local ps) (usable ps) buf cells cs j c' Hp Hcj) as (buf' & o & Hb & Hp' & Hl').
    eapply runs_bind_lift; [exact Hb|]. cbv beta iota.
    subst kvs. destruct (around_update pre post k Hpre Hpost lkvs j row row' Hnd Hj) as [Hkeys Hmap].
    rewrite <-Hmap. eapply change_leaf_ok; try done; try congruence.
    + by apply Forall2_delete.
    + rewrite length_delete by (by eexists). apply lookup_lt_Some in Hcj. lia.
    + unfold sorted_in. rewrite Hkeys. exact Hsort.
    + apply Forall_app in Hclass as [H1' Hclass]. apply Forall_app in Hclass as [H2' H3'].
      apply Forall_app. split; [done|]. apply Forall_app. split; [by apply Forall_delete|done].
  - destruct r as [i|i]; [naive_solver|].
    apply refuses_bind_first, refuses_lift; [by rewrite Hsearch|done].
Qed.

(** ** delete *)

(** Reading the pages of a tree. *)
Lemma read_leaf {J : PinaxError -> S -> Prop} `{!StopsIn J} s v id cells :
  store_inv s -> pool_page_size s = ps -> view_le v (store_view s) -> leaf_at ps v id cells ->
  runs J (pool_get id) s (fun buf s' => extends 0 s s' /\
    exists cs, leaf_page (max_local ps) (usable ps) buf cells cs).
Proof.
  intros Hinv Hps Hle Hleaf. pose proof (store_page_size_wf s Hinv) as Hwf. rewrite Hps in Hwf.
  pose proof Hleaf as (buf0 & cs & Hpage & _).
  apply (get_page s v id buf0); [done|done|by rewrite Hps|]. intros buf s' Hext Hp _.
  rewrite Hps in Hp. split; [done|]. by eapply leaf_at_read.
Qed.

Lemma read_interior_at {J : PinaxError -> S -> Prop} `{!StopsIn J} s v id keys cs r :
  store_inv s -> pool_page_size s = ps -> view_le v (store_view s) -> interior_at ps v id keys cs r ->
  runs J (pool_get id) s (fun buf s' => extends 0 s s' /\ interior_page (usable ps) buf keys cs r).
Proof.
  intros Hinv Hps Hle Hint. pose proof (store_page_size_wf s Hinv) as Hwf. rewrite Hps in Hwf.
  pose proof Hint as (buf0 & Hpage & _).
  apply (get_page s v id buf0); [done|done|by rewrite Hps|]. intros buf s' Hext Hp _.
  rewrite Hps in Hp. split; [done|]. by eapply interior_at_read.
Qed.

Lemma collapse_ok {J : PinaxError -> S -> Prop} `{!StopsIn J} d root kvs s :
  store_inv s -> pool_page_size s = ps -> tree ps (store_view s) d root key_lo key_hi kvs ->
  runs J (collapse_root_if_needed root) s (fun r s' => exists d', (d' <= d)%nat /\
    extends 0 s s' /\ tree ps (store_view s') d' r key_lo key_hi kvs).
Proof.
  intros Hinv Hps Ht. unfold collapse_root_if_needed. destruct d as [|d].
  - pose proof Ht as (cells & Hleaf & _).
    eapply runs_bind; [by apply (read_leaf s (store_view s) root cells)|].
    intros buf s' [Hext [cs Hp]]. eapply runs_bind_lift; [exact (leaf_type Hp)|]. simpl.
    apply runs_ret. exists O. split_and!; [lia|done|]. eapply (tree_le _ _ _ O); [apply Hext|done].
  - pose proof Ht as (keys & cs & r & Hint & Hnd & Hs).
    eapply runs_bind; [by apply (read_interior_at s (store_view s) root keys cs r)|].
    intros buf s' [Hext Hp]. eapply runs_bind_lift; [exact (interior_type Hp)|]. simpl.
    eapply runs_bind_lift; [exact (interior_num_cells Hp)|]. case_match eqn:E.
    + assert (keys = []) as -> by (destruct keys; [done|unfold len in E; simpl in E; lia]).
      pose proof (interior_length Hp) as Hl. destruct cs; [|done].
      eapply runs_lift; [exact (interior_rightmost_ok Hp)|]. exists d. split_and!; [lia|done|].
      simpl in Hs. destruct Hs as (k1 & k2 & -> & _ & Hc & _ & ->). rewrite app_nil_r.
      eapply tree_le; [apply Hext|done].
    + apply runs_ret. exists (Datatypes.S d). split_and!; [lia|done|].
      eapply (tree_le _ _ _ (Datatypes.S d)); [apply Hext|done].
Qed.

(** The pages a delete may add to a tree of depth [d]. *)
Definition delete_pages (d : nat) : Z := 2 * Z.of_nat d + 2.

(** From a leaf that lost a cell to the commit. *)
Lemma shrink_leaf_ok {A} d k root path lid lo hi pre lkvs lkvs' post s0 s buf cells cs (ret : A) :
  store_inv s0 -> pool_page_size s0 = ps ->
  focus ps (store_view s0) (store_next s0) k d root key_lo key_hi path lid lo hi pre lkvs post ->
  extends 0 s0 s -> leaf_page (max_local ps) (usable ps) buf cells cs -> len buf = ps_bytes ps ->
  leaf_rows ps (store_view s0) cells lkvs' -> sorted_in lo hi lkvs' ->
  all_in_class (pre ++ lkvs' ++ post) ->
  store_next s0 + delete_pages d <= store_limit -> store_txn s0 < u64_max ->
  runs (write_stops (Datatypes.S d) (list_to_map (pre ++ lkvs' ++ post))) (id ← pool_allocate_page_id; pool_put_new id buf ;;
    result ← propagate (ancestors path) lid (Replaced id); new_root ← finalize_root result;
    new_root ← collapse_root_if_needed new_root; pool_commit new_root ;; mret (new_root, ret)) s
    (fun '(_, ret') s' => ret' = ret /\ exists d', (d' <= Datatypes.S d)%nat /\
      repr d' (list_to_map (pre ++ lkvs' ++ post)) s' /\ committed 1 (delete_pages d) s0 s').
Proof.
  intros Hinv Hps Hf He Hp Hl Hrows Hsort Hclass Hn Htxn. unfold delete_pages in *.
  pose proof (ext_next _ _ _ He) as Hn2. pose proof (ext_page_size _ _ _ He) as Hps2.
  apply (put_page (fun id => result ← propagate (ancestors path) lid (Replaced id);
    new_root ← finalize_root result; new_root ← collapse_root_if_needed new_root;
    pool_commit new_root ;; mret (new_root, ret))); [apply He|lia|congruence|].
  intros s3 Hext3 Hpage. rewrite Hps2, Hps in Hpage.
  pose proof (extends_0_trans _ _ _ _ He Hext3) as He3.
  pose proof (ext_next _ _ _ He3) as Hn3. pose proof (ext_page_size _ _ _ He3) as Hps3.
  eapply runs_bind.
  { apply (propagate_ok d root key_lo key_hi path lid lo hi pre lkvs post s3
      (Replaced (store_next s)) lkvs' Hf); [apply He3|congruence|apply He3|lia|lia|].
    split; [lia|]. eapply leaf_tree; [exact Hpage|exact Hp| |done].
    eapply leaf_rows_le; [apply He3|done]. }
  intros res s4 (n & Hnr & Hext4 & Hok). pose proof (extends_trans _ _ _ _ _ He3 Hext4) as He4.
  pose proof (ext_next _ _ _ He4) as Hn4. pose proof (ext_page_size _ _ _ He4) as Hps4.
  eapply runs_bind; [apply (finalize_ok d (store_next s0) res (pre ++ lkvs' ++ post) s4);
    [apply Hext4|congruence|lia|done]|].
  intros root5 s5 (n5 & d5 & Hnr5 & Hext5 & Hd5 & Ht5). pose proof (extends_trans _ _ _ _ _ He4 Hext5) as He5.
  pose proof (ext_page_size _ _ _ He5) as Hps5.
  eapply runs_bind; [apply (collapse_ok d5 root5 (pre ++ lkvs' ++ post) s5);
    [apply Hext5|congruence|done]|].
  intros root6 s6 (d6 & Hd6 & Hext6 & Ht6). pose proof (extends_trans0 _ _ _ _ He5 Hext6) as He6.
  pose proof (ext_next _ _ _ He6) as Hn6. pose proof (ext_page_size _ _ _ He6) as Hps6.
  pose proof (ext_txn _ _ _ He6) as Htx.
  eapply runs_bind; [apply (tree_commit_ok _ d6 (pre ++ lkvs' ++ post) root6 s6);
    [apply Hext6|congruence|lia|done|lia|done]|].
  simpl. intros _ s7 (Hrepr & Hcm & _). apply runs_ret. split; [done|].
  exists d6. split_and!; [lia|done|]. apply (committed_after _ _ _ _ _ _ _ _ He6 Hcm); lia.
Qed.

(** [delete] takes a row out of the map and gives it back, and refuses a key
    that is not there. *)
Lemma delete_ok d m k s fuel :
  store_inv s -> repr d m s -> in_i64 k -> (d < fuel)%nat ->
  store_next s + delete_pages d <= store_limit -> store_txn s < u64_max ->
  match m !! k with
  | None => refuses stopped (delete fuel k) s (Permanent (KeyNotFound k)) (fun s' => extends 0 s s')
  | Some row => runs (write_stops (Datatypes.S d) (base.delete k m)) (delete fuel k) s (fun '(_, row') s' => row' = row /\
      exists d', (d' <= Datatypes.S d)%nat /\
      repr d' (base.delete k m) s' /\ committed 1 (delete_pages d) s s')
  end.
Proof.
  intros Hinv Hr Hk Hfuel Hn Htxn. pose proof Hr as [_ Hps Hst]. unfold delete.
  destruct (decide (pool_root_page_id s = EMPTY_TREE_ROOT)) as [Hroot|Hroot].
  { destruct (repr_empty _ _ _ Hr Hroot) as [-> ->]. rewrite lookup_empty.
    apply refuses_bind_self. cbv zeta. rewrite Hroot. apply refuses_lift; [done|by apply extends_refl]. }
  pose proof (proj2 (Z.eqb_neq _ _) Hroot) as Hroot'. unfold find_existing.
  destruct (m !! k) as [row|] eqn:Hm; [apply runs_bind_self|apply refuses_bind_self]; cbv zeta; rewrite Hroot';
    [apply (runs_to_leaf Hinv Hr Hroot Hk Hfuel)|apply (refuses_to_leaf Hinv Hr Hroot Hk Hfuel)];
    intros path lid buf s1 (kvs & lo & hi & pre & lkvs & post & cells & cs & r & -> & Hclass & Hnd & Hal & Hext1);
    pose proof (at_leaf_lookup Hal Hnd) as Hlook;
    pose proof Hal as [Hf Hkvs Hpre Hpost Hp Hl Hrows Hsort Hrange Hsearch Hfound]; cycle 1.
  { destruct r as [i|i]; [naive_solver|]. apply refuses_bind_first, refuses_lift; [by rewrite Hsearch|done]. }
  destruct r as [i|i]; [|naive_solver].
  destruct Hlook as (j & row0 & c & -> & Hj & Hcj & Hch & Hm'). rewrite Hm in Hm'. injection Hm' as <-. clear Hm.
  eapply runs_bind_lift; [by rewrite Hsearch|]. rewrite Hps.
  pose proof (store_page_size_wf s Hinv) as Hwf. rewrite Hps in Hwf.
  assert (Hml : 0 <= max_local ps <= 65493) by (pose proof (max_local_range _ Hwf); lia).
  eapply runs_bind_lift; [exact (leaf_cell_at_ok Hml Hp j c Hcj)|].
  pose proof (ext_page_size _ _ _ Hext1) as Hps1. rewrite Hps in Hps1.
  eapply runs_bind.
  { apply (reassemble_ok c k row (store_view s) s1); [apply Hext1|apply Hext1|by rewrite Hps1]. }
  intros b s2 [Hdec Hext2]. eapply runs_bind_lift; [exact Hdec|].
  destruct (leaf_remove_ok (max_local ps) (usable ps) buf cells cs j c Hp Hcj) as (buf' & o & Hb & Hp' & Hl').
  eapply runs_bind_lift; [exact Hb|]. cbv beta iota. subst kvs.
  destruct (around_delete pre post k Hpre Hpost lkvs j row Hnd Hj) as (_ & _ & <-).
  eapply (shrink_leaf_ok d k _ path lid lo hi pre lkvs (base.delete j lkvs) post s s2 buf');
    [done..|by apply (extends_trans0 _ _ _ _ Hext1)|exact Hp'|lia|by apply Forall2_delete| | |done|done].
  - by apply sorted_in_delete.
  - apply Forall_app in Hclass as [? Hclass]. apply Forall_app in Hclass as [? ?].
    apply Forall_app. split; [done|]. apply Forall_app. split; [by apply Forall_delete|done].
Qed.

(** ** get *)

Lemma get_loop_ok {J : PinaxError -> S -> Prop} `{!StopsIn J} v n0 k d id lo hi path lid llo lhi pre lkvs post fuel s :
  focus ps v n0 k d id lo hi path lid llo lhi pre lkvs post -> (d < fuel)%nat ->
  store_inv s -> pool_page_size s = ps -> view_le v (store_view s) ->
  runs J (get_loop fuel id k (max_local ps)) s (fun o s' =>
    extends 0 s s' /\ o = (list_to_map lkvs : gmap Z Row) !! k).
Proof.
  intros Hf. revert fuel s. induction Hf as [id lo hi kvs Ht _|
    d id lo hi keys cs r c clo chi kpre kpost path lid llo lhi pre lkvs post Hfa Hf IH];
    intros [|fuel] s Hfuel Hinv Hps Hle; try lia; cbn [get_loop].
  - destruct Ht as (cells & Hleaf & Hrows & Hsort).
    pose proof (store_page_size_wf s Hinv) as Hwf. rewrite Hps in Hwf.
    assert (Hml : 0 <= max_local ps <= 65493) by (pose proof (max_local_range _ Hwf); lia).
    pose proof (leaf_rows_keys _ _ _ _ Hrows) as Hkeys. pose proof (sorted_in_NoDup _ _ _ Hsort) as Hnd.
    eapply runs_bind; [by apply (read_leaf s v id cells)|]. intros buf s' [Hext [cs Hp]].
    eapply runs_bind_lift; [exact (leaf_type Hp)|]. simpl.
    destruct (leaf_search_ok Hml Hp k) as (r & Hr & Hspec); [rewrite Hkeys; apply Hsort|].
    rewrite Hkeys in Hspec. eapply runs_bind_lift; [exact Hr|]. destruct r as [i|i].
    + destruct Hspec as (j & -> & Hj). apply list_lookup_fmap_Some in Hj as ([k' row] & Hk & Hj).
      simpl in Hk. subst k'. destruct (Forall2_lookup_r _ _ _ _ _ Hrows Hj) as (c & Hc & Hch).
      eapply runs_bind_lift; [exact (leaf_cell_at_ok Hml Hp j c Hc)|].
      pose proof (ext_page_size _ _ _ Hext) as Hps'. rewrite Hps in Hps'.
      eapply runs_bind.
      { apply (reassemble_ok c k row v s'); [apply Hext| |by rewrite Hps']. etrans; [done|apply Hext]. }
      intros b s'' [Hdec Hext']. eapply runs_bind_lift; [exact Hdec|]. apply runs_ret.
      split; [by eapply extends_trans0|]. symmetry. apply elem_of_list_to_map_1; [done|].
      by eapply list_elem_of_lookup_2.
    + apply runs_ret. split; [done|]. symmetry. apply not_elem_of_list_to_map_1.
      intros [m Hm]%list_elem_of_lookup. destruct Hspec as (j & -> & _ & Hlow & Hhigh).
      destruct (decide (m < j)%nat) as [Hmj|Hmj].
      * specialize (Hlow _ _ Hmj Hm). lia.
      * specialize (Hhigh m k ltac:(lia) Hm). lia.
  - eapply runs_bind; [apply (read_interior_at s v id keys cs r); try done; apply Hfa|].
    intros buf s' [Hext Hp]. eapply runs_bind_lift; [exact (interior_type Hp)|]. simpl.
    eapply runs_bind_lift.
    { unfold expect_page_type. by rewrite (interior_type Hp). }
    eapply runs_bind_lift; [eapply (find_child_route _ _ _ _ _ _ _ Hp); apply Hfa|].
    eapply runs_mono; [apply (IH fuel s'); [lia|apply Hext|rewrite (ext_page_size _ _ _ Hext); done|]|].
    + etrans; [done|apply Hext].
    + simpl. intros o s'' [Hext' Ho]. split; [by eapply extends_trans0|done].
Qed.

(** [get] looks a key up in the map. *)
Lemma get_ok {J : PinaxError -> S -> Prop} `{!StopsIn J} d m k s fuel :
  store_inv s -> repr d m s -> in_i64 k -> (d < fuel)%nat ->
  runs J (get fuel k) s (fun o s' => o = m !! k /\ extends 0 s s').
Proof.
  intros Hinv Hr Hk Hfuel. pose proof Hr as [_ Hps (kvs & -> & Hh & _)]. unfold get.
  pose proof (sorted_in_NoDup _ _ _ (rooted_sorted _ _ _ _ Hh)) as Hnd.
  apply runs_bind_self. cbv zeta. destruct Hh as [(Hroot & -> & ->)|[Hroot Ht]].
  { rewrite Hroot. apply runs_ret. split; [done|by apply extends_refl]. }
  rewrite (proj2 (Z.eqb_neq _ _) Hroot), Hps.
  destruct (focus_exists ps (store_view s) (store_next s) k d (pool_root_page_id s) key_lo key_hi kvs)
    as (path & lid & lo & hi & pre & lkvs & post & Hf & ->); [|done|unfold key_lo, key_hi, in_i64 in *; lia|].
  { intros id c Hc. by destruct (store_view_range s id c Hinv Hc). }
  destruct (focus_range _ _ _ _ Hf) as [Hrange _].
  destruct (focus_outside _ _ _ _ _ _ _ _ _ _ _ _ _ _ Hf) as (_ & _ & Hpre & Hpost).
  eapply runs_mono; [by eapply (get_loop_ok (store_view s))|].
  simpl. intros o s' [Hext ->]. split; [|done].
  destruct (list_to_map lkvs !! k) as [row|] eqn:E.
  - symmetry. apply elem_of_list_to_map_2 in E. apply elem_of_list_to_map_1; [done|]. set_solver.
  - symmetry. apply not_elem_of_list_to_map_2 in E.
    apply around_lookup_None; [intros Hx%Hpre; lia|intros Hx%Hpost; lia|done].
Qed.

(** ** scan *)

Lemma scan_cells_ok {J : PinaxError -> S -> Prop} `{!StopsIn J} v buf cells cs : forall cells' lkvs j s,
  leaf_page (max_local ps) (usable ps) buf cells cs -> 0 <= max_local ps <= 65493 ->
  drop j cells = cells' -> leaf_rows ps v cells' lkvs ->
  store_inv s -> pool_page_size s = ps -> view_le v (store_view s) ->
  runs J (scan_cells buf (max_local ps) (seqZ (Z.of_nat j) (len cells'))) s (fun l s' =>
    l = lkvs /\ extends 0 s s').
Proof.
  intros cells' lkvs j s Hp Hml Hd Hrows. revert j s Hd.
  induction Hrows as [|c [k row] cells' lkvs Hc Hrows IH]; intros j s Hd Hinv Hps Hle.
  { apply runs_ret. split; [done|by apply extends_refl]. }
  rewrite len_cons, seqZ_cons by (pose proof (len_nonneg cells'); lia). cbn [scan_cells].
  assert (Hcj : cells !! j = Some c) by (by rewrite <-(Nat.add_0_r j), <-lookup_drop, Hd).
  eapply runs_bind_lift; [exact (leaf_cell_at_ok Hml Hp j c Hcj)|].
  eapply runs_bind.
  { apply (reassemble_ok c k row v s); [done|done|by rewrite Hps]. }
  intros b s' [Hdec Hext]. eapply runs_bind_lift; [exact Hdec|].
  replace (Z.succ (Z.of_nat j)) with (Z.of_nat (Datatypes.S j)) by lia.
  replace (Z.pred (1 + len cells')) with (len cells') by lia.
  eapply runs_bind; [apply (IH (Datatypes.S j) s')|].
  - by rewrite (drop_S _ _ _ Hcj) in Hd; injection Hd.
  - apply Hext.
  - by rewrite (ext_page_size _ _ _ Hext).
  - etrans; [done|apply Hext].
  - simpl. intros l s'' [-> Hext']. apply runs_ret.
    rewrite (ch_key _ _ _ _ _ Hc). split; [done|by eapply extends_trans0].
Qed.

Lemma scan_children_ok {J : PinaxError -> S -> Prop} `{!StopsIn J} v (P : Z -> Z -> Z -> list kv -> Prop) f :
  (forall c lo hi kvs s, P c lo hi kvs -> store_inv s -> pool_page_size s = ps ->
     view_le v (store_view s) -> runs J (f c) s (fun l s' => l = kvs /\ extends 0 s s')) ->
  forall es lo hi kvs s, segs P lo hi es kvs -> store_inv s -> pool_page_size s = ps ->
    view_le v (store_view s) ->
    runs J (scan_children f es.*2) s (fun l s' => l = kvs /\ extends 0 s s').
Proof.
  intros HP. induction es as [|[k c] es IH]; intros lo hi kvs s Hs Hinv Hps Hle; simpl in Hs.
  { destruct Hs as [_ ->]. apply runs_ret. split; [done|by apply extends_refl]. }
  destruct Hs as (l1 & l2 & -> & _ & Hc & Hs). rewrite fmap_cons. cbn [scan_children snd].
  eapply runs_bind; [by eapply HP|]. simpl. intros l s' [-> Hext].
  eapply runs_bind; [eapply IH; [exact Hs|apply Hext|by rewrite (ext_page_size _ _ _ Hext)|]|].
  - etrans; [done|apply Hext].
  - simpl. intros l s'' [-> Hext']. apply runs_ret. split; [done|by eapply extends_trans0].
Qed.

Lemma scan_node_ok {J : PinaxError -> S -> Prop} `{!StopsIn J} v d : forall id lo hi kvs s fuel,
  tree ps v d id lo hi kvs -> (d < fuel)%nat ->
  store_inv s -> pool_page_size s = ps -> view_le v (store_view s) ->
  runs J (scan_node fuel id) s (fun l s' => l = kvs /\ extends 0 s s').
Proof.
  induction d as [|d IH]; intros id lo hi kvs s [|fuel] Ht Hfuel Hinv Hps Hle; try lia; cbn [scan_node].
  - destruct Ht as (cells & Hleaf & Hrows & Hsort).
    pose proof (store_page_size_wf s Hinv) as Hwf. rewrite Hps in Hwf.
    assert (Hml : 0 <= max_local ps <= 65493) by (pose proof (max_local_range _ Hwf); lia).
    eapply runs_bind; [by apply (read_leaf s v id cells)|]. intros buf s' [Hext [cs Hp]].
    eapply runs_bind_lift; [exact (leaf_type Hp)|]. simpl. apply runs_bind_self.
    eapply runs_bind_lift; [exact (leaf_num_cells Hp)|]. rewrite (ext_page_size _ _ _ Hext), Hps.
    eapply runs_mono; [apply (scan_cells_ok v buf cells cs cells kvs 0 s'); try done; [apply Hext| |]|].
    + by rewrite (ext_page_size _ _ _ Hext).
    + etrans; [done|apply Hext].
    + simpl. intros l s'' [-> Hext']. split; [done|by eapply extends_trans0].
  - destruct Ht as (keys & cs & r & Hint & Hnd & Hs).
    eapply runs_bind; [by apply (read_interior_at s v id keys cs r)|].
    intros buf s' [Hext Hp]. eapply runs_bind_lift; [exact (interior_type Hp)|]. simpl.
    eapply runs_bind_lift.
    { unfold expect_page_type. by rewrite (interior_type Hp). }
    eapply runs_bind_lift; [exact (interior_entries_ok Hp)|]. cbv beta iota.
    assert (He : cs ++ [r] = (entries_to hi keys (cs ++ [r])).*2).
    { unfold entries_to. rewrite snd_zip; [done|].
      rewrite !length_app. simpl. rewrite (interior_length Hp). lia. }
    rewrite He. eapply runs_mono.
    + eapply (scan_children_ok v (tree ps v d)); [|exact Hs|apply Hext| |].
      * intros. eapply IH; try done. lia.
      * by rewrite (ext_page_size _ _ _ Hext).
      * etrans; [done|apply Hext].
    + simpl. intros l s'' [-> Hext']. split; [done|by eapply extends_trans0].
Qed.

(** [scan] lists the map, by ascending key. *)
Lemma scan_ok {J : PinaxError -> S -> Prop} `{!StopsIn J} d m s fuel :
  store_inv s -> repr d m s -> (d < fuel)%nat ->
  runs J (scan fuel) s (fun l s' => list_to_map l = m /\ ascending l.*1 /\ extends 0 s s').
Proof.
  intros Hinv Hr Hfuel. pose proof Hr as [_ Hps (kvs & -> & Hh & _)]. unfold scan.
  destruct (rooted_sorted _ _ _ _ Hh) as [Hsort _].
  apply runs_bind_self. cbv zeta. destruct Hh as [(Hroot & -> & ->)|[Hroot Ht]].
  { rewrite Hroot. apply runs_ret. split_and!; [done|done|by apply extends_refl]. }
  rewrite (proj2 (Z.eqb_neq _ _) Hroot).
  eapply runs_mono; [by eapply (scan_node_ok (store_view s))|].
  simpl. by intros l s' [-> Hext].
Qed.
End repr.

(** ** The tree as a map, on any page store *)
Section properties.
Context {S : Type} `{PageStoreLaws S} `{BuildProfile} {ps : PageSize} (C : row_class ps).
Implicit Types s : S.

(** What a refused call leaves: the same map, under the same root, and nothing added. *)
Definition untouched (d : nat) (m : gmap Z Row) (s s' : S) : Prop :=
  store_inv s' /\ repr C d m s' /\ pool_root_page_id s' = pool_root_page_id s /\ store_next s' = store_next s /\
  store_txn s' = store_txn s /\ view_le (store_view s) (store_view s').

Lemma extends_untouched d m s s' : repr C d m s -> extends 0 s s' -> untouched d m s s'.
Proof.
  intros Hr He. split_and!; [apply He|by eapply repr_extends|apply He| |apply He|apply He].
  rewrite (ext_next _ _ _ He). lia.
Qed.

(** What a call that changes the map leaves: the new map, in a tree at most one
    level deeper, by one commit and at most [n] more pages. *)
Definition changed (d : nat) (n : Z) (m : gmap Z Row) (s s' : S) : Prop :=
  exists d', (d' <= Datatypes.S d)%nat /\ repr C d' m s' /\ committed 1 n s s'.

(** C6: [insert] of a row of a class, on a tree of rows of that class that stands for [m], adds
    the row, or refuses a key that is there with [KeyAlreadyExists] and changes nothing;
    unless the disk stops it, before its commit or in it. *)
Theorem insert_refines d m k row s fuel :
  store_inv s -> repr C d m s -> in_i64 k -> in_class C row -> (d < fuel)%nat ->
  store_next s + write_pages (ps := ps) d row <= store_limit -> store_txn s < u64_max ->
  match m !! k with
  | Some _ => refuses stopped (insert fuel k row) s (Permanent (KeyAlreadyExists k)) (untouched d m s)
  | None => runs (write_stops C (Datatypes.S d) (<[k := row]> m)) (insert fuel k row) s
      (fun root s' => changed d (write_pages (ps := ps) d row) (<[k := row]> m) s s')
  end.
Proof.
  intros Hinv Hr Hk Hrow Hfuel Hn Ht. pose proof (insert_ok C d m k row s fuel Hinv Hr Hk Hrow Hfuel Hn Ht) as Hi.
  destruct (m !! k).
  - eapply refuses_mono; [exact Hi|]. intros s' He. by apply extends_untouched.
  - eapply runs_mono; [exact Hi|]. intros root s' (d' & Hd & ? & ?). exists d'. split_and!; [lia|done..].
Qed.

(** C9: [update] to a row of a class, on a tree of rows of that class that stands for [m],
    replaces the row, or refuses a key that is not there with [KeyNotFound] and changes
    nothing; unless the disk stops it. *)
Theorem update_refines d m k row s fuel :
  store_inv s -> repr C d m s -> in_i64 k -> in_class C row -> (d < fuel)%nat ->
  store_next s + write_pages (ps := ps) d row <= store_limit -> store_txn s < u64_max ->
  match m !! k with
  | None => refuses stopped (update fuel k row) s (Permanent (KeyNotFound k)) (untouched d m s)
  | Some _ => runs (write_stops C (Datatypes.S d) (<[k := row]> m)) (update fuel k row) s
      (fun root s' => changed d (write_pages (ps := ps) d row) (<[k := row]> m) s s')
  end.
Proof.
  intros Hinv Hr Hk Hrow Hfuel Hn Ht. pose proof (update_ok C d m k row s fuel Hinv Hr Hk Hrow Hfuel Hn Ht) as Hi.
  destruct (m !! k).
  - eapply runs_mono; [exact Hi|]. intros root s' (d' & Hd & ? & ?). exists d'. split_and!; [lia|done..].
  - eapply refuses_mono; [exact Hi|]. intros s' He. by apply extends_untouched.
Qed.

(** C8: [delete] on a tree of rows of a class that stands for [m] removes the row and gives it
    back, or refuses a key that is not there with [KeyNotFound] and changes nothing; unless
    the disk stops it. *)
Theorem delete_refines d m k s fuel :
  store_inv s -> repr C d m s -> in_i64 k -> (d < fuel)%nat ->
  store_next s + delete_pages d <= store_limit -> store_txn s < u64_max ->
  match m !! k with
  | None => refuses stopped (delete fuel k) s (Permanent (KeyNotFound k)) (untouched d m s)
  | Some row => runs (write_stops C (Datatypes.S d) (base.delete k m)) (delete fuel k) s
      (fun '(_, row') s' => row' = row /\ changed d (delete_pages d) (base.delete k m) s s')
  end.
Proof.
  intros Hinv Hr Hk Hfuel Hn Ht. pose proof (delete_ok C d m k s fuel Hinv Hr Hk Hfuel Hn Ht) as Hi.
  destruct (m !! k).
  - eapply runs_mono; [exact Hi|]. intros [root row'] s' (-> & d' & Hd & ? & ?). split; [done|].
    by exists d'.
  - eapply refuses_mono; [exact Hi|]. intros s' He. by apply extends_untouched.
Qed.

(** C10: [get] answers the row of the map, and [scan] all its rows by ascending key, unless
    the disk stops them; both change nothing. *)
Theorem reads_refine d m s fuel :
  store_inv s -> repr C d m s -> (d < fuel)%nat ->
  (forall k, in_i64 k -> runs stopped (get fuel k) s (fun o s' => o = m !! k /\ untouched d m s s')) /\
  runs stopped (scan fuel) s (fun l s' => list_to_map l = m /\ ascending l.*1 /\ untouched d m s s').
Proof.
  intros Hinv Hr Hfuel. split.
  - intros k Hk. eapply runs_mono; [by apply (get_ok C d m k)|]. intros o s' [-> ?].
    split; [done|by apply extends_untouched].
  - eapply runs_mono; [by apply (scan_ok C d m)|]. intros l s' (? & ? & ?).
    split_and!; [done|done|by apply extends_untouched].
Qed.

(** The pages of [v] are there after the call, whatever it did. *)
Definition keeps_pages {A} (v : view) (c : M S PinaxError A) (s : S) : Prop := view_le v (store_view (c s).2).

(** The disk did not stop the call. *)
Definition not_stopped {A} (c : M S PinaxError A) (s : S) : Prop := forall e, (c s).1 = Throw e -> ~ store_stop e.

Lemma runs_keep {A} n m (c : M S PinaxError A) s Q :
  store_inv s -> runs (write_stops C n m) c s Q -> (forall a s', Q a s' -> view_le (store_view s) (store_view s')) ->
  keeps_pages store_kept c s /\ (not_stopped c s -> keeps_pages (store_view s) c s).
Proof.
  unfold runs, keeps_pages, not_stopped. intros Hinv Hc HQ. pose proof (store_inv_kept s Hinv) as Hk.
  destruct (c s) as [[a|e|p|] s']; [|..|done|done]; cbn [fst snd].
  - pose proof (HQ a s' Hc) as Hle. split; [by etrans|done].
  - destruct Hc as [[Hst Hinv']|(root & d & Hh & _)].
    + split; [by apply store_inv_kept|]. intros Hno. by destruct (Hno e eq_refl).
    + destruct (store_halfway _ _ _ Hh) as (Hst & _ & _ & _ & Hle). split; [done|].
      intros Hno. by destruct (Hno e eq_refl).
Qed.

Lemma refuses_keep {A} (c : M S PinaxError A) s e Q :
  store_inv s -> refuses stopped c s e Q -> (forall s', Q s' -> view_le (store_view s) (store_view s')) ->
  keeps_pages store_kept c s /\ (not_stopped c s -> keeps_pages (store_view s) c s).
Proof.
  unfold refuses, keeps_pages, not_stopped. intros Hinv Hc HQ. pose proof (store_inv_kept s Hinv) as Hk.
  destruct (c s) as [[a|e'|p|] s']; [done|..|done|done]; cbn [fst snd].
  destruct Hc as [[-> Hc]|[Hst Hinv']].
  - pose proof (HQ s' Hc) as Hle. split; [by etrans|done].
  - split; [by apply store_inv_kept|]. intros Hno. by destruct (Hno e' eq_refl).
Qed.

(** C7: Copy on write: whatever a write of a row of a class to a tree of rows of that class
    does, return, refuse or be stopped by the disk, every tree that stood in the file's own
    pages, under any root, is there after it, with the same rows; and where the disk did not
    stop it, also every tree in the pages yet to be written. *)
Theorem copy_on_write d m k row s fuel d0 root kvs :
  store_inv s -> repr C d m s -> in_i64 k -> in_class C row -> (d < fuel)%nat ->
  store_next s + write_pages (ps := ps) d row <= store_limit -> store_txn s < u64_max ->
  let write_keeps (A : Type) (c : M S PinaxError A) :=
    (tree ps store_kept d0 root key_lo key_hi kvs -> tree ps (store_view (c s).2) d0 root key_lo key_hi kvs) /\
    (not_stopped c s -> tree ps (store_view s) d0 root key_lo key_hi kvs ->
      tree ps (store_view (c s).2) d0 root key_lo key_hi kvs) in
  write_keeps Z (insert fuel k row) /\ write_keeps Z (update fuel k row) /\ write_keeps (Z * Row)%type (delete fuel k).
Proof.
  intros Hinv Hr Hk Hrow Hfuel Hn Ht write_keeps.
  assert (Hkeep : forall A (c : M S PinaxError A), keeps_pages store_kept c s /\
    (not_stopped c s -> keeps_pages (store_view s) c s) -> write_keeps A c).
  { intros A c [H1' H2']. split; [intros; by eapply tree_le|]. intros Hno Htr. eapply tree_le; [|exact Htr]. by apply H2'. }
  assert (Hn' : store_next s + delete_pages d <= store_limit).
  { pose proof (store_page_size_wf s Hinv) as Hwf. rewrite (rp_page_size _ _ _ _ Hr) in Hwf.
    pose proof (row_pages_nonneg row Hwf). unfold delete_pages, write_pages in *. lia. }
  pose proof (insert_ok C d m k row s fuel Hinv Hr Hk Hrow Hfuel Hn Ht) as Hi.
  pose proof (update_ok C d m k row s fuel Hinv Hr Hk Hrow Hfuel Hn Ht) as Hu.
  pose proof (delete_ok C d m k s fuel Hinv Hr Hk Hfuel Hn' Ht) as Hd.
  split_and!; apply Hkeep; destruct (m !! k).
  - eapply refuses_keep; [done|exact Hi|]. intros s' He. apply He.
  - eapply runs_keep; [done|exact Hi|]. intros a s' (d' & _ & _ & Hc). apply Hc.
  - eapply runs_keep; [done|exact Hu|]. intros a s' (d' & _ & _ & Hc). apply Hc.
  - eapply refuses_keep; [done|exact Hu|]. intros s' He. apply He.
  - eapply runs_keep; [done|exact Hd|]. intros [r row'] s' (_ & d' & _ & _ & Hc). apply Hc.
  - eapply refuses_keep; [done|exact Hd|]. intros s' He. apply He.
Qed.
End properties.
