(* ===== verification/Examples.v ===== *)
(** * The theorems about the tree, on small trees

    Over a pool of one page and a new file: an empty tree, and a tree of one row. *)

From S2P Require Import Prelude Runs Errors Codec Lexis Row Page Disk Pager PagerSpec PageStore PageStoreSpec.
From S2P Require Import BufferPool PoolSpec Layout Overflow OverflowSpec Mutate LeafSpec TreeSpec SplitSpec BTree BTreeSpec.

Section examples.
#[local] Instance example_hash : Xxh3 := sum_xxh3.
#[local] Instance example_profile : BuildProfile := Build_BuildProfile true.
#[local] Instance example_order : HashOrder := elements_order.

Definition example_size : PageSize := mkPageSize 4096.

Definition example_class : row_class example_size := small_rows _ example_size_wf.

Definition example_row : Row := [VInteger 1; VText (Z_byte <$> [0x68; 0x69])].

Lemma example_row_in_class : in_class example_class example_row.
Proof. apply in_small_rows; apply (bool_decide_unpack _); vm_compute; reflexivity. Qed.

Lemma example_pages d : write_pages (ps := example_size) d example_row = 2 * Z.of_nat d + 3.
Proof. unfold write_pages. replace (row_pages example_size example_row) with 0 by (vm_compute; reflexivity). lia. Qed.

Lemma empty_tree : exists (s : BufferPool) a, pool_inv a s /\ an_sound a /\ an_limit a = u32_max /\
  repr example_class 0 ∅ s /\ store_next s = 2 /\ store_txn s = 0.
Proof.
  destruct example_pool as (s & Hok & Hf & _ & Hps & Hroot & Hnext & Htx).
  destruct (pool_ok_sound s Hok Hf) as (a & ? & ? & ?). exists s, a. split_and!; [done..| |done|done].
  split; [exact Hok|exact Hps|]. exists []. split_and!; [done|by left|constructor].
Qed.

(** The tree that [insert_refines] gives. *)
Lemma one_row_tree : exists (s : BufferPool) a d, pool_inv a s /\ an_sound a /\ an_limit a = u32_max /\
  repr example_class d {[7 := example_row]} s /\ (d <= 1)%nat /\ store_next s <= 5 /\ store_txn s = 1.
Proof.
  destruct empty_tree as (s & a & Hinv & Ha & Hlim & Hr & Hn & Ht).
  pose proof (@insert_ok _ _ _ (pool_run a) _ _ _ example_class 0 ∅ 7 example_row s 1 Hinv Hr) as Hi.
  rewrite example_pages, lookup_empty in Hi. cbn [store_limit pool_run] in Hi.
  destruct (write_returns (H1 := pool_run a) _ _ _ _ _ _ Ha (Hi ltac:(vm_compute; intuition congruence) example_row_in_class ltac:(lia)
    ltac:(rewrite Hlim; unfold u32_max; lia) ltac:(unfold u64_max; lia))) as (r & s' & _ & d & Hd & Hr' & []).
  destruct (pool_ok_sound s' (rp_ok _ _ _ _ Hr') (cm_reliable Ha)) as (a' & ? & ? & ?).
  exists s', a', d. split_and!; try done; lia.
Qed.

Lemma insert_refines_witness :
  exists s : BufferPool, repr example_class 0 ∅ s /\
    returns (BTree.insert 1 7 example_row) s (fun _ s' => exists d, repr example_class d {[7 := example_row]} s').
Proof.
  destruct empty_tree as (s & a & Hinv & Ha & Hlim & Hr & Hn & Ht). exists s. split; [done|].
  pose proof (@insert_refines _ _ _ (pool_run a) _ _ _ example_class 0 ∅ 7 example_row s 1 Hinv Hr) as Hi.
  rewrite example_pages, lookup_empty in Hi. cbn [store_limit pool_run] in Hi.
  eapply returns_mono; [eapply (write_returns (H1 := pool_run a)); [exact Ha|apply Hi;
    [vm_compute; intuition congruence|exact example_row_in_class|lia|rewrite Hlim; unfold u32_max; lia|unfold u64_max; lia]]|].
  intros _ s' (d & _ & Hr' & _). by exists d.
Defined.

Lemma update_refines_witness :
  exists (s : BufferPool) d, repr example_class d {[7 := example_row]} s /\
    returns (BTree.update 2 7 example_row) s (fun _ s' => exists d', repr example_class d' {[7 := example_row]} s').
Proof.
  destruct one_row_tree as (s & a & d & Hinv & Ha & Hlim & Hr & Hd & Hn & Ht). exists s, d. split; [done|].
  pose proof (@update_refines _ _ _ (pool_run a) _ _ _ example_class d _ 7 example_row s 2 Hinv Hr) as Hi.
  rewrite example_pages, lookup_singleton_eq, insert_singleton_eq in Hi. cbn [store_limit pool_run] in Hi.
  eapply returns_mono; [eapply (write_returns (H1 := pool_run a)); [exact Ha|apply Hi;
    [vm_compute; intuition congruence|exact example_row_in_class|lia|rewrite Hlim; unfold u32_max; lia|unfold u64_max; lia]]|].
  intros _ s' (d' & _ & Hr' & _). by exists d'.
Defined.

Lemma delete_refines_witness :
  exists (s : BufferPool) d, repr example_class d {[7 := example_row]} s /\
    returns (BTree.delete 2 7) s (fun '(_, row) s' => row = example_row /\ exists d', repr example_class d' ∅ s').
Proof.
  destruct one_row_tree as (s & a & d & Hinv & Ha & Hlim & Hr & Hd & Hn & Ht). exists s, d. split; [done|].
  pose proof (@delete_refines _ _ _ (pool_run a) _ _ _ example_class d _ 7 s 2 Hinv Hr) as Hi.
  rewrite lookup_singleton_eq, delete_singleton_eq in Hi. cbn [store_limit pool_run] in Hi.
  eapply returns_mono; [eapply (write_returns (H1 := pool_run a)); [exact Ha|apply Hi;
    [vm_compute; intuition congruence|lia|rewrite Hlim; unfold delete_pages, u32_max; lia|unfold u64_max; lia]]|].
  intros [root row] s' (-> & d' & _ & Hr' & _). split; [done|]. by exists d'.
Defined.

Lemma reads_refine_witness :
  exists (s : BufferPool) d, repr example_class d {[7 := example_row]} s /\
    returns (BTree.get 2 7) s (fun o s' => o = Some example_row /\ repr example_class d {[7 := example_row]} s').
Proof.
  destruct one_row_tree as (s & a & d & Hinv & Ha & Hlim & Hr & Hd & Hn & Ht). exists s, d. split; [done|].
  apply (stopped_returns (H1 := pool_run a)); [exact Ha|].
  eapply runs_mono; [apply (@reads_refine _ _ _ (pool_run a) _ _ _ example_class d _ s 2 Hinv Hr)|];
    [lia|vm_compute; intuition congruence|].
  intros o s' (-> & _ & Hu & _). split; [by rewrite lookup_singleton_eq|exact Hu].
Defined.

(** The old tree, after the delete. *)
Lemma copy_on_write_witness :
  exists (s : BufferPool) d root kvs, tree example_size (store_view s) d root key_lo key_hi kvs /\
    tree example_size (store_view (BTree.delete 2 7 s).2) d root key_lo key_hi kvs.
Proof.
  destruct one_row_tree as (s & a & d & Hinv & Ha & Hlim & Hr & Hd & Hn & Ht).
  pose proof Hr as [_ _ (kvs & Hm & [(_ & _ & ->)|[_ Htree]] & _)].
  { exfalso. assert (Hl : ({[7 := example_row]} : gmap Z Row) !! 7 = None) by (by rewrite Hm).
    by rewrite lookup_singleton_eq in Hl. }
  exists s, d, (pool_root_page_id s), kvs. split; [done|].
  pose proof (@copy_on_write _ _ _ (pool_run a) _ _ _ example_class d _ 7 example_row s 2 d (pool_root_page_id s) kvs Hinv Hr) as Hi.
  rewrite example_pages in Hi. cbn [store_limit pool_run] in Hi. cbv zeta in Hi.
  destruct Hi as (_ & _ & _ & Hdel);
    [vm_compute; intuition congruence|exact example_row_in_class|lia|rewrite Hlim; unfold u32_max; lia|unfold u64_max; lia|].
  apply Hdel; [|exact Htree]. intros e _ [_ Hno]. exact (Hno Ha).
Defined.

(** A row of two overflow pages. *)
Definition long_row : Row := [VBlob (replicate 9000 x07)].

Lemma long_row_ok : row_ok long_row.
Proof. apply (bool_decide_unpack _); vm_compute; reflexivity. Qed.

Lemma long_row_pages : row_pages example_size long_row = 2.
Proof. vm_compute. reflexivity. Qed.


(** A small cell and one of half a page, in a leaf; then another one of half a page. *)
Definition blob_cell (key n : Z) : LeafCell := mkLeafCell key n 0 (zeros n).

Lemma blob_cell_wf key n : in_i64 key -> 0 <= n <= 4000 -> cell_wf (max_local example_size) (blob_cell key n).
Proof.
  intros Hk Hn. assert (Hml : max_local example_size = 4053) by (vm_compute; reflexivity).
  split; simpl; [done|unfold u32_max; lia|unfold u32_max; lia|]. rewrite len_zeros by lia. unfold leaf_local_len. lia.
Qed.

(** The right half does not fit: the split does not give two leaves. *)
Lemma leaf_split_exact_witness :
  exists (s : BufferPool) buf cs,
    leaf_page (max_local example_size) (usable example_size) buf [blob_cell 1 20; blob_cell 2 2000] cs /\
    exists a, ~ returns (leaf_split_with_new_cell buf (Z.of_nat 2) (cell_bytes (blob_cell 3 2080))) s
      (fun res s' => extends (H1 := pool_run a) 2 s s' /\
         split_leaves [blob_cell 1 20; blob_cell 2 2000; blob_cell 3 2080] res s').
Proof.
  destruct empty_tree as (s & a & Hinv & Ha & Hlim & [_ Hps _] & Hn & _).
  change (pool_page_size s = example_size) in Hps.
  assert (Hwf : forall k n, k = 1 \/ k = 2 \/ k = 3 -> 0 <= n <= 4000 -> cell_wf (max_local example_size) (blob_cell k n)).
  { intros k n Hk. apply blob_cell_wf. unfold in_i64, i64_min, i64_max. lia. }
  destruct (build_leaf_page_ok (max_local example_size) 4096 [blob_cell 1 20; blob_cell 2 2000])
    as (buf & cs & _ & _ & Hp); [lia|repeat constructor; apply Hwf; lia|vm_compute; discriminate|].
  exists s, buf, cs. split; [exact Hp|]. exists a.
  pose proof (leaf_split_exact (H1 := pool_run a) s buf [blob_cell 1 20; blob_cell 2 2000] cs 2 (blob_cell 3 2080) Hinv Ha)
    as Hs. cbv zeta in Hs. rewrite Hps in Hs.
  destruct Hs as [_ Hs]; [exact Hp|apply Hwf; lia|simpl; lia|cbn [store_limit pool_run]; rewrite Hlim, Hn; vm_compute; discriminate|].
  intros Hr. destruct (Hs Hr) as [_ Hright]. revert Hright. unfold fits_leaf. vm_compute. intros Hle. by apply Hle.
Defined.
End examples.
