(* ===== verification/Termination.v ===== *)
(** * Loops that end on any input

    No precondition: the page may be garbage, the chain of overflow pages a cycle,
    the file may fail at any call. [ends] and [always_ends] exclude the value of a
    loop that runs out of fuel, and follow the structure of the code. *)

From S2P Require Import Prelude Errors Codec Row Page Disk Pager PageStore PageStoreSpec BufferPool Layout Overflow OverflowSpec.

Definition ends {E A} (o : outcome E A) : Prop := o <> Diverge.
Definition always_ends {S E A} (m : M S E A) : Prop := forall s, ends (m s).1.

Create HintDb ends.

Section ends.
Context {S E : Type}.

Lemma ends_bind {A B} (o : outcome E A) (f : A -> outcome E B) :
  ends o -> (forall a, ends (f a)) -> ends (o ≫= f).
Proof. destruct o; simpl; intros; try done. Qed.

Lemma ends_context {A} (o : option A) (e : E) : ends (context o e).
Proof. by destruct o. Qed.

Lemma ends_ensure b (e : E) : ends (ensure b e).
Proof. by destruct b. Qed.

Lemma ends_map_err {E' A} (f : E' -> E) (o : outcome E' A) : ends o -> ends (map_err f o).
Proof. by destruct o. Qed.

Lemma always_ends_bind {A B} (m : M S E A) (f : A -> M S E B) :
  always_ends m -> (forall a, always_ends (f a)) -> always_ends (m ≫= f).
Proof.
  intros Hm Hf s. specialize (Hm s). unfold mbind, M_bind.
  destruct (m s) as [[a|e|p|] s']; simpl in *; [by apply Hf|done..].
Qed.

Lemma always_ends_ret {A} (a : A) : always_ends (mret a : M S E A).
Proof. done. Qed.

Lemma always_ends_lift {A} (o : outcome E A) : ends o -> always_ends (lift o : M S E A).
Proof. by intros ? s. Qed.

Lemma always_ends_get_self : always_ends (get_self : M S E S).
Proof. done. Qed.

Lemma always_ends_gets {A} (f : S -> A) : always_ends (gets f : M S E A).
Proof. done. Qed.

Lemma always_ends_modify (f : S -> S) : always_ends (modify f : M S E unit).
Proof. done. Qed.

Lemma always_ends_zoom {T A} (get : S -> T) (set : T -> S -> S) (m : M T E A) :
  always_ends m -> always_ends (zoom get set m).
Proof. intros Hm s. specialize (Hm (get s)). unfold zoom. by destruct (m (get s)). Qed.

Lemma always_ends_for_each {A} (xs : list A) (f : A -> M S E unit) :
  (forall x, always_ends (f x)) -> always_ends (for_each xs f).
Proof. intros Hf. induction xs; [done|]. cbn [for_each]. by apply always_ends_bind. Qed.

Lemma ends_Ret {A} (a : A) : ends (Ret a : outcome E A).
Proof. done. Qed.
Lemma ends_Throw {A} (e : E) : ends (Throw e : outcome E A).
Proof. done. Qed.
End ends.

#[export] Hint Resolve ends_bind ends_context ends_ensure ends_map_err ends_Ret ends_Throw
  always_ends_bind always_ends_ret always_ends_lift always_ends_get_self always_ends_gets
  always_ends_modify always_ends_zoom always_ends_for_each : ends.

(** Follow the code: one rule per construct, a case per branch. *)
Ltac ends_step :=
  match goal with
  | |- forall _, _ => intro
  | |- ends (match ?x with _ => _ end) => destruct x
  | |- always_ends (match ?x with _ => _ end) => destruct x
  | |- _ => solve [eauto 2 with ends]
  | |- ends (_ ≫= _) => apply ends_bind
  | |- always_ends (_ ≫= _) => apply always_ends_bind
  | |- always_ends (lift _) => apply always_ends_lift
  | |- always_ends (zoom _ _ _) => apply always_ends_zoom
  | |- always_ends (for_each _ _) => apply always_ends_for_each
  end.
Ltac ends_auto := repeat ends_step.

(** ** Reading bytes *)
Section codec.
Lemma ends_read_u8 buf o : ends (read_u8 buf o). Proof. unfold read_u8, read_bytes. ends_auto. Qed.
Lemma ends_read_u16 buf o : ends (read_u16 buf o). Proof. unfold read_u16, read_bytes. ends_auto. Qed.
Lemma ends_read_u32 buf o : ends (read_u32 buf o). Proof. unfold read_u32, read_bytes. ends_auto. Qed.
Lemma ends_read_i64 buf o : ends (read_i64 buf o). Proof. unfold read_i64, read_bytes. ends_auto. Qed.
Lemma ends_read_vec buf o n : ends (read_vec buf o n). Proof. apply ends_context. Qed.
Lemma ends_write_bytes buf o x : ends (write_bytes buf o x). Proof. apply ends_context. Qed.
End codec.

#[export] Hint Resolve ends_read_u8 ends_read_u16 ends_read_u32 ends_read_i64 ends_read_vec ends_write_bytes : ends.

(** ** Binary search in any page *)

Lemma leaf_search_loop_ends buf key fuel lo hi :
  hi - lo <= Z.of_nat fuel -> ends (leaf_search_loop fuel buf key lo hi).
Proof.
  revert lo hi. induction fuel as [|fuel IH]; intros lo hi Hf; cbn [leaf_search_loop];
    destruct (lo <? hi) eqn:E; try done; [lia|].
  assert (Hm : 0 <= (hi - lo) / 2 < hi - lo) by (split; [apply Z.div_pos; lia|apply Z.div_lt; lia]).
  unfold leaf_key_at, pointer_at. apply ends_bind; [ends_auto|]. intros k. cbv zeta.
  destruct (k ?= key); [done|apply IH; lia..].
Qed.

(** The binary search of a leaf ends on any page whatever, corrupt ones included,
    in at most as many turns as the page says it has cells. *)
Theorem leaf_search_ends buf key : ends (leaf_search buf key).
Proof.
  unfold leaf_search, num_cells, read_u16, read_bytes. destruct (slice buf 1 2) as [b|]; simpl; [|done].
  apply leaf_search_loop_ends. pose proof (from_be_range b). lia.
Qed.

(** ** The pool, on any disk *)
Section pool.
Context `{Xxh3} `{BuildProfile} `{HashOrder}.

Lemma ends_wrap_or_panic {E} max z : ends (wrap_or_panic (E := E) max z).
Proof. unfold wrap_or_panic. by repeat case_match. Qed.

Lemma on_file_ends {A} (m : IO A) : always_ends m -> always_ends (on_file m).
Proof.
  intros Hm p. unfold on_file, zoom, io_at. specialize (Hm (file p)).
  destruct (m (file p)) as [[]]; simpl in *; done.
Qed.

Lemma next_fault_ends : always_ends next_fault.
Proof. intros f. unfold next_fault. by destruct (faults f). Qed.
Hint Resolve next_fault_ends on_file_ends ends_wrap_or_panic : ends.

Lemma write_all_at_ends b o : always_ends (write_all_at b o).
Proof. unfold write_all_at, do_write. ends_auto. Qed.
Lemma read_exact_at_ends n o : always_ends (read_exact_at n o).
Proof. unfold read_exact_at, or_fault. ends_auto. intros f. simpl. apply ends_context. Qed.
Lemma sync_ends : always_ends sync.
Proof. unfold sync, or_fault. ends_auto. Qed.
Hint Resolve write_all_at_ends read_exact_at_ends sync_ends : ends.

Lemma stamp_checksum_ends buf : ends (stamp_checksum buf).
Proof. unfold stamp_checksum, write_u64. ends_auto. Qed.
Lemma verify_checksum_ends buf : ends (verify_checksum buf).
Proof. unfold verify_checksum. ends_auto. Qed.
Hint Resolve stamp_checksum_ends verify_checksum_ends : ends.

Lemma write_data_page_ends id buf : always_ends (write_data_page id buf).
Proof. unfold write_data_page. ends_auto. Qed.
Lemma read_data_page_ends id : always_ends (read_data_page id).
Proof. unfold read_data_page. ends_auto. Qed.
Lemma encode_meta_slot_ends c : ends (encode_meta_slot c).
Proof.
  unfold encode_meta_slot, write_u16, write_u32, write_u64. cbv zeta.
  repeat (apply ends_bind; [apply ends_write_bytes|intros ?]). apply stamp_checksum_ends.
Qed.
Hint Resolve write_data_page_ends read_data_page_ends encode_meta_slot_ends : ends.

#[local] Opaque encode_meta_slot.
Lemma pager_commit_ends root count : always_ends (Pager.commit root count).
Proof. unfold Pager.commit, sync_data, add_u64. ends_auto. Qed.

Lemma on_pager_ends {A} (m : M Pager PinaxError A) : always_ends m -> always_ends (on_pager m).
Proof. apply always_ends_zoom. Qed.
Hint Resolve pager_commit_ends on_pager_ends : ends.

Lemma evict_one_ends : always_ends evict_one.
Proof. unfold evict_one. ends_auto. Qed.

(** An eviction that succeeds takes an entry away. *)
Lemma evict_one_shrinks s s' : evict_one s = (Ret tt, s') -> (size (entries s') < size (entries s))%nat.
Proof.
  unfold evict_one, get_self, mbind, M_bind. destruct (recency s) as [|id rest]; [done|].
  unfold modify, set_recency, set_entries. simpl. destruct (entries s !! id) as [buf|] eqn:E; [|done].
  assert (Hs : (size (delete id (entries s)) < size (entries s))%nat).
  { rewrite map_size_delete_Some by done.
    assert (size (entries s) <> O) by (apply (map_size_ne_0_lookup_2 _ id); by exists buf). lia. }
  cbn. destruct (bool_decide (id ∈ dirty s)); simpl.
  - unfold on_pager, zoom. simpl. destruct (write_data_page id buf (pager s)) as [[] p']; intros [= ? <-]; exact Hs.
  - intros [= <-]. exact Hs.
Qed.

Lemma evict_loop_ends fuel s : (size (entries s) < fuel)%nat -> ends (evict_loop fuel s).1.
Proof.
  revert s. induction fuel as [|fuel IH]; intros s Hf; [lia|]. cbn [evict_loop].
  unfold get_self, mbind at 1, M_bind. case_match; [|done].
  pose proof (evict_one_ends s) as He. unfold mbind, M_bind. destruct (evict_one s) as [[[]|e|p|] s1] eqn:E; try done.
  apply IH. apply evict_one_shrinks in E. lia.
Qed.

Lemma insert_cached_ends id buf is_dirty : always_ends (insert_cached id buf is_dirty).
Proof.
  intros s. unfold insert_cached, get_self, mbind at 1, M_bind.
  assert (Hrest : forall s', (size (entries s') <= size (entries s))%nat ->
    ends ((evict_loop (S (size (entries s))) ;;
      (if is_dirty then modify (fun s => set_dirty ({[id]} ∪ dirty s) s) else mret tt) ;;
      modify (fun s => set_entries (<[id := buf]> (entries s)) s) ;;
      modify (fun s => set_recency (recency s ++ [id]) s)) s').1).
  { intros s' Hs'. pose proof (evict_loop_ends (S (size (entries s))) s' ltac:(lia)) as He.
    unfold mbind at 1, M_bind. destruct (evict_loop _ s') as [[[]|e|p|] s1]; try done. by destruct is_dirty. }
  destruct (entries s !! id) as [b|] eqn:E; [|by apply Hrest].
  apply (Hrest (set_recency _ (set_entries _ s))).
  cbn. rewrite map_size_delete_Some by done. lia.
Qed.
Hint Resolve insert_cached_ends : ends.

Lemma get_ends id : always_ends (get id).
Proof. unfold get, touch. ends_auto. Qed.

(** C29: Every method of the pool ends, from any state of the pool, on a file that fails
    at any call: the eviction loop too, since each eviction takes an entry away. *)
Theorem pool_ends id buf root :
  always_ends (get id) /\ always_ends (put_new id buf) /\ always_ends allocate_page_id /\
  always_ends (commit root).
Proof.
  split_and!; [apply get_ends|apply insert_cached_ends|unfold allocate_page_id, add_u32; ends_auto|].
  unfold commit, flush_all_dirty, flush_one, sync_data. ends_auto.
  all: eauto 4 with ends.
Qed.

(** ** Chains of overflow pages *)

Lemma read_vec_len buf o n b : read_vec buf o n = Ret b -> len b = n.
Proof.
  unfold read_vec. destruct (slice buf o n) as [x|] eqn:E; [|done]. intros [= <-]. by eapply slice_len.
Qed.

End pool.

(** ** Chains of overflow pages *)

(** [m] leaves [f] of the state, whatever its outcome. *)
Definition leaves {S E A T} (f : S -> T) (m : M S E A) : Prop := forall s, f (m s).2 = f s.

Section leaves.
Context {S E T : Type} (f : S -> T).

Lemma leaves_bind {A B} (m : M S E A) (k : A -> M S E B) :
  leaves f m -> (forall a, leaves f (k a)) -> leaves f (m ≫= k).
Proof.
  intros Hm Hk s. specialize (Hm s). unfold mbind, M_bind.
  destruct (m s) as [[a|e|p|] s']; simpl in *; [|done..]. rewrite Hk. done.
Qed.

Lemma leaves_modify (g : S -> S) : (forall s, f (g s) = f s) -> leaves f (modify g : M S E unit).
Proof. intros Hg s. exact (Hg s). Qed.
End leaves.

Ltac leaves_step :=
  match goal with
  | |- forall _, _ => intro
  | |- leaves _ (match ?x with _ => _ end) => destruct x
  | |- leaves _ (_ ≫= _) => apply leaves_bind
  | |- leaves _ (modify _) => apply leaves_modify; reflexivity
  | |- _ => by (intros ?)
  | |- _ => solve [eauto 2]
  end.

Section pool_size.
Context `{Xxh3} `{BuildProfile} `{HashOrder}.
Definition size_of (s : BufferPool) : PageSize := page_size (pager s).

Lemma on_file_leaves {A} (m : IO A) : leaves page_size (on_file m).
Proof. intros p. unfold on_file, zoom, io_at. by destruct (m (file p)). Qed.

Lemma on_pager_leaves {A} (m : M Pager PinaxError A) : leaves page_size m -> leaves size_of (on_pager m).
Proof. intros Hm s. unfold on_pager, zoom. specialize (Hm (pager s)). by destruct (m (pager s)). Qed.

Lemma write_data_page_leaves id buf : leaves page_size (write_data_page id buf).
Proof. unfold write_data_page. repeat leaves_step. apply on_file_leaves. Qed.

Lemma read_data_page_leaves id : leaves page_size (read_data_page id).
Proof. unfold read_data_page. repeat (apply on_file_leaves || leaves_step). Qed.

Lemma evict_one_leaves : leaves size_of evict_one.
Proof.
  unfold evict_one. repeat leaves_step. apply on_pager_leaves, write_data_page_leaves.
Qed.

Lemma evict_loop_leaves fuel : leaves size_of (evict_loop fuel).
Proof.
  induction fuel as [|fuel IH]; cbn [evict_loop]; repeat (apply evict_one_leaves || leaves_step).
Qed.

Lemma get_leaves_size id : leaves size_of (get id).
Proof.
  unfold get, touch, insert_cached.
  repeat (apply evict_loop_leaves || (apply on_pager_leaves, read_data_page_leaves) || leaves_step).
Qed.
End pool_size.

Section chain.
Context `{Xxh3} `{BuildProfile} `{HashOrder}.

Lemma ends_run_bind {S E A B} (m : M S E A) (f : A -> M S E B) s :
  ends (m s).1 -> (forall a s', m s = (Ret a, s') -> ends (f a s').1) -> ends ((m ≫= f) s).1.
Proof. unfold mbind, M_bind. destruct (m s) as [[a|e|p|] s']; simpl; intros; try done; auto. Qed.

Lemma read_chain_loop_ends fuel : forall current total out (s : BufferPool),
  page_size_wf (page_size (pager s)) -> total - len out <= Z.of_nat fuel ->
  ends (read_chain_loop fuel current total out s).1.
Proof.
  induction fuel as [|fuel IH]; intros current total out s Hwf Hf; cbn [read_chain_loop];
    destruct (negb (current =? 0) && (len out <? total)) eqn:E; try done;
    apply andb_true_iff in E as [_ Hlt%Z.ltb_lt]; [lia|].
  apply ends_run_bind; [done|]. intros ? ? [= <- <-].
  apply ends_run_bind; [apply get_ends|]. intros buf s1 Hget.
  assert (Hs1 : page_size (pager s1) = page_size (pager s)).
  { pose proof (get_leaves_size current s) as Hl. simpl in Hget. by rewrite Hget in Hl. }
  apply ends_run_bind; [unfold expect_page_type; simpl; ends_auto|]. intros ? ? [= _ <-].
  apply ends_run_bind; [simpl; ends_auto|]. intros next ? [= _ <-]. cbv zeta.
  apply ends_run_bind; [simpl; ends_auto|]. intros chunk ? [= Hc <-]. apply read_vec_len in Hc.
  rewrite overflow_chunk_cap_ok in Hc by done. unfold chunk_cap in Hc.
  apply page_size_range in Hwf as Hr. simpl in Hc, Hr. apply IH; [by rewrite Hs1|].
  rewrite len_app, Hc. lia.
Qed.

(** C28: Reading a chain of overflow pages ends on any pages whatever, a chain that is a
    cycle and a disk that fails included: every page read gives a byte or more of the
    length asked for. *)
Theorem read_overflow_chain_ends first total (s : BufferPool) :
  page_size_wf (page_size (pager s)) -> ends (read_overflow_chain first total s).1.
Proof. intros Hwf. apply read_chain_loop_ends; [done|]. rewrite len_nil. lia. Qed.
End chain.

Lemma read_overflow_chain_ends_witness :
  let _ := sum_xxh3 in let _ := Build_BuildProfile true in let _ := elements_order in
  ends (read_overflow_chain 2 100 (mkPool (mkPager (mkFile [] [] [] [Some 0] []) "db" (mkPageSize 4096) 0 0 0 3)
    1 ∅ ∅ [] 3)).1.
Proof.
  intros h b o. apply read_overflow_chain_ends. unfold page_size_wf. simpl. set_solver.
Defined.
