(* ===== verification/Database.v ===== *)
(** * The database facade ([crates/pinax/src/database.rs]) *)

From S2P Require Import Prelude Errors Codec Lexis Row Page Disk Pager PageStore BufferPool.
From S2P Require Import Layout Overflow Mutate BTree.

Definition DEFAULT_BUFFER_POOL_CAPACITY := 256.

(** [struct Database { pool }] *)
Record Database := mkDatabase { pool : BufferPool }.

Section database.
Context `{Xxh3} `{BuildProfile} `{HashOrder}.

(** [Database::create_with_capacity] *)
Definition create_with_capacity (path : string) (page_size : PageSize) (capacity : Z)
    : M FileSystem PinaxError Database :=
  pager ← Pager.create path page_size;
  pool ← lift (BufferPool.new pager capacity);
  mret (mkDatabase pool).

(** [Database::create] *)
Definition create (path : string) (page_size : PageSize) : M FileSystem PinaxError Database :=
  create_with_capacity path page_size DEFAULT_BUFFER_POOL_CAPACITY.

(** [Database::open_with_capacity] *)
Definition open_with_capacity (path : string) (capacity : Z) (fs : FileSystem) : result Database :=
  pager ← Pager.open path fs;
  pool ← BufferPool.new pager capacity;
  Ret (mkDatabase pool).

(** [Database::open] *)
Definition open (path : string) (fs : FileSystem) : result Database :=
  open_with_capacity path DEFAULT_BUFFER_POOL_CAPACITY fs.

Definition on_pool {A} (m : M BufferPool PinaxError A) : M Database PinaxError A :=
  zoom pool (fun p _ => mkDatabase p) m.

(** [Database::insert] *)
Definition insert (fuel : nat) (key : Z) (row : Row) : M Database PinaxError unit :=
  _ ← on_pool (BTree.insert fuel key row); mret tt.

(** [Database::get] *)
Definition get (fuel : nat) (key : Z) : M Database PinaxError (option Row) :=
  on_pool (BTree.get fuel key).

(** [Database::update] *)
Definition update (fuel : nat) (key : Z) (row : Row) : M Database PinaxError unit :=
  _ ← on_pool (BTree.update fuel key row); mret tt.

(** [Database::delete] *)
Definition delete (fuel : nat) (key : Z) : M Database PinaxError Row :=
  '(_, row) ← on_pool (BTree.delete fuel key); mret row.

(** [Database::scan] *)
Definition scan (fuel : nat) : M Database PinaxError (list (Z * Row)) :=
  on_pool (BTree.scan fuel).

(** Dropping the database: its file goes back to the file system. *)
Definition drop_database (db : Database) (fs : FileSystem) : FileSystem :=
  let p := pager (pool db) in close (path p) (file p) fs.
End database.
