(* ===== verification/DatabaseSpec.v ===== *)
(** * The database refines a finite map

    Any sequence of calls on a new database, closing and reopening it included,
    answers what the same calls answer on a map from keys to rows. *)

From stdpp Require Import sorting.
From S2P Require Import Prelude Runs Errors Codec Lexis Row Page Disk FileSpec Pager PagerSpec PageStore PageStoreSpec.
From S2P Require Import BufferPool PoolSpec Layout Overflow OverflowSpec Mutate LeafSpec TreeSpec SplitSpec BTree BTreeSpec Database.

(** ** Calls and their answers *)

Inductive call :=
  | CallInsert (key : Z) (row : Row)
  | CallGet (key : Z)
  | CallUpdate (key : Z) (row : Row)
  | CallDelete (key : Z)
  | CallScan
  | CallReopen.  (** drop the database and open its file again *)

Inductive answer :=
  | Done
  | GotRow (row : option Row)
  | Removed (row : Row)
  | Rows (rows : list (Z * Row)).

(** ** The reference: a map *)

Definition key_le (a b : Z * Row) : Prop := a.1 <= b.1.
#[export] Instance key_le_dec a b : Decision (key_le a b) := decide (a.1 <= b.1).

(** The rows of a map by ascending key. *)
Definition listing (m : gmap Z Row) : list (Z * Row) := merge_sort key_le (map_to_list m).

Definition map_call (c : call) (m : gmap Z Row) : result answer * gmap Z Row :=
  match c with
  | CallInsert k row =>
    match m !! k with
    | Some _ => (Throw (Permanent (KeyAlreadyExists k)), m)
    | None => (Ret Done, <[k := row]> m)
    end
  | CallGet k => (Ret (GotRow (m !! k)), m)
  | CallUpdate k row =>
    match m !! k with
    | Some _ => (Ret Done, <[k := row]> m)
    | None => (Throw (Permanent (KeyNotFound k)), m)
    end
  | CallDelete k =>
    match m !! k with
    | Some row => (Ret (Removed row), base.delete k m)
    | None => (Throw (Permanent (KeyNotFound k)), m)
    end
  | CallScan => (Ret (Rows (listing m)), m)
  | CallReopen => (Ret Done, m)
  end.

Fixpoint map_calls (cs : list call) (m : gmap Z Row) : list (result answer) :=
  match cs with
  | [] => []
  | c :: cs => let '(a, m) := map_call c m in a :: map_calls cs m
  end.

Fixpoint map_after (cs : list call) (m : gmap Z Row) : gmap Z Row :=
  match cs with [] => m | c :: cs => map_after cs (map_call c m).2 end.

(** The pages a call adds, at least: one when it writes. *)
Definition call_adds (m : gmap Z Row) (c : call) : Z :=
  match c with
  | CallInsert k _ => if m !! k is Some _ then 0 else 1
  | CallUpdate k _ | CallDelete k => if m !! k is Some _ then 1 else 0
  | CallGet _ | CallScan | CallReopen => 0
  end.

Lemma call_adds_cases m c :
  (call_adds m c = 0 /\ (map_call c m).2 = m) \/ call_adds m c = 1.
Proof. destruct c; simpl; try (destruct (m !! _)); auto. Qed.

Fixpoint calls_add (cs : list call) (m : gmap Z Row) : Z :=
  match cs with [] => 0 | c :: cs => call_adds m c + calls_add cs (map_call c m).2 end.

(** ** The same calls on the code *)
Section calls.
Context `{Xxh3} `{BuildProfile} `{HashOrder}.

(** An open database and the file system it is on. *)
Record world := mkWorld { db : Database; disk : FileSystem }.

Definition on_db {A} (m : M Database PinaxError A) (w : world) : result A * world :=
  let '(o, d) := m (db w) in (o, mkWorld d (disk w)).

(** [Database::open_with_capacity(path, capacity)] on the file system [fs]. *)
Definition open_on (path : string) (capacity : Z) (fs : FileSystem) (w : world) : result answer * world :=
  match open_with_capacity path capacity fs with
  | Ret d => (Ret Done, mkWorld d fs)
  | Throw e => (Throw e, w)
  | Panic p => (Panic p, w)
  | Diverge => (Diverge, w)
  end.

(** [drop(db)], then open again. *)
Definition reopen (path : string) (capacity : Z) (w : world) : result answer * world :=
  open_on path capacity (drop_database (db w) (disk w)) w.

Definition answer_with {A} (f : A -> answer) (r : result A * world) : result answer * world :=
  (a ← r.1; Ret (f a), r.2).

Definition code_call (fuel : nat) (path : string) (capacity : Z) (c : call) (w : world)
    : result answer * world :=
  match c with
  | CallInsert k row => answer_with (fun _ => Done) (on_db (insert fuel k row) w)
  | CallGet k => answer_with GotRow (on_db (get fuel k) w)
  | CallUpdate k row => answer_with (fun _ => Done) (on_db (update fuel k row) w)
  | CallDelete k => answer_with Removed (on_db (delete fuel k) w)
  | CallScan => answer_with Rows (on_db (scan fuel) w)
  | CallReopen => reopen path capacity w
  end.

Fixpoint code_calls (fuel : nat) (path : string) (capacity : Z) (cs : list call) (w : world)
    : list (result answer) :=
  match cs with
  | [] => []
  | c :: cs => let '(a, w) := code_call fuel path capacity c w in
      a :: code_calls fuel path capacity cs w
  end.
(** The world these calls leave. *)
Fixpoint after_calls (fuel : nat) (path : string) (capacity : Z) (cs : list call) (w : world) : world :=
  match cs with
  | [] => w
  | c :: cs => after_calls fuel path capacity cs (code_call fuel path capacity c w).2
  end.
End calls.

Lemma code_calls_app `{Xxh3} `{BuildProfile} `{HashOrder} fuel path capacity cs cs' : forall w,
  code_calls fuel path capacity (cs ++ cs') w =
    code_calls fuel path capacity cs w ++ code_calls fuel path capacity cs' (after_calls fuel path capacity cs w).
Proof.
  induction cs as [|c cs IH]; intros w; [done|]. cbn [app code_calls after_calls].
  destruct (code_call _ _ _ c w) as [a w']. by rewrite IH.
Qed.

Lemma length_code_calls `{Xxh3} `{BuildProfile} `{HashOrder} fuel path capacity cs : forall w,
  length (code_calls fuel path capacity cs w) = length cs.
Proof.
  induction cs as [|c cs IH]; intros w; [done|]. cbn [code_calls].
  destruct (code_call _ _ _ c w) as [a w']. simpl. by rewrite IH.
Qed.

(** ** Listings *)

Lemma ascending_StronglySorted (l : list (Z * Row)) : ascending l.*1 -> StronglySorted key_le l.
Proof.
  induction l as [|x l IH]; intros Ha; [constructor|].
  rewrite fmap_cons in Ha. change (x.1 :: l.*1) with ([x.1] ++ l.*1) in Ha.
  apply ascending_app in Ha as (_ & Hl & Hlt). constructor; [by apply IH|].
  apply Forall_forall. intros y Hy. unfold key_le.
  assert (x.1 < y.1) by (apply Hlt; [set_solver|by apply (list_elem_of_fmap_2 fst)]). lia.
Qed.

(** The ascending list of a map is its listing. *)
Lemma listing_unique (l : list (Z * Row)) :
  ascending l.*1 -> l = listing (list_to_map l).
Proof.
  intros Ha. pose proof (ascending_NoDup _ Ha) as Hnd. unfold listing.
  assert (Htotal : Total key_le) by (intros a b; unfold key_le; lia).
  assert (Htrans : Transitive key_le) by (intros a b c; unfold key_le; intros; lia).
  assert (Hperm : l ≡ₚ merge_sort key_le (map_to_list (list_to_map l : gmap Z Row))).
  { rewrite merge_sort_Permutation. symmetry. by apply map_to_list_to_map. }
  eapply (StronglySorted_unique_strong key_le); [| | |exact Hperm].
  - intros x y Hx Hy Hxy Hyx. rewrite <-Hperm in Hy. unfold key_le in *.
    destruct x as [k r], y as [k' r']. simpl in *. assert (k = k') as <- by lia.
    apply (elem_of_list_to_map_1 (M := gmap Z)) in Hx, Hy; [|done..]. congruence.
  - by apply ascending_StronglySorted.
  - apply StronglySorted_merge_sort; apply _.
Qed.

(** ** One call *)
Section refine.
Context `{Xxh3} `{BuildProfile} `{HashOrder}.
Context {ps : PageSize} (C : row_class ps) (path : string) (capacity : Z).
Hypothesis Hcapacity : 1 <= capacity.

(** Opening a file, by its newest slot: an empty cache over its pages, unless the disk fails. *)
Lemma open_pool_ok fs f i m :
  files fs !! path = Some f -> META_REGION_LEN <= len (data f) ->
  choose_slot path (slot_at f 0) (slot_at f 1) = Ret (i, m) ->
  (forall xs, let q := opened (with_faults xs f) path i m in settled q /\ pager_inv (here q) q) ->
  (exists e, open_with_capacity path capacity fs = Throw e /\ disk_failure e /\ faults f <> []) \/
  (exists xs d, open_with_capacity path capacity fs = Ret d /\ no_worse f xs /\
    pager (pool d) = opened (with_faults xs f) path i m /\ pool_inv (here (pager (pool d))) (pool d) /\
    pool_saved (pool d) /\ next_page_id (pool d) = m_page_count m).
Proof.
  intros Hf Hl Hc Hq. unfold open_with_capacity.
  destruct (open_ok path fs f i m Hf Hl Hc) as [(xs & Hxs & ->)|(e & -> & ? & ?)]; [right|left; by exists e].
  destruct (Hq xs) as [Hset Hinv].
  destruct (new_pool_inv _ capacity Hinv Hset Hcapacity) as (s & Hs & Hinv' & Hsaved & Hpg & _ & _ & Hn).
  exists xs, (mkDatabase s). cbn [mbind outcome_bind]. rewrite Hs. cbn [pool]. rewrite Hpg. by split_and!.
Qed.

(** The file of a saved pool opens to the same pages. *)
Lemma reopen_pool_ok (s : BufferPool) fs :
  pool_ok s -> pool_saved s -> Pager.path (pager s) = path -> files fs !! path = Some (file (pager s)) ->
  (exists e, open_with_capacity path capacity fs = Throw e /\ disk_failure e /\ faults (file (pager s)) <> []) \/
  (exists xs d, open_with_capacity path capacity fs = Ret d /\ no_worse (file (pager s)) xs /\
    pager (pool d) = set_file (with_faults xs (file (pager s))) (pager s) /\ pool_inv (here (pager (pool d))) (pool d) /\
    pool_saved (pool d) /\ next_page_id (pool d) = next_page_id s /\ view_le (store_view s) (store_view (pool d))).
Proof.
  intros [a Hinv] Hsaved Hpath Hfs. pose proof (saved_here a s Hinv Hsaved) as Hinv'. pose proof Hsaved as (Hd & Hcount & Hset).
  pose proof (pi_pager _ _ Hinv') as Hp.
  assert (Hq : forall xs, opened (with_faults xs (file (pager s))) path (active_slot (pager s)) (meta_of (pager s)) =
    set_file (with_faults xs (file (pager s))) (pager s)) by (intros xs; unfold opened, set_file; by rewrite Hpath).
  destruct (open_pool_ok fs (file (pager s)) (active_slot (pager s)) (meta_of (pager s)) Hfs (pager_len Hp))
    as [?|(xs & d & Ho & Hxs & Hpg & Hinvd & Hsaved' & Hn)]; [|..|by left|right].
  - apply choose_slot_ok; [apply (pager_slot Hp)|apply (pager_active Hp)|apply (st_other _ Hset)].
  - intros xs. rewrite Hq. assert (Hset' : settled (set_file (with_faults xs (file (pager s))) (pager s))) by (by destruct Hset).
    split; [exact Hset'|]. apply pager_here; [apply (pager_meta_wf Hp)|apply (pager_slot Hp)|apply (pager_active Hp)|
      apply (pager_len Hp)| |exact Hset'].
    simpl. rewrite Hcount. apply (pi_first _ _ Hinv').
  - exists xs, d. rewrite Hq in Hpg. simpl in Hn. split_and!; try done; [by rewrite <-Hcount|].
    intros id c Hc. apply (pool_inv_kept _ _ Hinvd).
    apply (view_kept (here (pager s))) in Hc; [|done|done|done|simpl; lia].
    apply kept_of in Hc as [Hid Hc]. apply kept_of. cbn [here an_pager an_next] in *. rewrite Hpg. split; [done|].
    by rewrite (disk_page_data (pager s)).
Qed.

Definition call_ok (c : call) : Prop :=
  match c with
  | CallInsert k row | CallUpdate k row => in_i64 k /\ in_class C row
  | CallGet k | CallDelete k => in_i64 k
  | CallScan | CallReopen => True
  end.

(** The pages a call may add, on a tree of depth [d]. *)
Definition call_pages (d : nat) (c : call) : Z :=
  match c with
  | CallInsert _ row | CallUpdate _ row => write_pages (ps := ps) d row
  | CallDelete _ => delete_pages d
  | CallGet _ | CallScan | CallReopen => 0
  end.

Lemma call_pages_nonneg d c : page_size_wf ps -> 0 <= call_pages d c.
Proof.
  intros Hwf. destruct c as [? row| |? row| | |]; simpl; unfold write_pages, delete_pages; try lia;
    pose proof (row_pages_nonneg row Hwf); lia.
Qed.

(** *** On any disk *)
Section run.
Context (a : anchor).
#[local] Instance run_from : StoreRun BufferPool := pool_run a.

(** What a call is, as a run on the pool. *)
Lemma answer_runs {A B} J (m : M BufferPool PinaxError A) (h : A -> B) (g : B -> answer) (c : M Database PinaxError B) w Q :
  (forall d, c d = (x ← on_pool m; mret (h x)) d) -> runs J m (pool (db w)) Q ->
  let '(r, w') := answer_with g (on_db c w) in disk w' = disk w /\
    ((exists x, r = Ret (g (h x)) /\ Q x (pool (db w'))) \/ (exists e, r = Throw e /\ J e (pool (db w')))).
Proof.
  intros Hc Hm. unfold answer_with, on_db. rewrite Hc. unfold on_pool, zoom, mbind, M_bind, runs in *.
  destruct (m (pool (db w))) as [[x|e|p|] s']; simpl; (split; [done|]); [left; eauto|right; eauto|done..].
Qed.

Lemma answer_refuses {A B} J (m : M BufferPool PinaxError A) (h : A -> B) (g : B -> answer) (c : M Database PinaxError B) w e Q :
  (forall d, c d = (x ← on_pool m; mret (h x)) d) -> refuses J m (pool (db w)) e Q ->
  let '(r, w') := answer_with g (on_db c w) in disk w' = disk w /\
    ((r = Throw e /\ Q (pool (db w'))) \/ (exists e', r = Throw e' /\ J e' (pool (db w')))).
Proof.
  intros Hc Hm. unfold answer_with, on_db. rewrite Hc. unfold on_pool, zoom, mbind, M_bind, refuses in *.
  destruct (m (pool (db w))) as [[x|e'|p|] s']; simpl; try done. split; [done|].
  destruct Hm as [[-> ?]|?]; [left; auto|right; eauto].
Qed.

(** What the call [c] leaves of a pool that stands for [m]: as it was, or the new map by a
    commit, or what the disk stopped. *)
Definition call_leaves (d : nat) (m : gmap Z Row) (c : call) (s : BufferPool) (r : result answer) (s' : BufferPool) : Prop :=
  (r = (map_call c m).1 /\ call_adds m c = 0 /\ extends 0 s s') \/
  (r = (map_call c m).1 /\ call_adds m c = 1 /\ exists d', (d' <= S d)%nat /\
    repr C d' (map_call c m).2 s' /\ committed 1 (call_pages d c) s s') \/
  (exists e, r = Throw e /\ write_stops C (S d) (map_call c m).2 e s').

Lemma code_call_leaves d m w fuel c :
  pool_inv a (pool (db w)) -> repr C d m (pool (db w)) -> call_ok c -> c <> CallReopen -> (d < fuel)%nat ->
  store_next (pool (db w)) + call_pages d c <= an_limit a -> store_txn (pool (db w)) < u64_max ->
  let '(r, w') := code_call fuel path capacity c w in
  disk w' = disk w /\ call_leaves d m c (pool (db w)) r (pool (db w')).
Proof.
  intros Hinv Hr Hok Hc Hfuel Hn Ht. unfold call_leaves.
  assert (Hself : forall {A} (m : M BufferPool PinaxError A) d, on_pool m d = (x ← on_pool m; mret x) d).
  { intros A m' d'. unfold mbind, M_bind. by destruct (on_pool m' d') as [[]]. }
  destruct c as [k row|k|k row|k| |]; simpl in Hok, Hn; cbn [code_call map_call call_adds call_pages]; [| | | | |done].
  - destruct Hok as [Hk Hrow]. pose proof (insert_ok C d m k row _ fuel Hinv Hr Hk Hrow Hfuel Hn Ht) as Hi.
    destruct (m !! k).
    + pose proof (answer_refuses _ _ (fun _ => tt) (fun _ => Done) (insert fuel k row) w _ _ (fun _ => eq_refl) Hi) as Ha.
      destruct (answer_with _ _) as [r w']. destruct Ha as [? [[-> ?]|(e & -> & ?)]]; (split; [done|]); [by auto|].
      right; right. exists e. split; [done|by left].
    + pose proof (answer_runs _ _ (fun _ => tt) (fun _ => Done) (insert fuel k row) w _ (fun _ => eq_refl) Hi) as Ha.
      destruct (answer_with _ _) as [r w']. destruct Ha as [? [(x & -> & d' & Hd & ? & ?)|?]]; (split; [done|]); [|by auto].
      right; left. split_and!; [done|done|]. exists d'. split_and!; [lia|done|done].
  - pose proof (answer_runs _ _ (fun x => x) GotRow (get fuel k) w _ (Hself _ _) (get_ok (J := stopped) C d m k _ fuel Hinv Hr Hok Hfuel)) as Ha.
    destruct (answer_with _ _) as [r w']. destruct Ha as [? [(x & -> & -> & ?)|(e & -> & ?)]]; (split; [done|]); [by auto|].
    right; right. exists e. split; [done|by left].
  - destruct Hok as [Hk Hrow]. pose proof (update_ok C d m k row _ fuel Hinv Hr Hk Hrow Hfuel Hn Ht) as Hi.
    destruct (m !! k).
    + pose proof (answer_runs _ _ (fun _ => tt) (fun _ => Done) (update fuel k row) w _ (fun _ => eq_refl) Hi) as Ha.
      destruct (answer_with _ _) as [r w']. destruct Ha as [? [(x & -> & d' & Hd & ? & ?)|?]]; (split; [done|]); [|by auto].
      right; left. split_and!; [done|done|]. exists d'. split_and!; [lia|done|done].
    + pose proof (answer_refuses _ _ (fun _ => tt) (fun _ => Done) (update fuel k row) w _ _ (fun _ => eq_refl) Hi) as Ha.
      destruct (answer_with _ _) as [r w']. destruct Ha as [? [[-> ?]|(e & -> & ?)]]; (split; [done|]); [by auto|].
      right; right. exists e. split; [done|by left].
  - assert (Hdel : forall d, delete fuel k d = (x ← on_pool (BTree.delete fuel k); mret x.2) d).
    { intros d'. unfold delete, mbind, M_bind. by destruct (on_pool _ d') as [[[]| | |]]. }
    pose proof (delete_ok C d m k _ fuel Hinv Hr Hok Hfuel Hn Ht) as Hi. destruct (m !! k) as [row|].
    + pose proof (answer_runs _ _ snd Removed (delete fuel k) w _ Hdel Hi) as Ha.
      destruct (answer_with _ _) as [r w']. destruct Ha as [? [([root row'] & -> & -> & d' & Hd & ? & ?)|?]]; (split; [done|]); [|by auto].
      right; left. split_and!; [done|done|]. exists d'. split_and!; [lia|done|done].
    + pose proof (answer_refuses _ _ snd Removed (delete fuel k) w _ _ Hdel Hi) as Ha.
      destruct (answer_with _ _) as [r w']. destruct Ha as [? [[-> ?]|(e & -> & ?)]]; (split; [done|]); [by auto|].
      right; right. exists e. split; [done|by left].
  - pose proof (answer_runs _ _ (fun x => x) Rows (scan fuel) w _ (Hself _ _) (scan_ok (J := stopped) C d m _ fuel Hinv Hr Hfuel)) as Ha.
    destruct (answer_with _ _) as [r w']. destruct Ha as [? [(x & -> & <- & Hl & ?)|(e & -> & ?)]]; (split; [done|]).
    + left. split_and!; [|done|done]. by rewrite <-listing_unique.
    + right; right. exists e. split; [done|by left].
Qed.

(** On a disk that does not fail, nothing stops the call. *)
Lemma call_leaves_sound d m c s r s' : an_sound a -> call_leaves d m c s r s' ->
  r = (map_call c m).1 /\ ((call_adds m c = 0 /\ extends 0 s s') \/
    (call_adds m c = 1 /\ exists d', (d' <= S d)%nat /\ repr C d' (map_call c m).2 s' /\ committed 1 (call_pages d c) s s')).
Proof.
  intros Ha [(? & ? & ?)|[(? & ? & ?)|(e & _ & Hst)]]; [auto|auto|].
  destruct Hst as [[[_ Hno] _]|(root & d' & [[_ Hno] _] & _)]; by destruct Hno.
Qed.
End run.

(** *** On a disk that does not fail *)

(** The world is a database on [path] that stands for [m], nothing left to write. *)
Record serves (d : nat) (m : gmap Z Row) (w : world) : Prop := {
  sv_repr : repr C d m (pool (db w));
  sv_saved : store_saved (pool (db w));
  sv_path : store_path (pool (db w)) = path;
  sv_reliable : store_reliable (pool (db w));
}.

(** What a call leaves: a world for [m], at most [n] pages and one commit later. *)
Definition serves_after (d : nat) (m : gmap Z Row) (n : Z) (w w' : world) : Prop :=
  exists d', (d' <= S d)%nat /\ serves d' m w' /\
    store_next (pool (db w')) <= store_next (pool (db w)) + n /\
    store_txn (pool (db w')) <= store_txn (pool (db w)) + 1.

(** At least [l] pages more, and none missing. *)
Definition grows (l : Z) (w w' : world) : Prop :=
  store_next (pool (db w)) + l <= store_next (pool (db w')) /\ (dense (pool (db w)) -> dense (pool (db w'))).

Lemma serves_size d m w : serves d m w -> page_size_wf ps.
Proof. intros [[[a Hinv] <- _] _ _]. apply (pager_size_wf (pi_pager _ _ Hinv)). Qed.

Lemma serves_reopen d m w :
  serves d m w -> exists w', reopen path capacity w = (Ret Done, w') /\ serves_after d m 0 w w' /\ grows 0 w w'.
Proof.
  intros [Hr Hsaved Hpath Hf]. pose proof Hr as [Hok Hps Hst]. simpl in Hf, Hps, Hpath.
  destruct (reopen_pool_ok (pool (db w)) (drop_database (db w) (disk w)) Hok Hsaved Hpath)
    as [(e & _ & _ & ?)|(xs & d' & Ho & Hxs & Hpg & Hinv' & Hsaved' & Hn & Hle)];
    [simpl; rewrite Hpath; apply lookup_insert_eq|done|].
  unfold reopen, open_on. rewrite Ho. eexists. split; [done|].
  split; [|split; [simpl; lia|by apply dense_le]]. exists d. cbn [db]. split_and!; [lia| |simpl; lia|simpl; rewrite Hpg; simpl; lia].
  split; simpl; [|done|by rewrite Hpg|rewrite Hpg; by apply Hxs].
  split; [by eexists|simpl; by rewrite Hpg|].
  simpl. rewrite Hpg. by eapply stands_le.
Qed.

(** A call on the code answers what the call on the map does. *)
Lemma code_call_ok d m w fuel c :
  serves d m w -> call_ok c -> (d < fuel)%nat ->
  store_next (pool (db w)) + call_pages d c <= u32_max -> store_txn (pool (db w)) < u64_max ->
  exists w', code_call fuel path capacity c w = ((map_call c m).1, w') /\
    serves_after d (map_call c m).2 (call_pages d c) w w' /\ grows (call_adds m c) w w'.
Proof.
  intros Hs Hok Hfuel Hn Ht. assert (c = CallReopen \/ c <> CallReopen) as [->|Hc] by (destruct c; auto; by right); [by apply serves_reopen|].
  pose proof (call_pages_nonneg d c (serves_size _ _ _ Hs)). destruct Hs as [Hr Hsaved Hpath Hf].
  destruct (pool_ok_sound _ (rp_ok _ _ _ _ Hr) Hf) as (a & Hinv & Ha & Hlim). rewrite <-Hlim in Hn.
  pose proof (code_call_leaves a d m w fuel c Hinv Hr Hok Hc Hfuel Hn Ht) as Hl.
  destruct (code_call fuel path capacity c w) as [r w']. exists w'. destruct Hl as [_ Hl].
  apply call_leaves_sound in Hl as [-> [[Hadd He]|(Hadd & d' & Hd & Hr' & Hcm)]]; [| |done]; rewrite Hadd; (split; [done|]).
  - destruct (call_adds_cases m c) as [[_ ->]|?]; [|lia].
    pose proof (ext_next (H1 := pool_run a) _ _ _ He). pose proof (ext_txn (H1 := pool_run a) _ _ _ He).
    split; [|split; [lia|apply (ext_dense (H1 := pool_run a) _ _ _ He)]].
    exists d. split_and!; [lia| |simpl in *; lia..]. split.
    + by apply (repr_extends (H1 := pool_run a) C 0 d m (pool (db w))).
    + by apply (ext_saved (H1 := pool_run a) _ _ _ He).
    + rewrite <-Hpath. apply (ext_path (H1 := pool_run a) _ _ _ He).
    + apply (pg_sound _ _ (pi_pager _ _ (ext_inv (H1 := pool_run a) _ _ _ He))), Ha.
  - destruct Hcm as [Hn' Ht' Hs' Hp' _ Hdense Hrel]. split; [|split; [lia|done]]. exists d'.
    split_and!; [done| |simpl in *; lia..]. split; [done|done|by rewrite <-Hpath|by apply Hrel].
Qed.
(** ** Sequences of calls *)

Lemma call_pages_mono d d' c : (d <= d')%nat -> call_pages d c <= call_pages d' c.
Proof. destruct c; simpl; unfold write_pages, delete_pages; lia. Qed.

(** The pages a sequence of calls may add, on trees of depth at most [d]. *)
Definition calls_pages (d : nat) (cs : list call) : Z := sum (call_pages d <$> cs).

Lemma calls_pages_nonneg d cs : page_size_wf ps -> 0 <= calls_pages d cs.
Proof. intros Hwf. apply sum_nonneg. intros c. by apply call_pages_nonneg. Qed.

Lemma calls_pages_mono d d' cs : (d <= d')%nat -> calls_pages d cs <= calls_pages d' cs.
Proof. intros Hd. apply sum_mono. intros c. by apply call_pages_mono. Qed.

Lemma calls_world_ok cs d0 : forall d m w fuel,
  serves d m w -> Forall call_ok cs -> (d + length cs <= d0)%nat -> (d0 < fuel)%nat ->
  store_next (pool (db w)) + calls_pages d0 cs <= u32_max ->
  store_txn (pool (db w)) + len cs <= u64_max ->
  code_calls fuel path capacity cs w = map_calls cs m /\
  (exists d', serves d' (map_after cs m) (after_calls fuel path capacity cs w)) /\
  grows (calls_add cs m) w (after_calls fuel path capacity cs w).
Proof.
  induction cs as [|c cs IH]; intros d m w fuel Hs Hok Hd Hfuel Hn Ht.
  { split_and!; [done|by exists d|split; [simpl; lia|done]]. }
  apply Forall_cons in Hok as [Hc Hcs]. cbn [length] in Hd. rewrite len_cons in Ht.
  unfold calls_pages in Hn. rewrite fmap_cons in Hn. cbn [sum] in Hn.
  pose proof (calls_pages_nonneg d0 cs (serves_size _ _ _ Hs)) as Hsum. unfold calls_pages in Hsum.
  pose proof (call_pages_mono d d0 c ltac:(lia)) as Hmono. pose proof (len_nonneg cs).
  destruct (code_call_ok d m w fuel c) as (w' & Hrun & (d' & Hd' & Hs' & Hn' & Ht') & Hg & Hdense); [done|done|lia|lia|lia|].
  cbn [code_calls map_calls after_calls map_after calls_add]. rewrite Hrun. cbn [snd].
  destruct (IH d' (map_call c m).2 w' fuel) as (Hans & Hworld & Hg' & Hdense'); [done|done|lia|done|unfold calls_pages; lia|lia|].
  rewrite Hans. split_and!; [by destruct (map_call c m)|done|]. split; [lia|auto].
Qed.

Lemma calls_ok cs d0 d m w fuel :
  serves d m w -> Forall call_ok cs -> (d + length cs <= d0)%nat -> (d0 < fuel)%nat ->
  store_next (pool (db w)) + calls_pages d0 cs <= u32_max ->
  store_txn (pool (db w)) + len cs <= u64_max ->
  code_calls fuel path capacity cs w = map_calls cs m.
Proof. intros. eapply calls_world_ok; eassumption. Qed.

Lemma create_serves fs :
  page_size_wf ps -> files fs !! path = None -> new_faults fs = [] ->
  exists w, create_with_capacity path ps capacity fs = (Ret (db w), disk w) /\ serves 0 ∅ w /\
    store_next (pool (db w)) = FIRST_DATA_PAGE_ID /\ store_txn (pool (db w)) = 0.
Proof.
  intros Hwf Hnone Hnf. unfold create_with_capacity.
  destruct (fresh_pool_ok path ps capacity fs) as (p & s & Hc & Hs & _ & Hinv & Hsaved & Hf & Hps & Hroot & Hnext & Htx & Hpath);
    [done..|].
  rewrite (bind_ret _ _ _ _ _ Hc), Hs. exists (mkWorld (mkDatabase s) (close path (file p) fs)).
  split; [reflexivity|]. split_and!; [|done|done]. split; [|done|done|done]. split; [by exists (here p)|done|].
  exists []. split_and!; [done|by left|constructor].
Qed.
End refine.

Section new_database.
Context `{Xxh3} `{BuildProfile} `{HashOrder}.
Context (ps : PageSize) (C : row_class ps) (path : string) (capacity : Z) (fs : FileSystem).
Context (cs : list call) (fuel : nat).
Hypothesis (Hwf : page_size_wf ps) (Hcap : 1 <= capacity) (Hnone : files fs !! path = None) (Hnf : new_faults fs = []).
Hypothesis (Hok : Forall (call_ok C) cs) (Hfuel : (length cs < fuel)%nat).
Hypothesis (Hn : FIRST_DATA_PAGE_ID + calls_pages (ps := ps) (length cs) cs <= u32_max) (Ht : len cs <= u64_max).

(** A new database answers what a new map answers. *)
Lemma new_database_answers :
  exists w, create_with_capacity path ps capacity fs = (Ret (db w), disk w) /\
    code_calls fuel path capacity cs w = map_calls cs ∅.
Proof using All.
  destruct (create_serves C path capacity Hcap fs Hwf Hnone Hnf) as (w & Hc & Hs & Hnext & Htxn).
  exists w. split; [done|]. apply (calls_ok C path capacity Hcap cs (length cs) 0 ∅ w fuel); [done..|lia|lia].
Qed.

(** Its file has every page handed out. *)
Lemma new_database_file :
  exists w, create_with_capacity path ps capacity fs = (Ret (db w), disk w) /\
    let p := pager (pool (db (after_calls fuel path capacity cs w))) in
    FIRST_DATA_PAGE_ID + calls_add cs ∅ <= page_count p /\
    (forall id, FIRST_DATA_PAGE_ID <= id < page_count p -> is_Some (disk_page p id)) /\
    file_offset p (page_count p) <= len (data (file p)) /\ synced (file p) /\ page_size p = ps /\ Pager.path p = path.
Proof using All.
  destruct (create_serves C path capacity Hcap fs Hwf Hnone Hnf) as (w & Hc & Hs & Hnext & Htxn).
  exists w. split; [done|]. intros p.
  destruct (calls_world_ok C path capacity Hcap cs (length cs) 0 ∅ w fuel) as (_ & (d & [Hr Hsaved Hpath _]) & Hg & Hdense);
    [done..|lia|lia|].
  destruct (dense_file _ (rp_ok _ _ _ _ Hr) Hsaved) as [Hpages Hlen].
  { apply Hdense. intros id Hid. lia. }
  pose proof Hsaved as (_ & Hcount & Hsy). apply st_synced in Hsy. rewrite Hnext in Hg. subst p.
  split_and!; [rewrite Hcount; exact Hg|exact Hpages|exact Hlen|exact Hsy|apply (rp_page_size _ _ _ _ Hr)|exact Hpath].
Qed.
End new_database.

(** C2: A database just created, on a disk that does not fail, driven by any sequence of
    inserts, lookups, updates, deletes, scans and reopenings whose rows are all of one row
    class (a class whose leaves split in halves that fit), answers exactly what a finite map
    answers, errors included: for any page size, pool capacity, checksum and hash order, as
    long as page ids and commits do not run out. *)
Theorem database_refines_map `{Xxh3} `{BuildProfile} `{HashOrder}
    (ps : PageSize) (C : row_class ps) path capacity fs cs fuel :
  page_size_wf ps -> 1 <= capacity -> files fs !! path = None -> new_faults fs = [] ->
  Forall (call_ok C) cs -> (length cs < fuel)%nat ->
  FIRST_DATA_PAGE_ID + calls_pages (ps := ps) (length cs) cs <= u32_max -> len cs <= u64_max ->
  exists w, create_with_capacity path ps capacity fs = (Ret (db w), disk w) /\
    code_calls fuel path capacity cs w = map_calls cs ∅.
Proof.
  intros. by apply (new_database_answers ps C).
Qed.

(** Insert, overwrite, read, refuse, reopen, list, delete. *)
Definition demo_calls : list call :=
  [CallInsert 7 [VInteger 1]; CallInsert (-3) [VText (Z_byte <$> [0x68; 0x69])]; CallInsert 7 [VNull];
   CallUpdate 7 [VInteger 2]; CallReopen; CallGet 7; CallScan; CallDelete (-3); CallGet (-3)].

Lemma demo_calls_ok (Hwf : page_size_wf (mkPageSize 4096)) : Forall (call_ok (small_rows _ Hwf)) demo_calls.
Proof.
  assert (Hrow : forall row, row ∈ [[VInteger 1]; [VText (Z_byte <$> [0x68; 0x69])]; [VNull]; [VInteger 2]] ->
    in_class (small_rows _ Hwf) row).
  { intros row Hin. apply in_small_rows; repeat (apply elem_of_cons in Hin as [->|Hin]);
      try (by apply elem_of_nil in Hin); (apply (bool_decide_unpack _); vm_compute; reflexivity). }
  unfold demo_calls. repeat apply Forall_cons_2; try apply Forall_nil_2; simpl;
    rewrite ?and_assoc; try split; try (apply Hrow; set_solver); unfold in_i64, i64_min, i64_max; lia.
Qed.

Lemma database_refines_map_witness :
  map_calls demo_calls ∅ =
    [Ret Done; Ret Done; Throw (Permanent (KeyAlreadyExists 7)); Ret Done; Ret Done;
     Ret (GotRow (Some [VInteger 2])); Ret (Rows [(-3, [VText (Z_byte <$> [0x68; 0x69])]); (7, [VInteger 2])]);
     Ret (Removed [VText (Z_byte <$> [0x68; 0x69])]); Ret (GotRow None)] /\
  exists w, @create_with_capacity sum_xxh3 "db" (mkPageSize 4096) 1
      (mkFileSystem ∅ []) = (Ret (db w), disk w) /\
    @code_calls sum_xxh3 (Build_BuildProfile true) elements_order 10 "db" 1 demo_calls w =
      map_calls demo_calls ∅.
Proof.
  split; [vm_compute; reflexivity|].
  assert (Hwf : page_size_wf (mkPageSize 4096)) by (unfold page_size_wf; set_solver).
  apply (@database_refines_map sum_xxh3 (Build_BuildProfile true) elements_order (mkPageSize 4096)
    (small_rows _ Hwf) "db" 1 (mkFileSystem ∅ []) demo_calls 10); [done|done|done|done|exact (demo_calls_ok Hwf)|simpl; lia| |].
  - vm_compute. discriminate.
  - vm_compute. discriminate.
Defined.

(** C11: The file is whole: after any sequence of calls on rows of one row class, on a new
    database whose disk does not fail, each page id that was handed out, at least one for
    each write, has its page in the file, where it verifies, the file is as long as these
    pages need, and all of it is synced. *)
Theorem file_is_whole `{Xxh3} `{BuildProfile} `{HashOrder}
    (ps : PageSize) (C : row_class ps) path capacity fs cs fuel :
  page_size_wf ps -> 1 <= capacity -> files fs !! path = None -> new_faults fs = [] ->
  Forall (call_ok C) cs -> (length cs < fuel)%nat ->
  FIRST_DATA_PAGE_ID + calls_pages (ps := ps) (length cs) cs <= u32_max -> len cs <= u64_max ->
  exists w, create_with_capacity path ps capacity fs = (Ret (db w), disk w) /\
    let p := pager (pool (db (after_calls fuel path capacity cs w))) in
    FIRST_DATA_PAGE_ID + calls_add cs ∅ <= page_count p /\
    (forall id, FIRST_DATA_PAGE_ID <= id < page_count p -> is_Some (disk_page p id)) /\
    file_offset p (page_count p) <= len (data (file p)) /\ synced (file p) /\ page_size p = ps /\ Pager.path p = path.
Proof.
  intros. by apply (new_database_file ps C).
Qed.

Lemma file_is_whole_witness :
  exists w, @create_with_capacity sum_xxh3 "db" (mkPageSize 4096) 1 (mkFileSystem ∅ []) = (Ret (db w), disk w) /\
    let w' := @after_calls sum_xxh3 (Build_BuildProfile true) elements_order 10 "db" 1 demo_calls w in
    6 <= page_count (pager (pool (db w'))) /\ synced (file (pager (pool (db w')))).
Proof.
  assert (Hwf : page_size_wf (mkPageSize 4096)) by (unfold page_size_wf; set_solver).
  destruct (@file_is_whole sum_xxh3 (Build_BuildProfile true) elements_order (mkPageSize 4096)
    (small_rows _ Hwf) "db" 1 (mkFileSystem ∅ []) demo_calls 10) as (w & Hc & Hcount & _ & _ & Hsy & _);
    [done|done|done|done|exact (demo_calls_ok Hwf)|simpl; lia|vm_compute; discriminate|vm_compute; discriminate|].
  exists w. split; [exact Hc|]. intros w'. split; [|exact Hsy].
  assert (Hadd : FIRST_DATA_PAGE_ID + calls_add demo_calls ∅ = 6) by (vm_compute; reflexivity).
  rewrite Hadd in Hcount. exact Hcount.
Defined.

(** ** Rows of very different sizes *)

(** An empty blob, then two of about half a page. *)
Definition uneven_calls : list call :=
  [CallInsert 1 [VBlob []]; CallInsert 2 [VBlob (replicate 1975 x00)]; CallInsert 3 [VBlob (replicate 2058 x00)];
   CallGet 3].

Definition run_new (profile : BuildProfile) (cs : list call) : option (list (result answer)) :=
  let _ := sum_xxh3 in let _ := elements_order in
  match create_with_capacity "db" (mkPageSize 4096) 8 (mkFileSystem ∅ []) with
  | (Ret db, fs) => Some (code_calls 10 "db" 8 cs (mkWorld db fs))
  | _ => None
  end.

(** A run that shows what [SplitSpec.leaf_split_exact] says of halves that do not fit: three
    inserts succeed, each of a row that fits a leaf by itself, and the last row is not found,
    with and without overflow checks; the map has it. The row classes of
    [database_refines_map] exclude this. *)
Theorem split_loses_row :
  (forall checks, run_new (Build_BuildProfile checks) uneven_calls =
    Some [Ret Done; Ret Done; Ret Done; Ret (GotRow None)]) /\
  last (map_calls uneven_calls ∅) = Some (Ret (GotRow (Some [VBlob (replicate 2058 x00)]))).
Proof. split; [intros []|]; vm_compute; reflexivity. Qed.
