(* ===== verification/CrashSpec.v ===== *)
(** * Failing disks and crashes

    A call on a database whose disk fails, at any point and in any way, answers what it
    answers on a sound disk or stops with a disk error, and the program may go on with
    the open database, which is as it was. After a crash, whatever part of the unsynced
    writes it loses or tears, opening the file gives the database as it was after the last
    call that was answered, or as one of the calls stopped since leaves it. *)

From S2P Require Import Prelude Runs Errors Codec Lexis Row Page Disk FileSpec Pager PagerSpec RestartSpec PageStore PageStoreSpec.
From S2P Require Import BufferPool PoolSpec Layout Overflow OverflowSpec Mutate LeafSpec TreeSpec SplitSpec.
From S2P Require Import BTree BTreeSpec Database DatabaseSpec.

Section worlds.
Context `{Xxh3} `{BuildProfile} `{HashOrder}.
Context {ps : PageSize} (C : row_class ps) (path : string) (capacity : Z).
Hypothesis Hcapacity : 1 <= capacity.

Definition db_file (w : world) : File := file (pager (pool (db w))).

(** A restart that finds the file with the bytes [c], and the failures [fl] to come. *)
Definition restart (c : bytes) (fl : list (option Z)) (w : world) : result answer * world :=
  open_on path capacity (close path (found c fl) (disk w)) w.

(** A crash and what the file is then found with. *)
Definition may_find (w : world) (c : bytes) : Prop := crash (db_file w) c /\ honest (db_file w) c.

(** [lives d m R a w]: the database of [w] went on from the anchor [a], whose pages hold the
    map [m]; a commit that failed since and may yet be found is of a map of [R]. No tree is
    deeper than [d]. *)
Record lives (d : nat) (m : gmap Z Row) (R : list (gmap Z Row)) (a : anchor) (w : world) : Prop := {
  lv_inv : pool_inv a (pool (db w));
  lv_path : Pager.path (an_pager a) = path;
  lv_size : page_size (an_pager a) = ps;
  lv_count : FIRST_DATA_PAGE_ID <= page_count (an_pager a) <= an_next a;
  lv_map : exists d', (d' <= d)%nat /\
    stands C (file_pages (an_pager a) (page_count (an_pager a))) (root_page_id (an_pager a)) d' m;
  lv_cands : forall c, an_cand a c -> exists d' m', (d' <= d)%nat /\ m' ∈ R /\
    stands C (file_pages (an_pager a) (m_page_count c)) (m_root_page_id c) d' m';
}.

(** A database at rest on [path]: it stands for [m], and nothing is left to write. *)
Record rests (d : nat) (m : gmap Z Row) (w : world) : Prop := {
  rs_repr : repr C d m (pool (db w));
  rs_saved : store_saved (pool (db w));
  rs_path : store_path (pool (db w)) = path;
}.

Lemma rests_lives d m w : rests d m w -> lives d m [] (here (pager (pool (db w)))) w.
Proof.
  intros [[[a Hinv] Hps Hst] Hsaved Hpath]. pose proof (saved_here a _ Hinv Hsaved) as Hinv'.
  pose proof Hsaved as (Hd & Hcount & _). pose proof (pi_first _ _ Hinv).
  split; cbn [here an_pager an_next an_cand]; [done|done|done|lia| |done].
  exists d. split; [done|]. eapply stands_le; [|exact Hst].
  apply (view_kept (here (pager (pool (db w))))); [done|done|done|simpl; lia].
Qed.

Lemma rests_serves d m w : rests d m w -> faults (db_file w) = [] -> serves C path d m w.
Proof. by intros [] ?. Qed.

(** The open database stands for the map, whatever was stopped before. *)
Lemma lives_repr d m R a w : lives d m R a w -> exists d', (d' <= d)%nat /\ repr C d' m (pool (db w)).
Proof.
  intros [Hinv _ Hps Hn (d' & Hd & Hst) _]. exists d'. split; [done|].
  apply (kept_repr (H1 := pool_run a)); [|done|done]. eapply stands_le; [|exact Hst].
  apply file_pages_le. lia.
Qed.

Lemma lives_mono d d' m R R' a w : lives d m R a w -> (d <= d')%nat -> R ⊆ R' -> lives d' m R' a w.
Proof.
  intros [? ? ? ? (x & ? & ?) Hc] Hd HR. split; try done.
  - exists x. split; [lia|done].
  - intros c (y & m' & ? & ? & ?)%Hc. exists y, m'. split_and!; [lia|by apply HR|done].
Qed.

(** Anything that went on from the same anchor. *)
Lemma lives_from d m R a a' w w' :
  lives d m R a w -> an_pager a' = an_pager a -> an_next a' = an_next a -> an_cand a' = an_cand a ->
  pool_inv a' (pool (db w')) -> lives d m R a' w'.
Proof. intros [] Hp Hn Hc Hinv. split; rewrite ?Hp, ?Hn, ?Hc; done. Qed.

Lemma lives_txn d m R a w : lives d m R a w -> txn_id (pager (pool (db w))) = txn_id (an_pager a).
Proof. intros Hl. destruct (pg_fields _ _ (pi_pager _ _ (lv_inv _ _ _ _ _ Hl))) as (_ & _ & _ & ? & _). done. Qed.

(** ** One call *)

(** A commit was stopped halfway: its map may be found. *)
Lemma lives_halfway d m R a w w' root e d' m' :
  lives d m R a w -> pool_halfway a root e (pool (db w')) -> (d' <= d)%nat ->
  stands C (store_view (pool (db w'))) root d' m' ->
  let s' := pool (db w') in
  lives d m (m' :: R) (also a (next_page_id s') (committing root s') (pager s')) w'.
Proof.
  intros [Hinv Hpath Hsize Hcount (dm & Hdm & Hst) Hcands] (_ & Hdirty & Hinv' & Hsame & Hn & Hkept) Hd Hst' s'.
  fold s' in Hdirty, Hinv', Hsame, Hn, Hkept, Hst'.
  destruct Hsame as (Hpath' & Hps' & _ & _ & Hroot' & Hcount').
  assert (Hle : forall n, n <= an_next a -> view_le (file_pages (an_pager a) n) (file_pages (pager s') n)).
  { intros n Hna id c Hc. apply file_pages_of in Hc as Hc'. destruct Hc' as [Hid _]. apply file_pages_of. split; [done|].
    assert (Hk : kept_page a id = Some c) by (eapply file_pages_le, Hc; lia).
    apply Hkept in Hk. unfold pool_page in Hk. destruct (entries s' !! id) as [b|] eqn:E; [|done].
    injection Hk as <-. apply (pi_clean _ _ Hinv'); [done|]. by rewrite Hdirty. }
  split; cbn [also an_pager an_next an_cand].
  - exact Hinv'.
  - by rewrite Hpath'.
  - by rewrite Hps'.
  - rewrite Hcount'. lia.
  - exists dm. split; [done|]. rewrite Hcount', Hroot'. eapply stands_le; [|exact Hst]. apply Hle. lia.
  - intros c [Hc| ->].
    + destruct (Hcands c Hc) as (dc & mc & ? & ? & Hstc). exists dc, mc. split_and!; [done|by right|].
      eapply stands_le; [|exact Hstc]. apply Hle.
      destruct (ao_cand _ (pg_anchor _ _ (pi_pager _ _ Hinv)) _ Hc). lia.
    + exists d', m'. split_and!; [done|by left|]. eapply stands_le; [|exact Hst'].
      apply (view_kept _ _ Hinv'); [done|done|simpl; lia].
Qed.

(** What may be found after a call: no more than before, unless it is stopped; nothing but
    its own map, when it commits. *)
Definition found_after (c : call) (m : gmap Z Row) (R : list (gmap Z Row)) : list (gmap Z Row) :=
  if decide (call_adds m c = 1) then [] else R.

(** The world after [n] page ids and one commit at most. *)
Definition within (n : Z) (w w' : world) : Prop :=
  next_page_id (pool (db w')) <= next_page_id (pool (db w)) + n /\
  txn_id (pager (pool (db w'))) <= txn_id (pager (pool (db w))) + 1.

Lemma call_lives d m R a w fuel c :
  lives d m R a w -> call_ok C c -> c <> CallReopen -> (d < fuel)%nat ->
  next_page_id (pool (db w)) + call_pages (ps := ps) d c <= u32_max -> txn_id (pager (pool (db w))) < u64_max ->
  let '(r, w') := code_call fuel path capacity c w in
  within (call_pages (ps := ps) d c) w w' /\
  ((r = (map_call c m).1 /\ (exists a', lives (S d) (map_call c m).2 (found_after c m R) a' w') /\
     (rests d m w -> exists d', rests d' (map_call c m).2 w') /\
     (faults (db_file w) = [] -> faults (db_file w') = [])) \/
   ((exists e, r = Throw e /\ disk_failure e) /\ faults (db_file w) <> [] /\
     exists a', lives (S d) m ((map_call c m).2 :: R) a' w')).
Proof.
  intros Hl Hok Hc Hfuel Hn Ht. set (n := call_pages (ps := ps) d c) in *.
  destruct (lives_repr _ _ _ _ _ Hl) as (d0 & Hd0 & Hr). pose proof (pi_first _ _ (lv_inv _ _ _ _ _ Hl)) as Hfst.
  assert (Hwf : page_size_wf ps).
  { rewrite <-(lv_size _ _ _ _ _ Hl). apply (ao_meta _ (pg_anchor _ _ (pi_pager _ _ (lv_inv _ _ _ _ _ Hl)))). }
  pose proof (call_pages_nonneg (ps := ps) d c Hwf) as Hn0. fold n in Hn0.
  pose proof (call_pages_mono (ps := ps) d0 d c Hd0) as Hmono. fold n in Hmono.
  (* go on from the same point, up to the ids this call may take, on the disk as it is *)
  set (b := aimed (next_page_id (pool (db w)) + n) (pager (pool (db w))) a).
  assert (Hb : pool_inv b (pool (db w))) by (apply pool_aimed; [apply Hl|lia]).
  assert (Hlb : forall w', pool_inv b (pool (db w')) -> lives d m R b w' /\ within n w w').
  { intros w' Hw'. assert (Hlw : lives d m R b w') by (by apply (lives_from d m R a b w w')). split; [done|].
    split; [apply (pi_next _ _ Hw')|]. rewrite (lives_txn _ _ _ _ _ Hlw), (lives_txn _ _ _ _ _ Hl). simpl. lia. }
  pose proof (code_call_leaves C path capacity b d0 m w fuel c Hb Hr Hok Hc ltac:(lia) ltac:(simpl; fold n; lia) Ht) as Hleaves.
  destruct (code_call fuel path capacity c w) as [r w']. destruct Hleaves as [_ Hleaves].
  destruct Hleaves as [(-> & Hadd & He)|[(-> & Hadd & d' & Hd' & Hr' & Hcm)|(e & -> & Hst)]].
  - pose proof (ext_inv (H1 := pool_run b) _ _ _ He) as Hinv'. destruct (Hlb w' Hinv') as [Hl' Hw].
    split; [done|left]. split; [done|]. unfold found_after. rewrite decide_False by lia.
    destruct (call_adds_cases m c) as [[_ ->]|?]; [|lia]. split_and!.
    + exists b. eapply lives_mono; [exact Hl'|lia|done].
    + intros [Hrs Hss Hps]. exists d. split; [by apply (repr_extends (H1 := pool_run b) C 0 d m _ _ He)| |].
      * by apply (ext_saved (H1 := pool_run b) _ _ _ He).
      * rewrite <-Hps. apply (ext_path (H1 := pool_run b) _ _ _ He).
    + intros Hf. by apply (pg_sound _ _ (pi_pager _ _ Hinv')).
  - destruct Hcm as [Hn' Ht' Hs' Hp' _ _ Hrel].
    assert (Hrest : rests d' (map_call c m).2 w').
    { split; [done|done|]. rewrite Hp'. simpl. destruct (pg_fields _ _ (pi_pager _ _ Hb)) as (-> & _). apply Hl. }
    split; [split; simpl in *; lia|left]. split; [done|]. unfold found_after. rewrite decide_True by done.
    split_and!; [|by exists d'|by intros Hf; apply Hrel].
    exists (here (pager (pool (db w')))). eapply lives_mono; [by apply rests_lives|lia|done].
  - assert (He : disk_stops b e).
    { destruct Hst as [[? _]|(root & d' & (? & _) & _)]; done. }
    assert (Hw : within n w w' /\ exists a', lives (S d) m ((map_call c m).2 :: R) a' w').
    { destruct Hst as [[_ Hinv']|(root & d' & Hh & Hd' & Hst)].
      - destruct (Hlb w' Hinv') as [Hl' Hw]. split; [done|]. exists b. eapply lives_mono; [exact Hl'|lia|set_solver].
      - assert (Hlb0 : lives (S d) m R b w) by (eapply lives_mono; [by apply Hlb|lia|done]).
        pose proof (lives_halfway (S d) m R b w w' root e d' _ Hlb0 Hh ltac:(lia) Hst) as Hl'.
        split; [|by eexists]. split; [apply (pi_next _ _ (lv_inv _ _ _ _ _ Hl'))|].
        destruct Hh as (_ & _ & _ & (_ & _ & _ & -> & _) & _). rewrite (lives_txn _ _ _ _ _ Hl). simpl. lia. }
    destruct Hw as [Hw Hl']. split; [done|right]. destruct He as [He Hno]. split; [by exists e|].
    split; [|done]. intros Hf. by apply Hno.
Qed.

(** ** One restart *)

(** Opening the file with the bytes found, on a disk that may go on failing: a disk error,
    or the database at rest, with a map that may be found. *)
Lemma restart_lives d m R a w c fl :
  lives d m R a w -> may_find w c ->
  (exists e, restart c fl w = (Throw e, w) /\ disk_failure e /\ fl <> []) \/
  (exists w' m' d', restart c fl w = (Ret Done, w') /\ m' ∈ m :: R /\ (d' <= d)%nat /\ rests d' m' w' /\
     within 0 w w' /\ (fl = [] -> faults (db_file w') = [])).
Proof.
  intros Hl [Hcrash Hhonest]. pose proof Hl as [Hinv Hpath Hsize Hcount (dm & Hdm & Hst) Hcands].
  pose proof (pi_pager _ _ Hinv) as Hp. pose proof (pi_next _ _ Hinv) as Hnext.
  destruct (found_ok a (pager (pool (db w))) c Hp (proj1 Hcount) Hcrash Hhonest) as (Hlen & i & mc & Hrec & Hopen).
  destruct (open_pool_ok path capacity Hcapacity (close path (found c fl) (disk w)) (found c fl) i mc)
    as [(e & Ho & He & Hf)|(xs & dn & Ho & Hxs & Hpg & Hpi & Hsaved & Hn)].
  { apply lookup_insert_eq. }
  { done. }
  { apply (Hopen path fl). }
  { intros xs. destruct (Hopen path xs) as (_ & ? & ? & _). by split. }
  { left. exists e. unfold restart, open_on. by rewrite Ho. }
  right. eexists. destruct (Hopen path xs) as (_ & _ & _ & Hpages).
  assert (Hm : exists m' d', m' ∈ m :: R /\ (d' <= d)%nat /\ m_page_size mc = ps /\ m_page_count mc <= an_next a /\
    m_txn_id mc <= txn_id (an_pager a) + 1 /\
    stands C (file_pages (an_pager a) (m_page_count mc)) (m_root_page_id mc) d' m').
  { destruct Hrec as [->|Hc].
    - exists m, dm. split_and!; [by left|done|done|simpl; lia..|done].
    - destruct (Hcands _ Hc) as (dc & m' & ? & ? & ?). destruct (ao_cand _ (pg_anchor _ _ Hp) _ Hc) as [? ? Hs ?].
      exists m', dc. rewrite Hs. split_and!; [by right|done|done|lia|lia|done]. }
  destruct Hm as (m' & d' & Hm' & Hd' & Hps & Hpc & Htx & Hst'). exists m', d'.
  split_and!; [unfold restart, open_on; by rewrite Ho|done|done| | |].
  - split; cbn [db]; [|done|simpl; by rewrite Hpg].
    apply (kept_repr (H1 := pool_run (here (pager (pool dn))))); [|simpl; by rewrite Hpg|done].
    simpl. unfold kept_page. simpl. rewrite Hpg. eapply stands_le; [|exact Hst'].
    intros id x. rewrite !file_pages_of. intros [Hid Hx]. split; [done|]. apply Hpages; [lia|done].
  - unfold within. cbn [db]. rewrite Hn, Hpg, (lives_txn _ _ _ _ _ Hl). simpl. lia.
  - intros ->. unfold db_file. cbn [db]. rewrite Hpg. by apply Hxs.
Qed.
(** A database at rest opens again without a crash, to the same map. *)
Lemma rests_reopen d m w :
  rests d m w ->
  (exists e, reopen path capacity w = (Throw e, w) /\ disk_failure e /\ faults (db_file w) <> []) \/
  (exists w', reopen path capacity w = (Ret Done, w') /\ rests d m w' /\ within 0 w w' /\
     (faults (db_file w) = [] -> faults (db_file w') = [])).
Proof.
  intros [[Hok Hps Hst] Hsaved Hpath]. simpl in Hpath, Hps. unfold reopen, open_on.
  destruct (reopen_pool_ok path capacity Hcapacity (pool (db w)) (drop_database (db w) (disk w)) Hok Hsaved Hpath)
    as [(e & -> & He & Hf)|(xs & dn & -> & Hxs & Hpg & Hinv & Hsaved' & Hn & Hle)].
  { simpl. rewrite Hpath. apply lookup_insert_eq. }
  - left. by exists e.
  - right. eexists. split; [reflexivity|]. split_and!.
    + split; cbn [db]; [|done|simpl; by rewrite Hpg]. split; [by eexists|simpl; by rewrite Hpg|].
      simpl. rewrite Hpg. by eapply stands_le.
    + unfold within. cbn [db]. rewrite Hn, Hpg. simpl. lia.
    + intros Hf. unfold db_file. cbn [db]. rewrite Hpg. by apply Hxs.
Qed.

(** An open database with nothing left to write is at rest. *)
Lemma lives_rests d m R a w :
  lives d m R a w -> store_saved (pool (db w)) -> exists d', (d' <= d)%nat /\ rests d' m w.
Proof.
  intros Hl Hs. destruct (lives_repr _ _ _ _ _ Hl) as (d' & Hd & Hr). exists d'. split; [done|]. split; [done|done|].
  simpl. destruct (pg_fields _ _ (pi_pager _ _ (lv_inv _ _ _ _ _ Hl))) as (-> & _). apply Hl.
Qed.

(** On a disk that works again, the open database answers as its map. *)
Lemma lives_calls cs : forall d m R a w fuel,
  page_size_wf ps -> lives d m R a w -> faults (db_file w) = [] ->
  Forall (call_ok C) cs -> Forall (fun c => c <> CallReopen) cs -> (d + length cs <= fuel)%nat ->
  next_page_id (pool (db w)) + calls_pages (ps := ps) fuel cs <= u32_max ->
  txn_id (pager (pool (db w))) + len cs <= u64_max ->
  code_calls fuel path capacity cs w = map_calls cs m.
Proof.
  induction cs as [|c cs IH]; intros d m R a w fuel Hwf Hl Hf Hok Hre Hd Hn Ht; [done|].
  apply Forall_cons in Hok as [Hc Hcs]. apply Forall_cons in Hre as [Hne Hre]. cbn [length] in Hd. rewrite len_cons in Ht.
  unfold calls_pages in Hn. rewrite fmap_cons in Hn. cbn [sum] in Hn. pose proof (len_nonneg cs).
  pose proof (calls_pages_nonneg (ps := ps) fuel cs Hwf) as Hsum. unfold calls_pages in Hsum.
  pose proof (call_pages_mono (ps := ps) d fuel c ltac:(lia)) as Hmono.
  pose proof (call_lives d m R a w fuel c Hl Hc Hne ltac:(lia) ltac:(lia) ltac:(lia)) as Hcall.
  cbn [code_calls map_calls]. destruct (code_call fuel path capacity c w) as [r w']. unfold within in Hcall.
  destruct Hcall as [[Hn' Ht'] [(-> & (a' & Hl') & _ & Hf')|(_ & ? & _)]]; [|done].
  rewrite (IH _ _ _ _ _ fuel Hwf Hl'); [by destruct (map_call c m)|auto|done|done|lia|unfold calls_pages; lia|lia].
Qed.

Lemma map_call_not_failed c m e : (map_call c m).1 = Throw e -> ~ disk_failure e.
Proof. intros Hc [p ->]. destruct c; simpl in Hc; try (destruct (m !! _)); done. Qed.

(** ** Histories *)

(** A call that is answered; a call that the disk stops; a crash, in whatever state the
    file is, after which the file is opened again. A call in which the process dies is one
    that is stopped, with a crash next. *)
Inductive event :=
  | Called (c : call) (r : result answer)
  | Stopped (c : call)
  | Restarted.

(** Reopening without a crash is for a database with nothing left to write. *)
Inductive step (fuel : nat) : world -> event -> world -> Prop :=
  | step_called c r w w' :
      c <> CallReopen -> code_call fuel path capacity c w = (r, w') ->
      (forall e, r = Throw e -> ~ disk_failure e) -> step fuel w (Called c r) w'
  | step_reopened w w' :
      store_saved (pool (db w)) -> code_call fuel path capacity CallReopen w = (Ret Done, w') ->
      step fuel w (Called CallReopen (Ret Done)) w'
  | step_stopped c e w w' :
      c <> CallReopen -> code_call fuel path capacity c w = (Throw e, w') -> disk_failure e ->
      step fuel w (Stopped c) w'
  | step_restarted bytes fl w w' :
      may_find w bytes -> restart bytes fl w = (Ret Done, w') -> step fuel w Restarted w'.

(** The same events on a map, and the maps that a restart may find in its place: those of
    the calls stopped since the last commit that was answered. *)
Inductive map_step : gmap Z Row * list (gmap Z Row) -> event -> gmap Z Row * list (gmap Z Row) -> Prop :=
  | map_called c m R : map_step (m, R) (Called c (map_call c m).1) ((map_call c m).2, found_after c m R)
  | map_stopped c m R : map_step (m, R) (Stopped c) (m, (map_call c m).2 :: R)
  | map_restarted m R m' : m' ∈ m :: R -> map_step (m, R) Restarted (m', []).

Inductive trace {W E : Type} (step : W -> E -> W -> Prop) : W -> list E -> W -> Prop :=
  | trace_nil w : trace step w [] w
  | trace_cons w e w1 es w' : step w e w1 -> trace step w1 es w' -> trace step w (e :: es) w'.

Definition event_call (e : event) : call :=
  match e with Called c _ | Stopped c => c | Restarted => CallReopen end.

(** The pages an event may add, on a tree that [fuel] is enough for. *)
Definition event_pages (fuel : nat) (e : event) : Z := call_pages (ps := ps) fuel (event_call e).

Lemma step_ok fuel d m R a w e w' :
  step fuel w e w' -> lives d m R a w -> call_ok C (event_call e) -> (d < fuel)%nat ->
  next_page_id (pool (db w)) + event_pages fuel e <= u32_max -> txn_id (pager (pool (db w))) < u64_max ->
  exists m' R' a', map_step (m, R) e (m', R') /\ lives (S d) m' R' a' w' /\ within (event_pages fuel e) w w'.
Proof.
  intros Hstep Hl Hok Hfuel Hn Ht.
  pose proof (call_pages_mono (ps := ps) d fuel (event_call e) ltac:(lia)) as Hmono. unfold event_pages in *.
  assert (Hw : forall n, within n w w' -> n <= call_pages (ps := ps) fuel (event_call e) ->
    within (call_pages (ps := ps) fuel (event_call e)) w w') by (unfold within; intros; lia).
  destruct Hstep as [c r w w' Hc Hrun Hr|w w' Hs Hrun|c e w w' Hc Hrun He|bytes fl w w' Hfind Hrun]; cbn [event_call] in *.
  - pose proof (call_lives d m R a w fuel c Hl Hok Hc Hfuel ltac:(lia) Ht) as Hcall. rewrite Hrun in Hcall.
    destruct Hcall as [Hin [(-> & (a' & Hl') & _)|((e & -> & He) & _)]]; [|by destruct (Hr e)].
    eexists _, _, a'. split_and!; [constructor|done|eauto].
  - destruct (lives_rests _ _ _ _ _ Hl Hs) as (d' & Hd & Hrest). cbn [code_call] in Hrun.
    destruct (rests_reopen d' m w Hrest) as [(e & Ho & _)|(w2 & Ho & Hrest' & Hin & _)]; rewrite Ho in Hrun; [done|].
    injection Hrun as <-. exists m, R, (here (pager (pool (db w2)))). split_and!; [apply (map_called CallReopen)| |eauto].
    eapply lives_mono; [by apply rests_lives|lia|set_solver].
  - pose proof (call_lives d m R a w fuel c Hl Hok Hc Hfuel ltac:(lia) Ht) as Hcall. rewrite Hrun in Hcall.
    destruct Hcall as [Hin [(Hm & _)|(_ & _ & a' & Hl')]]; [by destruct (map_call_not_failed c m e)|].
    eexists _, _, a'. split_and!; [constructor|done|eauto].
  - destruct (restart_lives d m R a w bytes fl Hl Hfind) as [(e & Ho & _)|(w2 & m' & d' & Ho & Hm' & Hd & Hrest & Hin & _)];
      rewrite Ho in Hrun; [done|]. injection Hrun as <-.
    exists m', [], (here (pager (pool (db w2)))). split_and!; [by constructor| |eauto].
    eapply lives_mono; [by apply rests_lives|lia|done].
Qed.

Lemma trace_ok fuel es : forall d m R a w w',
  page_size_wf ps -> trace (step fuel) w es w' -> lives d m R a w ->
  Forall (fun e => call_ok C (event_call e)) es -> (d + length es <= fuel)%nat ->
  next_page_id (pool (db w)) + sum (event_pages fuel <$> es) <= u32_max ->
  txn_id (pager (pool (db w))) + len es <= u64_max ->
  exists m' R' a', trace map_step (m, R) es (m', R') /\ lives (d + length es) m' R' a' w' /\
    next_page_id (pool (db w')) <= next_page_id (pool (db w)) + sum (event_pages fuel <$> es) /\
    txn_id (pager (pool (db w'))) <= txn_id (pager (pool (db w))) + len es.
Proof.
  induction es as [|e es IH]; intros d m R a w w' Hwf Htr Hl Hok Hd Hn Ht; inversion Htr as [|? ? w1 ? ? Hstep Hrest]; subst.
  { exists m, R, a. rewrite Nat.add_0_r. split_and!; [constructor|done|simpl; lia|unfold len; simpl; lia]. }
  apply Forall_cons in Hok as [Hc Hcs]. cbn [length] in Hd |- *. rewrite len_cons in Ht |- *. pose proof (len_nonneg es).
  rewrite fmap_cons in Hn |- *. cbn [sum] in Hn |- *.
  pose proof (sum_nonneg (event_pages fuel) es (fun x => call_pages_nonneg fuel (event_call x) Hwf)) as Hsum.
  destruct (step_ok fuel d m R a w e w1 Hstep Hl Hc) as (m1 & R1 & a1 & Hm1 & Hl1 & Hn1 & Ht1); [lia|lia|lia|].
  destruct (IH (S d) m1 R1 a1 w1 w' Hwf Hrest Hl1 Hcs) as (m' & R' & a' & Htr' & Hl' & Hn' & Ht'); [lia|lia|lia|].
  exists m', R', a'. replace (d + S (length es))%nat with (S d + length es)%nat by lia.
  split_and!; [by econstructor|done|lia|lia].
Qed.

(** ** Creation on a disk that may fail *)

Lemma created_rests fs w :
  page_size_wf ps -> files fs !! path = None ->
  create_with_capacity path ps capacity fs = (Ret (db w), disk w) ->
  rests 0 ∅ w /\ next_page_id (pool (db w)) = FIRST_DATA_PAGE_ID /\ txn_id (pager (pool (db w))) = 0.
Proof.
  intros Hwf Hnone. unfold create_with_capacity. pose proof (create_ok path ps fs Hwf Hnone) as Hc. unfold runs in Hc.
  unfold mbind, M_bind, lift. destruct (Pager.create path ps fs) as [[p|e| |] fs']; try done.
  destruct Hc as (-> & Hp & Hset & Hpath & Hps & Hroot & Htx & Hcount & _).
  destruct (new_pool_inv p capacity Hp Hset Hcapacity) as (s & -> & Hinv & Hsaved & Hpg & _ & _ & Hn).
  destruct w as [d k]. cbn [db disk mret M_ret]. intros [Hd _]%pair_equal_spec. injection Hd as <-. cbn [pool].
  rewrite Hn, Hpg. split_and!; [|done|done]. split; cbn [db pool]; [|done|simpl; by rewrite Hpg].
  split; [by exists (here p)|simpl; by rewrite Hpg|]. simpl. rewrite Hpg, Hroot. exists [].
  split_and!; [done|by left|constructor].
Qed.
End worlds.

(** ** What the database promises on a disk that may fail *)
Section properties.
Context `{Xxh3} `{BuildProfile} `{HashOrder}.
Context (ps : PageSize) (C : row_class ps) (path : string) (capacity : Z) (fuel : nat).

(** C1: Failing disks, crashes and going on after them refine a finite map, for rows of one
    row class (whose leaves split in halves that fit). A database created on a disk with any
    schedule of failures is driven by a history of calls on such rows, of calls that the disk
    stops, with the program going on with the open database, and of crashes in any state of
    the file, each followed by opening it with whatever part of the unsynced writes is found,
    no torn meta slot having the checksum of its bytes. Reopening without a crash is a step of
    the history where nothing is left to write, and page ids, commits and fuel do not run out.
    Then every answer is the map's, a stopped call changes nothing of the open database, and
    a crash leaves the map or the map of a call stopped since the last commit that was
    answered. *)
Theorem failures_refine_map fs es w w' :
  page_size_wf ps -> 1 <= capacity -> files fs !! path = None ->
  create_with_capacity path ps capacity fs = (Ret (db w), disk w) ->
  trace (step path capacity fuel) w es w' ->
  Forall (fun e => call_ok C (event_call e)) es -> (length es <= fuel)%nat ->
  FIRST_DATA_PAGE_ID + sum (event_pages (ps := ps) fuel <$> es) <= u32_max -> len es <= u64_max ->
  exists m R d, trace map_step (∅, []) es (m, R) /\ repr C d m (pool (db w')).
Proof.
  intros Hwf Hcap Hnone Hc Htr Hok Hfuel Hn Ht.
  destruct (created_rests C path capacity Hcap fs w Hwf Hnone Hc) as (Hr & Hnext & Htxn).
  destruct (trace_ok C path capacity Hcap fuel es 0 ∅ [] _ w w' Hwf Htr (rests_lives C path 0 ∅ w Hr) Hok)
    as (m & R & a & Hm & Hl & _); [lia|lia|lia|].
  destruct (lives_repr _ _ _ _ _ _ _ Hl) as (d & _ & Hd). by exists m, R, d.
Qed.

(** C4: Nothing that was answered is lost, and the database comes back: after a history as
    in [failures_refine_map] (rows of one class, reopening without a crash where nothing is
    left to write), as soon as the disk works, the open database answers every further
    sequence of calls on rows of the class, reopenings excepted, as the map of that history;
    and after one more crash, whatever part of the unsynced writes is found (no torn meta slot
    having the checksum of its bytes), opening the file succeeds and the database answers such
    a sequence, reopenings included, as that map, or as the map of a call that was stopped
    since the last commit that was answered. *)
Theorem recovery_serves fs es w w' cs :
  page_size_wf ps -> 1 <= capacity -> files fs !! path = None ->
  create_with_capacity path ps capacity fs = (Ret (db w), disk w) ->
  trace (step path capacity fuel) w es w' ->
  Forall (fun e => call_ok C (event_call e)) es -> Forall (call_ok C) cs -> (length es + length cs < fuel)%nat ->
  FIRST_DATA_PAGE_ID + sum (event_pages (ps := ps) fuel <$> es) + calls_pages (ps := ps) fuel cs <= u32_max ->
  len es + len cs < u64_max ->
  exists m R, trace map_step (∅, []) es (m, R) /\
    (faults (db_file w') = [] -> Forall (fun c => c <> CallReopen) cs ->
     code_calls fuel path capacity cs w' = map_calls cs m) /\
    (forall bytes, may_find w' bytes -> exists w2 m', m' ∈ m :: R /\
     restart path capacity bytes [] w' = (Ret Done, w2) /\ code_calls fuel path capacity cs w2 = map_calls cs m').
Proof.
  intros Hwf Hcap Hnone Hc Htr Hok Hcs Hfuel Hn Ht. pose proof (len_nonneg cs).
  pose proof (calls_pages_nonneg (ps := ps) fuel cs Hwf) as Hpages.
  destruct (created_rests C path capacity Hcap fs w Hwf Hnone Hc) as (Hr & Hnext & Htxn).
  destruct (trace_ok C path capacity Hcap fuel es 0 ∅ [] _ w w' Hwf Htr (rests_lives C path 0 ∅ w Hr) Hok)
    as (m & R & a & Hm & Hl & Hn' & Ht'); [lia|lia|lia|]. exists m, R. split_and!; [done| |].
  - intros Hf Hre. apply (lives_calls C path capacity Hcap cs _ m R a w' fuel Hwf Hl Hf Hcs Hre); lia.
  - intros bytes Hfind.
    destruct (restart_lives C path capacity Hcap _ m R a w' bytes [] Hl Hfind)
      as [(e & _ & _ & ?)|(w2 & m' & d' & Ho & Hm' & Hd & Hrest & [Hn2 Ht2] & Hf)]; [done|].
    exists w2, m'. split_and!; [done|done|].
    pose proof (calls_pages_mono (ps := ps) (d' + length cs) fuel cs ltac:(lia)).
    eapply (calls_ok C path capacity Hcap cs (d' + length cs) d' m' w2);
      [by apply rests_serves; [|apply Hf]|done|lia|lia|simpl; lia|simpl; lia].
Qed.

(** C3: A call on a row of the class of the rows that are stored answers, on a failing disk,
    what the map answers, or stops with a disk error; and then the open database still stands
    for the map it stood for, and whatever a crash keeps of the unsynced writes (no torn meta
    slot having the checksum of its bytes), opening the file gives the database as it was or
    as the call leaves it. The database had nothing left to write before the call, and page
    ids and commits are left. *)
Theorem failing_call_is_atomic d m w c r w1 :
  1 <= capacity -> rests C path d m w -> call_ok C c -> (d < fuel)%nat ->
  store_next (pool (db w)) + call_pages (ps := ps) fuel c <= u32_max -> store_txn (pool (db w)) < u64_max ->
  code_call fuel path capacity c w = (r, w1) ->
  (r = (map_call c m).1 /\ exists d', rests C path d' (map_call c m).2 w1) \/
  ((exists e, r = Throw e /\ disk_failure e) /\ faults (db_file w) <> [] /\
   (exists d', repr C d' m (pool (db w1))) /\
   forall bytes, may_find w1 bytes ->
     exists w2 d' m', restart path capacity bytes [] w1 = (Ret Done, w2) /\ serves C path d' m' w2 /\
       (m' = m \/ m' = (map_call c m).2)).
Proof.
  intros Hcap Hrest Hok Hfuel Hn Ht Hrun. pose proof (rests_lives _ _ _ _ _ Hrest) as Hl.
  assert (Hstop : forall R a d1, lives C path d1 m R a w1 -> (forall m', m' ∈ R -> m' = (map_call c m).2) ->
    (exists d', repr C d' m (pool (db w1))) /\
    forall bytes, may_find w1 bytes -> exists w2 d' m', restart path capacity bytes [] w1 = (Ret Done, w2) /\
      serves C path d' m' w2 /\ (m' = m \/ m' = (map_call c m).2)).
  { intros R a d1 Hl1 HR. split; [destruct (lives_repr _ _ _ _ _ _ _ Hl1) as (d' & _ & ?); by exists d'|]. intros bytes Hfind.
    destruct (restart_lives C path capacity Hcap _ m R a w1 bytes [] Hl1 Hfind)
      as [(e & _ & _ & ?)|(w2 & m' & d' & Ho & Hm' & _ & Hrest2 & _ & Hf)]; [done|].
    exists w2, d', m'. split_and!; [done|by apply rests_serves; [|apply Hf]|].
    apply elem_of_cons in Hm' as [->|Hm']; auto. }
  assert (c = CallReopen \/ c <> CallReopen) as [->|Hc] by (destruct c; auto; by right).
  - cbn [code_call] in Hrun.
    destruct (rests_reopen C path capacity Hcap d m w Hrest) as [(e & Ho & He & Hf)|(w2 & Ho & Hrest' & _)];
      rewrite Ho in Hrun; apply pair_equal_spec in Hrun as [<- <-]; [right|left; split; [done|by exists d]].
    split; [by exists e|]. split; [done|]. eapply Hstop; [exact Hl|by intros ? ?%elem_of_nil].
  - pose proof (call_pages_mono (ps := ps) d fuel c ltac:(lia)) as Hmono. simpl in Hn, Ht.
    pose proof (call_lives C path capacity Hcap d m [] _ w fuel c Hl Hok Hc Hfuel ltac:(lia) Ht) as Hcall. rewrite Hrun in Hcall.
    destruct Hcall as [_ [(-> & _ & Hrest' & _)|(He & Hf & a' & Hl')]]; [left; auto|right].
    split; [done|]. split; [done|]. eapply Hstop; [exact Hl'|]. intros m' Hm'. by apply list_elem_of_singleton in Hm'.
Qed.
End properties.

(** ** A torn commit

    A new database of pages of 4096 bytes: an insert whose disk fails 16 bytes into the
    slot of its commit; a lookup in the open database; a crash that loses nothing, and the
    file opened again; the insert again; a lookup. *)
Section examples.
#[local] Instance example_hash : Xxh3 := sum_xxh3.
#[local] Instance example_profile : BuildProfile := Build_BuildProfile true.
#[local] Instance example_order : HashOrder := elements_order.

(** Two writes and a sync of the creation; the page, two syncs; then the slot. *)
Definition torn_faults : list (option Z) := [None; None; None; None; None; None; None; Some 16].

Definition torn_fs : FileSystem := mkFileSystem ∅ torn_faults.
Definition torn_call : call := CallInsert 7 [VInteger 1].

Definition no_world : world :=
  mkWorld (mkDatabase (mkPool (mkPager (mkFile [] [] [] [] []) "" DEFAULT 0 0 0 0) 0 ∅ ∅ [] 0)) (mkFileSystem ∅ []).

Definition torn_w0 : world :=
  match create_with_capacity "db" (mkPageSize 4096) 8 torn_fs with
  | (Ret d, fs) => mkWorld d fs
  | _ => no_world
  end.
Definition torn_w1 : world := (code_call 6 "db" 8 torn_call torn_w0).2.
Definition torn_w2 : world := (code_call 6 "db" 8 (CallGet 7) torn_w1).2.
Definition torn_bytes : bytes := data (db_file torn_w1).
Definition torn_w3 : world := (restart "db" 8 torn_bytes [] torn_w2).2.
Definition torn_w4 : world := (code_call 6 "db" 8 torn_call torn_w3).2.
Definition torn_w5 : world := (code_call 6 "db" 8 (CallGet 7) torn_w4).2.

Lemma first_is {A B} (x : A * B) a : x.1 = a -> x = (a, x.2).
Proof. intros <-. by destruct x. Qed.

Lemma torn_created : create_with_capacity "db" (mkPageSize 4096) 8 torn_fs = (Ret (db torn_w0), disk torn_w0).
Proof.
  assert (Hr : is_ret (create_with_capacity "db" (mkPageSize 4096) 8 torn_fs).1 = true) by (vm_compute; reflexivity).
  unfold torn_w0. destruct (create_with_capacity _ _ _ _) as [[d| | |] fs]; [reflexivity|discriminate Hr..].
Qed.

Lemma torn_stops : code_call 6 "db" 8 torn_call torn_w0 = (Throw (Fatal (Io "db" OtherIo)), torn_w1).
Proof. unfold torn_w1. apply (first_is (code_call 6 "db" 8 torn_call torn_w0)). vm_compute. reflexivity. Qed.

Lemma torn_goes_on : code_call 6 "db" 8 (CallGet 7) torn_w1 = (Ret (GotRow None), torn_w2).
Proof. unfold torn_w2. apply (first_is (code_call 6 "db" 8 (CallGet 7) torn_w1)). vm_compute. reflexivity. Qed.

Definition example_size_class : row_class (mkPageSize 4096) := small_rows _ example_size_wf.

Lemma example_small : in_class example_size_class [VInteger 1].
Proof. apply in_small_rows; apply (bool_decide_unpack _); vm_compute; reflexivity. Qed.

(** A file with one write pending, of the second slot: the crash that loses nothing. *)
Lemma nothing_lost f : (exists b, pending f = [WriteAt 4096 b]) -> data f = replay (pending f) (durable f) -> crash f (data f).
Proof.
  intros [b Hp] Hd. apply (restart_is_crash (fun _ => False) []). split; [by intros i x []|unfold len; simpl; lia| |done].
  rewrite Hp. constructor; [split; [lia|intros i _ []]|constructor].
Qed.

(** The first slot was not touched, the second one does not verify. *)
Lemma torn_honest f c :
  asked f !! O = Some (0 * META_SLOT_LEN, default [] (slice c (0 * META_SLOT_LEN) META_SLOT_LEN)) ->
  (b ← slice c (1 * META_SLOT_LEN) META_SLOT_LEN; ok (verify_checksum b)) = None -> honest f c.
Proof.
  intros Ha Hno i slot [->| ->] Hs Hv.
  - rewrite Hs in Ha. by eapply list_elem_of_lookup_2.
  - rewrite Hs in Hno. cbn [mbind option_bind] in Hno. by rewrite Hv in Hno.
Qed.

Lemma torn_found : may_find torn_w1 torn_bytes.
Proof.
  split.
  - apply nothing_lost; [|vm_compute; reflexivity].
    eexists. vm_compute. reflexivity.
  - apply torn_honest; vm_compute; reflexivity.
Qed.

(** The lookup leaves the file as it is. *)
Lemma torn_file : db_file torn_w2 = db_file torn_w1.
Proof. vm_compute. reflexivity. Qed.

Lemma torn_found_later : may_find torn_w2 torn_bytes.
Proof. unfold may_find. rewrite torn_file. exact torn_found. Qed.

Lemma torn_restarts : restart "db" 8 torn_bytes [] torn_w2 = (Ret Done, torn_w3).
Proof. unfold torn_w3. apply (first_is (restart "db" 8 torn_bytes [] torn_w2)). vm_compute. reflexivity. Qed.

Lemma torn_again : code_call 6 "db" 8 torn_call torn_w3 = (Ret Done, torn_w4).
Proof. unfold torn_w4. apply (first_is (code_call 6 "db" 8 torn_call torn_w3)). vm_compute. reflexivity. Qed.

Lemma torn_gets : code_call 6 "db" 8 (CallGet 7) torn_w4 = (Ret (GotRow (Some [VInteger 1])), torn_w5).
Proof. unfold torn_w5. apply (first_is (code_call 6 "db" 8 (CallGet 7) torn_w4)). vm_compute. reflexivity. Qed.

Definition torn_start : list event := [Stopped torn_call; Called (CallGet 7) (Ret (GotRow None))].
Definition torn_events : list event :=
  torn_start ++ [Restarted; Called torn_call (Ret Done); Called (CallGet 7) (Ret (GotRow (Some [VInteger 1])))].

Lemma torn_trace_start w es :
  trace (step "db" 8 6) torn_w2 es w -> trace (step "db" 8 6) torn_w0 (torn_start ++ es) w.
Proof.
  intros Hes. apply (trace_cons _ _ _ torn_w1).
  { eapply step_stopped; [discriminate|exact torn_stops|by eexists]. }
  apply (trace_cons _ _ _ torn_w2); [|exact Hes]. apply step_called; [discriminate|exact torn_goes_on|discriminate].
Qed.

Lemma torn_trace : trace (step "db" 8 6) torn_w0 torn_events torn_w5.
Proof.
  apply torn_trace_start. apply (trace_cons _ _ _ torn_w3).
  { eapply step_restarted; [exact torn_found_later|exact torn_restarts]. }
  apply (trace_cons _ _ _ torn_w4); [apply step_called; [discriminate|exact torn_again|discriminate]|].
  apply (trace_cons _ _ _ torn_w5); [apply step_called; [discriminate|exact torn_gets|discriminate]|constructor].
Qed.

Lemma torn_events_ok : Forall (fun e => call_ok example_size_class (event_call e)) torn_events.
Proof.
  unfold torn_events. repeat apply Forall_cons_2; try apply Forall_nil_2; simpl; try split;
    try exact example_small; try exact I; unfold in_i64, i64_min, i64_max; lia.
Qed.

Lemma failures_refine_map_witness :
  exists m R d, trace map_step (∅, []) torn_events (m, R) /\ repr example_size_class d m (pool (db torn_w5)).
Proof.
  apply (failures_refine_map (mkPageSize 4096) example_size_class "db" 8 6 torn_fs torn_events torn_w0 torn_w5).
  - exact example_size_wf.
  - lia.
  - reflexivity.
  - exact torn_created.
  - exact torn_trace.
  - exact torn_events_ok.
  - simpl. lia.
  - vm_compute. discriminate.
  - vm_compute. discriminate.
Defined.

Lemma recovery_serves_witness :
  exists m R, trace map_step (∅, []) torn_start (m, R) /\
    code_calls 6 "db" 8 [CallGet 7; CallScan] torn_w2 = map_calls [CallGet 7; CallScan] m /\
    exists w2 m', m' ∈ m :: R /\ restart "db" 8 torn_bytes [] torn_w2 = (Ret Done, w2) /\
      code_calls 6 "db" 8 [CallGet 7; CallScan] w2 = map_calls [CallGet 7; CallScan] m'.
Proof.
  destruct (recovery_serves (mkPageSize 4096) example_size_class "db" 8 6 torn_fs torn_start torn_w0 torn_w2 [CallGet 7; CallScan])
    as (m & R & Hm & Hopen & Hfind).
  - exact example_size_wf.
  - lia.
  - reflexivity.
  - exact torn_created.
  - exact (torn_trace_start torn_w2 [] (trace_nil _ _)).
  - exact (proj1 (proj1 (Forall_app _ _ _) torn_events_ok)).
  - repeat apply Forall_cons_2; try apply Forall_nil_2; simpl; try exact I; unfold in_i64, i64_min, i64_max; lia.
  - simpl. lia.
  - vm_compute. discriminate.
  - vm_compute. reflexivity.
  - exists m, R. split; [exact Hm|]. split; [|exact (Hfind torn_bytes torn_found_later)].
    apply Hopen; [vm_compute; reflexivity|]. repeat apply Forall_cons_2; try apply Forall_nil_2; discriminate.
Defined.

Lemma failing_call_is_atomic_witness :
  (exists d, repr example_size_class d ∅ (pool (db torn_w1))) /\
  exists w2 d m, restart "db" 8 torn_bytes [] torn_w1 = (Ret Done, w2) /\
    serves example_size_class "db" d m w2 /\ (m = ∅ \/ m = {[7 := [VInteger 1]]}).
Proof.
  destruct (created_rests example_size_class "db" 8 ltac:(lia) torn_fs torn_w0 example_size_wf eq_refl torn_created)
    as (Hs & Hn & Ht).
  assert (Hcall : call_ok example_size_class torn_call).
  { split; [unfold in_i64, i64_min, i64_max; lia|exact example_small]. }
  assert (Hpages : FIRST_DATA_PAGE_ID + call_pages (ps := mkPageSize 4096) 6 torn_call <= u32_max)
    by (vm_compute; discriminate).
  destruct (failing_call_is_atomic (mkPageSize 4096) example_size_class "db" 8 6 0 ∅ torn_w0 torn_call
    (Throw (Fatal (Io "db" OtherIo))) torn_w1) as [[Hr _]|(_ & _ & Hrep & Hf)];
    [lia|exact Hs|exact Hcall|lia|cbn [store_next BufferPool_StoreModel]; rewrite Hn; exact Hpages|
     cbn [store_txn BufferPool_StoreModel]; rewrite Ht; reflexivity|exact torn_stops| |].
  - discriminate Hr.
  - split; [exact Hrep|]. destruct (Hf torn_bytes torn_found) as (w2 & d & m & Ho & Hs2 & Hm). exists w2, d, m.
    split; [exact Ho|]. split; [exact Hs2|exact Hm].
Defined.
End examples.
