(* ===== verification/Reopening.v ===== *)
(** * Reopening with writes that are not synced

    The histories of CrashSpec reopen a database without a crash only when nothing is left
    to write. Here is why: after two calls that the disk stopped, the first in its final
    sync and the second in the middle of its slot, opening the file goes by the older slot
    and hands out the pages of the first call again; and a crash that loses the torn write
    brings that call's slot back over pages that are no longer its own. *)

From S2P Require Import Prelude Runs Errors Codec Lexis Row Page Disk FileSpec Pager RestartSpec.
From S2P Require Import BufferPool Database DatabaseSpec CrashSpec.

(** A crash that keeps of the pending writes the one that is last, inside the file. *)
Lemma last_write_kept f ws o b :
  pending f = ws ++ [WriteAt o b] -> Forall (writes_clear (fun _ => False)) ws -> 0 <= o ->
  o + len b <= len (durable f) -> crash f (apply_write (WriteAt o b) (durable f)).
Proof.
  intros Hp Hws Ho Hl. unfold crash. rewrite (crash_floor_writes (fun _ => False)).
  2: { rewrite Hp. apply Forall_app. split; [done|]. constructor; [split; [done|by intros i _ []]|constructor]. }
  rewrite len_apply_write_at by done. split; [lia|]. intros i x. rewrite apply_write_spec by done.
  replace (o - len (durable f)) with (Z.min 0 (o - len (durable f))) by (pose proof (len_nonneg b); lia).
  case_decide as Hi; intros Hx.
  - right; left. rewrite Hp. apply Exists_app. right. constructor. split; [lia|done].
  - left. unfold zeros in Hx. by rewrite (Z2Nat.nonpos (Z.min _ _)), app_nil_r in Hx by lia.
Qed.

(** A slot is among the buffers of the log where it is the one at [k]. *)
Lemma honest_by `{Xxh3} (k : Z -> nat) f c :
  (forall i, i = 0 \/ i = 1 ->
    asked f !! k i = Some (i * META_SLOT_LEN, default [] (slice c (i * META_SLOT_LEN) META_SLOT_LEN))) -> honest f c.
Proof. intros Hk i slot Hi Hs _. specialize (Hk i Hi). rewrite Hs in Hk. by eapply list_elem_of_lookup_2. Qed.

Section examples.
#[local] Instance example_hash : Xxh3 := sum_xxh3.
#[local] Instance example_profile : BuildProfile := Build_BuildProfile true.
#[local] Instance example_order : HashOrder := elements_order.

Definition insert_of (k : Z) : call := CallInsert k [VInteger k].

(** The first insert is answered; the second one is stopped in its last sync; the third one
    64 bytes into its slot; the file is opened again; the last one is stopped before the checksum of
    its page. *)
Definition resurfacing_calls : list call := [insert_of 7; insert_of 8; insert_of 9; CallReopen; insert_of 10].
Definition resurfacing_faults : list (option Z) :=
  replicate 13 None ++ [Some 0] ++ replicate 3 None ++ [Some 64] ++ replicate 5 None ++ [Some 4088].

Definition resurfacing_start : world :=
  match create_with_capacity "db" (mkPageSize 4096) 8 (mkFileSystem ∅ resurfacing_faults) with
  | (Ret d, fs) => mkWorld d fs
  | _ => no_world
  end.
Definition resurfacing_world : world := after_calls 6 "db" 8 resurfacing_calls resurfacing_start.

(** Of what is pending, the crash loses the 64 bytes of the slot and keeps those of the page. *)
Definition resurfacing_bytes : bytes :=
  match last (pending (db_file resurfacing_world)) with
  | Some w => apply_write w (durable (db_file resurfacing_world))
  | None => []
  end.

Definition resurfacing_end : world := (restart "db" 8 resurfacing_bytes [] resurfacing_world).2.

Lemma resurfacing_may_find : may_find resurfacing_world resurfacing_bytes.
Proof.
  assert (Hp : exists b1 b2, pending (db_file resurfacing_world) = [WriteAt 0 b1] ++ [WriteAt 12288 b2] /\ len b2 = 4088).
  { eexists _, _. split; vm_compute; reflexivity. }
  assert (Hl : len (durable (db_file resurfacing_world)) = 20480) by (vm_compute; reflexivity).
  split.
  - destruct Hp as (b1 & b2 & Hp & Hb2). unfold resurfacing_bytes. rewrite Hp. cbn [last app].
    apply (last_write_kept _ [WriteAt 0 b1]); [exact Hp| |lia|lia].
    constructor; [split; [lia|by intros i _ []]|constructor].
  - apply (honest_by (fun i => if decide (i = 0) then 4%nat else 2%nat)).
    intros i [->| ->]; vm_compute; reflexivity.
Qed.

(** The row of the first insert, which was answered, cannot be read any more: every call
    but that one was stopped by the disk, and yet the lookup finds a torn page. *)
Theorem reopening_unsynced_loses_rows :
  code_calls 6 "db" 8 resurfacing_calls resurfacing_start =
    [Ret Done; Throw (Fatal (Io "db" OtherIo)); Throw (Fatal (Io "db" OtherIo)); Ret Done;
     Throw (Fatal (Io "db" OtherIo))] /\
  may_find resurfacing_world resurfacing_bytes /\
  exists w, restart "db" 8 resurfacing_bytes [] resurfacing_world = (Ret Done, w) /\
    exists expected actual, (code_call 6 "db" 8 (CallGet 7) w).1 = Throw (Fatal (Corruption 3 expected actual)).
Proof.
  split; [vm_compute; reflexivity|]. split; [exact resurfacing_may_find|]. exists resurfacing_end. split.
  - unfold resurfacing_end. apply (first_is (restart "db" 8 resurfacing_bytes [] resurfacing_world)). vm_compute. reflexivity.
  - eexists _, _. vm_compute. reflexivity.
Qed.
End examples.
