(* ===== verification/Testing.v ===== *)
(** * Tests as definitions

    A unit test is a computation that fails where an assertion does; it passes when it
    returns. A test that works on files is a computation over the file system, the handles
    it opens being values it passes around; a handle that is dropped leaves its file behind. *)

From S2P Require Import Prelude Errors Codec Lexis Row Page Disk Pager BufferPool.

(** The bytes of a string literal *)
Definition str_bytes (s : string) : bytes := String.list_byte_of_string s.

Inductive failure := TestFailed.

Abbreviation test := (outcome failure unit).

(** [assert!(b)] *)
Definition assert (b : bool) : test := ensure b TestFailed.

(** [.expect(..)] and [.expect_err(..)] *)
Definition unwrap {E A} (o : outcome E A) : outcome failure A := map_err (fun _ => TestFailed) o.
Definition unwrap_err {E A} (o : outcome E A) : outcome failure E :=
  match o with
  | Ret _ => Throw TestFailed
  | Throw e => Ret e
  | Panic p => Panic p
  | Diverge => Diverge
  end.

(** The value in an option, [.expect(..)] *)
Definition present {A} (o : option A) : outcome failure A := context o TestFailed.

Definition passes (t : test) : Prop := t = Ret tt.

(** ** Tests on a state *)

Definition expect {S E A} (m : M S E A) : M S failure A := fun s => let '(o, s) := m s in (unwrap o, s).
Definition expect_err {S E A} (m : M S E A) : M S failure E := fun s => let '(o, s) := m s in (unwrap_err o, s).
Definition check {S} (b : bool) : M S failure unit := lift (assert b).

(** A method of a value [x] that the test holds, as in [x.m()]. *)
Definition call_on {X S E A} (x : X) (m : M X E A) : M S failure (A * X) :=
  lift (let '(o, x) := m x in a ← unwrap o; Ret (a, x)).
Definition call_on_err {X S E A} (x : X) (m : M X E A) : M S failure (E * X) :=
  lift (let '(o, x) := m x in e ← unwrap_err o; Ret (e, x)).

(** [Pager::open], which leaves the files as they are. *)
Definition open_file {E A} (f : FileSystem -> outcome E A) : M FileSystem failure A :=
  fun fs => (unwrap (f fs), fs).
Definition open_file_err {E A} (f : FileSystem -> outcome E A) : M FileSystem failure E :=
  fun fs => (unwrap_err (f fs), fs).

(** The end of the life of a pager or of a pool *)
Definition drop_pager (p : Pager) : M FileSystem failure unit := modify (close (path p) (file p)).
Definition drop_pool (p : BufferPool) : M FileSystem failure unit := drop_pager (pager p).

(** Fresh temporary directories: the file system a test starts from. *)
Definition tempdir : FileSystem := mkFileSystem ∅ [].

Definition run_in (fs : FileSystem) (t : M FileSystem failure unit) : test := (t fs).1.
