(* ===== verification/Acceptance.v ===== *)
(** * The acceptance tests ([crates/pinax/tests/phase01_acceptance.rs])

    A test is the calls it makes with the answers it expects; a loop over keys is a list
    mapped over its range. The temporary directory is a path that is free. *)

From stdpp Require Import pretty.
From S2P Require Import Prelude Runs Errors Codec Lexis Row Page Disk FileSpec Pager PagerSpec PageStore PageStoreSpec.
From S2P Require Import BufferPool PoolSpec OverflowSpec SplitSpec BTree BTreeSpec Database DatabaseSpec Testing.

(** [sample_row]; [pretty] is the decimal that [format!] writes for an [i64]. *)
Definition sample_row (n : Z) : Row := [VInteger n; VText (str_bytes ("acceptance-row-" ++ pretty n))].

(** The [n] integers from [i] on *)
Fixpoint range (i : Z) (n : nat) : list Z :=
  match n with O => [] | S n => i :: range (i + 1) n end.

Lemma range_seqZ n : forall i, range i n = seqZ i (Z.of_nat n).
Proof.
  induction n as [|n IH]; intros i; [done|]. cbn [range]. rewrite IH, (seqZ_cons i) by lia. do 2 f_equal. lia.
Qed.

(** [for i in 0..n] *)
Definition inserts (n : Z) : list (call * answer) :=
  (fun i => (CallInsert i (sample_row i), Done)) <$> range 0 (Z.to_nat n).
Definition lookups (n : Z) : list (call * answer) :=
  (fun i => (CallGet i, GotRow (Some (sample_row i)))) <$> range 0 (Z.to_nat n).

Section tests.
Context `{Xxh3} `{BuildProfile} `{HashOrder}.
Context (path : string) (fuel : nat) (fs : FileSystem).

(** The calls of a script have the answers it expects. *)
Definition script_answers (capacity : Z) (script : list (call * answer)) (created : result Database * FileSystem) : Prop :=
  match created with
  | (Ret d, fs) => code_calls fuel path capacity script.*1 (mkWorld d fs) = Ret <$> script.*2
  | _ => False
  end.

Definition crud_script : list (call * answer) :=
  [(CallInsert 1 (sample_row 1), Done); (CallInsert 2 (sample_row 2), Done);
   (CallGet 1, GotRow (Some (sample_row 1))); (CallGet 2, GotRow (Some (sample_row 2))); (CallGet 3, GotRow None);
   (CallUpdate 1 (sample_row 100), Done); (CallGet 1, GotRow (Some (sample_row 100)));
   (CallDelete 2, Removed (sample_row 2)); (CallGet 2, GotRow None);
   (CallGet 1, GotRow (Some (sample_row 100)))].

(** [open_a_file_and_crud_rows_by_integer_key] *)
Definition open_a_file_and_crud_rows_by_integer_key : Prop :=
  script_answers DEFAULT_BUFFER_POOL_CAPACITY crud_script (create path DEFAULT fs).

(** [survives_crash_and_reopen] *)
Definition survives_crash_and_reopen : Prop :=
  script_answers DEFAULT_BUFFER_POOL_CAPACITY (inserts 50 ++ (CallReopen, Done) :: lookups 50) (create path DEFAULT fs).

Definition CAPACITY_PAGES := 8.
Definition ROW_COUNT := 4000.

(** [buffer_pool_handles_a_database_larger_than_its_capacity] *)
Definition buffer_pool_handles_a_database_larger_than_its_capacity : Prop :=
  match create_with_capacity path DEFAULT CAPACITY_PAGES fs with
  | (Ret d, fs) =>
    let w := mkWorld d fs in
    let filled := after_calls fuel path CAPACITY_PAGES (inserts ROW_COUNT).*1 w in
    let capacity_bytes := CAPACITY_PAGES * ps_bytes DEFAULT in
    code_calls fuel path CAPACITY_PAGES (inserts ROW_COUNT).*1 w = Ret <$> (inserts ROW_COUNT).*2 /\
    match files (drop_database (db filled) (disk filled)) !! path with
    | Some f => capacity_bytes * 4 < len (data f)
    | None => False
    end /\
    code_calls fuel path CAPACITY_PAGES (CallReopen :: (lookups ROW_COUNT).*1) filled =
      Ret Done :: (Ret <$> (lookups ROW_COUNT).*2)
  | _ => False
  end.

(** [byte[0] ^= 0xFF] at [offset] of the file, past the database. *)
Definition flip_byte (offset : Z) (fs : FileSystem) : option FileSystem :=
  f ← files fs !! path;
  byte ← data f !! Z.to_nat offset;
  Some (close path (write_all_at [Z_byte (Z.lxor (byte_Z byte) 255)] offset f).2 fs).

(** [corruption_is_detected_via_checksum] *)
Definition corruption_is_detected_via_checksum : Prop :=
  match create path DEFAULT fs with
  | (Ret d, fs) =>
    let '(a, w) := code_call fuel path DEFAULT_BUFFER_POOL_CAPACITY (CallInsert 1 (sample_row 1)) (mkWorld d fs) in
    a = Ret Done /\
    match flip_byte 8192 (drop_database (db w) (disk w)) with
    | Some fs =>
      match Database.open path fs with
      | Ret d => match (get fuel 1 d).1 with Throw (Fatal (Corruption _ _ _)) => True | _ => False end
      | _ => False
      end
    | None => False
    end
  | _ => False
  end.

(** ** The tests pass *)

Lemma DEFAULT_wf : page_size_wf DEFAULT.
Proof. unfold page_size_wf, DEFAULT. simpl. set_solver. Qed.

Definition sample_class : row_class DEFAULT := small_rows _ DEFAULT_wf.

(** The calls of a test are on [i64] keys and small rows. *)
Definition sample_call_ok (c : call) : bool :=
  match c with
  | CallInsert k row | CallUpdate k row =>
    bool_decide (row_ok row) && (row_size row <=? 238) && ((i64_min <=? k) && (k <=? i64_max))
  | CallGet k | CallDelete k => (i64_min <=? k) && (k <=? i64_max)
  | CallScan | CallReopen => true
  end.

Lemma sample_calls_ok cs : forallb sample_call_ok cs = true -> Forall (call_ok sample_class) cs.
Proof.
  rewrite forallb_forall, Forall_forall. intros Hall c Hc%list_elem_of_In. specialize (Hall c Hc).
  assert (Hrow : forall row, bool_decide (row_ok row) && (row_size row <=? 238) = true -> in_class sample_class row).
  { intros row [Hok Hsize]%andb_prop. apply in_small_rows; [by apply bool_decide_eq_true in Hok|lia]. }
  assert (Hkey : forall k, (i64_min <=? k) && (k <=? i64_max) = true -> in_i64 k) by (unfold in_i64; lia).
  destruct c; cbn [sample_call_ok call_ok] in *; try apply andb_prop in Hall as [? ?]; auto using andb_true_intro.
Qed.

(** A small row has no overflow page. *)
Lemma sample_call_pages d c : sample_call_ok c = true -> call_pages (ps := DEFAULT) d c <= 2 * Z.of_nat d + 3.
Proof.
  assert (Hrow : forall row, row_size row <= 238 -> row_pages DEFAULT row = 0).
  { intros row Hsize. unfold row_pages, overflow_pages. pose proof (max_local_range _ DEFAULT_wf).
    rewrite Z.max_l by lia. reflexivity. }
  destruct c as [k row| |k row| | |]; cbn [sample_call_ok call_pages]; unfold write_pages, delete_pages; try lia.
  all: intros [[_ Hsize%Z.leb_le]%andb_prop _]%andb_prop; rewrite Hrow by done; lia.
Qed.

Lemma sample_calls_pages d cs :
  forallb sample_call_ok cs = true -> calls_pages (ps := DEFAULT) d cs <= len cs * (2 * Z.of_nat d + 3).
Proof.
  unfold calls_pages. induction cs as [|c cs IH]; [intros _; unfold len; simpl; lia|].
  cbn [forallb]. intros [Hc%(sample_call_pages d) Hcs%IH]%andb_prop. rewrite fmap_cons, len_cons. cbn [sum]. lia.
Qed.

(** Calls on small rows are answered as a map answers them, on any free path. *)
Lemma small_rows_answers capacity cs :
  1 <= capacity -> files fs !! path = None -> new_faults fs = [] -> 8001 < Z.of_nat fuel ->
  forallb sample_call_ok cs && (len cs <=? 8001) = true ->
  exists w, create_with_capacity path DEFAULT capacity fs = (Ret (db w), disk w) /\
    code_calls fuel path capacity cs w = map_calls cs ∅.
Proof.
  intros Hcap Hnone Hnf Hfuel [Hok Hl%Z.leb_le]%andb_prop.
  pose proof (sample_calls_pages (length cs) _ Hok) as Hpages. fold (len cs) in Hpages.
  pose proof (len_nonneg cs).
  apply (new_database_answers DEFAULT sample_class); [exact DEFAULT_wf|done|done|done|by apply sample_calls_ok|..].
  - unfold len in *. lia.
  - unfold FIRST_DATA_PAGE_ID, u32_max, len in *. nia.
  - unfold u64_max. lia.
Qed.

Lemma script_passes capacity script :
  1 <= capacity -> files fs !! path = None -> new_faults fs = [] -> 8001 < Z.of_nat fuel ->
  forallb sample_call_ok script.*1 && (len script.*1 <=? 8001) = true ->
  map_calls script.*1 ∅ = Ret <$> script.*2 ->
  script_answers capacity script (create_with_capacity path DEFAULT capacity fs).
Proof.
  intros Hcap Hnone Hnf Hfuel Hok Hmap.
  destruct (small_rows_answers capacity _ Hcap Hnone Hnf Hfuel Hok) as (w & Hc & Hrun).
  unfold script_answers. rewrite Hc, <-Hmap, <-Hrun. by destruct w.
Qed.

(** ** The answers of a map to the scripts with loops *)

Lemma map_inserts (f : Z -> Row) cs l : forall m,
  NoDup l -> (forall i, i ∈ l -> m !! i = None) ->
  exists m', (forall i, i ∈ l -> m' !! i = Some (f i)) /\ (forall i, i ∉ l -> m' !! i = m !! i) /\
    map_calls (((fun i => CallInsert i (f i)) <$> l) ++ cs) m = ((fun _ => Ret Done) <$> l) ++ map_calls cs m'.
Proof.
  induction l as [|i l IH]; intros m Hnd Hm; [by exists m; set_solver|]. apply NoDup_cons in Hnd as [Hi Hnd].
  destruct (IH (<[i := f i]> m) Hnd) as (m' & Hin & Hout & Hrun).
  { intros j Hj. rewrite lookup_insert_ne by set_solver. apply Hm. set_solver. }
  exists m'. split_and!.
  - intros j [->|Hj]%elem_of_cons; [|by apply Hin]. rewrite Hout by done. apply lookup_insert_eq.
  - intros j [Hne Hj]%not_elem_of_cons. rewrite Hout by done. by apply lookup_insert_ne.
  - rewrite !fmap_cons. cbn [app map_calls map_call]. rewrite Hm by set_solver. by rewrite Hrun.
Qed.

Lemma calls_add_inserts (f : Z -> Row) l : forall m,
  NoDup l -> (forall i, i ∈ l -> m !! i = None) ->
  calls_add ((fun i => CallInsert i (f i)) <$> l) m = len l.
Proof.
  induction l as [|i l IH]; intros m Hnd Hm; [done|]. apply NoDup_cons in Hnd as [Hi Hnd].
  rewrite fmap_cons, len_cons. cbn [calls_add call_adds map_call]. rewrite Hm by set_solver. cbn [snd].
  rewrite IH; [lia|done|]. intros j Hj. rewrite lookup_insert_ne by set_solver. apply Hm. set_solver.
Qed.

Lemma map_lookups (f : Z -> Row) l m :
  (forall i, i ∈ l -> m !! i = Some (f i)) ->
  map_calls (CallGet <$> l) m = (fun i => Ret (GotRow (Some (f i)))) <$> l.
Proof.
  induction l as [|i l IH]; intros Hm; [done|]. rewrite !fmap_cons. cbn [map_calls map_call].
  rewrite Hm by set_solver. f_equal. apply IH. set_solver.
Qed.

Lemma map_loops n :
  map_calls (inserts n ++ (CallReopen, Done) :: lookups n).*1 ∅ =
    Ret <$> (inserts n ++ (CallReopen, Done) :: lookups n).*2.
Proof.
  rewrite !fmap_app, !fmap_cons. unfold inserts, lookups. rewrite <-!list_fmap_compose. cbn [compose fst snd].
  destruct (map_inserts sample_row (CallReopen :: (CallGet <$> range 0 (Z.to_nat n))) (range 0 (Z.to_nat n)) ∅)
    as (m & Hin & _ & Hrun); [rewrite range_seqZ; apply NoDup_seqZ|done|].
  etrans; [exact Hrun|]. cbn [map_calls map_call]. rewrite (map_lookups sample_row) by done.
  reflexivity.
Qed.

Lemma inserts_grow n :
  calls_add (inserts n).*1 ∅ = len (range 0 (Z.to_nat n)) /\ length (inserts n).*1 = length (range 0 (Z.to_nat n)).
Proof.
  unfold inserts. rewrite <-list_fmap_compose. cbn [compose fst]. split; [|by rewrite length_fmap].
  apply (calls_add_inserts sample_row); [rewrite range_seqZ; apply NoDup_seqZ|done].
Qed.

(** The file after [n] inserts has at least [n] pages. *)
Lemma filled_file n :
  files fs !! path = None -> new_faults fs = [] ->
  forallb sample_call_ok (inserts n).*1 = true -> len (range 0 (Z.to_nat n)) <= 8001 -> 8001 < Z.of_nat fuel ->
  exists w, create_with_capacity path DEFAULT CAPACITY_PAGES fs = (Ret (db w), disk w) /\
    let filled := after_calls fuel path CAPACITY_PAGES (inserts n).*1 w in
    match files (drop_database (db filled) (disk filled)) !! path with
    | Some f => META_REGION_LEN + len (range 0 (Z.to_nat n)) * ps_bytes DEFAULT <= len (data f)
    | None => False
    end.
Proof.
  intros Hnone Hnf Hok Hl Hfuel. destruct (inserts_grow n) as [Hadd Hlen].
  pose proof (sample_calls_pages (length (inserts n).*1) _ Hok) as Hpages.
  unfold len in Hpages, Hl, Hadd. rewrite Hlen in Hpages.
  destruct (new_database_file DEFAULT sample_class path CAPACITY_PAGES fs (inserts n).*1 fuel DEFAULT_wf)
    as (w & Hc & Hcount & _ & Hfile & _ & Hps & Hpath).
  { vm_compute. discriminate. }
  { done. }
  { done. }
  { by apply sample_calls_ok. }
  { lia. }
  { rewrite Hlen. unfold FIRST_DATA_PAGE_ID, u32_max in *. nia. }
  { unfold len, u64_max. rewrite Hlen. lia. }
  exists w. split; [exact Hc|]. intros filled. unfold drop_database. fold filled in Hcount, Hfile, Hps, Hpath.
  rewrite Hpath. unfold close. cbn [files]. rewrite lookup_insert_eq.
  rewrite file_offset_data, Hps in Hfile by (rewrite Hadd in Hcount; unfold FIRST_DATA_PAGE_ID in *; lia).
  rewrite Hadd in Hcount. change (ps_bytes DEFAULT) with 4096 in *. unfold len at 1. lia.
Qed.

(** The last test: the rows are there and the file has grown past the pool. *)
Lemma larger_than_capacity_passes :
  files fs !! path = None -> new_faults fs = [] -> 8001 < Z.of_nat fuel ->
  buffer_pool_handles_a_database_larger_than_its_capacity.
Proof.
  intros Hnone Hnf Hfuel. assert (Hcap : 1 <= CAPACITY_PAGES) by (vm_compute; discriminate).
  assert (Hall : script_answers CAPACITY_PAGES (inserts ROW_COUNT ++ (CallReopen, Done) :: lookups ROW_COUNT)
    (create_with_capacity path DEFAULT CAPACITY_PAGES fs)).
  { apply script_passes; [done|done|done|done|vm_compute; reflexivity|apply map_loops]. }
  destruct (filled_file ROW_COUNT Hnone Hnf) as (w & Hc & Hlen); [vm_compute; reflexivity|vm_compute; discriminate|lia|].
  assert (Hrows : len (range 0 (Z.to_nat ROW_COUNT)) = 4000) by (vm_compute; reflexivity). rewrite Hrows in Hlen.
  assert (Hbig : CAPACITY_PAGES * ps_bytes DEFAULT * 4 < META_REGION_LEN + 4000 * ps_bytes DEFAULT) by done.
  revert Hall Hlen Hbig. unfold buffer_pool_handles_a_database_larger_than_its_capacity, script_answers. rewrite Hc.
  generalize (inserts ROW_COUNT) (lookups ROW_COUNT) CAPACITY_PAGES. clear. intros A L cap.
  replace (mkWorld (db w) (disk w)) with w by (by destruct w). rewrite !fmap_app, !fmap_cons. cbn [fst snd].
  rewrite code_calls_app. intros [Hi Hl]%app_inj_1 Hlen Hbig; [|by rewrite length_code_calls, !length_fmap].
  split_and!; [exact Hi| |exact Hl]. cbv zeta in *. destruct (files _ !! path); [lia|done].
Qed.

(** ** A flipped byte is detected *)

(** [^= 0xFF] on a byte *)
Definition flipped (x : byte) : byte := Z_byte (Z.lxor (byte_Z x) 255).

(** The content of a page hashes to something else when its first byte is flipped. *)
Definition flip_is_seen (b : bytes) : Prop :=
  match content b with
  | x :: l => xxh3_64 (flipped x :: l) <> xxh3_64 (x :: l)
  | [] => True
  end.

(** The page with its first byte flipped does not verify. *)
Lemma flipped_page_refused x l :
  flip_is_seen (x :: l) -> 9 <= len (x :: l) -> verify_checksum (x :: l) = Ret tt ->
  exists expected actual, verify_checksum (flipped x :: l) = Throw (expected, actual).
Proof.
  intros Hsees Hl Hv. assert (Hl' : len (flipped x :: l) = len (x :: l)) by done.
  destruct (verify_checksum (flipped x :: l)) as [[]|[e a]|p|] eqn:Hv'; [|eauto|..];
    [|exfalso; revert Hv'; unfold verify_checksum; by destruct (_ =? _)..].
  apply verify_checksum_ret in Hv, Hv'; [|lia..].
  assert (Hc : forall y, content (y :: l) = y :: take (length l - 8) l).
  { intros y. unfold content. cbn [length]. rewrite len_cons in Hl. unfold len in Hl.
    by replace (S (length l) - 8)%nat with (S (length l - 8)) by lia. }
  rewrite !Hc in Hv, Hv'. cbn [app] in Hv, Hv'. injection Hv as Hv. injection Hv' as Hv'. rewrite Hv in Hv' at 1.
  apply app_inv_head in Hv'. unfold flip_is_seen in Hsees. rewrite Hc in Hsees. destruct Hsees.
  rewrite <-(from_be8 (xxh3_64 (flipped x :: _))), <-(from_be8 (xxh3_64 (x :: _))) by apply xxh3_64_range.
  by rewrite Hv'.
Qed.

(** One byte written at the start of what is read. *)
Lemma slice_first_byte d o n x l y :
  slice d o n = Some (x :: l) -> slice (apply_write (WriteAt o [y]) d) o n = Some (y :: l).
Proof.
  intros (Ho & Hn & Hlen & Hl & Hi)%slice_spec. apply slice_spec.
  rewrite len_apply_write_at by done. change (len [y]) with 1 in *.
  assert (0 < n) by (rewrite <-Hl, len_cons; pose proof (len_nonneg l); lia).
  split_and!; [done|done|lia|by rewrite len_cons in Hl |- *|].
  intros i Hin. rewrite apply_write_spec by done. cbn [length]. destruct i as [|i].
  - rewrite decide_True by lia. by rewrite Nat.add_0_r, Nat.sub_diag.
  - rewrite decide_False by lia. rewrite lookup_app_l by (unfold len in *; lia).
    by rewrite <-Hi.
Qed.

(** A lookup in a tree whose root page cannot be read. *)
Lemma get_root_refused n key (s : BufferPool) e :
  pool_root_page_id s <> EMPTY_TREE_ROOT -> BufferPool.get (pool_root_page_id s) s = (Throw e, s) ->
  BTree.get (S n) key s = (Throw e, s).
Proof.
  intros Hroot He. unfold BTree.get, get_self, mbind, M_bind at 1. rewrite (proj2 (Z.eqb_neq _ _) Hroot).
  cbn [get_loop]. by apply bind_throw.
Qed.

(** A database of one row, as the test makes it: its leaf is page 2. *)
Lemma one_row_database capacity row :
  1 <= capacity -> files fs !! path = None -> new_faults fs = [] -> sample_call_ok (CallInsert 1 row) = true ->
  exists d0 d fs1 a, create_with_capacity path DEFAULT capacity fs = (Ret d0, fs1) /\
    (Database.insert fuel 1 row d0 = (Ret tt, d)) /\
    pool_inv a (pool d) /\ pool_saved (pool d) /\ faults (file (pager (pool d))) = [] /\
    Pager.path (pager (pool d)) = path /\ page_size (pager (pool d)) = DEFAULT /\
    root_page_id (pager (pool d)) = FIRST_DATA_PAGE_ID /\ is_Some (disk_page (pager (pool d)) FIRST_DATA_PAGE_ID).
Proof.
  intros Hcap Hnone Hnf Hrow.
  destruct (fresh_pool_ok path DEFAULT capacity fs DEFAULT_wf Hcap Hnone Hnf)
    as (p & s & Hc & Hs & _ & Hinv & _ & Hf & Hps & Hroot & Hnext & Htx & Hpath).
  destruct (pool_ok_sound s (ex_intro _ _ Hinv) Hf) as (a & Ha & Hsound & Hlim).
  pose proof (sample_calls_ok [CallInsert 1 row]) as Hcls. cbn [forallb] in Hcls. rewrite Hrow in Hcls.
  specialize (Hcls eq_refl). apply Forall_cons in Hcls as [[Hk Hclass] _].
  assert (Hpages : row_pages DEFAULT row = 0).
  { apply andb_prop in Hrow as [[_ Hsize%Z.leb_le]%andb_prop _]. unfold row_pages, overflow_pages.
    pose proof (max_local_range _ DEFAULT_wf). rewrite Z.max_l by lia. reflexivity. }
  change (next_page_id s = FIRST_DATA_PAGE_ID) in Hnext. change (txn_id (pager s) = 0) in Htx.
  pose proof (insert_empty_ok (H1 := pool_run a) sample_class 1 row s Ha Hps Hroot Hk Hclass) as Hi.
  unfold write_pages in Hi. rewrite Hpages in Hi. cbn [store_next store_txn BufferPool_StoreModel store_limit pool_run] in Hi.
  rewrite Hnext, Htx, Hlim in Hi.
  destruct (write_returns (H1 := pool_run a) _ _ _ _ _ _ Hsound (Hi ltac:(unfold FIRST_DATA_PAGE_ID, u32_max; lia)
    ltac:(unfold u64_max; lia) fuel)) as (r & s1 & Hrun & Hr & Hcm & Hroot1).
  destruct Hcm as [Hn1 _ Hsaved1 Hpath1 _ Hdense1 Hrel1].
  cbn [store_next store_txn store_path store_reliable BufferPool_StoreModel] in Hn1, Hpath1, Hrel1.
  destruct (rp_ok _ _ _ _ Hr) as [a1 Ha1].
  exists (mkDatabase s), (mkDatabase s1), (close path (file p) fs), a1. cbn [pool].
  split_and!; [| |exact Ha1|exact Hsaved1|by apply Hrel1|by rewrite Hpath1|apply (rp_page_size _ _ _ _ Hr)|done|].
  - unfold create_with_capacity. rewrite (bind_ret _ _ _ _ _ Hc). unfold lift, mbind, M_bind. by rewrite Hs.
  - unfold Database.insert, on_pool, zoom, mbind, M_bind. cbn [pool]. by rewrite Hrun.
  - destruct Hsaved1 as (Hd1 & Hcount1 & Hset1).
    destruct (dense_file s1 (rp_ok _ _ _ _ Hr)) as [Hdisk _]; [by split_and!|apply Hdense1; intros id Hid; simpl in Hid; lia|].
    apply Hdisk. lia.
Qed.

(** A database whose root page has a flipped byte in its file opens, and a lookup reports the
    page. *)
Lemma flipped_root_detected d fs0 a :
  match slice (data (file (pager (pool d)))) 8192 4096 with Some b => flip_is_seen b | None => True end ->
  (0 < fuel)%nat -> pool_inv a (pool d) -> pool_saved (pool d) -> faults (file (pager (pool d))) = [] ->
  Pager.path (pager (pool d)) = path -> page_size (pager (pool d)) = DEFAULT ->
  root_page_id (pager (pool d)) = FIRST_DATA_PAGE_ID -> is_Some (disk_page (pager (pool d)) FIRST_DATA_PAGE_ID) ->
  exists fs' d', flip_byte 8192 (drop_database d fs0) = Some fs' /\ Database.open path fs' = Ret d' /\
    exists expected actual, (get fuel 1 d').1 = Throw (Fatal (Corruption FIRST_DATA_PAGE_ID expected actual)).
Proof.
  intros Hsees Hfuel Hinv (_ & _ & Hset) Hf Hpath Hps Hroot [c Hc]. set (p := pager (pool d)) in *.
  pose proof (pi_pager _ _ Hinv) as Hp. fold p in Hp. pose proof (pager_len Hp) as Hl.
  assert (Hoff : file_offset p FIRST_DATA_PAGE_ID = 8192) by (unfold file_offset; by rewrite Hps).
  unfold disk_page in Hc. rewrite Hoff, Hps in Hc. change (ps_bytes DEFAULT) with 4096 in Hc.
  destruct (slice (data (file p)) 8192 4096) as [b|] eqn:Hb; [|done].
  cbn [mbind option_bind] in Hc. destruct (verify_checksum b) as [[]| | |] eqn:Hv; [|discriminate Hc..].
  pose proof (slice_len _ _ _ _ Hb) as Hlb. destruct b as [|x l]; [done|].
  destruct (flipped_page_refused x l Hsees ltac:(lia) Hv) as (expected & actual & Hbad).
  assert (Hx : data (file p) !! Z.to_nat 8192 = Some x).
  { apply slice_spec in Hb as (_ & _ & _ & _ & Hi). specialize (Hi O ltac:(lia)). by rewrite Nat.add_0_r in Hi. }
  set (f' := mkFile (apply_write (WriteAt 8192 [flipped x]) (data (file p))) (durable (file p))
    (pending (file p) ++ [WriteAt 8192 [flipped x]]) [] (asked (file p) ++ [(8192, [flipped x])])).
  assert (Hslots : forall i, i = 0 \/ i = 1 -> slot_at f' i = slot_at (file p) i).
  { intros i Hi. apply (slot_at_write _ _ 8192 [flipped x]); [done|lia|unfold META_SLOT_LEN; lia|unfold META_SLOT_LEN; lia|].
    unfold META_REGION_LEN, META_SLOT_LEN in *. lia. }
  assert (Hw : write_all_at [flipped x] 8192 (file p) = (Ret tt, f')).
  { clear - Hf. destruct (file p). simpl in Hf. rewrite Hf. reflexivity. }
  set (q := opened f' path (active_slot p) (meta_of p)).
  exists (close path f' (drop_database d fs0)), (mkDatabase (mkPool q DEFAULT_BUFFER_POOL_CAPACITY ∅ ∅ [] (page_count q))).
  pose proof (pager_slot Hp) as Hslot. split_and!.
  - unfold flip_byte, drop_database. fold p. rewrite Hpath. cbn [close files]. rewrite lookup_insert_eq.
    cbn [mbind option_bind]. rewrite Hx. cbn [mbind option_bind]. change (Z_byte (Z.lxor (byte_Z x) 255)) with (flipped x). by rewrite Hw.
  - unfold Database.open, open_with_capacity.
    rewrite (open_newest path _ f' (active_slot p) (meta_of p)); [reflexivity|apply lookup_insert_eq|done| |exact Hslot| |].
    + unfold f'. cbn [data]. rewrite len_apply_write_at by lia. unfold META_REGION_LEN in *. lia.
    + rewrite Hslots by done. apply (pager_active Hp).
    + intros m. rewrite Hslots by lia. apply (st_other _ Hset).
  - exists expected, actual. destruct fuel as [|n]; [lia|]. unfold get, on_pool, zoom. cbn [pool].
    rewrite (get_root_refused n 1 _ (Fatal (Corruption FIRST_DATA_PAGE_ID expected actual))); [done|simpl; by rewrite Hroot|].
    cbn [pool_root_page_id BufferPool_PageStore pager q opened root_page_id]. simpl. rewrite Hroot.
    apply get_uncached_refused; [done|]. cbn [pager]. rewrite read_data_page_exact; [|done|by cbn [q opened page_size meta_of m_page_size]; rewrite Hps; apply DEFAULT_wf].
    assert (Hqps : page_size q = DEFAULT) by exact Hps.
    assert (Hqoff : file_offset q FIRST_DATA_PAGE_ID = 8192) by (unfold file_offset; by rewrite Hqps).
    rewrite Hqoff, Hqps. change (data (file q)) with (apply_write (WriteAt 8192 [flipped x]) (data (file p))).
    change (ps_bytes DEFAULT) with 4096. rewrite (slice_first_byte _ _ _ x l), Hbad by done. done.
Qed.

(** The hash function sees the flipped byte in the page that the test writes at 8192. *)
Definition test_flip_is_seen : Prop :=
  match create path DEFAULT fs with
  | (Ret d, fs) =>
    let w := (code_call fuel path DEFAULT_BUFFER_POOL_CAPACITY (CallInsert 1 (sample_row 1)) (mkWorld d fs)).2 in
    match slice (data (file (pager (pool (db w))))) 8192 4096 with Some b => flip_is_seen b | None => True end
  | _ => True
  end.

(** The test of corruption *)
Lemma corruption_test_passes :
  files fs !! path = None -> new_faults fs = [] -> (0 < fuel)%nat -> test_flip_is_seen ->
  corruption_is_detected_via_checksum.
Proof.
  intros Hnone Hnf Hfuel Hseen.
  destruct (one_row_database DEFAULT_BUFFER_POOL_CAPACITY (sample_row 1))
    as (d0 & d & fs1 & a & Hc & Hi & Hinv & Hsaved & Hf & Hpath & Hps & Hroot & Hdisk);
    [vm_compute; discriminate|done|done|vm_compute; reflexivity|].
  assert (Hcall : code_call fuel path DEFAULT_BUFFER_POOL_CAPACITY (CallInsert 1 (sample_row 1)) (mkWorld d0 fs1) =
    (Ret Done, mkWorld d fs1)).
  { cbn [code_call]. unfold on_db, answer_with. cbn [db]. by rewrite Hi. }
  unfold test_flip_is_seen, create in Hseen. rewrite Hc, Hcall in Hseen. cbn [snd db] in Hseen.
  destruct (flipped_root_detected d fs1 a) as (fs2 & d2 & Hflip & Hopen & expected & actual & Hget); [done..|].
  unfold corruption_is_detected_via_checksum, create. rewrite Hc, Hcall. split; [done|].
  cbn [db disk]. by rewrite Hflip, Hopen, Hget.
Qed.

(** C39: The acceptance tests of the first phase pass for any hash function, any order of
    iteration and either build: creating, reading, updating and deleting rows; 50 rows that
    survive a restart; 4000 rows through a pool of 8 pages, in a file of many more; and, for
    a hash that does not give the page of the test the checksum it has when its first byte
    is flipped, the flipped byte that the next lookup reports as corruption. *)
Theorem acceptance_tests_pass :
  files fs !! path = None -> new_faults fs = [] -> 8001 < Z.of_nat fuel ->
  open_a_file_and_crud_rows_by_integer_key /\ survives_crash_and_reopen /\
  buffer_pool_handles_a_database_larger_than_its_capacity /\
  (test_flip_is_seen -> corruption_is_detected_via_checksum).
Proof.
  intros Hnone Hnf Hfuel.
  split_and!; [| |by apply larger_than_capacity_passes|intros; apply corruption_test_passes; [done|done|lia|done]];
    (apply script_passes; [vm_compute; discriminate|exact Hnone|exact Hnf|exact Hfuel|vm_compute; reflexivity|]).
  - vm_compute. reflexivity.
  - apply map_loops.
Qed.
End tests.

(** The four tests with a concrete hash function, which sees the flipped byte *)
Lemma acceptance_tests_pass_witness :
  let _ := sum_xxh3 in let _ := Build_BuildProfile false in let _ := elements_order in
  let fuel := Z.to_nat 8002 in let fs := mkFileSystem ∅ [] in
  open_a_file_and_crud_rows_by_integer_key "db" fuel fs /\ survives_crash_and_reopen "db" fuel fs /\
  buffer_pool_handles_a_database_larger_than_its_capacity "db" fuel fs /\
  corruption_is_detected_via_checksum "db" fuel fs.
Proof.
  intros x b o fuel fs.
  destruct (acceptance_tests_pass "db" fuel fs eq_refl eq_refl) as (Ha & Hb & Hc & Hd);
    [unfold fuel; rewrite Z2Nat.id by lia; lia|].
  split; [exact Ha|split; [exact Hb|split; [exact Hc|apply Hd]]]. vm_compute. discriminate.
Defined.
