(* ===== verification/LexisTests.v ===== *)
(** * The unit tests of [crates/lexis]

    The modules [tests] of [types.rs], [identifier.rs], [value.rs], [schema.rs] and
    [ast.rs]. A property test of [proptest] is a test with an argument, proved for every
    value of its type. *)

From Stdlib Require Import SpecFloat.
From S2P Require Import Prelude Errors Codec Utf8 Lexis Page Testing.

(** ** types.rs *)
Module TypesTests.
Import Types.

Definition is_incomparable_types (e : LexisError) : bool :=
  match e with IncomparableTypes _ _ => true | _ => false end.

Definition check_comparable_accepts_identical_types : test := assert (is_ret (check_comparable Text Text)).

Definition check_comparable_accepts_integer_real_either_direction : test :=
  assert (is_ret (check_comparable Integer Real)) ;;
  assert (is_ret (check_comparable Real Integer)).

Definition check_comparable_rejects_integer_text : test :=
  err ← unwrap_err (check_comparable Integer Text);
  assert (is_incomparable_types err).

Definition check_comparable_rejects_boolean_integer : test :=
  err ← unwrap_err (check_comparable Boolean Integer);
  assert (is_incomparable_types err).

Definition display_matches_sql_keyword : test :=
  assert (String.eqb (fmt Integer) "INTEGER") ;;
  assert (String.eqb (fmt Real) "REAL") ;;
  assert (String.eqb (fmt Text) "TEXT") ;;
  assert (String.eqb (fmt Blob) "BLOB") ;;
  assert (String.eqb (fmt Boolean) "BOOLEAN") ;;
  assert (String.eqb (fmt Datetime) "DATETIME").

(** The property tests *)
Definition check_comparable_is_symmetric (left right : SqlType) : test :=
  assert (Bool.eqb (is_ret (check_comparable left right)) (is_ret (check_comparable right left))).

Definition check_comparable_always_accepts_identical_types (sql_type : SqlType) : test :=
  assert (Bool.eqb (is_ret (check_comparable sql_type sql_type)) true).

Definition all : list test :=
  [check_comparable_accepts_identical_types; check_comparable_accepts_integer_real_either_direction;
   check_comparable_rejects_integer_text; check_comparable_rejects_boolean_integer; display_matches_sql_keyword].
End TypesTests.

(** ** identifier.rs *)
Module IdentifierTests.

Definition is_empty_identifier (kind : string) (e : LexisError) : bool :=
  match e with EmptyIdentifier k => String.eqb k kind | _ => false end.

Definition column_name_accepts_non_empty : test :=
  name ← unwrap (column_try_from "id");
  assert (String.eqb (column_as_str name) "id").

Definition column_name_rejects_empty : test :=
  err ← unwrap_err (column_try_from "");
  assert (is_empty_identifier "column" err).

Definition table_name_accepts_non_empty : test :=
  name ← unwrap (table_try_from "media_items");
  assert (String.eqb (table_as_str name) "media_items").

Definition table_name_rejects_empty : test :=
  err ← unwrap_err (table_try_from "");
  assert (is_empty_identifier "table" err).

Definition display_matches_as_str : test :=
  column ← unwrap (column_try_from "added_at");
  assert (String.eqb (column_fmt column) "added_at") ;;
  table ← unwrap (table_try_from "media_items");
  assert (String.eqb (table_fmt table) "media_items").

(** [takes_table_name], which only type checks *)
Definition takes_table_name (_ : TableName) : outcome failure unit := Ret tt.

Definition column_name_and_table_name_are_distinct_types : test :=
  column ← unwrap (column_try_from "id");
  table ← unwrap (table_try_from "id");
  takes_table_name table ;;
  assert (String.eqb (column_as_str column) (table_as_str table)).

Definition all : list test :=
  [column_name_accepts_non_empty; column_name_rejects_empty; table_name_accepts_non_empty;
   table_name_rejects_empty; display_matches_as_str; column_name_and_table_name_are_distinct_types].
End IdentifierTests.

(** ** value.rs *)
Module ValueTests.
Import Values.

(** The number an [f64] stands for, to compute with [f64]s as the tests do. *)
Definition f64_number (b : f64) : spec_float :=
  let s := 2 ^ 63 <=? b in
  let e := b / 2 ^ 52 mod 2 ^ 11 in
  let m := b mod 2 ^ 52 in
  if e =? 0 then
    match m with Zpos m => S754_finite s m (-1074) | _ => S754_zero s end
  else if e =? 2047 then
    if m =? 0 then S754_infinity s else S754_nan
  else S754_finite s (Z.to_pos (2 ^ 52 + m)) (e - 1075).

(** [(a - b).abs() < f64::EPSILON] *)
Definition EPSILON : f64 := 0x3CB0000000000000.
Definition close_to (a b : f64) : bool :=
  SFltb (SFabs (SFsub 53 1024 (f64_number a) (f64_number b))) (f64_number EPSILON).

Definition f64_3_5 : f64 := 0x400C000000000000.
Definition f64_1 : f64 := 0x3FF0000000000000.
Definition INFINITY : f64 := 0x7FF0000000000000.
Definition NAN : f64 := 0x7FF8000000000000.

Definition is_nan_real (e : LexisError) : bool :=
  match e with NanReal _ => true | _ => false end.

Definition has_type (v : Value) (t : option SqlType) : bool := bool_decide (sql_type v = t).

Definition real_value_accepts_finite : test :=
  real ← unwrap (real_try_from f64_3_5);
  assert (close_to (real_value_get real) f64_3_5).

Definition real_value_accepts_infinity : test := assert (is_ret (real_try_from INFINITY)).

Definition real_value_rejects_nan : test :=
  err ← unwrap_err (real_try_from NAN);
  assert (is_nan_real err).

Definition value_try_from_f64_rejects_nan : test :=
  err ← unwrap_err (value_try_from NAN);
  assert (is_nan_real err).

Definition datetime_value_round_trips_through_i64 : test :=
  let dt := datetime_from 1700000000000000000 in
  assert (i64_from dt =? 1700000000000000000).

Definition sql_type_maps_each_variant : test :=
  assert (has_type (VInteger 1) (Some Integer)) ;;
  real ← unwrap (real_try_from f64_1);
  assert (has_type (VReal real) (Some Real)) ;;
  assert (has_type (VText (str_bytes "x")) (Some Text)) ;;
  assert (has_type (VBlob [Z_byte 1]) (Some Blob)) ;;
  assert (has_type (VBoolean true) (Some Boolean)) ;;
  assert (has_type (VDatetime (datetime_from 0)) (Some Datetime)).

Definition null_has_no_sql_type : test :=
  assert (has_type VNull None) ;;
  assert (is_null VNull).

Definition non_null_values_report_is_null_false : test := assert (negb (is_null (VInteger 0))).

(** The property tests; [to_bits] of an [f64] is itself here. *)
Definition real_value_accepts_iff_not_nan (raw : f64) : test :=
  let result := real_try_from raw in
  assert (Bool.eqb (is_ret result) (negb (is_nan raw))).

Definition real_value_round_trips_non_nan (raw : f64) : test :=
  real ← unwrap (real_try_from raw);
  assert (real_value_get real =? raw).

Definition datetime_value_round_trips_any_i64 (raw : Z) : test :=
  assert (i64_from (datetime_from raw) =? raw).

Definition all : list test :=
  [real_value_accepts_finite; real_value_accepts_infinity; real_value_rejects_nan;
   value_try_from_f64_rejects_nan; datetime_value_round_trips_through_i64; sql_type_maps_each_variant;
   null_has_no_sql_type; non_null_values_report_is_null_false].
End ValueTests.

(** ** schema.rs *)
Module SchemaTests.
Import Schema.

Definition id_column : outcome failure ColumnDef :=
  id ← unwrap (column_try_from "id");
  unwrap (column_new id Integer NotNull None).

Definition is_error (matching : LexisError -> bool) {A} (o : outcome LexisError A) : test :=
  err ← unwrap_err o; assert (matching err).

Definition text_max_len_accepts_positive : test :=
  bound ← unwrap (text_max_len_try_from 255);
  assert (text_max_len_get bound =? 255).

Definition text_max_len_rejects_zero : test :=
  is_error (fun e => match e with TextMaxLenZero => true | _ => false end) (text_max_len_try_from 0).

Definition column_def_rejects_max_len_on_non_text : test :=
  bound ← unwrap (text_max_len_try_from 10);
  id ← unwrap (column_try_from "id");
  is_error (fun e => match e with TextMaxLenOnNonText _ => true | _ => false end)
    (column_new id Integer NotNull (Some bound)).

Definition column_def_accepts_max_len_on_text : test :=
  bound ← unwrap (text_max_len_try_from 255);
  title ← unwrap (column_try_from "title");
  column ← unwrap (column_new title Text Nullable (Some bound));
  assert (bool_decide (text_max_len column = Some bound)).

Definition check_value_rejects_null_on_not_null_column : test :=
  column ← id_column;
  is_error (fun e => match e with NullNotAllowed _ => true | _ => false end) (check_value column VNull).

Definition check_value_accepts_null_on_nullable_column : test :=
  note ← unwrap (column_try_from "note");
  column ← unwrap (column_new note Text Nullable None);
  assert (is_ret (check_value column VNull)).

Definition check_value_rejects_type_mismatch : test :=
  column ← id_column;
  is_error (fun e => match e with TypeMismatch _ Integer Text => true | _ => false end)
    (check_value column (VText (str_bytes "nope"))).

Definition check_value_accepts_matching_type : test :=
  column ← id_column;
  assert (is_ret (check_value column (VInteger 42))).

Definition check_value_rejects_text_over_max_len : test :=
  bound ← unwrap (text_max_len_try_from 3);
  code ← unwrap (column_try_from "code");
  column ← unwrap (column_new code Text NotNull (Some bound));
  is_error (fun e => match e with TextTooLong _ _ _ => true | _ => false end)
    (check_value column (VText (str_bytes "abcd"))).

(** U+1F600, twice *)
Definition two_faces : bytes := Z_byte <$> [0xF0; 0x9F; 0x98; 0x80; 0xF0; 0x9F; 0x98; 0x80].

Definition check_value_counts_characters_not_bytes : test :=
  bound ← unwrap (text_max_len_try_from 2);
  code ← unwrap (column_try_from "code");
  column ← unwrap (column_new code Text NotNull (Some bound));
  assert (is_ret (check_value column (VText two_faces))).

Definition table_def_rejects_empty_columns : test :=
  t ← unwrap (table_try_from "t");
  is_error (fun e => match e with EmptyColumnList _ => true | _ => false end) (table_new t []).

Definition table_def_rejects_duplicate_column_names : test :=
  t ← unwrap (table_try_from "t");
  a ← id_column; b ← id_column;
  is_error (fun e => match e with DuplicateColumn _ _ => true | _ => false end) (table_new t [a; b]).

Definition table_def_accepts_distinct_columns_and_looks_up_by_name : test :=
  title ← unwrap (column_try_from "title");
  title ← unwrap (column_new title Text Nullable None);
  t ← unwrap (table_try_from "t");
  id ← id_column;
  table ← unwrap (table_new t [id; title]);
  assert (len (columns table) =? 2) ;;
  assert (bool_decide (sql_type <$> column table "title" = Some Text)) ;;
  assert (negb (bool_decide (is_Some (column table "missing")))).

Definition all : list test :=
  [text_max_len_accepts_positive; text_max_len_rejects_zero; column_def_rejects_max_len_on_non_text;
   column_def_accepts_max_len_on_text; check_value_rejects_null_on_not_null_column;
   check_value_accepts_null_on_nullable_column; check_value_rejects_type_mismatch;
   check_value_accepts_matching_type; check_value_rejects_text_over_max_len;
   check_value_counts_characters_not_bytes; table_def_rejects_empty_columns;
   table_def_rejects_duplicate_column_names; table_def_accepts_distinct_columns_and_looks_up_by_name].
End SchemaTests.

(** ** ast.rs *)
Module AstTests.
Import Ast.

Definition literal_wraps_a_value : test :=
  let expr := Literal (VInteger 1) in
  assert (expr_eq expr (Literal (VInteger 1))).

Definition binary_op_nests_boxed_operands : test :=
  id ← unwrap (column_try_from "id");
  let expr := BinaryOp Eq (Column id) (Literal (VInteger 1)) in
  match expr with
  | BinaryOp op _ _ => assert (bool_decide (op = Eq))
  | _ => Throw TestFailed
  end.

Definition cast_carries_target_type : test :=
  id ← unwrap (column_try_from "id");
  let expr := Cast (Column id) Text in
  match expr with
  | Cast _ target => assert (bool_decide (target = Text))
  | _ => Throw TestFailed
  end.

Definition is_null_and_is_not_null_wrap_one_operand : test :=
  let column := (id ← unwrap (column_try_from "id"); Ret (Column id)) in
  l ← column; r ← column;
  assert (expr_eq (IsNull l) (IsNull r)) ;;
  a ← column; b ← column;
  assert (negb (expr_eq (IsNull a) (IsNotNull b))).

Definition all : list test :=
  [literal_wraps_a_value; binary_op_nests_boxed_operands; cast_carries_target_type;
   is_null_and_is_not_null_wrap_one_operand].
End AstTests.

(** ** Every test passes *)

Lemma unwrap_ret {E A} (o : outcome E A) a : o = Ret a -> unwrap o = Ret a.
Proof. by intros ->. Qed.

(** Every unit test of [lexis] passes, its property tests on every value. *)
Theorem lexis_tests_pass :
  Forall passes (TypesTests.all ++ IdentifierTests.all ++ ValueTests.all ++ SchemaTests.all ++ AstTests.all) /\
  (forall l r, passes (TypesTests.check_comparable_is_symmetric l r)) /\
  (forall t, passes (TypesTests.check_comparable_always_accepts_identical_types t)) /\
  (forall raw, passes (ValueTests.real_value_accepts_iff_not_nan raw)) /\
  (forall raw, is_nan raw = false -> passes (ValueTests.real_value_round_trips_non_nan raw)) /\
  (forall raw, passes (ValueTests.datetime_value_round_trips_any_i64 raw)).
Proof.
  unfold passes. split_and!.
  - repeat (apply Forall_cons; split; [vm_compute; reflexivity|]). constructor.
  - intros [] []; reflexivity.
  - intros []; reflexivity.
  - intros raw. unfold ValueTests.real_value_accepts_iff_not_nan, Values.real_try_from, ensure.
    by destruct (is_nan raw).
  - intros raw Hraw. unfold ValueTests.real_value_round_trips_non_nan, Values.real_try_from, ensure. rewrite Hraw.
    cbn. unfold assert, ensure, Values.real_value_get. by rewrite Z.eqb_refl.
  - intros raw. unfold ValueTests.datetime_value_round_trips_any_i64, assert, ensure. cbn. by rewrite Z.eqb_refl.
Qed.
