(* ===== verification/PinaxTests.v ===== *)
(** * The unit tests of [crates/pinax], below the tree

    The modules [tests] of [error.rs], [codec.rs], [page.rs], [row.rs], [pager.rs] and
    [buffer_pool.rs]. *)

From S2P Require Import Prelude Errors ErrorTexts Codec Lexis Row Page Disk Pager BufferPool Testing.

(** ** error.rs *)
Module ErrorTests.
Section tests.
Context `{StdFormat}.

Definition permanent_display_wraps_source : test :=
  let err := Permanent (KeyNotFound 7) in
  assert (String.eqb (display err) "key 7 does not exist").

Definition fatal_display_wraps_source : test :=
  let err := Fatal (Corruption 3 1 2) in
  assert (bool_decide (is_Some (String.index 0 "page 3 failed checksum" (display err)))).

Definition all : list test := [permanent_display_wraps_source; fatal_display_wraps_source].
End tests.
End ErrorTests.

(** ** codec.rs *)
Module CodecTests.

Definition is_buffer_bounds (e : PinaxError) : bool :=
  match e with Fatal (BufferBounds _ _ _) => true | _ => false end.

Definition u16_round_trips : test :=
  let buf := zeros 8 in
  buf ← unwrap (write_u16 buf 2 0xABCD);
  v ← unwrap (read_u16 buf 2);
  assert (v =? 0xABCD).

Definition u32_round_trips : test :=
  let buf := zeros 8 in
  buf ← unwrap (write_u32 buf 0 0xDEADBEEF);
  v ← unwrap (read_u32 buf 0);
  assert (v =? 0xDEADBEEF).

Definition u64_round_trips : test :=
  let buf := zeros 8 in
  buf ← unwrap (write_u64 buf 0 0x0123456789ABCDEF);
  v ← unwrap (read_u64 buf 0);
  assert (v =? 0x0123456789ABCDEF).

Definition i64_round_trips_negative : test :=
  let buf := [] ++ be_bytes 8 (-42) in
  v ← unwrap (read_i64 buf 0);
  assert (v =? -42).

Definition read_out_of_bounds_errors : test :=
  let buf := zeros 4 in
  err ← unwrap_err (read_u64 buf 0);
  assert (is_buffer_bounds err).

Definition write_out_of_bounds_errors : test :=
  let buf := zeros 4 in
  err ← unwrap_err (write_u32 buf 2 1);
  assert (is_buffer_bounds err).

Definition u8_round_trips : test :=
  let buf := zeros 2 in
  buf ← unwrap (write_u8 buf 1 7);
  v ← unwrap (read_u8 buf 1);
  assert (v =? 7).

Definition all : list test :=
  [u16_round_trips; u32_round_trips; u64_round_trips; i64_round_trips_negative;
   read_out_of_bounds_errors; write_out_of_bounds_errors; u8_round_trips].
End CodecTests.

(** ** page.rs *)
Module PageTests.

Definition page_size_accepts_all_locked_values : test :=
  foldM (fun _ value => ps ← unwrap (page_size_try_from value); assert (page_bytes ps =? value))
    tt [4096; 8192; 16384; 32768; 65536].

Definition page_size_rejects_non_power_of_two : test :=
  err ← unwrap_err (page_size_try_from 5000);
  assert (match err with Permanent (InvalidPageSize _) => true | _ => false end).

Definition page_size_rejects_below_minimum : test := assert (negb (is_ret (page_size_try_from 512))).
Definition page_size_rejects_above_maximum : test := assert (negb (is_ret (page_size_try_from 131072))).
Definition default_is_4096 : test := assert (page_bytes default_page_size =? 4096).

Definition max_local_matches_decision_2_formula : test :=
  let page_size := DEFAULT in
  assert (usable_space page_size =? 4096 - 8) ;;
  assert (max_local page_size =? 4096 - 8 - 35).

(** [*byte ^= 0xFF], where there is a byte *)
Definition flip (at_ : nat) (buf : bytes) : bytes :=
  alter (fun byte => Z_byte (Z.lxor (byte_Z byte) 0xFF)) at_ buf.

Section tests.
Context `{Xxh3}.

Definition checksum_round_trips : test :=
  let buf := replicate 4096 (Z_byte 0xAB) in
  buf ← unwrap (stamp_checksum buf);
  assert (is_ret (verify_checksum buf)).

Definition checksum_detects_flipped_byte : test :=
  let buf := replicate 4096 (Z_byte 0xAB) in
  buf ← unwrap (stamp_checksum buf);
  let buf := flip 10 buf in
  assert (negb (is_ret (verify_checksum buf))).

Definition all : list test :=
  [page_size_accepts_all_locked_values; page_size_rejects_non_power_of_two; page_size_rejects_below_minimum;
   page_size_rejects_above_maximum; default_is_4096; max_local_matches_decision_2_formula;
   checksum_round_trips; checksum_detects_flipped_byte].
End tests.
End PageTests.

(** ** row.rs *)
Module RowTests.

Definition is_invalid_row_encoding (e : PinaxError) : bool :=
  match e with Fatal (InvalidRowEncoding _) => true | _ => false end.

(** The row that encoding and decoding give back. *)
Definition roundtrip (row : Row) : outcome failure Row :=
  encoded ← unwrap (encode row 1);
  unwrap (decode encoded).

Definition round_trips_every_type : test :=
  real ← unwrap (Values.real_try_from 0x400C000000000000);
  let row := row_new [VNull; VInteger (-7); VReal real; VText (str_bytes "hello"); VBlob (Z_byte <$> [1; 2; 3]);
    VBoolean true; VDatetime (Values.datetime_from 42)] in
  decoded ← roundtrip row;
  assert (row_eq row decoded).

Definition round_trips_empty_row : test :=
  let row := row_new [] in
  decoded ← roundtrip row;
  assert (row_eq row decoded).

Definition round_trips_empty_text_and_blob : test :=
  let row := row_new [VText []; VBlob []] in
  decoded ← roundtrip row;
  assert (row_eq row decoded).

Definition round_trips_large_text : test :=
  let text := replicate (Z.to_nat 10000) (Z_byte 0x78) in
  let row := row_new [VText text] in
  decoded ← roundtrip row;
  assert (row_eq (row_values decoded) [VText text]).

Definition decode_rejects_unrecognized_tag : test :=
  let buf := Z_byte <$> [0; 0; 0; 1; 0xFF] in
  err ← unwrap_err (decode buf);
  assert (is_invalid_row_encoding err).

Definition decode_rejects_invalid_utf8 : test :=
  let buf := Z_byte <$> [0; 0; 0; 1; TAG_TEXT] in
  let buf := buf ++ be_bytes 4 2 in
  let buf := buf ++ (Z_byte <$> [0xFF; 0xFE]) in
  err ← unwrap_err (decode buf);
  assert (is_invalid_row_encoding err).

Definition values_accessor_matches_constructor : test :=
  let row := row_new [VInteger 1] in
  assert (row_eq (row_values row) [VInteger 1]).

Definition all : list test :=
  [round_trips_every_type; round_trips_empty_row; round_trips_empty_text_and_blob; round_trips_large_text;
   decode_rejects_unrecognized_tag; decode_rejects_invalid_utf8; values_accessor_matches_constructor].
End RowTests.

(** ** pager.rs *)
Module PagerTests.

Abbreviation fs_test := (M FileSystem failure unit).

(** [dir.path().join("db.pinax")] *)
Definition db_path : string := "db.pinax".

Definition is_corruption (e : PinaxError) : bool := match e with Fatal (Corruption _ _ _) => true | _ => false end.

(** [byte[0] ^= 0xFF] at an offset of a file *)
Definition flip_byte_at (offset : Z) : IO unit :=
  byte ← read_exact_at 1 offset;
  write_all_at (PageTests.flip 0 byte) offset.

(** What is done to the file by opening it at its path. *)
Definition corrupt {A} (path : string) (m : IO A) : fs_test := fun fs =>
  match open_existing path fs with
  | Ret f => let '(o, f) := m f in (_ ← unwrap o; Ret tt, close path f fs)
  | o => (_ ← unwrap o; Ret tt, fs)
  end.

Section tests.
Context `{Xxh3} `{BuildProfile}.

Definition create_then_open_round_trips_empty_state : fs_test :=
  pager ← expect (Pager.create db_path DEFAULT);
  check (root_page_id pager =? EMPTY_TREE_ROOT) ;;
  check (page_count pager =? FIRST_DATA_PAGE_ID) ;;
  drop_pager pager ;;
  reopened ← open_file (Pager.open db_path);
  check (page_bytes (page_size reopened) =? 4096) ;;
  check (root_page_id reopened =? EMPTY_TREE_ROOT).

Definition create_refuses_existing_file : fs_test :=
  pager ← expect (Pager.create db_path DEFAULT);
  drop_pager pager ;;
  err ← expect_err (Pager.create db_path DEFAULT);
  check (match err with Permanent (AlreadyExists _) => true | _ => false end).

Definition open_missing_file_is_io_error : fs_test :=
  err ← open_file_err (Pager.open "missing.pinax");
  check (match err with Fatal (Io _ _) => true | _ => false end).

Definition commit_persists_new_root_and_survives_reopen : fs_test :=
  pager ← expect (Pager.create db_path DEFAULT);
  '(_, pager) ← call_on pager (Pager.commit FIRST_DATA_PAGE_ID (FIRST_DATA_PAGE_ID + 1));
  check (root_page_id pager =? FIRST_DATA_PAGE_ID) ;;
  drop_pager pager ;;
  reopened ← open_file (Pager.open db_path);
  check (root_page_id reopened =? FIRST_DATA_PAGE_ID) ;;
  check (page_count reopened =? FIRST_DATA_PAGE_ID + 1).

Definition commit_alternates_meta_slots : fs_test :=
  pager ← expect (Pager.create db_path DEFAULT);
  check (active_slot pager =? 0) ;;
  '(_, pager) ← call_on pager (Pager.commit EMPTY_TREE_ROOT FIRST_DATA_PAGE_ID);
  check (active_slot pager =? 1) ;;
  '(_, pager) ← call_on pager (Pager.commit EMPTY_TREE_ROOT FIRST_DATA_PAGE_ID);
  check (active_slot pager =? 0).

Definition crash_before_commit_leaves_prior_state_on_reopen : fs_test :=
  pager ← expect (Pager.create db_path DEFAULT);
  let orphan := replicate (Z.to_nat (bytes_usize (page_size pager))) (Z_byte 0xAA) in
  '(_, pager) ← call_on pager (write_data_page FIRST_DATA_PAGE_ID orphan);
  drop_pager pager ;;
  reopened ← open_file (Pager.open db_path);
  check (root_page_id reopened =? EMPTY_TREE_ROOT) ;;
  check (page_count reopened =? FIRST_DATA_PAGE_ID).

Definition corrupted_data_page_fails_checksum_on_read : fs_test :=
  pager ← expect (Pager.create db_path DEFAULT);
  let buf := replicate (Z.to_nat (bytes_usize (page_size pager))) (Z_byte 0x11) in
  '(_, pager) ← call_on pager (write_data_page FIRST_DATA_PAGE_ID buf);
  '(_, pager) ← call_on pager (Pager.commit FIRST_DATA_PAGE_ID (FIRST_DATA_PAGE_ID + 1));
  let offset := file_offset pager FIRST_DATA_PAGE_ID in
  '(_, pager) ← call_on pager (on_file (flip_byte_at offset));
  '(err, pager) ← call_on_err pager (read_data_page FIRST_DATA_PAGE_ID);
  check (is_corruption err).

Definition corrupted_active_meta_slot_falls_back_to_prior_slot : fs_test :=
  pager ← expect (Pager.create db_path DEFAULT);
  '(_, pager) ← call_on pager (Pager.commit FIRST_DATA_PAGE_ID (FIRST_DATA_PAGE_ID + 1));
  drop_pager pager ;;
  corrupt db_path (flip_byte_at META_SLOT_LEN) ;;
  reopened ← open_file (Pager.open db_path);
  check (root_page_id reopened =? EMPTY_TREE_ROOT) ;;
  check (txn_id reopened =? 0).

Definition both_meta_slots_corrupted_is_fatal : fs_test :=
  pager ← expect (Pager.create db_path DEFAULT);
  drop_pager pager ;;
  let zeros := zeros (default 8192 (try_usize META_REGION_LEN)) in
  corrupt db_path (write_all_at zeros 0) ;;
  err ← open_file_err (Pager.open db_path);
  check (match err with Fatal (NoValidMetaPage _) => true | _ => false end).

Definition expect_page_type_accepts_match_and_rejects_mismatch : test :=
  let buf := zeros 16 in
  buf ← unwrap (write_u8 buf 0 PAGE_TYPE_LEAF);
  unwrap (expect_page_type 2 buf PAGE_TYPE_LEAF "leaf") ;;
  err ← unwrap_err (expect_page_type 2 buf PAGE_TYPE_INTERIOR "interior");
  assert (match err with Fatal (UnexpectedPageType _ _ _) => true | _ => false end).

Definition all : list test :=
  expect_page_type_accepts_match_and_rejects_mismatch ::
  (run_in tempdir <$>
   [create_then_open_round_trips_empty_state; create_refuses_existing_file; open_missing_file_is_io_error;
    commit_persists_new_root_and_survives_reopen; commit_alternates_meta_slots;
    crash_before_commit_leaves_prior_state_on_reopen; corrupted_data_page_fails_checksum_on_read;
    corrupted_active_meta_slot_falls_back_to_prior_slot; both_meta_slots_corrupted_is_fatal]).
End tests.
End PagerTests.

(** ** buffer_pool.rs *)
Module PoolTests.
Import PagerTests.

Section tests.
Context `{Xxh3} `{BuildProfile} `{HashOrder}.

Definition pool_with_capacity (capacity : Z) : M FileSystem failure BufferPool :=
  pager ← expect (Pager.create db_path DEFAULT);
  lift (unwrap (BufferPool.new pager capacity)).

(** [vec![0u8; page_size]] with [x] for its first byte *)
Definition page_of (first : Z) (pool : BufferPool) : bytes :=
  alter (fun _ => Z_byte first) 0%nat (zeros (bytes_usize (page_size (pager pool)))).

Definition first_is (x : Z) (buf : bytes) : bool := bool_decide (head buf = Some (Z_byte x)).

Definition zero_capacity_is_rejected : fs_test :=
  pager ← expect (Pager.create db_path DEFAULT);
  err ← lift (unwrap_err (BufferPool.new pager 0));
  check (match err with Permanent InvalidBufferPoolCapacity => true | _ => false end).

Definition put_then_get_round_trips_without_touching_disk : fs_test :=
  pool ← pool_with_capacity 4;
  '(id, pool) ← call_on pool allocate_page_id;
  let buf := replicate (Z.to_nat (bytes_usize (page_size (pager pool)))) (Z_byte 7) in
  '(_, pool) ← call_on pool (put_new id buf);
  '(got, pool) ← call_on pool (get id);
  check (bool_decide (head got = head buf)).

Definition CAPACITY := 2.
Definition PAGE_COUNT : nat := 5.

(** [(0..n).map(|_| pool.allocate_page_id()).collect()] *)
Fixpoint allocate_ids (n : nat) : M BufferPool PinaxError (list Z) :=
  match n with
  | O => mret []
  | S n => id ← allocate_page_id; ids ← allocate_ids n; mret (id :: ids)
  end.

(** [pool.pager.read_data_page(id)] of each *)
Fixpoint read_all_data_pages (ids : list Z) : M BufferPool PinaxError (list bytes) :=
  match ids with
  | [] => mret []
  | id :: ids => buf ← on_pager (read_data_page id); bufs ← read_all_data_pages ids; mret (buf :: bufs)
  end.

Definition eviction_flushes_dirty_pages_to_disk : fs_test :=
  pool ← pool_with_capacity CAPACITY;
  '(ids, pool) ← call_on pool (allocate_ids PAGE_COUNT);
  '(_, pool) ← call_on pool (for_each ids (fun id => put_new id (page_of 1 pool)));
  let evicted := take (PAGE_COUNT - Z.to_nat CAPACITY) ids in
  '(read_back, pool) ← call_on pool (read_all_data_pages evicted);
  check (forallb (first_is 1) read_back).

Definition get_reads_through_on_cache_miss : fs_test :=
  pool ← pool_with_capacity 1;
  '(id, pool) ← call_on pool allocate_page_id;
  '(_, pool) ← call_on pool (put_new id (page_of 9 pool));
  '(other, pool) ← call_on pool allocate_page_id;
  '(_, pool) ← call_on pool (put_new other (page_of 0 pool));
  '(got, pool) ← call_on pool (get id);
  check (first_is 9 got).

(** The second handle is on the file of the pool. *)
Definition corrupted_page_surfaces_on_get : fs_test :=
  pool ← pool_with_capacity 1;
  '(id, pool) ← call_on pool allocate_page_id;
  '(_, pool) ← call_on pool (put_new id (page_of 0 pool));
  '(_, pool) ← call_on pool flush_all_dirty;
  '(other, pool) ← call_on pool allocate_page_id;
  '(_, pool) ← call_on pool (put_new other (page_of 0 pool));
  let offset := META_REGION_LEN + (id - FIRST_DATA_PAGE_ID) * page_bytes (page_size (pager pool)) in
  '(_, pool) ← call_on pool (on_pager (on_file (flip_byte_at offset)));
  '(err, pool) ← call_on_err pool (get id);
  check (is_corruption err).

Definition allocate_page_id_is_monotonic_and_never_repeats : fs_test :=
  pool ← pool_with_capacity 4;
  '(a, pool) ← call_on pool allocate_page_id;
  '(b, pool) ← call_on pool allocate_page_id;
  '(c, pool) ← call_on pool allocate_page_id;
  check ((a <? b) && (b <? c)).

Definition commit_persists_new_root_across_reopen : fs_test :=
  pool ← pool_with_capacity 4;
  '(id, pool) ← call_on pool allocate_page_id;
  let buf := replicate (Z.to_nat (bytes_usize (page_size (pager pool)))) (Z_byte 5) in
  '(_, pool) ← call_on pool (put_new id buf);
  '(_, pool) ← call_on pool (commit id);
  drop_pool pool ;;
  reopened ← open_file (Pager.open db_path);
  check (root_page_id reopened =? id).

Definition evict_one_on_empty_pool_is_reported_not_panicked : fs_test :=
  pool ← pool_with_capacity 1;
  '(err, pool) ← call_on_err pool evict_one;
  check (match err with Fatal PoolInvariantViolated => true | _ => false end).

Definition all : list test :=
  run_in tempdir <$>
  [zero_capacity_is_rejected; put_then_get_round_trips_without_touching_disk; eviction_flushes_dirty_pages_to_disk;
   get_reads_through_on_cache_miss; corrupted_page_surfaces_on_get; allocate_page_id_is_monotonic_and_never_repeats;
   commit_persists_new_root_across_reopen; evict_one_on_empty_pool_is_reported_not_panicked].
End tests.
End PoolTests.

(** ** Every test passes *)

#[local] Ltac run_tests := repeat (apply Forall_cons; split; [vm_compute; reflexivity|]); constructor.

(** Every unit test below the tree passes, with the sum of the bytes for a hash, in
    both builds: accessors, page sizes, checksums and flipped bytes, rows, error texts,
    the pager with its meta slots torn or zeroed, the pool evicting and reading through. *)
Theorem pinax_tests_pass (checks : bool) :
  let _ := sum_xxh3 in let _ := Build_BuildProfile checks in let _ := elements_order in let _ := plain_format in
  Forall passes (ErrorTests.all ++ CodecTests.all ++ PageTests.all ++ RowTests.all ++ PagerTests.all ++ PoolTests.all).
Proof. unfold passes. run_tests. Qed.
