(* ===== verification/TreeTests.v ===== *)
(** * The unit tests of the tree and of the database

    The modules [tests] of [btree/mod.rs], [btree/mutate.rs] and [database.rs]. Most are
    scripts: calls, each with what the test asserts of its answer, a loop over keys being
    a list of calls. *)

From stdpp Require Import pretty sorting.
From S2P Require Import Prelude Errors Codec Lexis Row Page Disk Pager PagerSpec PageStore BufferPool OverflowSpec SplitSpec.
From S2P Require Import BTreeSpec Layout Mutate BTree Database DatabaseSpec Testing Acceptance PinaxTests.

(** A call, and what is asserted of its answer *)
Abbreviation step := (call * (result answer -> bool))%type.

(** [.expect(..)] *)
Definition expected (a : result answer) : bool := is_ret a.
(** [assert_eq!(get(..).expect("get").expect("present"), row)] *)
Definition is_row (row : Row) (a : result answer) : bool :=
  match a with Ret (GotRow (Some got)) => row_eq got row | _ => false end.
(** [assert_eq!(get(..).expect("get"), None)] *)
Definition is_none (a : result answer) : bool :=
  match a with Ret (GotRow None) => true | _ => false end.
(** [assert_eq!(delete(..).expect("delete"), row)] *)
Definition is_removed (row : Row) (a : result answer) : bool :=
  match a with Ret (Removed removed) => row_eq removed row | _ => false end.
(** [assert_eq!(scan(..).expect("scan").map(|(k, _)| k), keys)] *)
Definition has_keys (keys : list Z) (a : result answer) : bool :=
  match a with Ret (Rows rows) => bool_decide (rows.*1 = keys) | _ => false end.
Definition is_key_already_exists (a : result answer) : bool :=
  match a with Throw (Permanent (KeyAlreadyExists _)) => true | _ => false end.
Definition is_key_not_found (a : result answer) : bool :=
  match a with Throw (Permanent (KeyNotFound _)) => true | _ => false end.

(** What is asserted holds of the answers, one for each call. *)
Fixpoint answers_meet (script : list step) (answers : list (result answer)) : bool :=
  match script, answers with
  | [], [] => true
  | (_, asserted) :: script, a :: answers => asserted a && answers_meet script answers
  | _, _ => false
  end.

(** ** btree/mod.rs *)
Module TreeTests.

(** [row] *)
Definition row (n : Z) : Row := row_new [VInteger n; VText (str_bytes ("row-" +:+ pretty n))].

Definition insert_then_get_round_trips : list step :=
  [(CallInsert 1 (row 1), expected); (CallGet 1, is_row (row 1))].

Definition get_missing_key_is_none : list step := [(CallGet 42, is_none)].

Definition insert_duplicate_key_errors : list step :=
  [(CallInsert 1 (row 1), expected); (CallInsert 1 (row 2), is_key_already_exists)].

Definition update_replaces_row : list step :=
  [(CallInsert 1 (row 1), expected); (CallUpdate 1 (row 99), expected); (CallGet 1, is_row (row 99))].

Definition update_missing_key_errors : list step := [(CallUpdate 1 (row 1), is_key_not_found)].

Definition delete_removes_and_returns_row : list step :=
  [(CallInsert 1 (row 1), expected); (CallDelete 1, is_removed (row 1)); (CallGet 1, is_none)].

Definition delete_missing_key_errors : list step := [(CallDelete 1, is_key_not_found)].

(** The loops [for i in keys { .. }] *)
Definition insert_all (keys : list Z) : list step := (fun k => (CallInsert k (row k), expected)) <$> keys.
Definition get_all (keys : list Z) : list step := (fun k => (CallGet k, is_row (row k))) <$> keys.
Definition get_none (keys : list Z) : list step := (fun k => (CallGet k, is_none)) <$> keys.
Definition delete_all (keys : list Z) : list step := (fun k => (CallDelete k, expected)) <$> keys.

Definition many_inserts_force_splits_and_all_keys_remain_readable : list step :=
  insert_all (range 0 500) ++ get_all (range 0 500).

Definition keys : list Z := [50; 10; 90; 30; 70; 20; 80; 40; 60; 0].

Definition insert_out_of_order_keys_stay_sorted_and_readable : list step :=
  insert_all keys ++ get_all keys ++ [(CallScan, has_keys (merge_sort Z.le keys))].

Definition extreme_keys : list Z := [i64_min; -1; 0; 1; i64_max].

Definition negative_and_extreme_keys_round_trip : list step := insert_all extreme_keys ++ get_all extreme_keys.

Definition big_row : Row := row_new [VText (replicate (Z.to_nat 20000) (Z_byte 0x78))].

Definition large_value_spills_to_overflow_and_round_trips : list step :=
  [(CallInsert 1 big_row, expected); (CallGet 1, is_row big_row)].

Definition delete_then_reinsert_same_key_works : list step :=
  [(CallInsert 1 (row 1), expected); (CallDelete 1, expected); (CallInsert 1 (row 2), expected);
   (CallGet 1, is_row (row 2))].

Definition delete_most_of_a_multi_level_tree_leaves_remaining_keys_readable : list step :=
  insert_all (range 0 300) ++ delete_all (range 0 250) ++ get_none (range 0 250) ++ get_all (range 250 50).

(** Dropping the pool, then a new pager and a new pool *)
Definition insert_survives_reopen : list step :=
  insert_all (range 0 20) ++ (CallReopen, expected) :: get_all (range 0 20).

(** The scripts, each with the capacity of its pool *)
Definition all : list (Z * list step) :=
  [(64, insert_then_get_round_trips); (64, get_missing_key_is_none); (64, insert_duplicate_key_errors);
   (64, update_replaces_row); (64, update_missing_key_errors); (64, delete_removes_and_returns_row);
   (64, delete_missing_key_errors); (1024, many_inserts_force_splits_and_all_keys_remain_readable);
   (1024, insert_out_of_order_keys_stay_sorted_and_readable); (64, negative_and_extreme_keys_round_trip);
   (64, delete_then_reinsert_same_key_works);
   (1024, delete_most_of_a_multi_level_tree_leaves_remaining_keys_readable); (64, insert_survives_reopen)].

Section tests.
Context `{Xxh3} `{BuildProfile} `{HashOrder}.

(** [pool] *)
Definition pool (capacity : Z) : M FileSystem failure BufferPool :=
  pager ← expect (Pager.create PagerTests.db_path DEFAULT);
  lift (unwrap (BufferPool.new pager capacity)).

(** A call on a pool, or a new pager and pool after a drop *)
Definition tree_call (fuel : nat) (capacity : Z) (c : call) : M (BufferPool * FileSystem) PinaxError answer := fun '(s, fs) =>
  let on_tree {A} (m : M BufferPool PinaxError A) (f : A -> answer) :=
    let '(o, s) := m s in (a ← o; Ret (f a), (s, fs)) in
  match c with
  | CallInsert k row => on_tree (BTree.insert fuel k row) (fun _ => Done)
  | CallGet k => on_tree (BTree.get fuel k) GotRow
  | CallUpdate k row => on_tree (BTree.update fuel k row) (fun _ => Done)
  | CallDelete k => on_tree (BTree.delete fuel k) (fun '(_, row) => Removed row)
  | CallScan => on_tree (BTree.scan fuel) Rows
  | CallReopen =>
    let dropped := close (path (pager s)) (file (pager s)) fs in
    match p ← Pager.open PagerTests.db_path dropped; BufferPool.new p capacity with
    | Ret s => (Ret Done, (s, dropped))
    | o => (_ ← o; Ret Done, (s, fs))
    end
  end.

(** The calls of a script, with its assertions *)
Fixpoint run_script (fuel : nat) (capacity : Z) (script : list step) : M (BufferPool * FileSystem) failure unit :=
  match script with
  | [] => mret tt
  | (c, asserted) :: script => fun s =>
    let '(a, s) := tree_call fuel capacity c s in
    (check (asserted a) ;; run_script fuel capacity script) s
  end.

Definition script_test (fuel : nat) (capacity : Z) (script : list step) : test :=
  run_in tempdir (pool ← pool capacity; (fun fs => ((run_script fuel capacity script (pool, fs)).1, fs)) : M _ _ _).

(** The calls on a pool are those on the database around it. *)
Lemma tree_call_code fuel capacity c s fs :
  code_call fuel PagerTests.db_path capacity c (mkWorld (mkDatabase s) fs) =
    let '(a, (s, fs)) := tree_call fuel capacity c (s, fs) in (a, mkWorld (mkDatabase s) fs).
Proof.
  destruct c as [k r|k|k r|k| |]; cbn [code_call tree_call]; unfold answer_with, on_db, reopen, open_on, drop_database;
    cbn [db disk Database.pool];
    unfold Database.insert, Database.get, Database.update, Database.delete, Database.scan, on_pool, zoom, open_with_capacity;
    unfold mbind, mret, M_bind, M_ret, outcome_bind; cbn [Database.pool];
    repeat case_match; simplify_eq/=; done.
Qed.

Lemma run_script_code fuel capacity script : forall s fs,
  (run_script fuel capacity script (s, fs)).1 =
    assert (answers_meet script (code_calls fuel PagerTests.db_path capacity script.*1 (mkWorld (mkDatabase s) fs))).
Proof.
  induction script as [|[c asserted] script IH]; intros s fs; [done|].
  rewrite fmap_cons. cbn [run_script code_calls fst]. rewrite tree_call_code.
  destruct (tree_call fuel capacity c (s, fs)) as [a [s' fs']]. cbn [answers_meet].
  unfold check, mbind at 1, M_bind, lift, assert at 1, ensure. destruct (asserted a); [|done].
  cbn [andb]. apply IH.
Qed.

(** A script passes when the calls on a new database meet its assertions. *)
Lemma answered_script_passes fuel capacity script w :
  create_with_capacity PagerTests.db_path DEFAULT capacity tempdir = (Ret (db w), disk w) ->
  answers_meet script (code_calls fuel PagerTests.db_path capacity script.*1 w) = true ->
  passes (script_test fuel capacity script).
Proof.
  intros Hc Hmeets. apply bind_ret_inv in Hc as (p & fs & Hp & Hc).
  apply bind_ret_inv in Hc as (s & fs' & Hs & Hc). apply lift_ret_inv in Hs as [Hs ->].
  injection Hc as Hdb Hdisk. unfold passes, script_test, run_in, pool.
  unfold expect, mbind, M_bind, lift. rewrite Hp. cbn [unwrap map_err]. rewrite Hs. cbn [unwrap map_err fst].
  rewrite run_script_code, Hdb, Hdisk. destruct w as [d f]. cbn [db disk]. unfold db, disk. by rewrite Hmeets.
Qed.

(** A script on small rows passes when a map meets its assertions. *)
Lemma script_test_passes fuel capacity script :
  1 <= capacity -> 8001 < Z.of_nat fuel ->
  forallb sample_call_ok script.*1 && (len script.*1 <=? 8001) && answers_meet script (map_calls script.*1 ∅) = true ->
  passes (script_test fuel capacity script).
Proof.
  intros Hcap Hfuel [Hok Hmeets]%andb_prop.
  destruct (small_rows_answers PagerTests.db_path fuel tempdir capacity _ Hcap eq_refl eq_refl Hfuel Hok) as (w & Hc & Hrun).
  by apply (answered_script_passes _ _ _ w); [|rewrite Hrun].
Qed.
End tests.
End TreeTests.

(** ** btree/mutate.rs *)
Module MutateTests.
Section tests.
Context `{Xxh3} `{BuildProfile} `{HashOrder}.

Definition pool (capacity : Z) : M FileSystem failure BufferPool := TreeTests.pool capacity.

Definition zero_page (s : BufferPool) : bytes := zeros (bytes_usize (pool_page_size s)).

Definition collapse_root_if_needed_collapses_a_zero_key_interior_root : M FileSystem failure unit :=
  pool ← pool 16;
  '(leaf_id, pool) ← call_on pool allocate_page_id;
  leaf_buf ← lift (unwrap (init_leaf (zero_page pool)));
  '(_, pool) ← call_on pool (put_new leaf_id leaf_buf);
  interior_buf ← lift (unwrap (init_interior (zero_page pool) leaf_id));
  '(interior_id, pool) ← call_on pool allocate_page_id;
  '(_, pool) ← call_on pool (put_new interior_id interior_buf);
  '(collapsed, _) ← call_on pool (collapse_root_if_needed interior_id);
  check (collapsed =? leaf_id).

Definition collapse_root_if_needed_leaves_a_leaf_root_unchanged : M FileSystem failure unit :=
  pool ← pool 16;
  '(leaf_id, pool) ← call_on pool allocate_page_id;
  leaf_buf ← lift (unwrap (init_leaf (zero_page pool)));
  '(_, pool) ← call_on pool (put_new leaf_id leaf_buf);
  '(result, _) ← call_on pool (collapse_root_if_needed leaf_id);
  check (result =? leaf_id).

Definition all : list test :=
  run_in tempdir <$>
  [collapse_root_if_needed_collapses_a_zero_key_interior_root; collapse_root_if_needed_leaves_a_leaf_root_unchanged].
End tests.
End MutateTests.

(** ** database.rs *)
Module DatabaseTests.

(** [row] *)
Definition row (n : Z) : Row := row_new [VInteger n].

Definition full_crud_cycle : list step :=
  [(CallInsert 1 (row 1), expected); (CallGet 1, is_row (row 1));
   (CallUpdate 1 (row 2), expected); (CallGet 1, is_row (row 2));
   (CallDelete 1, is_removed (row 2)); (CallGet 1, is_none)].

Definition create_then_open_reads_back_inserted_rows : list step :=
  [(CallInsert 1 (row 1), expected); (CallInsert 2 (row 2), expected); (CallReopen, expected);
   (CallGet 1, is_row (row 1)); (CallGet 2, is_row (row 2))].

Definition scan_returns_rows_in_ascending_key_order : list step :=
  ((fun k => (CallInsert k (row k), expected)) <$> [5; 1; 3; 2; 4]) ++ [(CallScan, has_keys [1; 2; 3; 4; 5])].

Section tests.
Context `{Xxh3} `{BuildProfile} `{HashOrder}.

Definition open_missing_file_errors : test := assert (negb (is_ret (Database.open "missing.pinax" tempdir))).

(** [Database::create], then the script *)
Definition script_test (fuel : nat) (script : list step) : test :=
  match create PagerTests.db_path DEFAULT tempdir with
  | (o, fs) =>
    d ← unwrap o;
    assert (answers_meet script (code_calls fuel PagerTests.db_path DEFAULT_BUFFER_POOL_CAPACITY script.*1 (mkWorld d fs)))
  end.

Lemma database_script_passes fuel script :
  8001 < Z.of_nat fuel ->
  forallb sample_call_ok script.*1 && (len script.*1 <=? 8001) && answers_meet script (map_calls script.*1 ∅) = true ->
  passes (script_test fuel script).
Proof.
  intros Hfuel [Hok Hmeets]%andb_prop.
  destruct (small_rows_answers PagerTests.db_path fuel tempdir DEFAULT_BUFFER_POOL_CAPACITY _ ltac:(done) eq_refl eq_refl Hfuel Hok)
    as (w & Hc & Hrun).
  unfold script_test, create. rewrite Hc. unfold passes. cbn [unwrap map_err mbind outcome_bind].
  destruct w as [d f]. unfold db, disk. by rewrite Hrun, Hmeets.
Qed.
End tests.
End DatabaseTests.

(** ** Every test passes *)
Section tests.
Context `{Xxh3} `{BuildProfile} `{HashOrder}.
Context (fuel : nat).

(** The row of 20000 bytes *)
Lemma big_row_test_passes :
  (10 < fuel)%nat -> passes (TreeTests.script_test fuel 64 TreeTests.large_value_spills_to_overflow_and_round_trips).
Proof.
  intros Hfuel.
  set (script := TreeTests.large_value_spills_to_overflow_and_round_trips).
  destruct (new_database_answers DEFAULT (spilling_rows _ DEFAULT_wf) PagerTests.db_path 64 tempdir script.*1 fuel)
    as (w & Hc & Hrun); [exact DEFAULT_wf|done|done|done| |simpl; lia|vm_compute; discriminate|vm_compute; discriminate|].
  - repeat apply Forall_cons_2; [|vm_compute; split; discriminate|apply Forall_nil_2].
    split; [vm_compute; split; discriminate|]. apply in_spilling_rows; [|vm_compute; discriminate].
    apply (bool_decide_unpack _). vm_compute. reflexivity.
  - apply (TreeTests.answered_script_passes _ _ _ w Hc). rewrite Hrun. vm_compute. reflexivity.
Qed.

(** Every unit test of the tree and of the database passes, for any hash function, any
    order of iteration and either build: splits under 500 rows, deletion of most of a tree,
    extreme keys, a row in overflow pages, reopening, scans in order, errors. *)
Theorem tree_tests_pass :
  8001 < Z.of_nat fuel ->
  Forall (fun '(capacity, script) => passes (TreeTests.script_test fuel capacity script)) TreeTests.all /\
  passes (TreeTests.script_test fuel 64 TreeTests.large_value_spills_to_overflow_and_round_trips) /\
  Forall passes MutateTests.all /\
  Forall (fun script => passes (DatabaseTests.script_test fuel script))
    [DatabaseTests.full_crud_cycle; DatabaseTests.create_then_open_reads_back_inserted_rows;
     DatabaseTests.scan_returns_rows_in_ascending_key_order] /\
  passes DatabaseTests.open_missing_file_errors.
Proof.
  intros Hfuel. split_and!.
  - repeat (apply Forall_cons; split; [apply TreeTests.script_test_passes; [done|exact Hfuel|vm_compute; reflexivity]|]).
    apply Forall_nil_2.
  - apply big_row_test_passes. lia.
  - repeat (apply Forall_cons; split; [vm_compute; reflexivity|]). constructor.
  - repeat (apply Forall_cons; split; [apply DatabaseTests.database_script_passes; [exact Hfuel|vm_compute; reflexivity]|]).
    apply Forall_nil_2.
  - vm_compute. reflexivity.
Qed.
End tests.
