(* ===== verification/UnitTests.v ===== *)
(** * Every unit test of the repository

    The tests of LexisTests, PinaxTests and TreeTests together. *)

From S2P Require Import Prelude Errors ErrorTexts Codec Lexis Row Page Disk Pager BufferPool Testing.
From S2P Require Import LexisTests PinaxTests TreeTests.

(** Every unit test passes, on the inputs it runs. Those of [lexis], with its property tests on
    every value; those of pinax below the tree with the sum of the bytes for a hash, in both
    builds: accessors, page sizes, checksums and flipped bytes, rows, error texts, the pager
    with its meta slots torn or zeroed, the pool evicting and reading through; those of the
    tree and of the database for any hash function, any order of iteration and either build:
    splits under 500 rows, deletion of most of a tree, extreme keys, a row in overflow
    pages, reopening, scans in order, errors. *)
Theorem unit_tests_pass :
  (Forall passes (TypesTests.all ++ IdentifierTests.all ++ ValueTests.all ++ SchemaTests.all ++ AstTests.all) /\
   (forall l r, passes (TypesTests.check_comparable_is_symmetric l r)) /\
   (forall t, passes (TypesTests.check_comparable_always_accepts_identical_types t)) /\
   (forall raw, passes (ValueTests.real_value_accepts_iff_not_nan raw)) /\
   (forall raw, is_nan raw = false -> passes (ValueTests.real_value_round_trips_non_nan raw)) /\
   (forall raw, passes (ValueTests.datetime_value_round_trips_any_i64 raw))) /\
  (forall checks,
     let _ := sum_xxh3 in let _ := Build_BuildProfile checks in let _ := elements_order in let _ := plain_format in
     Forall passes
       (ErrorTests.all ++ CodecTests.all ++ PageTests.all ++ RowTests.all ++ PagerTests.all ++ PoolTests.all)) /\
  (forall `{Xxh3} `{BuildProfile} `{HashOrder} fuel, 8001 < Z.of_nat fuel ->
     Forall (fun '(capacity, script) => passes (TreeTests.script_test fuel capacity script)) TreeTests.all /\
     passes (TreeTests.script_test fuel 64 TreeTests.large_value_spills_to_overflow_and_round_trips) /\
     Forall passes MutateTests.all /\
     Forall (fun script => passes (DatabaseTests.script_test fuel script))
       [DatabaseTests.full_crud_cycle; DatabaseTests.create_then_open_reads_back_inserted_rows;
        DatabaseTests.scan_returns_rows_in_ascending_key_order] /\
     passes DatabaseTests.open_missing_file_errors).
Proof.
  split; [|split].
  - exact lexis_tests_pass.
  - exact pinax_tests_pass.
  - intros ? ? ? fuel Hfuel. by apply tree_tests_pass.
Qed.

Lemma unit_tests_pass_witness :
  passes (ValueTests.real_value_round_trips_non_nan ValueTests.f64_3_5) /\
  passes (@TreeTests.script_test sum_xxh3 (Build_BuildProfile true) elements_order (Z.to_nat 8002) 64
    TreeTests.large_value_spills_to_overflow_and_round_trips).
Proof.
  destruct unit_tests_pass as ((_ & _ & _ & _ & Hnan & _) & _ & Htree). split.
  - by apply Hnan.
  - refine (proj1 (proj2 (Htree sum_xxh3 (Build_BuildProfile true) elements_order (Z.to_nat 8002) _))).
    rewrite Z2Nat.id by lia. lia.
Defined.
