(* ===== verification/RotSpec.v ===== *)
(** * Pages that the disk altered

    A file whose pages were changed behind the program's back: a read answers what it
    answers on the file as it was, or reports that a page does not verify or is not
    there. The runs are compared as in Guarded, the calm state being the one with the bytes
    as they were. *)

From S2P Require Import Prelude Runs Errors Codec Lexis Row Page Disk FileSpec Pager PagerSpec PageStore PageStoreSpec.
From S2P Require Import Guarded BufferPool PoolSpec Layout Overflow OverflowSpec Mutate LeafSpec TreeSpec SplitSpec.
From S2P Require Import BTree GuardedReads BTreeSpec Database DatabaseSpec CrashSpec.

(** The file with other bytes. *)
Definition alter_file (D : bytes) (f : File) : File := mkFile D (durable f) (pending f) (faults f) (asked f).
Definition alter_pool (D : bytes) (s : BufferPool) : BufferPool :=
  set_pager (set_file (alter_file D (file (pager s))) (pager s)) s.
Definition altered (D : bytes) (d : Database) : Database := mkDatabase (alter_pool D (pool d)).

(** The errors that report an altered page. *)
Definition rot_error (e : PinaxError) : Prop :=
  (exists id expected actual, e = Fatal (Corruption id expected actual)) \/
  (exists path, e = Fatal (Io path UnexpectedEof)).

Section rot.
Context `{Xxh3} `{BuildProfile} `{HashOrder}.

(** A page of [D'] that verifies is the page of [D] at its place: no altered page has the
    checksum of what it holds by chance. *)
Definition no_forgery (p : Pager) (D D' : bytes) : Prop :=
  forall id b, slice D' (file_offset p id) (ps_bytes (page_size p)) = Some b -> verify_checksum b = Ret tt ->
    slice D (file_offset p id) (ps_bytes (page_size p)) = Some b.

Section guard.
Context (p0 : Pager) (D D' : bytes).
Hypothesis p0_size : page_size_wf (page_size p0).
Hypothesis genuine : no_forgery p0 D D'.

(** A pool over the altered file with nothing to write. *)
Record rotten (s : BufferPool) : Prop := {
  ro_faults : faults (file (pager s)) = [];
  ro_data : data (file (pager s)) = D';
  ro_size : page_size (pager s) = page_size p0;
  ro_dirty : dirty s = ∅;
}.

#[local] Instance Rot_Guard : Guard BufferPool PinaxError := {
  calm := alter_pool D;
  faulty := rot_error;
  sound := rotten;
}.

Lemma rot_modify (g : BufferPool -> BufferPool) :
  (forall s, pager (g s) = pager s /\ dirty (g s) = dirty s) ->
  (forall s p, g (set_pager p s) = set_pager p (g s)) ->
  guarded (modify g) (fun _ => True).
Proof.
  intros Hg Hc. apply guarded_modify. intros s []. destruct (Hg s) as [Hp Hd].
  split; [split; by rewrite ?Hp, ?Hd|]. simpl. unfold alter_pool. rewrite Hc. by rewrite Hp.
Qed.

Ltac cache := apply rot_modify; [done|done].

Lemma rot_evict_one : guarded evict_one (fun _ => True).
Proof.
  unfold evict_one. apply guarded_bind_self; [done|]. intros s [_ _ _ Hd].
  destruct (recency s) as [|id rest]; [by apply guarded_lift|].
  eapply guarded_bind; [cache|]. intros _ _. destruct (entries s !! id) as [buf|]; [|by apply guarded_lift].
  eapply guarded_bind; [cache|]. intros _ _. rewrite Hd. case_bool_decide as Hid; [set_solver|].
  by apply guarded_ret.
Qed.

Lemma rot_evict_loop fuel : guarded (evict_loop fuel) (fun _ => True).
Proof.
  induction fuel as [|fuel IH]; cbn [evict_loop]; (apply guarded_bind_self; [done|]); intros s _;
    (case_match; [|by apply guarded_ret]); [by apply guarded_lift|].
  eapply guarded_bind; [apply rot_evict_one|]. by intros _ _.
Qed.

Lemma rot_insert_cached id buf : guarded (insert_cached id buf false) (fun _ => True).
Proof.
  unfold insert_cached. apply guarded_bind_self; [done|]. intros s _.
  eapply guarded_bind with (Q := fun _ => True).
  { destruct (entries s !! id); [|by apply guarded_ret]. eapply guarded_bind; [cache|]. intros _ _. cache. }
  intros _ _. eapply guarded_bind; [apply rot_evict_loop|]. intros _ _.
  eapply guarded_bind with (Q := fun _ => True); [by apply guarded_ret|]. intros _ _.
  eapply guarded_bind; [cache|]. intros _ _. cache.
Qed.

(** A page read from the altered file is the page as it was, or it is refused. *)
Lemma rot_read_page id : guarded (on_pager (read_data_page id)) (fun _ => True).
Proof.
  intros s Hs. pose proof Hs as [Hf Hd Hps Hdirty].
  assert (Hself : forall s : BufferPool, set_pager (pager s) s = s) by (by intros []).
  assert (Hrun : forall p, faults (file p) = [] -> page_size p = page_size p0 -> read_data_page id p =
    (match slice (data (file p)) (file_offset p0 id) (ps_bytes (page_size p0)) with
     | None => Throw (Fatal (Io (path p) UnexpectedEof))
     | Some b => map_err (fun '(expected, actual) => Fatal (Corruption id expected actual)) (verify_checksum b) ;; Ret b
     end, p)).
  { intros p Hfp Hpsp. rewrite read_data_page_exact by (try rewrite Hpsp; done). unfold file_offset. by rewrite Hpsp. }
  unfold on_pager, zoom. rewrite !Hrun by done. rewrite Hself, Hd.
  change (data (file (pager (calm s)))) with D.
  destruct (slice D' _ _) as [b|] eqn:Hb.
  - destruct (verify_checksum b) as [[]|[e a]|p|] eqn:Hv.
    + pose proof (genuine id b) as Hg. rewrite (Hg Hb Hv), Hv. split; [done|]. by right.
    + split; [done|]. left. eexists. split; [done|]. left. eauto.
    + exfalso. revert Hv. unfold verify_checksum. by case_match.
    + exfalso. revert Hv. unfold verify_checksum. by case_match.
  - split; [done|]. left. eexists. split; [done|]. right. eauto.
Qed.

#[local] Program Instance Rot_GuardedReads : GuardedReads BufferPool := {}.
Next Obligation. done. Qed.
Next Obligation. done. Qed.
Next Obligation.
  intros id. simpl. unfold BufferPool.get. apply guarded_bind_self; [done|]. intros s _.
  destruct (entries s !! id) as [buf|].
  - eapply guarded_bind; [unfold touch; cache|]. intros _ _. by apply guarded_ret.
  - eapply guarded_bind; [apply rot_read_page|]. intros buf _.
    eapply guarded_bind; [apply rot_insert_cached|]. intros _ _. by apply guarded_ret.
Qed.

Lemma rot_get fuel key : guarded (BTree.get fuel key) (fun _ => True).
Proof. apply (get_guarded (H1 := Rot_GuardedReads)). Qed.

Lemma rot_scan fuel : guarded (BTree.scan fuel) (fun _ => True).
Proof. apply (scan_guarded (H1 := Rot_GuardedReads)). Qed.
End guard.

(** A read of the pool, on the altered file. *)
Lemma rotten_run {A} (m : M BufferPool PinaxError A) (d : Database) p0 D' :
  let D := data (file (pager (pool d))) in
  @guarded _ _ _ (Rot_Guard p0 D D') m (fun _ => True) ->
  faults (file (pager (pool d))) = [] -> dirty (pool d) = ∅ -> p0 = pager (pool d) ->
  (exists e, (on_pool m (altered D' d)).1 = Throw e /\ rot_error e) \/
  (on_pool m d).1 = (on_pool m (altered D' d)).1.
Proof.
  intros D Hm Hf Hd ->.
  assert (Hcalm : alter_pool D (alter_pool D' (pool d)) = pool d).
  { unfold D. destruct d as [[[[] ? ? ? ? ? ?] ? ? ? ? ?]]. done. }
  specialize (Hm (alter_pool D' (pool d))). cbn [sound calm Rot_Guard] in Hm. rewrite Hcalm in Hm.
  unfold on_pool, zoom, altered. cbn [pool].
  destruct (m (alter_pool D' (pool d))) as [o s']. destruct Hm as (_ & [(e & -> & He)|[-> _]]);
    [by split|left; by exists e|by right].
Qed.

End rot.

(** ** One byte of the only page, flipped *)
Section examples.
#[local] Instance example_hash : Xxh3 := sum_xxh3.
#[local] Instance example_profile : BuildProfile := Build_BuildProfile true.
#[local] Instance example_order : HashOrder := elements_order.

(** A database of one row, opened again: nothing in memory. *)
Definition one_row_world : world :=
  match create_with_capacity "db" (mkPageSize 4096) 8 (mkFileSystem ∅ []) with
  | (Ret d, fs) => (reopen "db" 8 (code_call 3 "db" 8 torn_call (mkWorld d fs)).2).2
  | _ => no_world
  end.

Definition one_row_bytes : bytes := data (file (pager (pool (db one_row_world)))).
Definition flipped_bytes : bytes := base.alter (fun x => Z_byte (Z.lxor (byte_Z x) 255)) (Z.to_nat 8192) one_row_bytes.

Lemma one_row_serves : exists d, (d <= 2)%nat /\
  serves example_size_class "db" d {[7 := [VInteger 1]]} one_row_world.
Proof.
  destruct (create_serves example_size_class "db" 8 ltac:(lia) (mkFileSystem ∅ []) example_size_wf)
    as (w0 & Hc & Hs0 & Hn0 & Ht0); [reflexivity|reflexivity|].
  destruct (code_call_ok example_size_class "db" 8 ltac:(lia) 0 ∅ w0 3 torn_call Hs0) as (w1 & Hrun & (d1 & Hd1 & Hs1 & Hn1 & Ht1) & _).
  { split; [unfold in_i64, i64_min, i64_max; lia|exact example_small]. }
  { lia. }
  { rewrite Hn0. vm_compute. discriminate. }
  { rewrite Ht0. reflexivity. }
  destruct (code_call_ok example_size_class "db" 8 ltac:(lia) d1 _ w1 3 CallReopen Hs1 I) as (w2 & Hrun2 & (d2 & Hd2 & Hs2 & _) & _).
  { lia. }
  { assert (Hp : call_pages (ps := mkPageSize 4096) 0 torn_call = 3) by (vm_compute; reflexivity).
    rewrite Hp, Hn0 in Hn1. simpl in *. unfold FIRST_DATA_PAGE_ID, u32_max in *. lia. }
  { rewrite Ht0 in Ht1. unfold u64_max. lia. }
  exists d2. split; [lia|]. unfold one_row_world. rewrite Hc. destruct w0 as [db0 disk0]. cbn [db disk] in *.
  rewrite Hrun. cbn [snd]. change (reopen "db" 8 w1) with (code_call 3 "db" 8 CallReopen w1). rewrite Hrun2. exact Hs2.
Qed.

(** The page is the only one, and it does not verify any more. *)
Lemma flipped_genuine : no_forgery (pager (pool (db one_row_world))) one_row_bytes flipped_bytes.
Proof.
  intros id b.
  assert (Hps : page_size (pager (pool (db one_row_world))) = mkPageSize 4096) by (vm_compute; reflexivity).
  assert (Hlen : len flipped_bytes = 12288) by (vm_compute; reflexivity).
  assert (Hno : (b ← slice flipped_bytes 8192 4096; ok (verify_checksum b)) = None) by (vm_compute; reflexivity).
  unfold file_offset, saturating_sub, FIRST_DATA_PAGE_ID, META_REGION_LEN, META_SLOT_LEN. rewrite Hps. cbn [ps_bytes].
  intros Hs Hv. pose proof (slice_bounds _ _ _ _ Hs) as (_ & _ & Hle). rewrite Hlen in Hle. exfalso.
  replace (4096 * 2 + Z.max 0 (id - 2) * 4096) with 8192 in Hs by lia.
  rewrite Hs in Hno. cbn [mbind option_bind] in Hno. rewrite Hv in Hno. discriminate Hno.
Qed.

End examples.
